(* ===== verification/_CoqProject ===== *)
-Q . S2P
Prelude.v
GoMap.v
Varint.v
Header.v
Storage.v
StorageDecode.v
StorageProofs.v
StorageSafety.v
Connection.v
Crypto.v
Ueps.v
KeyDeriv.v
Dispatcher.v
Float64.v
Duration.v
Limits.v
Readers.v
PeerName.v
Peer.v
PeerProofs.v
PeerSelect.v
PeerPersist.v
PeerInstances.v
Identity.v
NodeInstances.v
Controller.v
ConnRace.v
Protocol.v
Session.v
JsonBuffers.v
SessionInstances.v
Transport.v
Admission.v
TransportProofs.v
ConnTable.v
ReadLoop.v
Lifecycle.v
Shutdown.v
TransportInstances.v
Paths.v
Bundle.v
Payloads.v
Worker.v
WorkerProofs.v
Remote.v
RemoteProofs.v
Gather.v
ContentBus.v
BusProofs.v
Api.v
Provider.v
Logger.v
Service.v
AppInstances.v
