(* ===== verification/Prelude.v ===== *)
(** * go-p2p: a verification library (root file)

    The repository is the peer-to-peer layer of a mining network, written in Go
    (src/go).  Its parts, from the wire up:

    - package [levin] (src/go/node/levin): the binary protocol of the CryptoNote
      network: a varint codec, a 33-byte header, a self-describing "portable
      storage" format for nested maps, and framed I/O over a [net.Conn];
    - package [ueps] (src/go/ueps): signed TLV packets, with a builder and a
      verifying reader;
    - package [node] (src/go/node): the node's identity, the registry of known
      peers, the WebSocket transport with its handshake and its table of
      connections, the messages sent over it, the controller that asks other
      nodes, the worker that answers, the bundles it deploys, the dispatcher of
      UEPS packets, and the service that puts a node together;
    - packages [contentbus] (publish and subscribe over the transport), [api]
      (HTTP handlers on the registry) and [logging].

    A controller's operation becomes a [Message], is sealed for the session by
    the transport, read by the other node's read loop, checked, handed to the
    worker, and its reply comes back the same way to the channel of the request.

    ** Files

    - [Prelude] (this file): errors, panics, [Result] and the state-and-result
      monad [SR] in which the operations are written; machine integers, slices
      with their panics, byte orders; tactics, hint databases and the generic
      lemmas.  [GoMap]: nested Go maps.  [Float64], [Duration]: Go's float64 and
      time.Duration.  [Crypto]: SHA-256, HMAC and HKDF-Expand of the Go library,
      executable.  [Paths]: the path functions of the core library.
    - [Varint] (varint.go), [Header] (header.go), [Storage] and [StorageDecode]
      (storage.go; theorems in [StorageProofs] and [StorageSafety]), [Connection] (connection.go; Section [Writers] is the
      concurrent semantics of [writeFrame]).
    - [Ueps] (packet.go and reader.go), [KeyDeriv] (keyderiv.go), [Dispatcher]
      (dispatcher.go).
    - [PeerName] and [Peer] (peer.go): all operations of [PeerRegistry] over a
      [World], the heap of [Peer] objects, the registry record and the file
      system.  [PeerProofs] has the abstract specification and the refinement,
      [PeerSelect] scores and orderings, [PeerPersist] the debounced saver.
    - [Identity] (identity.go, errors.go).
    - [Protocol] (message.go, protocol.go), [Session] (the way of a message
      through bufpool.go, envelope.go and the AEAD of transport.go), [JsonBuffers]
      (raw messages and the rest of bufpool.go), [Payloads] (the payload records
      of message.go).
    - [Limits] (rate limiter and deduplicator of transport.go; [Readers]: the
      deduplicator shared by concurrent read loops), [Transport] (the rest of
      transport.go: connections are objects of a heap, the table maps IDs to
      them), with the handshake theorems in [TransportProofs], the invariant of
      the table under every sequence of operations in [ConnTable], the read loop
      in [ReadLoop], [Start] and the keepalive loop in [Lifecycle].  Where
      goroutines meet: [ConnRace] ([Send], [Close] and [GracefulClose] on one
      connection), [Admission] (overlapping requests in [handleWSUpgrade]),
      [Shutdown] ([Stop] against read loops, keepalives and handshakes).
    - [Controller] (controller.go: [sendRequest] and [handleResponse] as
      interleaved goroutines), [Remote] (the operations built on them), [Worker]
      (worker.go) with [WorkerProofs], and [RemoteProofs], which puts the two
      together; [Gather] (the goroutines of [GetAllStats]).  [Bundle] (bundle.go).
    - [ContentBus] (contentbus/controller.go), its interleavings and theorems in
      [BusProofs]; [Api] (api/handlers.go) and [Provider] (api/provider.go), whose
      theorem [api_described] compares the descriptions with the answers; [Logger]
      (logging/logger.go); [Service] (service.go, p2p.go).
    - [PeerInstances], [NodeInstances], [SessionInstances],
      [TransportInstances], [AppInstances]: implementations of the interfaces
      with proofs of their laws, and the theorems applied to concrete runs.

    Definitions keep the names of the source; a method is a function whose
    state argument is its receiver.  A Go function that returns [core.Result]
    returns [Result]: [Ok], [Fail] with the error, [Panic] with the run-time
    panic the code would raise, or [OutOfFuel].  Machine integers are [Z] with
    the wrap-around written out, byte strings are lists of [Z].  A Go map is a
    [gmap], and its unspecified iteration order a parameter of the operation
    ([Choice], [range]) over which the theorems quantify; a map nested in its
    own value type is an association list taken up to [section_equiv].  What an
    operation takes from outside (clock, random bytes, generated IDs) is its
    [Input].

    ** What the theorems show

    - Codecs: round trips of sections, streams of packets and varints (C1, C3,
      [storage_reencode], [varint_roundtrip]); behaviour on arbitrary bytes: termination, bounds, no
      out-of-range access (C2, C38).  Concurrent writers of one connection are linearizable and cannot
      deadlock (C25, [levin_writers_progress]).
    - Sessions: what is sent arrives, in order and once, at the handler of the
      other end (C4, C13); the handshake: two honest ends agree on identities
      and secret (C8), who gets past the server (C11), and that the server a
      client accepts has the private key (C12); the table of connections under
      sequences of operations (C9); deduplication of messages received one
      after the other refines a window of IDs (C14), and what is left of it under
      overlapping read loops (C18), the rate limit bounds every window of time (C19), and a message
      that is handled was authenticated (C20).
    - Goroutines of the transport: one connection has one writer at a time, is
      closed once (C15), and the calls on it return (C16); by how much overlapping
      requests exceed the limit on connections, which dials do not respect at all (C17); a shutdown ends and leaves
      nothing behind (C10).
    - Remote operations: an operation through a controller and a worker is the
      operation on the worker's managers (C5); the worker answers every request
      once and keeps deployments in their directory (C7); replies reach their
      own request under every interleaving (C34), the only panic is a send on a
      closed channel after a time-out (C35), which can happen
      ([late_response_panics]); the statistics of all peers, asked for in parallel
      by overlapping requests, are the answers of those that answered (C6).  Profile bundles: round trip and tamper detection (C36).
    - Content bus: no panic in any interleaving (C21), delivery in order, once,
      to the right topic (C22), and from one bus to another (C23).
    - UEPS: the reader refines a specification on TLV lists (C26), accepts what
      the builder made (C27) and only what is signed (C28); the MAC key of a
      session is the key of its packets ([subkeys_match_ueps]); routing of
      packets (C39).
    - Registry and identity: refinement of a map of peers (C29), the invariant
      that no operation leaves a stale KD-tree (C30), selection of the optimal
      peer (C40), announcements over HTTP (C37); persistence: restart of
      registry and identity (C31, C24), durability of the debounced saver under
      every interleaving of critical sections (C32), atomic saves (C33).
    - What the code gets wrong is proved as well, beside the theorems above:
      [ueps_short_tlv_panics], [ueps_threat_strip], [dispatch_threat_bypass],
      [storage_decode_make_panics], [varint_overflow_truncates],
      [failed_save_forgotten], [null_entry_panics], [identity_torn],
      [handshake_allowlist_bypass], [stale_close_disconnects],
      [deploy_name_escapes], [announce_hides_connection], [keepalive_blind],
      [stop_misses_handshake], [dial_renames_entry].

    ** Interfaces and hypotheses

    Code outside the repository is a type class with a class of laws:
    [KDLib]/[KDLaws] (the KD-tree), [JSON]/[JSONLaws], [IdentityJSON],
    [MsgJSON]/[MsgJSONLaws], [HandshakeJSON] and [Codec]/[CodecLaws] (the core
    library's JSON at the types the code uses), [FileSystem]/[FSLaws], [ModeFS]
    and [OpenFS] (its local medium), [CorePath]/[CorePathLaws] (its paths),
    [CoreText]/[CoreTextLaws] (trimming of text),
    [KeyLib] (key pairs and X25519), [AEADLib]/[AEADLaws]
    (ChaCha20-Poly1305), [WebSocket] (the socket; what it reads and whether it
    fails is up to the instance), [TimLib] and [TarLib] (containers and
    archives), [MinerManager] and [ProfileManager] (interfaces of the code
    itself), [LogLib] (formatting).  The files ending in Instances prove the
    laws of concrete instances, so the hypotheses can hold.  SHA-256, HMAC and
    HKDF belong to the Go standard library and are defined, with published test
    vectors as examples; no theorem assumes anything of them.

    ** Fuel and bounds

    The encoder of sections recurses on the nesting depth of its argument,
    which [EncodeStorage] computes.  The decoder's loops run on one more than
    the length of their buffer and its recursion on the length of the input;
    C2 proves that this is enough for every input.  The loop of [ReadAndVerify]
    runs on one more than the length of the stream (C28: enough).  The read
    loop of a connection runs on fuel greater than the number of messages that
    arrive before the socket fails; C4 and C13 prove that it then ends.
    [maxAlloc], 2^48 bytes, is the address space of a 64-bit Go process: [make]
    panics above it.

    ** Not modelled

    Real time, the scheduler's fairness and memory exhaustion below [maxAlloc]
    are left out; log lines are kept only where the code builds them from
    packet data ([Dispatcher]).  The operations of the transport are atomic
    steps of its heap ([Transport], [ConnTable]); interleavings inside them are
    modelled where the code's safety depends on them, each with the part of the
    state it is about: [Connection], [Controller], [ContentBus], the saver of
    [PeerPersist], [Readers], [ConnRace], [Admission], [Shutdown], [Gather].  In
    the saver a save is one step (two that overlap share a temporary file).  In
    [Shutdown] a read ends at the latest with its deadline, a message handler
    returns and does not call [Stop], and the node keeps its identity (without
    one the keepalive panics).  What net/http does with the server that [Start]
    configures, RemoteAddr of a Levin connection and the type test [asError] are
    outside: they only pass on what a library returns. *)

From Stdlib Require Export ZArith Lia.
From stdpp Require Export base tactics numbers list sorting strings gmap.

#[export] Set Default Goal Selector "!".
Open Scope Z_scope.

(** ** Go errors

    [coreerr.E op msg cause], [core.NewError msg] and [core.Errorf] build an
    error value; the library is only ever asked to compare or wrap them, so
    they are kept as free constructors.  [ProtocolError] is the node package's
    own error type (src/go/node/protocol.go). *)
Inductive error : Type :=
| E (op msg : string) (cause : option error)
| NewError (msg : string)
| Errorf (msg : string) (wrapped : option error)
| ProtocolError (code : Z) (msg : string).

(** The sentinels of package [io]. *)
Definition io_EOF : error := NewError "EOF".
Definition io_ErrUnexpectedEOF : error := NewError "unexpected EOF".

(** Panics of the Go language and its standard library that the modelled code can
    raise; the last is that of [ed25519.Verify]. *)
Inductive panic : Type :=
| IndexOutOfRange
| SliceOutOfRange
| MakeSliceLenOutOfRange
| NilDereference
| SendOnClosedChannel
| CloseOfClosedChannel
| BadPublicKeyLength.

#[export] Instance panic_eq_dec : EqDecision panic.
Proof. solve_decision. Defined.

(** ** [core.Result]

    [Ok] and [Fail] are the two shapes of [core.Result].  [Panic] is a Go
    run-time panic, which unwinds the whole call, and [OutOfFuel] is the
    model's own outcome for a loop that ran out of its fuel: every fuelled
    function comes with a theorem that it is not returned. *)
Inductive Result (A : Type) : Type :=
| Ok (a : A)
| Fail (e : error)
| Panic (p : panic)
| OutOfFuel.
Arguments Ok {_} _.
Arguments Fail {_} _.
Arguments Panic {_} _.
Arguments OutOfFuel {_}.

#[export] Instance Result_ret : MRet Result := fun A a => Ok a.
#[export] Instance Result_bind : MBind Result := fun A B f m =>
  match m with
  | Ok a => f a
  | Fail e => Fail e
  | Panic p => Panic p
  | OutOfFuel => OutOfFuel
  end.

(** [if !r.OK { return core.Fail(wrap(err)) }]: re-wrap a failed result. *)
Definition map_fail {A} (w : error -> error) (m : Result A) : Result A :=
  match m with
  | Fail e => Fail (w e)
  | _ => m
  end.

Definition is_Ok {A} (m : Result A) : bool :=
  match m with Ok _ => true | _ => false end.

Lemma bind_Ok {A B} (m : Result A) (f : A -> Result B) b :
  m ≫= f = Ok b <-> exists a, m = Ok a /\ f a = Ok b.
Proof. destruct m; naive_solver. Qed.

(** Invert a chain of binds that ended in [Ok]. *)
Ltac inv_bind :=
  repeat match goal with
  | H : _ ≫= _ = Ok _ |- _ =>
      let a := fresh "r" in let Ha := fresh "Hr" in
      apply bind_Ok in H as (a & Ha & H)
  | H : mret _ = Ok _ |- _ => injection H as H
  | H : Ok _ = Ok _ |- _ => injection H as H
  | H : Fail _ = Ok _ |- _ => discriminate H
  | H : Panic _ = Ok _ |- _ => discriminate H
  | H : OutOfFuel = Ok _ |- _ => discriminate H
  end.

(** ** Stateful code

    A method with a pointer receiver is a function from the receiver's state to
    a result and the state it leaves behind, whatever the result is. *)
Definition SR (S A : Type) : Type := S -> Result A * S.

#[export] Instance SR_ret {S} : MRet (SR S) := fun A a s => (Ok a, s).
#[export] Instance SR_bind {S} : MBind (SR S) := fun A B f m s =>
  match m s with
  | (Ok a, s') => f a s'
  | (Fail e, s') => (Fail e, s')
  | (Panic p, s') => (Panic p, s')
  | (OutOfFuel, s') => (OutOfFuel, s')
  end.

(** A computation that does not touch the state. *)
Definition lift {S A} (r : Result A) : SR S A := fun s => (r, s).
Definition fail {S A} (e : error) : SR S A := lift (Fail e).
Definition gets {S A} (f : S -> A) : SR S A := fun s => (Ok (f s), s).
Definition modify {S} (f : S -> S) : SR S unit := fun s => (Ok tt, f s).

(** [if r := m(); !r.OK { ko } else { ok }]: a failure the caller handles. *)
Definition on_result {S A B} (m : SR S A) (ok : A -> SR S B) (ko : error -> SR S B) : SR S B := fun s =>
  match m s with
  | (Ok a, s') => ok a s'
  | (Fail e, s') => ko e s'
  | (Panic p, s') => (Panic p, s')
  | (OutOfFuel, s') => (OutOfFuel, s')
  end.

(** A loop over an iterator ([iter.Seq]): the body says whether to go on. *)
Fixpoint each {S A} (l : list A) (yield : A -> SR S bool) : SR S unit :=
  match l with
  | [] => mret tt
  | a :: l => more ← yield a; if (more : bool) then each l yield else mret tt
  end.

Lemma SR_bind_Ok {S A B} (m : SR S A) (f : A -> SR S B) s a s' :
  m s = (Ok a, s') -> (m ≫= f) s = f a s'.
Proof. intros H. cbv [mbind SR_bind]. by rewrite H. Qed.

(** [slices.Collect], and a loop that ends early: the elements up to the first
    that the body refuses, and no other. *)
Lemma each_takes {A} (go : A -> bool) (l acc : list A) :
  each l (fun a acc => (Ok (go a), acc ++ [a])) acc =
    (Ok tt, acc ++ match list_find (fun a => go a = false) l with Some (n, _) => take (Datatypes.S n) l | None => l end).
Proof.
  revert acc. induction l as [|a l IH]; intros acc; cbn [each list_find]; [by rewrite app_nil_r|].
  erewrite SR_bind_Ok; [|reflexivity]. destruct (go a) eqn:Hg.
  - rewrite decide_False by congruence. rewrite IH, <- app_assoc. by destruct (list_find _ l) as [[n b]|].
  - by rewrite decide_True.
Qed.
Lemma each_collects {A} (l : list A) : each l (fun a acc => (Ok true, acc ++ [a])) [] = (Ok tt, l).
Proof.
  rewrite (each_takes (fun _ => true) l []). cbn. by destruct (list_find _ l) as [[n a]|] eqn:Hf; [apply list_find_Some in Hf as (_ & ? & _)|].
Qed.

Lemma SR_bind_Fail {S A B} (m : SR S A) (f : A -> SR S B) s e s' :
  m s = (Fail e, s') -> (m ≫= f) s = (Fail e, s').
Proof. intros H. cbv [mbind SR_bind]. by rewrite H. Qed.

(** Run the first step of a stateful computation whose outcome is known. *)
Ltac sr_step H := first [rewrite (SR_bind_Ok _ _ _ _ _ H) | rewrite (SR_bind_Fail _ _ _ _ _ H)].

(** ** Machine integers

    An unsigned w-bit integer is a [Z] in [0 .. 2^w); conversions wrap. *)
Definition uwrap (w : Z) (z : Z) : Z := z mod 2 ^ w.
Abbreviation u8 := (uwrap 8).
Abbreviation u16 := (uwrap 16).
Abbreviation u32 := (uwrap 32).
Abbreviation u64 := (uwrap 64).

(** Two's-complement reading of a w-bit pattern: [int32(x)], [int64(x)], ... *)
Definition swrap (w : Z) (z : Z) : Z :=
  let r := z mod 2 ^ w in
  if decide (r < 2 ^ (w - 1)) then r else r - 2 ^ w.
Abbreviation i8 := (swrap 8).
Abbreviation i16 := (swrap 16).
Abbreviation i32 := (swrap 32).
Abbreviation i64 := (swrap 64).

Definition in_u (w z : Z) : Prop := 0 <= z < 2 ^ w.
Definition in_s (w z : Z) : Prop := - 2 ^ (w - 1) <= z < 2 ^ (w - 1).
#[export] Instance in_u_dec w z : Decision (in_u w z).
Proof. unfold in_u. apply _. Defined.
#[export] Instance in_s_dec w z : Decision (in_s w z).
Proof. unfold in_s. apply _. Defined.

Abbreviation is_byte := (in_u 8).
Abbreviation bytes := (list Z).
Abbreviation all_bytes := (Forall is_byte).

Create HintDb go.
Create Rewrite HintDb go.

Lemma uwrap_id w z : in_u w z -> uwrap w z = z.
Proof. apply Z.mod_small. Qed.

Lemma uwrap_range w z : 0 <= w -> in_u w (uwrap w z).
Proof. intros. apply Z.mod_pos_bound. lia. Qed.

Lemma swrap_uwrap w z : 0 < w -> in_s w z -> swrap w (uwrap w z) = z.
Proof.
  intros Hw [Hlo Hhi]. unfold swrap, uwrap. cbv zeta. rewrite Z.mod_mod by lia.
  assert (Hp : 2 ^ w = 2 * 2 ^ (w - 1)).
  { rewrite <- Z.pow_succ_r by lia. f_equal. lia. }
  destruct (decide (0 <= z)).
  - rewrite Z.mod_small by lia. case_decide; lia.
  - replace (z mod 2 ^ w) with (z + 2 ^ w).
    + case_decide; lia.
    + apply (Z.mod_unique _ _ (-1)); lia.
Qed.

Lemma swrap_range w z : 0 < w -> in_s w (swrap w z).
Proof.
  intros Hw. unfold swrap, in_s. cbv zeta.
  assert (Hp : 2 ^ w = 2 * 2 ^ (w - 1)).
  { rewrite <- Z.pow_succ_r by lia. f_equal. lia. }
  pose proof (Z.mod_pos_bound z (2 ^ w) ltac:(lia)).
  case_decide; lia.
Qed.
#[export] Hint Resolve uwrap_range swrap_range : go.

(** ** Slices *)

(** [len(b)]. *)
Definition len {A} (b : list A) : Z := Z.of_nat (length b).

(** [b[i]]. *)
Definition index {A} (b : list A) (i : Z) : Result A :=
  if decide (0 <= i) then
    match b !! Z.to_nat i with Some x => Ok x | None => Panic IndexOutOfRange end
  else Panic IndexOutOfRange.

(** [b[lo:hi]].  The upper bound is checked against the length, which is
    stricter than Go (the capacity): no modelled code relies on the
    difference. *)
Definition slice {A} (b : list A) (lo hi : Z) : Result (list A) :=
  if decide (0 <= lo /\ lo <= hi /\ hi <= len b)
  then Ok (take (Z.to_nat (hi - lo)) (drop (Z.to_nat lo) b))
  else Panic SliceOutOfRange.

(** [b[lo:]]. *)
Definition slice_from {A} (b : list A) (lo : Z) : Result (list A) :=
  slice b lo (len b).

(** The largest allocation of the Go run time on 64-bit platforms (48 address
    bits); [make([]T, n)] panics when [n * sizeof(T)] exceeds it. *)
Definition maxAlloc : Z := 2 ^ 48.

Definition makeslice (elemSize n : Z) : Result unit :=
  if decide (elemSize * n <= maxAlloc) then Ok tt
  else Panic MakeSliceLenOutOfRange.

Lemma len_nonneg {A} (b : list A) : 0 <= len b.
Proof. unfold len. lia. Qed.
#[export] Hint Resolve len_nonneg : go.

Lemma len_app {A} (b c : list A) : len (b ++ c) = len b + len c.
Proof. unfold len. rewrite length_app. lia. Qed.

Lemma len_nil {A} : len (@nil A) = 0.
Proof. reflexivity. Qed.

Lemma len_cons {A} (x : A) b : len (x :: b) = 1 + len b.
Proof. unfold len. cbn [length]. lia. Qed.

#[export] Hint Rewrite @len_app @len_nil @len_cons : go.

Lemma index_mid {A} (a : list A) x c : index (a ++ x :: c) (len a) = Ok x.
Proof.
  unfold index, len. rewrite decide_True by lia.
  rewrite Nat2Z.id, lookup_app_r by lia. by rewrite Nat.sub_diag.
Qed.

(** The slice between two known splitting points. *)
Lemma slice_mid {A} (a b c : list A) lo hi :
  lo = len a -> hi = len a + len b -> slice (a ++ b ++ c) lo hi = Ok b.
Proof.
  intros -> ->. unfold slice. rewrite !len_app.
  pose proof (len_nonneg a). pose proof (len_nonneg b). pose proof (len_nonneg c).
  rewrite decide_True by lia. f_equal.
  replace (len a + len b - len a) with (len b) by lia. unfold len.
  rewrite !Nat2Z.id, drop_app_length, take_app_length. done.
Qed.

Lemma slice_from_app {A} (a c : list A) lo :
  lo = len a -> slice_from (a ++ c) lo = Ok c.
Proof.
  intros ->. unfold slice_from.
  pose proof (slice_mid a c [] (len a) (len (a ++ c))) as H.
  rewrite app_nil_r in H. apply H; [done|]. apply len_app.
Qed.

Lemma slice_Ok {A} (b : list A) lo hi r :
  slice b lo hi = Ok r -> 0 <= lo <= hi /\ hi <= len b /\ len r = hi - lo.
Proof.
  unfold slice. case_decide as H; intros Hr; [|done]. injection Hr as <-.
  split_and!; try lia. unfold len in *.
  rewrite length_take, length_drop. lia.
Qed.

Lemma slice_total {A} (b : list A) lo hi :
  0 <= lo <= hi -> hi <= len b -> exists r, slice b lo hi = Ok r.
Proof. intros. unfold slice. rewrite decide_True by lia. eauto. Qed.

Lemma index_total {A} (b : list A) i :
  0 <= i < len b -> exists x, index b i = Ok x.
Proof.
  intros [H1 H2]. unfold index. rewrite decide_True by done. unfold len in H2.
  destruct (lookup_lt_is_Some_2 b (Z.to_nat i)) as [x ->]; [lia|eauto].
Qed.

(** ** [encoding/binary] *)

(** [binary.LittleEndian.PutUint<8n>]: byte [i] is [byte(v >> 8i)]. *)
Fixpoint le_bytes (n : nat) (v : Z) : bytes :=
  match n with
  | O => []
  | S n => u8 v :: le_bytes n (Z.shiftr v 8)
  end.

(** [binary.LittleEndian.Uint<8n>]: [b[0] | b[1]<<8 | ...]. *)
Fixpoint le_uint (b : bytes) : Z :=
  match b with
  | [] => 0
  | h :: t => Z.lor h (Z.shiftl (le_uint t) 8)
  end.

(** [binary.BigEndian] is the same bytes in the opposite order. *)
Definition be_bytes (n : nat) (v : Z) : bytes := reverse (le_bytes n v).
Definition be_uint (b : bytes) : Z := le_uint (reverse b).

(** The reading functions panic on a slice shorter than the integer. *)
Definition LE_Uint (n : nat) (b : bytes) : Result Z :=
  if decide (length b < n)%nat then Panic IndexOutOfRange
  else Ok (le_uint (take n b)).
Definition BE_Uint (n : nat) (b : bytes) : Result Z :=
  if decide (length b < n)%nat then Panic IndexOutOfRange
  else Ok (be_uint (take n b)).

Lemma length_le_bytes n v : length (le_bytes n v) = n.
Proof. revert v. induction n; intros; cbn; auto. Qed.

Lemma len_le_bytes n v : len (le_bytes n v) = Z.of_nat n.
Proof. unfold len. by rewrite length_le_bytes. Qed.

Lemma len_be_bytes n v : len (be_bytes n v) = Z.of_nat n.
Proof. unfold be_bytes, len. by rewrite length_reverse, length_le_bytes. Qed.
#[export] Hint Rewrite len_le_bytes len_be_bytes : go.

Lemma lor_byte_add h t : is_byte h -> Z.lor h (Z.shiftl t 8) = h + 256 * t.
Proof.
  intros Hh. unfold in_u in Hh. rewrite Z.shiftl_mul_pow2 by lia.
  assert (Hz : Z.land h (t * 2 ^ 8) = 0).
  { apply Z.bits_inj'. intros i Hi. rewrite Z.land_spec, Z.bits_0.
    destruct (decide (i < 8)).
    - rewrite Z.mul_pow2_bits_low by lia. apply andb_false_r.
    - rewrite (Z.bits_above_log2 h i); [done|lia|].
      destruct (decide (h = 0)) as [->|]; [cbn; lia|].
      apply Z.log2_lt_pow2; [lia|].
      apply Z.lt_le_trans with (2 ^ 8); [lia|]. apply Z.pow_le_mono_r; lia. }
  pose proof (Z.add_lor_land h (t * 2 ^ 8)). lia.
Qed.

Lemma le_uint_le_bytes n v :
  in_u (8 * Z.of_nat n) v -> le_uint (le_bytes n v) = v.
Proof.
  revert v. induction n as [|n IH]; intros v Hv; cbn [le_bytes le_uint].
  - unfold in_u in Hv. cbn in Hv. lia.
  - rewrite lor_byte_add by (apply uwrap_range; lia).
    rewrite Z.shiftr_div_pow2 by lia. rewrite IH.
    + unfold uwrap. change (2 ^ 8) with 256. pose proof (Z.div_mod v 256). lia.
    + unfold in_u in *. split; [apply Z.div_pos; lia|].
      apply Z.div_lt_upper_bound; [lia|].
      rewrite <- Z.pow_add_r by lia.
      replace (8 + 8 * Z.of_nat n) with (8 * Z.of_nat (S n)) by lia. lia.
Qed.

Lemma le_bytes_all n v : all_bytes (le_bytes n v).
Proof.
  revert v. induction n; intros; cbn; constructor; auto.
  apply uwrap_range; lia.
Qed.

Lemma le_uint_range b : all_bytes b -> in_u (8 * len b) (le_uint b).
Proof.
  induction 1 as [|h t Hh Ht IH]; cbn [le_uint]; [done|].
  rewrite lor_byte_add by done. rewrite len_cons. unfold in_u in *.
  replace (8 * (1 + len t)) with (8 + 8 * len t) by lia.
  rewrite Z.pow_add_r by (pose proof (len_nonneg t); lia). lia.
Qed.

Lemma le_bytes_le_uint b :
  all_bytes b -> le_bytes (length b) (le_uint b) = b.
Proof.
  induction 1 as [|h t Hh Ht IH]; cbn [length le_bytes le_uint]; [done|].
  rewrite lor_byte_add by done. unfold uwrap, in_u in *.
  f_equal.
  - rewrite Z.mul_comm, Z.mod_add by lia. apply Z.mod_small; lia.
  - rewrite Z.shiftr_div_pow2 by lia.
    replace ((h + 256 * le_uint t) / 2 ^ 8) with (le_uint t); [done|].
    change (2 ^ 8) with 256. rewrite Z.mul_comm, Z.div_add by lia.
    rewrite Z.div_small by lia. lia.
Qed.

Lemma be_uint_be_bytes n v :
  in_u (8 * Z.of_nat n) v -> be_uint (be_bytes n v) = v.
Proof.
  intros. unfold be_uint, be_bytes. rewrite reverse_involutive.
  by apply le_uint_le_bytes.
Qed.

Lemma be_bytes_all n v : all_bytes (be_bytes n v).
Proof. unfold be_bytes. apply Forall_reverse, le_bytes_all. Qed.

Lemma LE_Uint_le_bytes n v rest :
  in_u (8 * Z.of_nat n) v -> LE_Uint n (le_bytes n v ++ rest) = Ok v.
Proof.
  intros. unfold LE_Uint.
  rewrite decide_False by (rewrite length_app, length_le_bytes; lia).
  rewrite take_app_le by (rewrite length_le_bytes; lia).
  rewrite take_ge by (rewrite length_le_bytes; lia).
  by rewrite le_uint_le_bytes.
Qed.

Lemma LE_Uint_exact n v :
  in_u (8 * Z.of_nat n) v -> LE_Uint n (le_bytes n v) = Ok v.
Proof.
  intros. rewrite <- (app_nil_r (le_bytes n v)). by apply LE_Uint_le_bytes.
Qed.

Lemma BE_Uint_exact n v :
  in_u (8 * Z.of_nat n) v -> BE_Uint n (be_bytes n v) = Ok v.
Proof.
  intros. unfold BE_Uint. pose proof (len_be_bytes n v) as Hl. unfold len in Hl.
  rewrite decide_False by lia. rewrite take_ge by lia.
  by rewrite be_uint_be_bytes.
Qed.

(** ** Strings as byte sequences *)
Definition bytes_of_string (s : string) : bytes :=
  map (fun a => Z.of_N (Ascii.N_of_ascii a)) (String.list_ascii_of_string s).
Definition string_of_bytes (b : bytes) : string :=
  String.string_of_list_ascii (map (fun z => Ascii.ascii_of_N (Z.to_N z)) b).

Lemma string_of_bytes_of_string s : string_of_bytes (bytes_of_string s) = s.
Proof.
  unfold string_of_bytes, bytes_of_string. rewrite map_map.
  rewrite (map_ext _ id).
  - by rewrite map_id, String.string_of_list_ascii_of_string.
  - intros a. by rewrite N2Z.id, Ascii.ascii_N_embedding.
Qed.

Lemma bytes_of_string_of_bytes b : all_bytes b -> bytes_of_string (string_of_bytes b) = b.
Proof.
  unfold string_of_bytes, bytes_of_string. rewrite String.list_ascii_of_string_of_list_ascii, map_map.
  intros Hb. rewrite <- (map_id b) at 2. apply map_ext_in. intros z Hz.
  apply list_elem_of_In in Hz. rewrite Forall_forall in Hb. destruct (Hb z Hz).
  rewrite Ascii.N_ascii_embedding by lia. rewrite Z2N.id; lia.
Qed.

(** [len(s)] of a string. *)
Definition slen (s : string) : Z := Z.of_nat (String.length s).

Lemma len_bytes_of_string s : len (bytes_of_string s) = slen s.
Proof.
  unfold len, slen, bytes_of_string. rewrite length_map.
  by induction s; cbn; [|lia].
Qed.
#[export] Hint Rewrite len_bytes_of_string : go.

(** [fmt]'s [%02x] on a byte. *)
Definition hex_digit (z : Z) : Ascii.ascii :=
  Ascii.ascii_of_N (Z.to_N (if decide (z < 10) then 48 + z else 87 + z)).
Definition hex2 (z : Z) : string :=
  String.String (hex_digit (z / 16)) (String.String (hex_digit (z mod 16)) "").

(** ** Sums over lists *)
Lemma sum_update {A} (f : A -> nat) l k x old :
  l !! k = Some old -> (sum_list_with f (<[k := x]> l) + f old = sum_list_with f l + f x)%nat.
Proof.
  revert k. induction l as [|y l IH]; intros [|k] Hk; try done.
  - injection Hk as ->. cbn [insert list_insert sum_list_with]. lia.
  - cbn [insert list_insert sum_list_with]. rewrite <- !Nat.add_assoc. f_equal. exact (IH k Hk).
Qed.

Lemma sum_replicate {A} (f : A -> nat) k x : sum_list_with f (replicate k x) = (k * f x)%nat.
Proof. induction k as [|k IH]; [done|]. cbn [replicate sum_list_with]. rewrite IH. lia. Qed.

(** Every element counts at most one. *)
Lemma sum_le_length {A} (f : A -> nat) l : (forall x, (f x <= 1)%nat) -> (sum_list_with f l <= length l)%nat.
Proof. intros Hf. induction l as [|x l IH]; [done|]. cbn [sum_list_with length]. specialize (Hf x). lia. Qed.

(** ** Runs *)

(** The elements of a list of equal processes make the same step, one after the
    other; the rest of the state may depend on how many have. *)
Lemma sweep {S A} (R : S -> S -> Prop) (f : nat -> list A -> S) u v n :
  (forall j us, us !! j = Some u -> R (f j us) (f (Datatypes.S j) (<[j := v]> us))) ->
  rtc R (f 0%nat (replicate n u)) (f n (replicate n v)).
Proof.
  intros Hstep. assert (Hj : forall j, (j <= n)%nat -> rtc R (f 0%nat (replicate n u)) (f j (replicate j v ++ replicate (n - j) u))).
  { induction j as [|j IH]; intros Hj; [by rewrite Nat.sub_0_r|]. eapply rtc_r; [apply IH; lia|].
    replace (n - j)%nat with (Datatypes.S (n - Datatypes.S j)) by lia. cbn [replicate].
    assert (Hl : (replicate j v ++ u :: replicate (n - Datatypes.S j) u) !! j = Some u).
    { rewrite lookup_app_r by (by rewrite length_replicate). by rewrite length_replicate, Nat.sub_diag. }
    pose proof (Hstep j _ Hl) as Hs. rewrite insert_app_r_alt in Hs by (by rewrite length_replicate).
    rewrite length_replicate, Nat.sub_diag in Hs. cbn [insert list_insert] in Hs.
    change (v :: replicate j v) with (replicate (Datatypes.S j) v). by rewrite replicate_S_end, <- app_assoc. }
  specialize (Hj n ltac:(lia)). by rewrite Nat.sub_diag, app_nil_r in Hj.
Qed.
