(* ===== verification/GoMap.v ===== *)
(** * Go maps with string keys, as association lists

    A [map[string]V] nested inside the value type it maps to cannot be a
    [gmap], so it is kept as an association list with distinct keys, in the
    unspecified order a Go [range] would visit it.  Two such lists denote the
    same map when they have the same lookups; [mcanon] is the representative
    in ascending key order, which is what [slices.Sorted(maps.Keys(m))]
    followed by lookups visits. *)

From S2P Require Import Prelude.

Section gomap.
  Context {V : Type}.
  Implicit Types (m : list (string * V)) (k : string) (v : V).

(** [m[k]] with the "comma ok" form. *)
Fixpoint mget m k : option V :=
  match m with
  | [] => None
  | (k', v) :: m => if decide (k = k') then Some v else mget m k
  end.

(** [m[k] = v]. *)
Fixpoint mset m k v : list (string * V) :=
  match m with
  | [] => [(k, v)]
  | (k', v') :: m => if decide (k = k') then (k, v) :: m else (k', v') :: mset m k v
  end.

(** [slices.Sorted(maps.Keys(m))]. *)
Definition sorted_keys m : list string := merge_sort String.le m.*1.

(** The entries of [m] in ascending key order. *)
Definition mcanon m : list (string * V) :=
  omap (fun k => pair k <$> mget m k) (sorted_keys m).

Definition mwf m : Prop := NoDup m.*1.

Lemma mget_None m k : mget m k = None <-> k ∉ m.*1.
Proof.
  induction m as [|[k' v'] m IH]; cbn; [set_solver|].
  case_decide; set_solver.
Qed.

Lemma mget_Some m k v : mwf m -> mget m k = Some v <-> (k, v) ∈ m.
Proof.
  unfold mwf. induction m as [|[k' v'] m IH]; cbn; [set_solver|].
  intros [Hk Hm]%NoDup_cons. rewrite elem_of_cons. case_decide as Hd.
  - subst. split; [intros [= ->]; by left|].
    intros [[= <-]|Hin]; [done|].
    exfalso. apply Hk. by apply (list_elem_of_fmap_2 fst) in Hin.
  - rewrite IH by done. naive_solver.
Qed.

Lemma mget_perm m1 m2 k : mwf m1 -> m1 ≡ₚ m2 -> mget m1 k = mget m2 k.
Proof.
  intros Hwf Hp. assert (Hwf2 : mwf m2) by (unfold mwf in *; by rewrite <- Hp).
  apply option_eq. intros v. rewrite !mget_Some by done. by rewrite Hp.
Qed.

Lemma mset_fresh m k v : k ∉ m.*1 -> mset m k v = m ++ [(k, v)].
Proof.
  induction m as [|[k' v'] m IH]; cbn; [done|].
  intros Hk. rewrite decide_False by set_solver. rewrite IH by set_solver. done.
Qed.

Lemma mset_keys m k v : (mset m k v).*1 = if decide (k ∈ m.*1) then m.*1 else m.*1 ++ [k].
Proof.
  induction m as [|[k' v'] m IH]; cbn; [done|].
  destruct (decide (k = k')) as [->|Hne]; cbn.
  - by rewrite decide_True by set_solver.
  - rewrite IH. destruct (decide (k ∈ m.*1)).
    + by rewrite decide_True by set_solver.
    + by rewrite decide_False by set_solver.
Qed.

Lemma mset_wf m k v : mwf m -> mwf (mset m k v).
Proof.
  unfold mwf. rewrite mset_keys. case_decide as Hk; [done|].
  intros. apply NoDup_app. split_and!; [done|set_solver|apply NoDup_singleton].
Qed.

Lemma mget_mset m k v k' :
  mget (mset m k v) k' = if decide (k' = k) then Some v else mget m k'.
Proof.
  induction m as [|[k0 v0] m IH]; cbn; [done|].
  destruct (decide (k = k0)) as [->|Hne]; cbn.
  - by case_decide.
  - rewrite IH. repeat case_decide; congruence.
Qed.

Lemma mset_length m k v : (length m <= length (mset m k v) <= S (length m))%nat.
Proof. induction m as [|[k' v'] m IH]; cbn; [lia|]. case_decide; cbn; lia. Qed.

Lemma mset_Forall (P : string * V -> Prop) m k v :
  Forall P m -> P (k, v) -> Forall P (mset m k v).
Proof.
  induction m as [|[k' v'] m IH]; cbn; intros Hm Hp; [by constructor|].
  inversion Hm; subst. case_decide; constructor; auto.
Qed.

Lemma sorted_keys_perm m : sorted_keys m ≡ₚ m.*1.
Proof. apply merge_sort_Permutation. Qed.

Lemma sorted_keys_sorted m : StronglySorted String.le (sorted_keys m).
Proof. apply StronglySorted_merge_sort; apply _. Qed.

Lemma sorted_keys_unique m1 m2 : m1.*1 ≡ₚ m2.*1 -> sorted_keys m1 = sorted_keys m2.
Proof.
  intros Hp. apply (StronglySorted_unique String.le);
    [apply sorted_keys_sorted..|]. by rewrite !sorted_keys_perm.
Qed.

Lemma mcanon_ext m1 m2 :
  m1.*1 ≡ₚ m2.*1 -> (forall k, mget m1 k = mget m2 k) -> mcanon m1 = mcanon m2.
Proof.
  intros Hk Hg. unfold mcanon. rewrite (sorted_keys_unique m1 m2 Hk).
  apply list_omap_ext, Forall_Forall2_diag, Forall_true. intros k. by rewrite Hg.
Qed.

(** The representative does not depend on the iteration order. *)
Lemma mcanon_perm m1 m2 : mwf m1 -> m1 ≡ₚ m2 -> mcanon m1 = mcanon m2.
Proof.
  intros Hwf Hp. apply mcanon_ext; [by rewrite Hp|].
  intros k. by apply mget_perm.
Qed.

Lemma omap_get_keys m (ks : list string) :
  (forall k, k ∈ ks -> k ∈ m.*1) ->
  (omap (fun k => pair k <$> mget m k) ks).*1 = ks.
Proof.
  induction ks as [|k ks IH]; cbn; intros H; [done|].
  destruct (mget m k) as [v|] eqn:Hg; cbn.
  - rewrite IH; [done|set_solver].
  - apply mget_None in Hg. set_solver.
Qed.

Lemma mcanon_keys m : (mcanon m).*1 = sorted_keys m.
Proof. apply omap_get_keys. intros k. by rewrite sorted_keys_perm. Qed.

Lemma mcanon_wf m : mwf m -> mwf (mcanon m).
Proof. unfold mwf. by rewrite mcanon_keys, sorted_keys_perm. Qed.

Lemma elem_of_mcanon m k v : mwf m -> (k, v) ∈ mcanon m <-> (k, v) ∈ m.
Proof.
  intros Hwf. unfold mcanon. rewrite list_elem_of_omap. split.
  - intros (k' & Hk & Hg). destruct (mget m k') eqn:He; [|done].
    injection Hg as <- <-. by apply mget_Some.
  - intros Hin. exists k. rewrite sorted_keys_perm. split.
    + by apply (list_elem_of_fmap_2 fst) in Hin.
    + apply mget_Some in Hin; [|done]. by rewrite Hin.
Qed.

Lemma mcanon_Permutation m : mwf m -> mcanon m ≡ₚ m.
Proof.
  intros Hwf. apply NoDup_Permutation.
  - apply (NoDup_fmap_1 fst). by apply mcanon_wf.
  - by apply (NoDup_fmap_1 fst).
  - intros [k v]. by apply elem_of_mcanon.
Qed.

Lemma mget_mcanon m k : mwf m -> mget (mcanon m) k = mget m k.
Proof. intros. apply mget_perm; [by apply mcanon_wf|by apply mcanon_Permutation]. Qed.

Lemma mcanon_idemp m : mwf m -> mcanon (mcanon m) = mcanon m.
Proof. intros. apply mcanon_perm; [by apply mcanon_wf|by apply mcanon_Permutation]. Qed.

Lemma len_mcanon m : mwf m -> len (mcanon m) = len m.
Proof. intros. unfold len. by rewrite mcanon_Permutation. Qed.

(** Same lookups, same representative. *)
Lemma mcanon_eq_iff m1 m2 : mwf m1 -> mwf m2 ->
  mcanon m1 = mcanon m2 <-> (forall k, mget m1 k = mget m2 k).
Proof.
  intros H1 H2. split.
  - intros He k. by rewrite <- (mget_mcanon m1), <- (mget_mcanon m2), He.
  - intros Hg. apply mcanon_perm; [done|].
    apply NoDup_Permutation; [by apply (NoDup_fmap_1 fst)..|].
    intros [k v]. by rewrite <- !mget_Some, Hg.
Qed.
End gomap.

Arguments mwf {_} _ /.

Section gomap_fmap.
  Context {V W : Type} (f : V -> W).

Lemma mget_fmap (m : list (string * V)) k :
  mget (prod_map id f <$> m) k = f <$> mget m k.
Proof. induction m as [|[k' v'] m IH]; cbn; [done|]. by case_decide. Qed.

Lemma fmap_keys (m : list (string * V)) : (prod_map id f <$> m).*1 = m.*1.
Proof. rewrite <- list_fmap_compose. by apply list_fmap_ext; intros ? [? ?]. Qed.

Lemma mcanon_fmap (m : list (string * V)) :
  mcanon (prod_map id f <$> m) = prod_map id f <$> mcanon m.
Proof.
  unfold mcanon. unfold sorted_keys. rewrite fmap_keys.
  induction (merge_sort String.le m.*1) as [|k ks IH]; cbn; [done|].
  rewrite mget_fmap. destruct (mget m k); cbn; by rewrite IH.
Qed.
End gomap_fmap.
