(* ===== verification/Varint.v ===== *)
(** * The epee portable-storage varint (src/go/node/levin/varint.go)

    [PackVarint] and [UnpackVarint] on byte lists, the constants they use, and
    the theorems on their round trip, their bounds and their behaviour above
    the largest encodable value. *)

From S2P Require Import Prelude.

(** Size-mark bits occupying the two lowest bits of the first byte. *)
Definition varintMask : Z := 3.
Definition varintMark1 : Z := 0.
Definition varintMark2 : Z := 1.
Definition varintMark4 : Z := 2.
Definition varintMark8 : Z := 3.
Definition varintMax1 : Z := 63.
Definition varintMax2 : Z := 16383.
Definition varintMax4 : Z := 1073741823.
Definition varintMax8 : Z := 4611686018427387903.

Definition ErrVarintTruncated : error := E "levin" "truncated varint" None.
Definition ErrVarintOverflow : error := E "levin" "varint overflow" None.

Record unpackVarintResult : Type := mkUnpack {
  uv_Value : Z;
  uv_BytesConsumed : Z
}.

Definition PackVarint (v : Z) : bytes :=
  if decide (v <= varintMax1) then
    [u8 (Z.lor (u64 (Z.shiftl v 2)) varintMark1)]
  else if decide (v <= varintMax2) then
    let raw := u16 (Z.lor (u64 (Z.shiftl v 2)) varintMark2) in
    le_bytes 2 raw
  else if decide (v <= varintMax4) then
    let raw := u32 (Z.lor (u64 (Z.shiftl v 2)) varintMark4) in
    le_bytes 4 raw
  else
    let raw := Z.lor (u64 (Z.shiftl v 2)) varintMark8 in
    le_bytes 8 raw.

Definition UnpackVarint (buf : bytes) : Result unpackVarintResult :=
  if decide (len buf = 0) then Fail ErrVarintTruncated
  else
    b0 ← index buf 0;
    let mark := Z.land b0 varintMask in
    if decide (mark = varintMark1) then
      Ok (mkUnpack (Z.shiftr b0 2) 1)
    else if decide (mark = varintMark2) then
      if decide (len buf < 2) then Fail ErrVarintTruncated
      else s ← slice buf 0 2; raw ← LE_Uint 2 s;
           Ok (mkUnpack (Z.shiftr raw 2) 2)
    else if decide (mark = varintMark4) then
      if decide (len buf < 4) then Fail ErrVarintTruncated
      else s ← slice buf 0 4; raw ← LE_Uint 4 s;
           Ok (mkUnpack (Z.shiftr raw 2) 4)
    else if decide (mark = varintMark8) then
      if decide (len buf < 8) then Fail ErrVarintTruncated
      else s ← slice buf 0 8; raw ← LE_Uint 8 s;
           Ok (mkUnpack (Z.shiftr raw 2) 8)
    else Fail ErrVarintTruncated.

(** ** Lemmas *)

(** The number of bytes a size mark announces. *)
Definition mark_width (mark : Z) : Z :=
  if decide (mark = varintMark1) then 1
  else if decide (mark = varintMark2) then 2
  else if decide (mark = varintMark4) then 4 else 8.

(** The mark of the branch [PackVarint] takes. *)
Definition mark_of (v : Z) : Z :=
  if decide (v <= varintMax1) then varintMark1
  else if decide (v <= varintMax2) then varintMark2
  else if decide (v <= varintMax4) then varintMark4 else varintMark8.

Lemma lor_mark v m : 0 <= m < 4 -> Z.lor (4 * v) m = 4 * v + m.
Proof.
  intros Hm.
  assert (Hz : Z.land (4 * v) m = 0).
  { apply Z.bits_inj'. intros i Hi. rewrite Z.land_spec, Z.bits_0.
    replace (4 * v) with (v * 2 ^ 2) by lia.
    destruct (decide (i < 2)).
    - by rewrite Z.mul_pow2_bits_low by lia.
    - rewrite (Z.bits_above_log2 m i), andb_false_r; [done|lia|].
      destruct (decide (m = 0)) as [->|]; [cbn; lia|].
      apply Z.log2_lt_pow2; [lia|].
      apply Z.lt_le_trans with (2 ^ 2); [lia|]. apply Z.pow_le_mono_r; lia. }
  pose proof (Z.add_lor_land (4 * v) m). lia.
Qed.

Lemma shl2_u64 v : u64 (Z.shiftl v 2) = 4 * (v mod 2 ^ 62).
Proof.
  unfold uwrap. rewrite Z.shiftl_mul_pow2 by lia.
  replace (2 ^ 64) with (2 ^ 62 * 2 ^ 2) by lia.
  rewrite Z.mul_mod_distr_r by lia. lia.
Qed.

Lemma pack_raw v m : 0 <= m < 4 ->
  Z.lor (u64 (Z.shiftl v 2)) m = 4 * (v mod 2 ^ 62) + m.
Proof. intros. rewrite shl2_u64. by apply lor_mark. Qed.

Lemma shiftr_raw v m : 0 <= m < 4 -> Z.shiftr (4 * v + m) 2 = v.
Proof.
  intros. rewrite Z.shiftr_div_pow2 by lia. change (2 ^ 2) with 4.
  rewrite Z.add_comm, Z.mul_comm, Z.div_add, Z.div_small by lia. lia.
Qed.

Lemma mark_of_range v : 0 <= mark_of v < 4.
Proof.
  unfold mark_of, varintMark1, varintMark2, varintMark4, varintMark8.
  repeat case_decide; lia.
Qed.

(** Every encoding is the little-endian form of [4 * v + mark] at the width
    the mark announces. *)
Lemma PackVarint_le v : 0 <= v ->
  PackVarint v =
    le_bytes (Z.to_nat (mark_width (mark_of v))) (4 * (v mod 2 ^ 62) + mark_of v).
Proof.
  intros Hv.
  unfold PackVarint, mark_of, mark_width.
  unfold varintMax1, varintMax2, varintMax4, varintMark1, varintMark2, varintMark4, varintMark8.
  repeat case_decide; try lia; cbv zeta; rewrite pack_raw by lia; try done.
  - change (Z.to_nat 2) with 2%nat. rewrite uwrap_id; [done|].
    unfold in_u. rewrite Z.mod_small by lia. lia.
  - change (Z.to_nat 4) with 4%nat. rewrite uwrap_id; [done|].
    unfold in_u. rewrite Z.mod_small by lia. lia.
Qed.

Lemma mark_width_cases m : mark_width m = 1 \/ mark_width m = 2 \/ mark_width m = 4 \/ mark_width m = 8.
Proof. unfold mark_width. repeat case_decide; lia. Qed.

Lemma land_mask_raw v m : 0 <= m < 4 -> Z.land (4 * v + m) varintMask = m.
Proof.
  intros. change varintMask with (Z.ones 2). rewrite Z.land_ones by lia.
  rewrite Z.add_comm, Z.mul_comm. change (2 ^ 2) with 4.
  rewrite Z.mod_add by lia. apply Z.mod_small; lia.
Qed.

(** The first byte of an encoding carries the mark. *)
Lemma u8_mark v m : 0 <= m < 4 -> Z.land (u8 (4 * v + m)) varintMask = m.
Proof.
  intros. unfold uwrap. change (2 ^ 8) with 256.
  rewrite <- (land_mask_raw v m) at 2 by done.
  change varintMask with (Z.ones 2). rewrite !Z.land_ones by lia.
  change (2 ^ 2) with 4. apply Z.mod_mod_divide.
  exists 64. lia.
Qed.

(** [UnpackVarint] in one equation: read the announced width or fail. *)
Lemma UnpackVarint_width b0 t : is_byte b0 ->
  let w := mark_width (Z.land b0 varintMask) in
  UnpackVarint (b0 :: t) =
    if decide (len (b0 :: t) < w) then Fail ErrVarintTruncated
    else Ok (mkUnpack (Z.shiftr (le_uint (take (Z.to_nat w) (b0 :: t))) 2) w).
Proof.
  intros Hb w. unfold UnpackVarint.
  pose proof (len_nonneg t).
  rewrite decide_False by (rewrite len_cons; lia).
  change (index (b0 :: t) 0) with (Ok b0). cbn [mbind Result_bind].
  assert (Hm : Z.land b0 varintMask = b0 mod 4)
    by (change varintMask with (Z.ones 2); rewrite Z.land_ones; [done|lia]).
  assert (Hr : 0 <= Z.land b0 varintMask < 4) by (rewrite Hm; apply Z.mod_pos_bound; lia).
  subst w. revert Hr. generalize (Z.land b0 varintMask). clear Hm. intros m Hr.
  unfold mark_width, varintMark1, varintMark2, varintMark4, varintMark8.
  case_decide; [|case_decide; [|case_decide; [|rewrite decide_True by lia]]].
  { rewrite decide_False by (rewrite len_cons; lia). f_equal. f_equal.
    change (take (Z.to_nat 1) (b0 :: t)) with [b0].
    cbn [le_uint]. by rewrite Z.shiftl_0_l, Z.lor_0_r. }
  all: case_decide; [done|].
  all: unfold slice; rewrite decide_True by (rewrite ?len_cons in *; lia).
  all: rewrite drop_0, Z.sub_0_r; cbn [mbind Result_bind].
  all: unfold LE_Uint; rewrite decide_False
    by (rewrite length_take; unfold len in *; lia).
  all: cbn [mbind Result_bind]; do 3 f_equal; by rewrite take_take.
Qed.

Lemma UnpackVarint_nil : UnpackVarint [] = Fail ErrVarintTruncated.
Proof. reflexivity. Qed.

Lemma le_bytes_first n v : (0 < n)%nat -> exists t, le_bytes n v = u8 v :: t.
Proof. destruct n; [lia|]. cbn. eauto. Qed.

(** What an encoding decodes to, whether or not the value fits in 62 bits. *)
Lemma Unpack_Pack v rest : 0 <= v ->
  UnpackVarint (PackVarint v ++ rest) =
    Ok (mkUnpack (v mod 2 ^ 62) (len (PackVarint v))).
Proof.
  intros Hv. rewrite PackVarint_le by done.
  pose proof (mark_of_range v) as Hm.
  set (m := mark_of v) in *. set (n := Z.to_nat (mark_width m)).
  assert (Hn : Z.of_nat n = mark_width m).
  { subst n. pose proof (mark_width_cases m). lia. }
  set (r := 4 * (v mod 2 ^ 62) + m).
  assert (Hr : in_u (8 * Z.of_nat n) r).
  { rewrite Hn. subst r. unfold in_u.
    pose proof (Z.mod_pos_bound v (2 ^ 62) ltac:(lia)).
    pose proof (Z.mod_le v (2 ^ 62) Hv ltac:(lia)).
    subst m. unfold mark_width, mark_of in *.
    unfold varintMax1, varintMax2, varintMax4, varintMark1, varintMark2, varintMark4, varintMark8 in *.
    repeat case_decide; lia. }
  destruct (le_bytes_first n r) as [t Ht].
  { pose proof (mark_width_cases m). lia. }
  assert (Hl : len (u8 r :: t) = mark_width m)
    by (rewrite <- Ht, len_le_bytes; done).
  rewrite Ht. cbn [app]. rewrite UnpackVarint_width by (apply uwrap_range; lia).
  subst r. rewrite u8_mark by done.
  rewrite decide_False by (rewrite app_comm_cons, len_app, Hl; pose proof (len_nonneg rest); lia).
  rewrite Hl. do 3 f_equal. rewrite app_comm_cons, take_app_le, take_ge.
  - rewrite <- Ht, le_uint_le_bytes by done. by apply shiftr_raw.
  - unfold len in Hl. lia.
  - unfold len in Hl. lia.
Qed.

Lemma PackVarint_bytes v : 0 <= v -> all_bytes (PackVarint v).
Proof. intros. rewrite PackVarint_le by done. apply le_bytes_all. Qed.

Lemma len_PackVarint v : 0 <= v -> len (PackVarint v) = mark_width (mark_of v).
Proof.
  intros. rewrite PackVarint_le, len_le_bytes by done.
  pose proof (mark_width_cases (mark_of v)). lia.
Qed.

(** A decoded varint fits in its announced width, and the width in the buffer. *)
Lemma UnpackVarint_Ok buf r :
  all_bytes buf -> UnpackVarint buf = Ok r ->
  0 <= uv_Value r < 2 ^ (8 * uv_BytesConsumed r - 2) /\
  (uv_BytesConsumed r = 1 \/ uv_BytesConsumed r = 2 \/ uv_BytesConsumed r = 4 \/ uv_BytesConsumed r = 8) /\
  uv_BytesConsumed r <= len buf.
Proof.
  intros Hb. destruct buf as [|b0 t]; [done|].
  rewrite UnpackVarint_width by (by inversion Hb).
  set (w := mark_width _). pose proof (mark_width_cases (Z.land b0 varintMask)).
  case_decide; [done|]. intros [= <-]. cbn [uv_Value uv_BytesConsumed].
  split; [|split; [done|lia]].
  pose proof (le_uint_range (take (Z.to_nat w) (b0 :: t)) (Forall_take _ _ _ Hb)) as Hr.
  assert (Hl : len (take (Z.to_nat w) (b0 :: t)) = w)
    by (unfold len in *; rewrite length_take; subst w; lia).
  rewrite Hl in Hr. unfold in_u in Hr. rewrite Z.shiftr_div_pow2 by lia.
  split; [apply Z.div_pos; lia|].
  apply Z.div_lt_upper_bound; [lia|]. rewrite <- Z.pow_add_r by (subst w; lia).
  replace (2 + (8 * w - 2)) with (8 * w) by lia. apply Hr.
Qed.

Lemma UnpackVarint_max buf r :
  all_bytes buf -> UnpackVarint buf = Ok r -> 0 <= uv_Value r <= varintMax8.
Proof.
  intros Hb Hr. destruct (UnpackVarint_Ok buf r Hb Hr) as (Hv & Hw & _).
  enough (2 ^ (8 * uv_BytesConsumed r - 2) <= 2 ^ 62) by (unfold varintMax8; lia).
  apply Z.pow_le_mono_r; lia.
Qed.

(** [PackVarint] picks the least width that holds the value. *)
Lemma mark_width_least v n :
  0 <= v < 2 ^ (8 * n - 2) -> n = 1 \/ n = 2 \/ n = 4 \/ n = 8 ->
  mark_width (mark_of v) <= n.
Proof.
  intros Hv Hn. unfold mark_width, mark_of.
  unfold varintMax1, varintMax2, varintMax4, varintMark1, varintMark2, varintMark4, varintMark8.
  destruct Hn as [-> | [-> | [-> | ->]]]; cbn in Hv; repeat case_decide; lia.
Qed.

(** Never a panic, and one error only. *)
Lemma UnpackVarint_total buf : all_bytes buf ->
  (exists r, UnpackVarint buf = Ok r) \/ UnpackVarint buf = Fail ErrVarintTruncated.
Proof.
  intros Hb. destruct buf as [|b0 t]; [by right|].
  rewrite UnpackVarint_width by (by inversion Hb).
  case_decide; [by right|left; eauto].
Qed.

(** ** Theorems *)

(** For every value up to [varintMax8], decoding an encoded
    varint followed by any bytes returns the value and exactly the number of
    bytes [PackVarint] wrote. *)
Theorem varint_roundtrip v rest :
  0 <= v <= varintMax8 ->
  UnpackVarint (PackVarint v ++ rest) = Ok (mkUnpack v (len (PackVarint v))).
Proof.
  intros [Hlo Hhi]. rewrite Unpack_Pack by done. do 2 f_equal.
  apply Z.mod_small. unfold varintMax8 in Hhi. lia.
Qed.

Lemma varint_roundtrip_witness :
  UnpackVarint (PackVarint 16384 ++ [7]) = Ok (mkUnpack 16384 4).
Proof. apply (varint_roundtrip 16384 [7]). unfold varintMax8. lia. Defined.

(** [UnpackVarint] never panics on bytes.  When it succeeds, the
    value is at most [varintMax8], the bytes consumed are within the buffer,
    and [PackVarint] would not have used more bytes for that value (encodings
    are minimal); when it fails, the error is [ErrVarintTruncated] and the
    buffer is shorter than the width its first byte announces. *)
Theorem varint_decode_bounds buf :
  all_bytes buf ->
  match UnpackVarint buf with
  | Ok r => 0 <= uv_Value r <= varintMax8 /\
            len (PackVarint (uv_Value r)) <= uv_BytesConsumed r <= len buf
  | Fail e => e = ErrVarintTruncated /\
              (buf = [] \/
               exists b0 t, buf = b0 :: t /\ len buf < mark_width (Z.land b0 varintMask))
  | _ => False
  end.
Proof.
  intros Hb. destruct (UnpackVarint buf) as [r|e| |] eqn:Hu.
  - destruct (UnpackVarint_Ok _ _ Hb Hu) as (Hv & Hw & Hl).
    split_and!; [by eapply UnpackVarint_max..| |done].
    rewrite len_PackVarint by lia. by apply mark_width_least.
  - destruct buf as [|b0 t]; [by split; [injection Hu as <-|left]|].
    rewrite UnpackVarint_width in Hu by (by inversion Hb).
    case_decide; [injection Hu as <-|done]. split; [done|right; eauto].
  - destruct (UnpackVarint_total buf Hb) as [[? ?]|]; congruence.
  - destruct (UnpackVarint_total buf Hb) as [[? ?]|]; congruence.
Qed.

Lemma varint_decode_bounds_witness :
  UnpackVarint [2; 0; 1] = Fail ErrVarintTruncated /\
  (([2; 0; 1] : bytes) = [] \/
   exists b0 t, ([2; 0; 1] : bytes) = b0 :: t /\ 3 < mark_width (Z.land b0 varintMask)).
Proof.
  split; [reflexivity|].
  apply (varint_decode_bounds [2; 0; 1]).
  repeat constructor; unfold in_u; lia.
Defined.

(** Above [varintMax8] the encoder neither fails nor keeps the
    value: the two top bits are shifted out, and the eight bytes written decode
    to the value modulo 2^62.  [ErrVarintOverflow] is never produced. *)
Theorem varint_overflow_truncates v rest :
  varintMax8 < v < 2 ^ 64 ->
  UnpackVarint (PackVarint v ++ rest) = Ok (mkUnpack (v mod 2 ^ 62) 8) /\
  v mod 2 ^ 62 <> v.
Proof.
  unfold varintMax8. intros Hv. rewrite Unpack_Pack, len_PackVarint by lia.
  pose proof (Z.mod_pos_bound v (2 ^ 62) ltac:(lia)). split; [|lia].
  enough (mark_of v = varintMark8) as -> by done.
  unfold mark_of, varintMax1, varintMax2, varintMax4. by rewrite !decide_False by lia.
Qed.

Lemma varint_overflow_truncates_witness :
  UnpackVarint (PackVarint (2 ^ 62 + 5) ++ []) = Ok (mkUnpack 5 8).
Proof.
  apply (varint_overflow_truncates (2 ^ 62 + 5) []). unfold varintMax8. lia.
Defined.
