(* ===== verification/Header.v ===== *)
(** * The Levin packet header (src/go/node/levin/header.go)

    The 33-byte packed header that prefixes every Levin message: the record,
    its encoder and decoder, and the theorems that they are inverse to each
    other on well-formed headers and that the decoder accepts nothing else. *)

From S2P Require Import Prelude.

Definition HeaderSize : Z := 33.
Definition Signature : Z := 0x0101010101012101.
Definition MaxPayloadSize : Z := 100 * 1024 * 1024.

Definition ReturnOK : Z := 0.
Definition ReturnErrConnection : Z := -1.
Definition ReturnErrFormat : Z := -7.
Definition ReturnErrSignature : Z := -13.

Definition CommandHandshake : Z := 1001.
Definition CommandTimedSync : Z := 1002.
Definition CommandPing : Z := 1003.
Definition CommandNewBlock : Z := 2001.
Definition CommandNewTransactions : Z := 2002.
Definition CommandRequestObjects : Z := 2003.
Definition CommandResponseObjects : Z := 2004.
Definition CommandRequestChain : Z := 2006.
Definition CommandResponseChain : Z := 2007.

Definition ErrBadSignature : error := E "levin" "bad signature" None.
Definition ErrPayloadTooBig : error := E "levin" "payload exceeds maximum size" None.

Record Header : Type := mkHeader {
  h_Signature : Z;
  h_PayloadSize : Z;
  h_ExpectResponse : bool;
  h_Command : Z;
  h_ReturnCode : Z;
  h_Flags : Z;
  h_ProtocolVersion : Z
}.

(** The fixed array [buf] is filled field by field from offset 0 to 33, so it
    is the concatenation of the fields' bytes. *)
Definition EncodeHeader (h : Header) : bytes :=
  le_bytes 8 (h_Signature h) ++
  le_bytes 8 (h_PayloadSize h) ++
  [if h_ExpectResponse h then 1 else 0] ++
  le_bytes 4 (h_Command h) ++
  le_bytes 4 (u32 (h_ReturnCode h)) ++
  le_bytes 4 (h_Flags h) ++
  le_bytes 4 (h_ProtocolVersion h).

Definition DecodeHeader (buf : bytes) : Result Header :=
  s ← slice buf 0 8; sig ← LE_Uint 8 s;
  if decide (sig <> Signature) then Fail ErrBadSignature
  else
    s ← slice buf 8 16; psize ← LE_Uint 8 s;
    if decide (psize > MaxPayloadSize) then Fail ErrPayloadTooBig
    else
      b16 ← index buf 16;
      s ← slice buf 17 21; cmd ← LE_Uint 4 s;
      s ← slice buf 21 25; rc ← LE_Uint 4 s;
      s ← slice buf 25 29; flags ← LE_Uint 4 s;
      s ← slice buf 29 33; ver ← LE_Uint 4 s;
      Ok (mkHeader sig psize (bool_decide (b16 = 1)) cmd (i32 rc) flags ver).

(** The values a Go [Header] can hold. *)
Definition header_wf (h : Header) : Prop :=
  in_u 64 (h_Signature h) /\ in_u 64 (h_PayloadSize h) /\
  in_u 32 (h_Command h) /\ in_s 32 (h_ReturnCode h) /\
  in_u 32 (h_Flags h) /\ in_u 32 (h_ProtocolVersion h).

#[export] Instance header_wf_dec h : Decision (header_wf h).
Proof. unfold header_wf. apply _. Defined.

(** ** Lemmas *)

Lemma len_EncodeHeader h : len (EncodeHeader h) = HeaderSize.
Proof. reflexivity. Qed.

Lemma EncodeHeader_bytes h : all_bytes (EncodeHeader h).
Proof.
  unfold EncodeHeader. rewrite !Forall_app.
  split_and!; try apply le_bytes_all.
  constructor; [|done]. destruct (h_ExpectResponse h); done.
Qed.

(** One 33-byte array seen as its seven fields. *)
Definition header_fields (b : bytes) (f1 f2 : bytes) (x : Z) (f3 f4 f5 f6 : bytes) : Prop :=
  b = f1 ++ f2 ++ [x] ++ f3 ++ f4 ++ f5 ++ f6 /\
  length f1 = 8%nat /\ length f2 = 8%nat /\ length f3 = 4%nat /\
  length f4 = 4%nat /\ length f5 = 4%nat /\ length f6 = 4%nat.

(** [DecodeHeader] on an array split into its fields. *)
Lemma DecodeHeader_fields b f1 f2 x f3 f4 f5 f6 :
  header_fields b f1 f2 x f3 f4 f5 f6 ->
  DecodeHeader b =
    if decide (le_uint f1 <> Signature) then Fail ErrBadSignature
    else if decide (le_uint f2 > MaxPayloadSize) then Fail ErrPayloadTooBig
    else Ok (mkHeader (le_uint f1) (le_uint f2) (bool_decide (x = 1)) (le_uint f3)
               (i32 (le_uint f4)) (le_uint f5) (le_uint f6)).
Proof.
  intros (-> & L1 & L2 & L3 & L4 & L5 & L6).
  destruct f1 as [|? [|? [|? [|? [|? [|? [|? [|? [|]]]]]]]]]; try discriminate L1.
  destruct f2 as [|? [|? [|? [|? [|? [|? [|? [|? [|]]]]]]]]]; try discriminate L2.
  destruct f3 as [|? [|? [|? [|? [|]]]]]; try discriminate L3.
  destruct f4 as [|? [|? [|? [|? [|]]]]]; try discriminate L4.
  destruct f5 as [|? [|? [|? [|? [|]]]]]; try discriminate L5.
  destruct f6 as [|? [|? [|? [|? [|]]]]]; try discriminate L6.
  reflexivity.
Qed.

Lemma header_split b :
  len b = HeaderSize -> exists f1 f2 x f3 f4 f5 f6, header_fields b f1 f2 x f3 f4 f5 f6.
Proof.
  intros Hl. unfold len, HeaderSize in Hl.
  destruct (drop 16 b) as [|x t] eqn:Hd.
  { apply (f_equal length) in Hd. rewrite length_drop in Hd. cbn in Hd. lia. }
  exists (take 8 b), (take 8 (drop 8 b)), x, (take 4 t), (take 4 (drop 4 t)),
    (take 4 (drop 8 t)), (drop 12 t).
  assert (Ht : length t = 16%nat).
  { apply (f_equal length) in Hd. rewrite length_drop in Hd. cbn in Hd. lia. }
  unfold header_fields. rewrite !length_take, !length_drop, Ht.
  split_and!; try lia.
  rewrite <- (take_drop 8 b) at 1. f_equal.
  rewrite <- (take_drop 8 (drop 8 b)) at 1. f_equal.
  rewrite drop_drop. change (8 + 8)%nat with 16%nat. rewrite Hd. cbn [app]. f_equal.
  rewrite <- (take_drop 4 t) at 1. f_equal.
  rewrite <- (take_drop 4 (drop 4 t)) at 1. f_equal. rewrite drop_drop.
  rewrite <- (take_drop 4 (drop (4 + 4) t)) at 1. f_equal. by rewrite drop_drop.
Qed.

Lemma EncodeHeader_fields h :
  header_fields (EncodeHeader h)
    (le_bytes 8 (h_Signature h)) (le_bytes 8 (h_PayloadSize h))
    (if h_ExpectResponse h then 1 else 0) (le_bytes 4 (h_Command h))
    (le_bytes 4 (u32 (h_ReturnCode h))) (le_bytes 4 (h_Flags h))
    (le_bytes 4 (h_ProtocolVersion h)).
Proof. unfold header_fields. rewrite !length_le_bytes. done. Qed.

(** What an encoded header decodes to, for every header value. *)
Lemma Decode_Encode_cases h : header_wf h ->
  DecodeHeader (EncodeHeader h) =
    if decide (h_Signature h <> Signature) then Fail ErrBadSignature
    else if decide (h_PayloadSize h > MaxPayloadSize) then Fail ErrPayloadTooBig
    else Ok h.
Proof.
  intros (Hs & Hp & Hc & Hr & Hf & Hv).
  rewrite (DecodeHeader_fields _ _ _ _ _ _ _ _ (EncodeHeader_fields h)).
  rewrite !le_uint_le_bytes by (done || (apply uwrap_range; lia)).
  rewrite swrap_uwrap by (done || lia).
  case_decide; [done|]. case_decide; [done|]. by destruct h as [? ? [] ? ? ? ?].
Qed.

(** Every 33 bytes are decoded or rejected, never a panic. *)
Lemma DecodeHeader_total b :
  all_bytes b -> len b = HeaderSize ->
  (exists h, DecodeHeader b = Ok h /\ 0 <= h_PayloadSize h <= MaxPayloadSize) \/
  (exists e, DecodeHeader b = Fail e).
Proof.
  intros Hb Hl. destruct (header_split b Hl) as (f1 & f2 & x & f3 & f4 & f5 & f6 & Hf).
  rewrite (DecodeHeader_fields _ _ _ _ _ _ _ _ Hf). destruct Hf as (-> & _).
  rewrite !Forall_app in Hb. pose proof (le_uint_range f2 ltac:(tauto)) as [R2 _].
  case_decide; [eauto|]. case_decide; [eauto|]. left. eexists. split; [done|].
  cbn [h_PayloadSize]. lia.
Qed.

(** ** Theorems *)

(** Encoding a header and decoding it gives the header back
    when it carries the Levin signature and an admissible payload size, and
    the matching sentinel error otherwise; [ReturnCode] keeps its sign. *)
Theorem header_roundtrip h :
  header_wf h ->
  DecodeHeader (EncodeHeader h) =
    if decide (h_Signature h <> Signature) then Fail ErrBadSignature
    else if decide (h_PayloadSize h > MaxPayloadSize) then Fail ErrPayloadTooBig
    else Ok h.
Proof. apply Decode_Encode_cases. Qed.

Definition sample_header : Header :=
  mkHeader Signature 10 true CommandPing ReturnErrFormat 1 1.

Lemma header_roundtrip_witness :
  DecodeHeader (EncodeHeader sample_header) = Ok sample_header.
Proof.
  apply (header_roundtrip sample_header).
  apply (bool_decide_unpack _). vm_compute. exact I.
Defined.

(** On any 33 bytes [DecodeHeader] never panics, and it accepts
    only arrays that open with the signature and announce at most
    [MaxPayloadSize]; an accepted array is the encoding of the header returned,
    up to byte 16, of which every value but 1 reads as false. *)
Theorem header_decode_sound b :
  all_bytes b -> len b = HeaderSize ->
  match DecodeHeader b with
  | Ok h => header_wf h /\ h_Signature h = Signature /\
            0 <= h_PayloadSize h <= MaxPayloadSize /\
            EncodeHeader h = <[16%nat := if h_ExpectResponse h then 1 else 0]> b
  | Fail e => e = ErrBadSignature \/ e = ErrPayloadTooBig
  | _ => False
  end.
Proof.
  intros Hb Hl. destruct (header_split b Hl) as (f1 & f2 & x & f3 & f4 & f5 & f6 & Hf).
  rewrite (DecodeHeader_fields _ _ _ _ _ _ _ _ Hf).
  destruct Hf as (-> & L1 & L2 & L3 & L4 & L5 & L6).
  rewrite !Forall_app in Hb. destruct Hb as (B1 & B2 & _ & B3 & B4 & B5 & B6).
  pose proof (le_uint_range f1 B1) as R1. pose proof (le_uint_range f2 B2) as R2.
  pose proof (le_uint_range f3 B3) as R3. pose proof (le_uint_range f4 B4) as R4.
  pose proof (le_uint_range f5 B5) as R5. pose proof (le_uint_range f6 B6) as R6.
  unfold len in *. rewrite L1, L2, L3, L4, L5, L6 in *.
  case_decide as Hs; [by left|]. case_decide; [by right|].
  cbn [h_Signature h_PayloadSize h_ExpectResponse].
  split_and!; [by split_and!; try done; apply swrap_range; lia|lia|unfold in_u in R2; lia|lia|].
  unfold EncodeHeader. cbn [h_Signature h_PayloadSize h_ExpectResponse h_Command h_ReturnCode h_Flags h_ProtocolVersion].
  assert (Hu : u32 (i32 (le_uint f4)) = le_uint f4).
  { change (Z.of_nat 4) with 4 in R4. unfold in_u in R4. unfold swrap, uwrap. cbv zeta.
    rewrite (Z.mod_small (le_uint f4)) by lia. case_decide; [apply Z.mod_small; lia|].
    symmetry. apply (Z.mod_unique _ _ (-1)); lia. }
  rewrite Hu, <- L1, le_bytes_le_uint, <- L3, le_bytes_le_uint by done.
  rewrite L1, <- L2, le_bytes_le_uint, L3, <- L4, le_bytes_le_uint by done.
  rewrite L4, <- L5, le_bytes_le_uint, L5, <- L6, le_bytes_le_uint by done.
  rewrite insert_app_r_alt, insert_app_r_alt by lia. rewrite L1, L2.
  change (16 - 8 - 8)%nat with 0%nat. cbn. done.
Qed.

Lemma header_decode_sound_witness :
  EncodeHeader (mkHeader Signature 10 false 1003 (-7) 1 1) =
    <[16%nat := 0]> (<[16%nat := 9]> (EncodeHeader sample_header)).
Proof.
  pose proof (header_decode_sound (<[16%nat := 9]> (EncodeHeader sample_header))) as H.
  assert (Hd : DecodeHeader (<[16%nat := 9]> (EncodeHeader sample_header)) =
               Ok (mkHeader Signature 10 false 1003 (-7) 1 1)) by (vm_compute; reflexivity).
  rewrite Hd in H. apply H; [|reflexivity].
  apply Forall_insert; [apply EncodeHeader_bytes|done].
Defined.
