(* ===== verification/Storage.v ===== *)
(** * Portable storage: values and encoder (src/go/node/levin/storage.go)

    The [Value] struct with its constructors and accessors, and the encoder
    [EncodeStorage]/[encodeSection]/[encodeValue]/[encodeArray].  The decoder
    is in StorageDecode, the theorems in StorageProofs. *)

From S2P Require Import Prelude GoMap Varint.

Definition StorageSignatureA : Z := 0x01011101.
Definition StorageSignatureB : Z := 0x01020101.
Definition StorageVersion : Z := 1.
Definition StorageHeaderSize : Z := 9.

Definition TypeInt64 : Z := 1.
Definition TypeInt32 : Z := 2.
Definition TypeInt16 : Z := 3.
Definition TypeInt8 : Z := 4.
Definition TypeUint64 : Z := 5.
Definition TypeUint32 : Z := 6.
Definition TypeUint16 : Z := 7.
Definition TypeUint8 : Z := 8.
Definition TypeDouble : Z := 9.
Definition TypeString : Z := 10.
Definition TypeBool : Z := 11.
Definition TypeObject : Z := 12.
Definition ArrayFlag : Z := 128.

Definition ErrStorageBadSignature : error := E "levin.storage" "bad storage signature" None.
Definition ErrStorageTruncated : error := E "levin.storage" "truncated storage data" None.
Definition ErrStorageBadVersion : error := E "levin.storage" "unsupported storage version" None.
Definition ErrStorageNameTooLong : error := E "levin.storage" "entry name exceeds 255 bytes" None.
Definition ErrStorageTypeMismatch : error := E "levin.storage" "value type mismatch" None.
Definition ErrStorageUnknownType : error := E "levin.storage" "unknown type tag" None.

(** The [Value] struct.  A [float64] is kept as its IEEE-754 bit pattern
    ([math.Float64bits]), a [Section] as the association list of its map, and
    nil slices and maps as empty lists. *)
Inductive Value : Type := mkValue {
  Type_ : Z;
  intVal : Z;
  uintVal : Z;
  floatVal : Z;
  boolVal : bool;
  bytesVal : bytes;
  objectVal : list (string * Value);
  uint64Array : list Z;
  uint32Array : list Z;
  stringArray : list bytes;
  objectArray : list (list (string * Value))
}.

(** [type Section map[string]Value]. *)
Abbreviation StorageSection := (list (string * Value)).

(** The zero value of the struct, [Value{}]. *)
Definition zeroValue : Value := mkValue 0 0 0 0 false [] [] [] [] [] [].

(** ** Scalar constructors *)
Definition Uint64Val (v : Z) : Value := mkValue TypeUint64 0 v 0 false [] [] [] [] [] [].
Definition Uint32Val (v : Z) : Value := mkValue TypeUint32 0 v 0 false [] [] [] [] [] [].
Definition Uint16Val (v : Z) : Value := mkValue TypeUint16 0 v 0 false [] [] [] [] [] [].
Definition Uint8Val (v : Z) : Value := mkValue TypeUint8 0 v 0 false [] [] [] [] [] [].
Definition Int64Val (v : Z) : Value := mkValue TypeInt64 v 0 0 false [] [] [] [] [] [].
Definition Int32Val (v : Z) : Value := mkValue TypeInt32 v 0 0 false [] [] [] [] [] [].
Definition Int16Val (v : Z) : Value := mkValue TypeInt16 v 0 0 false [] [] [] [] [] [].
Definition Int8Val (v : Z) : Value := mkValue TypeInt8 v 0 0 false [] [] [] [] [] [].
Definition BoolVal (v : bool) : Value := mkValue TypeBool 0 0 0 v [] [] [] [] [] [].
Definition DoubleVal (v : Z) : Value := mkValue TypeDouble 0 0 v false [] [] [] [] [] [].
Definition StringVal (v : bytes) : Value := mkValue TypeString 0 0 0 false v [] [] [] [] [].
Definition ObjectVal (s : StorageSection) : Value := mkValue TypeObject 0 0 0 false [] s [] [] [] [].

(** ** Array constructors *)
Definition Uint64ArrayVal (vs : list Z) : Value :=
  mkValue (Z.lor ArrayFlag TypeUint64) 0 0 0 false [] [] vs [] [] [].
Definition Uint32ArrayVal (vs : list Z) : Value :=
  mkValue (Z.lor ArrayFlag TypeUint32) 0 0 0 false [] [] [] vs [] [].
Definition StringArrayVal (vs : list bytes) : Value :=
  mkValue (Z.lor ArrayFlag TypeString) 0 0 0 false [] [] [] [] vs [].
Definition ObjectArrayVal (vs : list StorageSection) : Value :=
  mkValue (Z.lor ArrayFlag TypeObject) 0 0 0 false [] [] [] [] [] vs.

(** ** Accessors: the value of the matching field, or a type mismatch *)
Definition AsUint64 (v : Value) : Result Z :=
  if decide (Type_ v <> TypeUint64) then Fail ErrStorageTypeMismatch else Ok (uintVal v).
Definition AsUint32 (v : Value) : Result Z :=
  if decide (Type_ v <> TypeUint32) then Fail ErrStorageTypeMismatch else Ok (u32 (uintVal v)).
Definition AsUint16 (v : Value) : Result Z :=
  if decide (Type_ v <> TypeUint16) then Fail ErrStorageTypeMismatch else Ok (u16 (uintVal v)).
Definition AsUint8 (v : Value) : Result Z :=
  if decide (Type_ v <> TypeUint8) then Fail ErrStorageTypeMismatch else Ok (u8 (uintVal v)).
Definition AsInt64 (v : Value) : Result Z :=
  if decide (Type_ v <> TypeInt64) then Fail ErrStorageTypeMismatch else Ok (intVal v).
Definition AsInt32 (v : Value) : Result Z :=
  if decide (Type_ v <> TypeInt32) then Fail ErrStorageTypeMismatch else Ok (i32 (intVal v)).
Definition AsInt16 (v : Value) : Result Z :=
  if decide (Type_ v <> TypeInt16) then Fail ErrStorageTypeMismatch else Ok (i16 (intVal v)).
Definition AsInt8 (v : Value) : Result Z :=
  if decide (Type_ v <> TypeInt8) then Fail ErrStorageTypeMismatch else Ok (i8 (intVal v)).
Definition AsBool (v : Value) : Result bool :=
  if decide (Type_ v <> TypeBool) then Fail ErrStorageTypeMismatch else Ok (boolVal v).
Definition AsDouble (v : Value) : Result Z :=
  if decide (Type_ v <> TypeDouble) then Fail ErrStorageTypeMismatch else Ok (floatVal v).
Definition AsString (v : Value) : Result bytes :=
  if decide (Type_ v <> TypeString) then Fail ErrStorageTypeMismatch else Ok (bytesVal v).
Definition AsSection (v : Value) : Result StorageSection :=
  if decide (Type_ v <> TypeObject) then Fail ErrStorageTypeMismatch else Ok (objectVal v).
Definition AsUint64Array (v : Value) : Result (list Z) :=
  if decide (Type_ v <> Z.lor ArrayFlag TypeUint64)
  then Fail ErrStorageTypeMismatch else Ok (uint64Array v).
Definition AsUint32Array (v : Value) : Result (list Z) :=
  if decide (Type_ v <> Z.lor ArrayFlag TypeUint32)
  then Fail ErrStorageTypeMismatch else Ok (uint32Array v).
Definition AsStringArray (v : Value) : Result (list bytes) :=
  if decide (Type_ v <> Z.lor ArrayFlag TypeString)
  then Fail ErrStorageTypeMismatch else Ok (stringArray v).
Definition AsSectionArray (v : Value) : Result (list StorageSection) :=
  if decide (Type_ v <> Z.lor ArrayFlag TypeObject)
  then Fail ErrStorageTypeMismatch else Ok (objectArray v).

(** ** Encoder

    [encodeSection], [encodeValue] and [encodeArray] are mutually recursive in
    Go.  The section and array bodies take the value encoder as an argument,
    and [encodeValue] ties the knot on a fuel that bounds the nesting depth. *)
Section encoder.
  Context (encodeValue : bytes -> Value -> Result bytes).

(** The loop over the sorted keys of a section. *)
Fixpoint encodeEntries (s : StorageSection) (keys : list string) (buf : bytes) : Result bytes :=
  match keys with
  | [] => Ok buf
  | name :: keys =>
      let v := default zeroValue (mget s name) in
      if decide (slen name > 255) then Fail ErrStorageNameTooLong
      else
        let buf := buf ++ [u8 (slen name)] in
        let buf := buf ++ bytes_of_string name in
        let buf := buf ++ [Type_ v] in
        buf ← encodeValue buf v;
        encodeEntries s keys buf
  end.

Definition encodeSection (buf : bytes) (s : StorageSection) : Result bytes :=
  let keys := sorted_keys s in
  let buf := buf ++ PackVarint (u64 (len keys)) in
  encodeEntries s keys buf.

(** The loop over the sections of an object array. *)
Fixpoint encodeSections (secs : list StorageSection) (buf : bytes) : Result bytes :=
  match secs with
  | [] => Ok buf
  | sec :: secs => buf ← encodeSection buf sec; encodeSections secs buf
  end.

Definition encodeArray (buf : bytes) (v : Value) : Result bytes :=
  let elemType := Z.land (Type_ v) (Z.lxor ArrayFlag 255) in
  if decide (elemType = TypeUint64) then
    Ok (foldl (fun buf n => buf ++ le_bytes 8 n)
          (buf ++ PackVarint (u64 (len (uint64Array v)))) (uint64Array v))
  else if decide (elemType = TypeUint32) then
    Ok (foldl (fun buf n => buf ++ le_bytes 4 n)
          (buf ++ PackVarint (u64 (len (uint32Array v)))) (uint32Array v))
  else if decide (elemType = TypeString) then
    Ok (foldl (fun buf s => (buf ++ PackVarint (u64 (len s))) ++ s)
          (buf ++ PackVarint (u64 (len (stringArray v)))) (stringArray v))
  else if decide (elemType = TypeObject) then
    encodeSections (objectArray v) (buf ++ PackVarint (u64 (len (objectArray v))))
  else
    Fail (E "levin.encodeArray" ("unknown type tag: array of 0x" +:+ hex2 elemType)
            (Some ErrStorageUnknownType)).

(** One unfolding of [encodeValue]. *)
Definition encodeValueBody (buf : bytes) (v : Value) : Result bytes :=
  if decide (Z.land (Type_ v) ArrayFlag <> 0) then encodeArray buf v
  else if decide (Type_ v = TypeUint64) then Ok (buf ++ le_bytes 8 (uintVal v))
  else if decide (Type_ v = TypeInt64) then Ok (buf ++ le_bytes 8 (u64 (intVal v)))
  else if decide (Type_ v = TypeDouble) then Ok (buf ++ le_bytes 8 (floatVal v))
  else if decide (Type_ v = TypeUint32) then Ok (buf ++ le_bytes 4 (u32 (uintVal v)))
  else if decide (Type_ v = TypeInt32) then Ok (buf ++ le_bytes 4 (u32 (intVal v)))
  else if decide (Type_ v = TypeUint16) then Ok (buf ++ le_bytes 2 (u16 (uintVal v)))
  else if decide (Type_ v = TypeInt16) then Ok (buf ++ le_bytes 2 (u16 (intVal v)))
  else if decide (Type_ v = TypeUint8) then Ok (buf ++ [u8 (uintVal v)])
  else if decide (Type_ v = TypeInt8) then Ok (buf ++ [u8 (intVal v)])
  else if decide (Type_ v = TypeBool) then
    if boolVal v then Ok (buf ++ [1]) else Ok (buf ++ [0])
  else if decide (Type_ v = TypeString) then
    let buf := buf ++ PackVarint (u64 (len (bytesVal v))) in
    Ok (buf ++ bytesVal v)
  else if decide (Type_ v = TypeObject) then encodeSection buf (objectVal v)
  else
    Fail (E "levin.encodeValue" ("unknown type tag: 0x" +:+ hex2 (Type_ v))
            (Some ErrStorageUnknownType)).
End encoder.

Fixpoint encodeValue (fuel : nat) (buf : bytes) (v : Value) : Result bytes :=
  match fuel with
  | O => OutOfFuel
  | S fuel => encodeValueBody (encodeValue fuel) buf v
  end.

Definition max_depth {A} (f : A -> nat) (l : list A) : nat := foldr (fun x n => f x `max` n)%nat O l.

(** Nesting depth of a value: the fuel the encoder needs. *)
Fixpoint value_depth (v : Value) : nat :=
  match v with
  | mkValue _ _ _ _ _ _ obj _ _ _ objs =>
      S (max_depth (fun kv => match kv with (_, w) => value_depth w end) obj `max`
         max_depth (max_depth (fun kv => match kv with (_, w) => value_depth w end)) objs)
  end.
Definition section_depth (s : StorageSection) : nat :=
  max_depth (fun kv => value_depth kv.2) s.

Definition storage_header : bytes :=
  le_bytes 4 StorageSignatureA ++ le_bytes 4 StorageSignatureB ++ [StorageVersion].

Definition EncodeStorage (s : StorageSection) : Result bytes :=
  encodeSection (encodeValue (section_depth s)) storage_header s.
