(* ===== verification/StorageDecode.v ===== *)
(** * Portable storage: decoder (src/go/node/levin/storage.go)

    [DecodeStorage], [decodeSection], [decodeValue] and [decodeArray], with the
    offsets, guards, slice expressions and allocations of the source.  A loop
    that runs [count] times, where [count] comes from the wire and can be as
    large as 2^62-1, runs on a fuel of one more than the length of its buffer:
    every iteration consumes a byte or fails.  The recursion between sections
    and values runs on a fuel bounded by the length of the input as well. *)

From S2P Require Import Prelude GoMap Varint Storage.

Record decodedSectionResult : Type := mkDecodedSection {
  ds_Section : StorageSection;
  ds_Consumed : Z
}.

Record decodedValueResult : Type := mkDecodedValue {
  dv_Value : Value;
  dv_Consumed : Z
}.

(** [for i := range count { if off+n > len(buf) ...; arr[i] = Uint(buf[off:off+n]); off += n }]. *)
Fixpoint decodeUints (n : nat) (lfuel : nat) (buf : bytes) (count off : Z) (arr : list Z)
    : Result (list Z * Z) :=
  if decide (count <= 0) then Ok (arr, off)
  else match lfuel with
  | O => OutOfFuel
  | S lfuel =>
      if decide (off + Z.of_nat n > len buf) then Fail ErrStorageTruncated
      else
        s ← slice buf off (off + Z.of_nat n);
        x ← LE_Uint n s;
        decodeUints n lfuel buf (count - 1) (off + Z.of_nat n) (arr ++ [x])
  end.

(** The loop of the string-array case. *)
Fixpoint decodeStrings (lfuel : nat) (buf : bytes) (count off : Z) (arr : list bytes)
    : Result (list bytes * Z) :=
  if decide (count <= 0) then Ok (arr, off)
  else match lfuel with
  | O => OutOfFuel
  | S lfuel =>
      tail ← slice_from buf off;
      unpacked ← UnpackVarint tail;
      let strLen := uv_Value unpacked in
      let off := off + uv_BytesConsumed unpacked in
      if decide (u64 (len buf - off) < strLen) then Fail ErrStorageTruncated
      else
        _ ← makeslice 1 strLen;
        data ← slice buf off (off + strLen);
        decodeStrings lfuel buf (count - 1) (off + strLen) (arr ++ [data])
  end.

Section decoder.
  Context (decodeValue : bytes -> Z -> Result decodedValueResult).

(** The loop over the entries of a section. *)
Fixpoint decodeEntries (lfuel : nat) (buf : bytes) (count off : Z) (s : StorageSection)
    : Result decodedSectionResult :=
  if decide (count <= 0) then Ok (mkDecodedSection s off)
  else match lfuel with
  | O => OutOfFuel
  | S lfuel =>
      if decide (off >= len buf) then Fail ErrStorageTruncated
      else
        nameLen ← index buf off;
        let off := off + 1 in
        if decide (off + nameLen > len buf) then Fail ErrStorageTruncated
        else
          nameBytes ← slice buf off (off + nameLen);
          let name := string_of_bytes nameBytes in
          let off := off + nameLen in
          if decide (off >= len buf) then Fail ErrStorageTruncated
          else
            tag ← index buf off;
            let off := off + 1 in
            tail ← slice_from buf off;
            decoded ← map_fail (fun err => E "levin.decodeSection" ("field " +:+ name) (Some err))
                        (decodeValue tail tag);
            let off := off + dv_Consumed decoded in
            decodeEntries lfuel buf (count - 1) off (mset s name (dv_Value decoded))
  end.

Definition decodeSection (buf : bytes) : Result decodedSectionResult :=
  unpacked ← map_fail (fun err => E "levin.decodeSection" "section entry count" (Some err))
               (UnpackVarint buf);
  let count := uv_Value unpacked in
  let off := uv_BytesConsumed unpacked in
  decodeEntries (S (length buf)) buf count off [].

(** The loop of the object-array case. *)
Fixpoint decodeSections (lfuel : nat) (buf : bytes) (count off : Z) (arr : list StorageSection)
    : Result (list StorageSection * Z) :=
  if decide (count <= 0) then Ok (arr, off)
  else match lfuel with
  | O => OutOfFuel
  | S lfuel =>
      tail ← slice_from buf off;
      decoded ← decodeSection tail;
      decodeSections lfuel buf (count - 1) (off + ds_Consumed decoded)
        (arr ++ [ds_Section decoded])
  end.

(** Sizes of the array elements in memory: [uint64], [uint32], [[]byte] (a
    slice header) and [Section] (a map pointer). *)
Definition decodeArray (buf : bytes) (tag : Z) : Result decodedValueResult :=
  let elemType := Z.land tag (Z.lxor ArrayFlag 255) in
  unpacked ← UnpackVarint buf;
  let count := uv_Value unpacked in
  let off := uv_BytesConsumed unpacked in
  let fuel := S (length buf) in
  if decide (elemType = TypeUint64) then
    _ ← makeslice 8 count;
    r ← decodeUints 8 fuel buf count off [];
    Ok (mkDecodedValue (mkValue tag 0 0 0 false [] [] r.1 [] [] []) r.2)
  else if decide (elemType = TypeUint32) then
    _ ← makeslice 4 count;
    r ← decodeUints 4 fuel buf count off [];
    Ok (mkDecodedValue (mkValue tag 0 0 0 false [] [] [] r.1 [] []) r.2)
  else if decide (elemType = TypeString) then
    _ ← makeslice 24 count;
    r ← decodeStrings fuel buf count off [];
    Ok (mkDecodedValue (mkValue tag 0 0 0 false [] [] [] [] r.1 []) r.2)
  else if decide (elemType = TypeObject) then
    _ ← makeslice 8 count;
    r ← decodeSections fuel buf count off [];
    Ok (mkDecodedValue (mkValue tag 0 0 0 false [] [] [] [] [] r.1) r.2)
  else
    Fail (E "levin.decodeArray" ("unknown type tag: array of 0x" +:+ hex2 elemType)
            (Some ErrStorageUnknownType)).

(** A fixed-width scalar: [if len(buf) < n { truncated }; Uint(buf[:n])]. *)
Definition decodeScalar (n : nat) (buf : bytes) (mk : Z -> Value) : Result decodedValueResult :=
  if decide (len buf < Z.of_nat n) then Fail ErrStorageTruncated
  else
    s ← slice buf 0 (Z.of_nat n);
    v ← LE_Uint n s;
    Ok (mkDecodedValue (mk v) (Z.of_nat n)).

(** One unfolding of [decodeValue]. *)
Definition decodeValueBody (buf : bytes) (tag : Z) : Result decodedValueResult :=
  if decide (Z.land tag ArrayFlag <> 0) then decodeArray buf tag
  else if decide (tag = TypeUint64) then decodeScalar 8 buf Uint64Val
  else if decide (tag = TypeInt64) then decodeScalar 8 buf (fun v => Int64Val (i64 v))
  else if decide (tag = TypeDouble) then decodeScalar 8 buf DoubleVal
  else if decide (tag = TypeUint32) then decodeScalar 4 buf Uint32Val
  else if decide (tag = TypeInt32) then decodeScalar 4 buf (fun v => Int32Val (i32 v))
  else if decide (tag = TypeUint16) then decodeScalar 2 buf Uint16Val
  else if decide (tag = TypeInt16) then decodeScalar 2 buf (fun v => Int16Val (i16 v))
  else if decide (tag = TypeUint8) then
    if decide (len buf < 1) then Fail ErrStorageTruncated
    else b ← index buf 0; Ok (mkDecodedValue (Uint8Val b) 1)
  else if decide (tag = TypeInt8) then
    if decide (len buf < 1) then Fail ErrStorageTruncated
    else b ← index buf 0; Ok (mkDecodedValue (Int8Val (i8 b)) 1)
  else if decide (tag = TypeBool) then
    if decide (len buf < 1) then Fail ErrStorageTruncated
    else b ← index buf 0; Ok (mkDecodedValue (BoolVal (bool_decide (b <> 0))) 1)
  else if decide (tag = TypeString) then
    unpacked ← UnpackVarint buf;
    let strLen := uv_Value unpacked in
    let n := uv_BytesConsumed unpacked in
    if decide (u64 (len buf - n) < strLen) then Fail ErrStorageTruncated
    else
      _ ← makeslice 1 strLen;
      data ← slice buf n (n + strLen);
      Ok (mkDecodedValue (StringVal data) (n + strLen))
  else if decide (tag = TypeObject) then
    decoded ← decodeSection buf;
    Ok (mkDecodedValue (ObjectVal (ds_Section decoded)) (ds_Consumed decoded))
  else
    Fail (E "levin.decodeValue" ("unknown type tag: 0x" +:+ hex2 tag)
            (Some ErrStorageUnknownType)).
End decoder.

Fixpoint decodeValue (fuel : nat) (buf : bytes) (tag : Z) : Result decodedValueResult :=
  match fuel with
  | O => OutOfFuel
  | S fuel => decodeValueBody (decodeValue fuel) buf tag
  end.

Definition DecodeStorage (data : bytes) : Result StorageSection :=
  if decide (len data < StorageHeaderSize) then Fail ErrStorageTruncated
  else
    s ← slice data 0 4; sigA ← LE_Uint 4 s;
    s ← slice data 4 8; sigB ← LE_Uint 4 s;
    ver ← index data 8;
    if decide (sigA <> StorageSignatureA \/ sigB <> StorageSignatureB)
    then Fail ErrStorageBadSignature
    else if decide (ver <> StorageVersion) then Fail ErrStorageBadVersion
    else
      tail ← slice_from data StorageHeaderSize;
      decoded ← decodeSection (decodeValue (length data)) tail;
      Ok (ds_Section decoded).

(** A small round trip, evaluated. *)
Example storage_sample :
  let s := [("b", Uint64Val 7); ("a", ObjectVal [("x", StringVal [1; 2])]);
            ("c", StringArrayVal [[3]; []])] in
  (EncodeStorage s ≫= DecodeStorage) = Ok (mcanon s).
Proof. vm_compute. reflexivity. Qed.
