(* ===== verification/StorageProofs.v ===== *)
(** * Portable storage: theorems

    Round trip and determinism of the encoder,
    for the definitions of Storage and StorageDecode. *)

From S2P Require Import Prelude GoMap Varint Storage StorageDecode.

(** ** Map equality of sections

    [norm] puts every section of a value, at every depth, in ascending key
    order; two sections denote the same nested Go maps when their normal forms
    are equal. *)
Fixpoint norm (v : Value) : Value :=
  match v with
  | mkValue t i u f b bs obj u64s u32s strs objs =>
      mkValue t i u f b bs
        (mcanon (map (fun kv => match kv with (k, w) => (k, norm w) end) obj))
        u64s u32s strs
        (map (fun s => mcanon (map (fun kv => match kv with (k, w) => (k, norm w) end) s)) objs)
  end.

Definition norm_section (s : StorageSection) : StorageSection :=
  mcanon (prod_map id norm <$> s).

Definition section_equiv (s1 s2 : StorageSection) : Prop :=
  norm_section s1 = norm_section s2.
#[export] Instance StorageSection_equiv : Equiv StorageSection := section_equiv.
#[export] Instance section_equivalence : Equivalence (≡@{StorageSection}).
Proof. split; congruence. Qed.

(** ** Well-formed values: what the constructor functions build from machine
    values, with distinct section keys of at most 255 bytes. *)
Inductive wf_value : Value -> Prop :=
| wf_Uint64 x : in_u 64 x -> wf_value (Uint64Val x)
| wf_Uint32 x : in_u 32 x -> wf_value (Uint32Val x)
| wf_Uint16 x : in_u 16 x -> wf_value (Uint16Val x)
| wf_Uint8 x : in_u 8 x -> wf_value (Uint8Val x)
| wf_Int64 x : in_s 64 x -> wf_value (Int64Val x)
| wf_Int32 x : in_s 32 x -> wf_value (Int32Val x)
| wf_Int16 x : in_s 16 x -> wf_value (Int16Val x)
| wf_Int8 x : in_s 8 x -> wf_value (Int8Val x)
| wf_Bool x : wf_value (BoolVal x)
| wf_Double x : in_u 64 x -> wf_value (DoubleVal x)
| wf_String x : all_bytes x -> wf_value (StringVal x)
| wf_Object s :
    mwf s -> Forall (fun kv => slen kv.1 <= 255) s -> Forall (fun kv => wf_value kv.2) s ->
    wf_value (ObjectVal s)
| wf_Uint64Array xs : Forall (in_u 64) xs -> wf_value (Uint64ArrayVal xs)
| wf_Uint32Array xs : Forall (in_u 32) xs -> wf_value (Uint32ArrayVal xs)
| wf_StringArray xs : Forall all_bytes xs -> wf_value (StringArrayVal xs)
| wf_ObjectArray ss :
    Forall (fun s => mwf s) ss ->
    Forall (Forall (fun kv => slen kv.1 <= 255)) ss ->
    Forall (Forall (fun kv => wf_value kv.2)) ss ->
    wf_value (ObjectArrayVal ss).

Definition wf_section (s : StorageSection) : Prop :=
  mwf s /\ Forall (fun kv => slen kv.1 <= 255) s /\ Forall (fun kv => wf_value kv.2) s.

Lemma norm_entries s :
  mcanon (map (fun kv => match kv with (k, w) => (k, norm w) end) s) = norm_section s.
Proof. unfold norm_section. f_equal. by apply map_ext; intros []. Qed.

Lemma norm_Object s : norm (ObjectVal s) = ObjectVal (norm_section s).
Proof. cbn. by rewrite norm_entries. Qed.

Lemma norm_ObjectArray ss : norm (ObjectArrayVal ss) = ObjectArrayVal (norm_section <$> ss).
Proof. cbn. unfold ObjectArrayVal. f_equal. apply map_ext, norm_entries. Qed.

Lemma norm_Type v : Type_ (norm v) = Type_ v.
Proof. by destruct v. Qed.

Lemma norm_section_entries s : norm_section s = prod_map id norm <$> mcanon s.
Proof. apply mcanon_fmap. Qed.

(** ** Depth *)
Lemma max_depth_le {A} (f : A -> nat) l n :
  (max_depth f l <= n)%nat <-> Forall (fun x => (f x <= n)%nat) l.
Proof.
  unfold max_depth. induction l as [|x l IH]; cbn [foldr].
  - split; [by constructor|]. intros _. apply Nat.le_0_l.
  - rewrite Forall_cons, <- IH. lia.
Qed.

Lemma max_depth_ext {A} (f g : A -> nat) l :
  (forall x, f x = g x) -> max_depth f l = max_depth g l.
Proof. intros H. unfold max_depth. induction l; cbn [foldr]; congruence. Qed.

Lemma section_depth_entries (s : StorageSection) :
  max_depth (fun kv => match kv with (_, w) => value_depth w end) s = section_depth s.
Proof. apply max_depth_ext. by intros []. Qed.

Lemma value_depth_Object s : value_depth (ObjectVal s) = S (section_depth s).
Proof. cbn [value_depth ObjectVal]. by rewrite section_depth_entries, Nat.max_0_r. Qed.

Lemma value_depth_ObjectArray ss :
  value_depth (ObjectArrayVal ss) = S (max_depth section_depth ss).
Proof.
  cbn [value_depth ObjectArrayVal]. f_equal. apply max_depth_ext, section_depth_entries.
Qed.

Lemma section_depth_le s n :
  (section_depth s <= n)%nat <-> Forall (fun kv => (value_depth kv.2 <= n)%nat) s.
Proof. apply max_depth_le. Qed.

(** ** Encodings as byte strings *)

(** [b] is what [encV] appends for [v]. *)
Definition encodes (encV : bytes -> Value -> Result bytes) (v : Value) (b : bytes) : Prop :=
  forall buf, encV buf v = Ok (buf ++ b).

(** Inputs small enough for every allocation the decoder makes on them: three
    machine words per byte. *)
Definition fits (b : bytes) : Prop := 24 * len b <= maxAlloc.

(** [decV] reads [v] back from [b], whatever follows. *)
Definition decodes (decV : bytes -> Z -> Result decodedValueResult) (v : Value) (b : bytes) : Prop :=
  forall rest, fits (b ++ rest) ->
    decV (b ++ rest) (Type_ v) = Ok (mkDecodedValue (norm v) (len b)).

(** The bytes of one section entry. *)
Definition entry_bytes (kv : string * Value) (b : bytes) : bytes :=
  [slen kv.1] ++ bytes_of_string kv.1 ++ [Type_ kv.2] ++ b.
Definition entries_bytes (es : StorageSection) (bs : list bytes) : bytes :=
  concat (zip_with entry_bytes es bs).

Lemma entries_bytes_cons kv es b bs :
  entries_bytes (kv :: es) (b :: bs) = entry_bytes kv b ++ entries_bytes es bs.
Proof. reflexivity. Qed.

Lemma slen_nonneg s : 0 <= slen s.
Proof. unfold slen. lia. Qed.

Lemma len_entry_bytes kv b : len (entry_bytes kv b) = 2 + slen kv.1 + len b.
Proof. unfold entry_bytes. autorewrite with go. lia. Qed.

Lemma entries_bytes_len es bs : length es = length bs ->
  2 * len es <= len (entries_bytes es bs).
Proof.
  revert bs. induction es as [|kv es IH]; intros [|b bs]; try done; intros [= Hl].
  rewrite entries_bytes_cons. autorewrite with go.
  rewrite len_entry_bytes. specialize (IH bs Hl).
  pose proof (slen_nonneg kv.1). pose proof (len_nonneg b). lia.
Qed.

Lemma encodeEntries_spec encV s es bs buf :
  Forall (fun kv => mget s kv.1 = Some kv.2) es ->
  Forall (fun kv => slen kv.1 <= 255) es ->
  Forall2 (fun kv b => encodes encV kv.2 b) es bs ->
  encodeEntries encV s es.*1 buf = Ok (buf ++ entries_bytes es bs).
Proof.
  intros Hg Hn He. revert buf Hg Hn.
  induction He as [|[k v] b es bs Hb He IH]; intros buf Hg Hn.
  - cbn. by rewrite app_nil_r.
  - apply Forall_cons in Hg as [Hk Hg]. apply Forall_cons in Hn as [Hs Hn]. cbn in Hk, Hs, Hb.
    rewrite fmap_cons. cbn [encodeEntries fst]. rewrite Hk. cbn [default id].
    rewrite decide_False by lia. cbv zeta.
    rewrite Hb. cbn [mbind Result_bind]. rewrite IH by done. f_equal.
    rewrite entries_bytes_cons. unfold entry_bytes. cbn [fst snd].
    rewrite uwrap_id by (pose proof (slen_nonneg k); unfold in_u; lia).
    by rewrite <- !app_assoc.
Qed.

(** Splitting a buffer just before one of the pieces of an entry. *)
Lemma decodeEntries_step decV lfuel buf pre k v b c acc count :
  buf = pre ++ entry_bytes (k, v) b ++ c ->
  slen k <= 255 -> fits buf -> decodes decV v b -> 0 < count -> k ∉ acc.*1 ->
  decodeEntries decV (S lfuel) buf count (len pre) acc =
    decodeEntries decV lfuel buf (count - 1) (len (pre ++ entry_bytes (k, v) b))
      (acc ++ [(k, norm v)]).
Proof.
  intros Hbuf Hk Hfit Hdec Hc Hacc. pose proof (slen_nonneg k) as Hk0.
  set (nm := bytes_of_string k).
  assert (Hnm : len nm = slen k) by apply len_bytes_of_string.
  assert (H1 : buf = pre ++ slen k :: nm ++ Type_ v :: b ++ c).
  { rewrite Hbuf. unfold entry_bytes. cbn [fst snd app]. by rewrite <- app_assoc. }
  assert (H2 : buf = (pre ++ [slen k]) ++ nm ++ (Type_ v :: b ++ c))
    by (rewrite H1, <- app_assoc; done).
  assert (H3 : buf = (pre ++ [slen k] ++ nm) ++ Type_ v :: (b ++ c))
    by (rewrite H1, <- !app_assoc; done).
  assert (H4 : buf = (pre ++ [slen k] ++ nm ++ [Type_ v]) ++ (b ++ c))
    by (rewrite H1, <- !app_assoc; done).
  assert (Hl : len buf = len pre + 1 + slen k + 1 + len b + len c)
    by (rewrite H1; autorewrite with go; rewrite Hnm; lia).
  pose proof (len_nonneg b). pose proof (len_nonneg c). pose proof (len_nonneg pre).
  cbn [decodeEntries]. rewrite decide_False by lia. rewrite decide_False by lia.
  rewrite H1 at 1. rewrite index_mid. cbn [mbind Result_bind].
  rewrite decide_False by lia.
  rewrite H2 at 1. rewrite slice_mid by (autorewrite with go; lia). cbn [mbind Result_bind].
  rewrite decide_False by lia.
  replace (len pre + 1 + slen k) with (len (pre ++ [slen k] ++ nm)) by (autorewrite with go; lia).
  rewrite H3 at 1. rewrite index_mid. cbn [mbind Result_bind].
  rewrite H4 at 1. rewrite slice_from_app by (autorewrite with go; lia). cbn [mbind Result_bind].
  rewrite Hdec by (unfold fits in *; autorewrite with go; lia).
  cbn [mbind Result_bind map_fail dv_Consumed dv_Value].
  subst nm. rewrite string_of_bytes_of_string, mset_fresh by done. f_equal.
  unfold entry_bytes. cbn [fst snd]. autorewrite with go. lia.
Qed.

Lemma decodeEntries_spec decV es bs pre rest acc lfuel :
  Forall2 (fun kv b => decodes decV kv.2 b) es bs ->
  Forall (fun kv => slen kv.1 <= 255) es -> NoDup (acc.*1 ++ es.*1) ->
  (length es <= lfuel)%nat -> fits (pre ++ entries_bytes es bs ++ rest) ->
  decodeEntries decV lfuel (pre ++ entries_bytes es bs ++ rest) (len es) (len pre) acc =
    Ok (mkDecodedSection (acc ++ (prod_map id norm <$> es)) (len pre + len (entries_bytes es bs))).
Proof.
  intros Hd. revert pre acc lfuel.
  induction Hd as [|[k v] b es bs Hb Hd IH]; intros pre acc lfuel Hn Hnd Hf Hfit.
  - destruct lfuel; cbn; rewrite app_nil_r, Z.add_0_r; done.
  - apply Forall_cons in Hn as [Hk Hn]. destruct lfuel as [|lfuel]; [cbn in Hf; lia|].
    rewrite fmap_cons in Hnd. cbn [fst] in Hnd, Hk.
    rewrite entries_bytes_cons, <- app_assoc in *.
    rewrite (decodeEntries_step _ _ _ pre k v b (entries_bytes es bs ++ rest)); try done.
    + rewrite len_cons, app_assoc, app_assoc. rewrite app_assoc in Hfit.
      replace (1 + len es - 1) with (len es) by lia. rewrite <- app_assoc.
      rewrite IH; [|done| |cbn in Hf; lia|done].
      * rewrite fmap_cons, <- app_assoc. cbn [app]. do 2 f_equal. autorewrite with go. lia.
      * rewrite fmap_app, <- app_assoc. done.
    + apply NoDup_app in Hnd as (_ & Hnd & _). intros Hin. apply (Hnd _ Hin). set_solver.
Qed.

(** The bytes of a section, given those of its values in key order. *)
Definition section_bytes (s : StorageSection) (bs : list bytes) : bytes :=
  PackVarint (u64 (len s)) ++ entries_bytes (mcanon s) bs.

Lemma mcanon_Forall (P : string * Value -> Prop) s : mwf s -> Forall P s -> Forall P (mcanon s).
Proof. intros Hwf. by rewrite (mcanon_Permutation s Hwf). Qed.

Lemma encodeSection_spec encV s bs buf :
  wf_section s -> Forall2 (fun kv b => encodes encV kv.2 b) (mcanon s) bs ->
  encodeSection encV buf s = Ok (buf ++ section_bytes s bs).
Proof.
  intros (Hwf & Hn & _) He. unfold encodeSection.
  rewrite <- mcanon_keys, (encodeEntries_spec _ _ _ bs); [|..|by apply mcanon_Forall|done].
  - assert (Hlk : len ((mcanon s).*1) = len s)
      by (rewrite <- (len_mcanon s Hwf); unfold len; by rewrite length_fmap).
    unfold section_bytes. by rewrite Hlk, <- app_assoc.
  - apply Forall_forall. intros [k v] Hin. apply mget_Some; [done|]. by apply elem_of_mcanon.
Qed.

Lemma decodeSection_spec decV s bs rest :
  wf_section s -> Forall2 (fun kv b => decodes decV kv.2 b) (mcanon s) bs ->
  fits (section_bytes s bs ++ rest) ->
  decodeSection decV (section_bytes s bs ++ rest) =
    Ok (mkDecodedSection (norm_section s) (len (section_bytes s bs))).
Proof.
  intros (Hwf & Hn & _) Hd Hfit. unfold decodeSection, section_bytes in *.
  set (cnt := PackVarint (u64 (len s))) in *. set (eb := entries_bytes (mcanon s) bs) in *.
  pose proof (entries_bytes_len (mcanon s) bs (Forall2_length _ _ _ Hd)) as Hel.
  fold eb in Hel. rewrite (len_mcanon s Hwf) in Hel.
  assert (Hs : 0 <= len s < 2 ^ 48).
  { unfold fits, maxAlloc in Hfit. autorewrite with go in Hfit.
    pose proof (len_nonneg s). pose proof (len_nonneg cnt). pose proof (len_nonneg rest). lia. }
  assert (Hcnt : cnt = PackVarint (len s))
    by (unfold cnt; by rewrite uwrap_id by (unfold in_u; lia)).
  clearbody cnt. rewrite <- app_assoc in *. rewrite Hcnt at 1.
  rewrite Unpack_Pack by lia. cbn [map_fail mbind Result_bind uv_Value uv_BytesConsumed].
  rewrite Z.mod_small by lia. rewrite <- Hcnt, <- (len_mcanon s Hwf).
  pose proof (decodeEntries_spec decV (mcanon s) bs cnt rest [] (S (length (cnt ++ eb ++ rest)))) as Hde.
  fold eb in Hde. rewrite Hde; try done.
  - cbn [app]. by rewrite norm_section_entries, len_app.
  - by apply mcanon_Forall.
  - cbn [fmap list_fmap app]. by apply mcanon_wf.
  - rewrite <- (len_mcanon s Hwf) in Hel. unfold len in Hel. rewrite !length_app. lia.
Qed.

(** ** Arrays *)
Lemma foldl_append {A} (f : A -> bytes) (xs : list A) (g : bytes -> A -> bytes) buf :
  (forall b x, g b x = b ++ f x) -> foldl g buf xs = buf ++ concat (f <$> xs).
Proof.
  intros Hg. revert buf. induction xs as [|x xs IH]; intros buf; cbn.
  - by rewrite app_nil_r.
  - by rewrite IH, Hg, <- app_assoc.
Qed.

Lemma concat_len_ge {A} (f : A -> bytes) (xs : list A) n :
  (forall x, n <= len (f x)) -> n * len xs <= len (concat (f <$> xs)).
Proof.
  intros Hf. induction xs as [|x xs IH]; cbn [fmap list_fmap concat]; autorewrite with go; [lia|].
  specialize (Hf x). lia.
Qed.

Lemma decodeUints_spec n xs pre rest arr lfuel :
  Forall (in_u (8 * Z.of_nat n)) xs -> (length xs <= lfuel)%nat ->
  decodeUints n lfuel (pre ++ concat (le_bytes n <$> xs) ++ rest) (len xs) (len pre) arr =
    Ok (arr ++ xs, len pre + len (concat (le_bytes n <$> xs))).
Proof.
  intros Hx. revert pre arr lfuel.
  induction Hx as [|x xs Hx Hxs IH]; intros pre arr lfuel Hf.
  - destruct lfuel; cbn; rewrite app_nil_r, Z.add_0_r; done.
  - destruct lfuel as [|lfuel]; [cbn in Hf; lia|].
    rewrite fmap_cons. cbn [concat decodeUints]. rewrite <- !app_assoc.
    set (tl := concat (le_bytes n <$> xs)).
    pose proof (len_nonneg xs). pose proof (len_nonneg (tl ++ rest)).
    rewrite decide_False by (rewrite len_cons; lia).
    rewrite decide_False by (rewrite !len_app, len_le_bytes; rewrite len_app in *; lia).
    rewrite slice_mid by (rewrite ?len_le_bytes; lia). cbn [mbind Result_bind].
    rewrite LE_Uint_exact by done. cbn [mbind Result_bind].
    specialize (IH (pre ++ le_bytes n x) (arr ++ [x]) lfuel ltac:(cbn in Hf; lia)).
    fold tl in IH. rewrite <- !app_assoc, !len_app, len_le_bytes in IH.
    rewrite len_cons. replace (1 + len xs - 1) with (len xs) by lia.
    rewrite IH. cbn [app]. do 2 f_equal. rewrite len_app, len_le_bytes. lia.
Qed.

Definition string_bytes (s : bytes) : bytes := PackVarint (u64 (len s)) ++ s.

Lemma len_Pack_ge1 v : 0 <= v -> 1 <= len (PackVarint v).
Proof. intros. rewrite len_PackVarint by done. pose proof (mark_width_cases (mark_of v)). lia. Qed.

Lemma len_Pack_u64 z : 1 <= len (PackVarint (u64 z)).
Proof. apply len_Pack_ge1. apply uwrap_range. lia. Qed.

Lemma length_Pack_u64 z : (1 <= length (PackVarint (u64 z)))%nat.
Proof. pose proof (len_Pack_u64 z) as H. unfold len in H. lia. Qed.

Lemma decodeStrings_spec xs pre rest arr lfuel :
  (length xs <= lfuel)%nat -> fits (pre ++ concat (string_bytes <$> xs) ++ rest) ->
  decodeStrings lfuel (pre ++ concat (string_bytes <$> xs) ++ rest) (len xs) (len pre) arr =
    Ok (arr ++ xs, len pre + len (concat (string_bytes <$> xs))).
Proof.
  revert pre arr lfuel.
  induction xs as [|x xs IH]; intros pre arr lfuel Hf Hfit.
  - destruct lfuel; cbn; rewrite app_nil_r, Z.add_0_r; done.
  - destruct lfuel as [|lfuel]; [cbn in Hf; lia|].
    rewrite fmap_cons in *. cbn [concat decodeStrings] in *. rewrite <- !app_assoc in *.
    set (tl := concat (string_bytes <$> xs)) in *.
    assert (Hx : 0 <= len x < 2 ^ 48).
    { unfold fits, maxAlloc, string_bytes in Hfit. autorewrite with go in Hfit.
      pose proof (len_nonneg x). pose proof (len_nonneg pre). pose proof (len_nonneg tl).
      pose proof (len_nonneg rest). pose proof (len_Pack_u64 (len x)). lia. }
    assert (Hsb : string_bytes x = PackVarint (len x) ++ x).
    { unfold string_bytes. by rewrite uwrap_id by (unfold in_u; lia). }
    specialize (IH (pre ++ string_bytes x) (arr ++ [x]) lfuel ltac:(cbn in Hf; lia)).
    rewrite <- app_assoc in IH. specialize (IH Hfit).
    rewrite Hsb in *. rewrite <- !app_assoc in *. set (p := PackVarint (len x)) in *.
    pose proof (len_nonneg xs). pose proof (len_nonneg tl). pose proof (len_nonneg rest).
    rewrite decide_False by (rewrite len_cons; lia).
    assert (Hu : forall r, UnpackVarint (p ++ r) = Ok (mkUnpack (len x) (len p)))
      by (intros; unfold p; by rewrite Unpack_Pack, Z.mod_small by lia).
    rewrite slice_from_app by done. cbn [mbind Result_bind].
    rewrite Hu. cbn [mbind Result_bind uv_Value uv_BytesConsumed].
    unfold fits, maxAlloc in Hfit. autorewrite with go in Hfit.
    pose proof (len_nonneg pre). pose proof (len_nonneg p).
    rewrite decide_False by (autorewrite with go; rewrite uwrap_id by (unfold in_u; lia); lia).
    unfold makeslice. rewrite decide_True by (unfold maxAlloc; lia). cbn [mbind Result_bind].
    rewrite (app_assoc pre p), slice_mid by (autorewrite with go; lia). cbn [mbind Result_bind].
    rewrite <- app_assoc, len_cons. replace (1 + len xs - 1) with (len xs) by lia.
    rewrite !len_app, Z.add_assoc in IH. rewrite IH. cbn [app]. do 2 f_equal.
    autorewrite with go. lia.
Qed.

Lemma encodeSections_spec encV ss bs buf :
  Forall2 (fun s b => forall buf, encodeSection encV buf s = Ok (buf ++ b)) ss bs ->
  encodeSections encV ss buf = Ok (buf ++ concat bs).
Proof.
  intros He. revert buf. induction He as [|s b ss bs He _ IH]; intros buf; cbn [encodeSections concat].
  - by rewrite app_nil_r.
  - rewrite He. cbn [mbind Result_bind]. by rewrite IH, <- app_assoc.
Qed.

Lemma decodeSections_spec decV ss bs pre rest arr lfuel :
  Forall2 (fun s b => forall rest, fits (b ++ rest) ->
    decodeSection decV (b ++ rest) = Ok (mkDecodedSection (norm_section s) (len b))) ss bs ->
  (length ss <= lfuel)%nat -> fits (pre ++ concat bs ++ rest) ->
  decodeSections decV lfuel (pre ++ concat bs ++ rest) (len ss) (len pre) arr =
    Ok (arr ++ (norm_section <$> ss), len pre + len (concat bs)).
Proof.
  intros Hd. revert pre arr lfuel.
  induction Hd as [|s b ss bs Hd _ IH]; intros pre arr lfuel Hf Hfit.
  - destruct lfuel; cbn; rewrite app_nil_r, Z.add_0_r; done.
  - destruct lfuel as [|lfuel]; [cbn in Hf; lia|].
    cbn [decodeSections concat] in *. rewrite <- app_assoc in *.
    pose proof (len_nonneg ss). rewrite decide_False by (rewrite len_cons; lia).
    rewrite slice_from_app by done. cbn [mbind Result_bind].
    rewrite Hd by (unfold fits in *; rewrite len_app in Hfit; pose proof (len_nonneg pre); lia).
    cbn [mbind Result_bind ds_Section ds_Consumed]. rewrite len_cons.
    replace (1 + len ss - 1) with (len ss) by lia. rewrite app_assoc, <- len_app in *.
    rewrite IH by (cbn in Hf; done || lia). rewrite <- app_assoc. cbn [app fmap list_fmap].
    do 2 f_equal. autorewrite with go. lia.
Qed.

(** ** The codec of values *)

(** [v] has an encoding [b], at least as long as [v] is deep, that decodes to
    the normal form of [v] at every sufficient fuel. *)
Definition value_codec (f : nat) (v : Value) (b : bytes) : Prop :=
  encodes (encodeValue f) v b /\ (value_depth v <= length b)%nat /\
  (forall g, (value_depth v <= g)%nat -> decodes (decodeValue g) v b).

Lemma decodeScalar_spec n x mk rest :
  in_u (8 * Z.of_nat n) x ->
  decodeScalar n (le_bytes n x ++ rest) mk = Ok (mkDecodedValue (mk x) (Z.of_nat n)).
Proof.
  intros Hx. unfold decodeScalar. pose proof (len_nonneg rest).
  rewrite decide_False by (rewrite len_app, len_le_bytes; lia).
  rewrite (slice_mid [] (le_bytes n x) rest) by (rewrite ?len_le_bytes; done).
  cbn [mbind Result_bind]. rewrite LE_Uint_exact by done. done.
Qed.

(** Values whose encoding does not recurse. *)
Lemma scalar_codec f n v x mk :
  encodes (encodeValue (S f)) v (le_bytes n x) -> (0 < n)%nat -> value_depth v = 1%nat ->
  in_u (8 * Z.of_nat n) x ->
  (forall g buf, decodeValue (S g) buf (Type_ v) = decodeScalar n buf mk) ->
  mk x = norm v -> exists b, value_codec (S f) v b.
Proof.
  intros He Hn Hd Hx Hg Hm. exists (le_bytes n x). split_and!; [done|..].
  - rewrite Hd, length_le_bytes. lia.
  - intros [|g] Hgd; [lia|]. intros rest _. rewrite Hg, decodeScalar_spec by done.
    by rewrite Hm, len_le_bytes.
Qed.

Lemma byte_codec f v x mk :
  encodes (encodeValue (S f)) v [x] -> value_depth v = 1%nat ->
  (forall g buf, decodeValue (S g) buf (Type_ v) =
     if decide (len buf < 1) then Fail ErrStorageTruncated
     else b ← index buf 0; Ok (mkDecodedValue (mk b) 1)) ->
  mk x = norm v -> exists b, value_codec (S f) v b.
Proof.
  intros He Hd Hg Hm. exists [x]. split_and!; [done|by rewrite Hd|].
  intros [|g] Hgd; [lia|]. intros rest _. rewrite Hg. cbn [app].
  pose proof (len_nonneg rest). rewrite decide_False by (rewrite len_cons; lia).
  change (index (x :: rest) 0) with (Ok x). cbn [mbind Result_bind]. by rewrite Hm.
Qed.

(** The recursive branches of [decodeValue], by tag. *)
Lemma decodeValue_String g buf :
  decodeValue (S g) buf TypeString =
    (unpacked ← UnpackVarint buf;
     if decide (u64 (len buf - uv_BytesConsumed unpacked) < uv_Value unpacked)
     then Fail ErrStorageTruncated
     else
       _ ← makeslice 1 (uv_Value unpacked);
       data ← slice buf (uv_BytesConsumed unpacked) (uv_BytesConsumed unpacked + uv_Value unpacked);
       Ok (mkDecodedValue (StringVal data) (uv_BytesConsumed unpacked + uv_Value unpacked))).
Proof. reflexivity. Qed.

Lemma decodeValue_Object g buf :
  decodeValue (S g) buf TypeObject =
    (decoded ← decodeSection (decodeValue g) buf;
     Ok (mkDecodedValue (ObjectVal (ds_Section decoded)) (ds_Consumed decoded))).
Proof. reflexivity. Qed.

Lemma string_codec f x : exists b, value_codec (S f) (StringVal x) b.
Proof.
  exists (string_bytes x). split_and!.
  - intros buf. unfold string_bytes. by rewrite app_assoc.
  - pose proof (length_Pack_u64 (len x)). unfold string_bytes.
    rewrite length_app. change (value_depth (StringVal x)) with 1%nat. lia.
  - intros [|g] Hgd; [by inversion Hgd|]. intros rest Hfit.
    change (Type_ (StringVal x)) with TypeString. rewrite decodeValue_String.
    unfold fits, maxAlloc in Hfit. unfold string_bytes in *. autorewrite with go in Hfit.
    pose proof (len_Pack_u64 (len x)). pose proof (len_nonneg x). pose proof (len_nonneg rest).
    assert (Hx : in_u 64 (len x)) by (unfold in_u; lia).
    rewrite (uwrap_id 64 (len x) Hx) in *. set (p := PackVarint (len x)) in *.
    assert (Hu : UnpackVarint ((p ++ x) ++ rest) = Ok (mkUnpack (len x) (len p)))
      by (rewrite <- app_assoc; unfold p; by rewrite Unpack_Pack, Z.mod_small by lia).
    rewrite Hu. cbn [mbind Result_bind uv_Value uv_BytesConsumed].
    autorewrite with go. rewrite uwrap_id by (unfold in_u; lia).
    rewrite decide_False by lia.
    unfold makeslice. rewrite decide_True by (unfold maxAlloc; lia). cbn [mbind Result_bind].
    rewrite <- app_assoc, slice_mid by (autorewrite with go; lia). done.
Qed.

(** The array decoder once the count is read. *)
Lemma decodeArray_count decV tag n rest :
  0 <= n < 2 ^ 62 ->
  let p := PackVarint n in
  let buf := p ++ rest in
  let elemType := Z.land tag (Z.lxor ArrayFlag 255) in
  decodeArray decV buf tag =
    (if decide (elemType = TypeUint64) then
      _ ← makeslice 8 n; r ← decodeUints 8 (S (length buf)) buf n (len p) [];
      Ok (mkDecodedValue (mkValue tag 0 0 0 false [] [] r.1 [] [] []) r.2)
    else if decide (elemType = TypeUint32) then
      _ ← makeslice 4 n; r ← decodeUints 4 (S (length buf)) buf n (len p) [];
      Ok (mkDecodedValue (mkValue tag 0 0 0 false [] [] [] r.1 [] []) r.2)
    else if decide (elemType = TypeString) then
      _ ← makeslice 24 n; r ← decodeStrings (S (length buf)) buf n (len p) [];
      Ok (mkDecodedValue (mkValue tag 0 0 0 false [] [] [] [] r.1 []) r.2)
    else if decide (elemType = TypeObject) then
      _ ← makeslice 8 n; r ← decodeSections decV (S (length buf)) buf n (len p) [];
      Ok (mkDecodedValue (mkValue tag 0 0 0 false [] [] [] [] [] r.1) r.2)
    else Fail (E "levin.decodeArray" ("unknown type tag: array of 0x" +:+ hex2 elemType)
            (Some ErrStorageUnknownType))).
Proof.
  intros Hn p buf elemType. unfold decodeArray, buf, p.
  rewrite Unpack_Pack by lia. cbn [mbind Result_bind uv_Value uv_BytesConsumed].
  by rewrite Z.mod_small by lia.
Qed.

(** The bytes of an array: its count and its elements, of which each has at
    least one. *)
Definition array_bytes {A} (f : A -> bytes) (xs : list A) : bytes :=
  PackVarint (u64 (len xs)) ++ concat (f <$> xs).

Lemma array_count {A} (f : A -> bytes) (xs : list A) n rest :
  (forall x, n <= len (f x)) -> 1 <= n -> fits (array_bytes f xs ++ rest) ->
  0 <= len xs < 2 ^ 62 /\ 24 * n * len xs <= maxAlloc /\
  array_bytes f xs = PackVarint (len xs) ++ concat (f <$> xs) /\
  (length xs <= length (array_bytes f xs))%nat.
Proof.
  intros Hf Hn Hfit. pose proof (concat_len_ge f xs n Hf) as Hc.
  unfold fits, array_bytes in *. autorewrite with go in Hfit.
  pose proof (len_Pack_u64 (len xs)). pose proof (len_nonneg xs). pose proof (len_nonneg rest).
  assert (len xs <= n * len xs) by nia.
  assert (Hx : 0 <= len xs < 2 ^ 62) by (unfold maxAlloc in *; lia).
  split_and!; [lia|lia|lia|by rewrite uwrap_id by (unfold in_u; lia)|].
  rewrite length_app. unfold len in *. lia.
Qed.

Lemma array_codec {A} f (enc : A -> bytes) xs v :
  (forall buf, encodeValue (S f) buf v = Ok (buf ++ array_bytes enc xs)) ->
  value_depth v = 1%nat ->
  (forall g rest, fits (array_bytes enc xs ++ rest) ->
     decodeArray (decodeValue g) (array_bytes enc xs ++ rest) (Type_ v) =
       Ok (mkDecodedValue (norm v) (len (array_bytes enc xs)))) ->
  (forall g buf, decodeValue (S g) buf (Type_ v) = decodeArray (decodeValue g) buf (Type_ v)) ->
  exists b, value_codec (S f) v b.
Proof.
  intros He Hd Ha Hg. exists (array_bytes enc xs). split_and!; [done|..].
  - rewrite Hd. unfold array_bytes. rewrite length_app.
    pose proof (length_Pack_u64 (len xs)). lia.
  - intros [|g] Hgd; [lia|]. intros rest Hfit. by rewrite Hg, Ha.
Qed.

(** Settle the tests on a concrete element type. *)
Ltac elem_type :=
  repeat first [rewrite decide_True by reflexivity | rewrite decide_False by discriminate].

Ltac array_start enc n :=
  intros g rest Hfit;
  destruct (array_count enc _ n rest ltac:(intros; rewrite ?len_le_bytes; first [done|lia]) ltac:(lia) Hfit)
    as (Hl & Hm & Heq & Hf);
  rewrite Heq in *; rewrite <- app_assoc in *;
  cbn [Type_ Uint64ArrayVal Uint32ArrayVal StringArrayVal];
  rewrite decodeArray_count by done; cbv zeta; elem_type;
  unfold makeslice; rewrite decide_True by lia; cbn [mbind Result_bind].

Lemma uint64s_codec f xs : Forall (in_u 64) xs -> exists b, value_codec (S f) (Uint64ArrayVal xs) b.
Proof.
  intros Hx. apply (array_codec f (le_bytes 8) xs); try done.
  - intros buf. unfold array_bytes. rewrite app_assoc, <- (foldl_append _ _ (fun b n => b ++ le_bytes 8 n)) by done.
    reflexivity.
  - array_start (le_bytes 8) 8. rewrite decodeUints_spec by (done || (rewrite !length_app in *; lia)).
    cbn [mbind Result_bind fst snd app]. by rewrite len_app.
Qed.

Lemma uint32s_codec f xs : Forall (in_u 32) xs -> exists b, value_codec (S f) (Uint32ArrayVal xs) b.
Proof.
  intros Hx. apply (array_codec f (le_bytes 4) xs); try done.
  - intros buf. unfold array_bytes. rewrite app_assoc, <- (foldl_append _ _ (fun b n => b ++ le_bytes 4 n)) by done.
    reflexivity.
  - array_start (le_bytes 4) 4. rewrite decodeUints_spec by (done || (rewrite !length_app in *; lia)).
    cbn [mbind Result_bind fst snd app]. by rewrite len_app.
Qed.

Lemma len_string_bytes x : 1 <= len (string_bytes x).
Proof.
  unfold string_bytes. rewrite len_app. pose proof (len_Pack_u64 (len x)).
  pose proof (len_nonneg x). lia.
Qed.

Lemma strings_codec f xs : exists b, value_codec (S f) (StringArrayVal xs) b.
Proof.
  apply (array_codec f string_bytes xs); try done.
  - intros buf. unfold array_bytes.
    rewrite app_assoc, <- (foldl_append _ _ (fun b s => (b ++ PackVarint (u64 (len s))) ++ s));
      [reflexivity|]. intros. unfold string_bytes. by rewrite app_assoc.
  - pose proof len_string_bytes. array_start string_bytes 1.
    rewrite decodeStrings_spec by (done || (rewrite !length_app in *; lia)).
    cbn [mbind Result_bind fst snd app]. by rewrite len_app.
Qed.

(** ** Sections of encodable values *)
Lemma Forall_choose {A B} (P : A -> B -> Prop) (l : list A) :
  Forall (fun x => exists y, P x y) l -> exists ys, Forall2 P l ys.
Proof.
  induction 1 as [|x l [y Hy] _ [ys Hys]]; [by exists []|].
  exists (y :: ys). by constructor.
Qed.

(** [b] is the encoding of the section [s] at fuel [f]. *)
Definition section_codec (f : nat) (s : StorageSection) (b : bytes) : Prop :=
  (forall buf, encodeSection (encodeValue f) buf s = Ok (buf ++ b)) /\
  (S (section_depth s) <= length b)%nat /\
  (forall g rest, (section_depth s <= g)%nat -> fits (b ++ rest) ->
     decodeSection (decodeValue g) (b ++ rest) =
       Ok (mkDecodedSection (norm_section s) (len b))).

Lemma section_depth_mcanon s : mwf s -> section_depth (mcanon s) = section_depth s.
Proof.
  intros Hwf.
  assert (H : forall n, (section_depth (mcanon s) <= n <-> section_depth s <= n)%nat).
  { intros n. rewrite !section_depth_le. by rewrite (mcanon_Permutation s Hwf). }
  pose proof (proj1 (H _) (Nat.le_refl _)). pose proof (proj2 (H _) (Nat.le_refl _)). lia.
Qed.

Lemma entries_depth (es : StorageSection) bs :
  Forall2 (fun kv b => (value_depth kv.2 <= length b)%nat) es bs ->
  (section_depth es <= length (entries_bytes es bs))%nat.
Proof.
  intros H. apply section_depth_le.
  induction H as [|kv b es bs Hb _ IH]; [constructor|].
  rewrite entries_bytes_cons. unfold entry_bytes. rewrite !length_app.
  constructor; [lia|]. eapply Forall_impl; [exact IH|]. cbn. intros. lia.
Qed.

Lemma wf_section_codec f s :
  (forall v, wf_value v -> (value_depth v <= f)%nat -> exists b, value_codec f v b) ->
  wf_section s -> (section_depth s <= f)%nat -> exists b, section_codec f s b.
Proof.
  intros IH Hs Hd. pose proof Hs as (Hwf & _ & Hv).
  assert (He : Forall (fun kv => exists b, value_codec f kv.2 b) (mcanon s)).
  { apply section_depth_le in Hd. apply mcanon_Forall; [done|].
    rewrite Forall_forall in *. eauto. }
  apply Forall_choose in He as [bs Hbs]. exists (section_bytes s bs). split_and!.
  - intros buf. apply encodeSection_spec; [done|].
    eapply Forall2_impl; [exact Hbs|]. by intros ? ? (? & _).
  - unfold section_bytes. rewrite length_app. pose proof (length_Pack_u64 (len s)).
    rewrite <- (section_depth_mcanon s Hwf).
    enough (section_depth (mcanon s) <= length (entries_bytes (mcanon s) bs))%nat by lia.
    apply entries_depth. eapply Forall2_impl; [exact Hbs|]. by intros ? ? (_ & ? & _).
  - intros g rest Hg Hfit. apply decodeSection_spec; [done| |done].
    rewrite <- (section_depth_mcanon s Hwf) in Hg. apply section_depth_le in Hg.
    apply Forall2_same_length_lookup. split; [by eapply Forall2_length|].
    intros i kv b Hkv Hb. apply (Forall2_lookup_lr _ _ _ i kv b Hbs) in Hb as (_ & _ & Hdec); [|done].
    apply Hdec. by apply (Forall_lookup_1 _ _ i kv Hg).
Qed.

Lemma object_codec f s :
  (exists b, section_codec f s b) -> exists b, value_codec (S f) (ObjectVal s) b.
Proof.
  intros [b (He & Hd & Hg)]. exists b. split_and!.
  - intros buf. apply He.
  - by rewrite value_depth_Object.
  - rewrite value_depth_Object. intros [|g] Hle; [lia|]. intros rest Hfit.
    change (Type_ (ObjectVal s)) with TypeObject.
    rewrite decodeValue_Object, Hg by (done || lia). cbn [mbind Result_bind ds_Section ds_Consumed].
    by rewrite norm_Object.
Qed.

Lemma concat_depth (ss : list StorageSection) (bs : list bytes) :
  Forall2 (fun s b => (S (section_depth s) <= length b)%nat) ss bs ->
  (max_depth section_depth ss <= length (concat bs))%nat /\ (length ss <= length (concat bs))%nat.
Proof.
  intros H. rewrite max_depth_le.
  induction H as [|s b ss bs Hb _ [IH1 IH2]]; [by split; [constructor|]|].
  cbn [concat length]. rewrite length_app. split; [|lia].
  constructor; [lia|]. eapply Forall_impl; [exact IH1|]. cbn. intros. lia.
Qed.

Lemma objects_codec f ss :
  Forall (fun s => exists b, section_codec f s b) ss ->
  exists b, value_codec (S f) (ObjectArrayVal ss) b.
Proof.
  intros He. apply Forall_choose in He as [bs Hbs].
  assert (Hd : Forall2 (fun s b => (S (section_depth s) <= length b)%nat) ss bs)
    by (eapply Forall2_impl; [exact Hbs|]; by intros ? ? (_ & ? & _)).
  apply concat_depth in Hd as [Hd Hn].
  exists (PackVarint (u64 (len ss)) ++ concat bs).
  pose proof (length_Pack_u64 (len ss)). split_and!.
  - intros buf. rewrite app_assoc. apply encodeSections_spec.
    eapply Forall2_impl; [exact Hbs|]. by intros ? ? (? & _).
  - rewrite value_depth_ObjectArray, length_app. lia.
  - rewrite value_depth_ObjectArray. intros [|g] Hle; [lia|]. intros rest Hfit.
    assert (Hl : 0 <= len ss < 2 ^ 48).
    { unfold fits, maxAlloc, len in *. rewrite !length_app in Hfit. lia. }
    change (Type_ (ObjectArrayVal ss)) with (Z.lor ArrayFlag TypeObject).
    change (decodeValue (S g) ?b (Z.lor ArrayFlag TypeObject))
      with (decodeArray (decodeValue g) b (Z.lor ArrayFlag TypeObject)).
    assert (Hu : in_u 64 (len ss)) by (unfold in_u; lia). rewrite (uwrap_id 64 _ Hu) in *.
    rewrite <- app_assoc in *. rewrite decodeArray_count by lia. cbv zeta. elem_type.
    unfold makeslice. rewrite decide_True.
    2: { unfold fits, len in *. rewrite !length_app in Hfit. lia. }
    cbn [mbind Result_bind]. rewrite (decodeSections_spec _ _ bs).
    + cbn [mbind Result_bind fst snd app]. by rewrite norm_ObjectArray, len_app.
    + apply Forall2_same_length_lookup. split; [by eapply Forall2_length|].
      intros i s b Hs Hb. apply (Forall2_lookup_lr _ _ _ i s b Hbs) in Hb as (_ & _ & Hdec); [|done].
      intros rest' Hfit'. apply Hdec; [|done].
      apply le_S_n, max_depth_le in Hle. by apply (Forall_lookup_1 _ _ i s Hle).
    + rewrite !length_app. lia.
    + done.
Qed.

Lemma wf_value_codec f v :
  wf_value v -> (value_depth v <= f)%nat -> exists b, value_codec f v b.
Proof.
  revert v. induction f as [|f IH]; intros v Hv Hd; [destruct v; cbn in Hd; lia|].
  destruct Hv.
  - eapply (scalar_codec f 8 _ x Uint64Val); first [done|lia].
  - eapply (scalar_codec f 4 _ x Uint32Val); try first [done|lia].
    intros buf. by rewrite <- (uwrap_id 32 x) at 2.
  - eapply (scalar_codec f 2 _ x Uint16Val); try first [done|lia].
    intros buf. by rewrite <- (uwrap_id 16 x) at 2.
  - eapply (byte_codec f _ x Uint8Val); try first [done|lia].
    intros buf. by rewrite <- (uwrap_id 8 x) at 2.
  - eapply (scalar_codec f 8 _ (u64 x) (fun v => Int64Val (i64 v))); try first [done|lia].
    + apply uwrap_range; lia.
    + by rewrite swrap_uwrap.
  - eapply (scalar_codec f 4 _ (u32 x) (fun v => Int32Val (i32 v))); try first [done|lia].
    + apply uwrap_range; lia.
    + by rewrite swrap_uwrap.
  - eapply (scalar_codec f 2 _ (u16 x) (fun v => Int16Val (i16 v))); try first [done|lia].
    + apply uwrap_range; lia.
    + by rewrite swrap_uwrap.
  - eapply (byte_codec f _ (u8 x) (fun v => Int8Val (i8 v))); try first [done|lia].
    by rewrite swrap_uwrap.
  - eapply (byte_codec f _ (if x then 1 else 0) (fun b => BoolVal (bool_decide (b <> 0)))); try first [done|lia].
    + intros buf. by destruct x.
    + by destruct x.
  - eapply (scalar_codec f 8 _ x DoubleVal); first [done|lia].
  - apply string_codec.
  - rewrite value_depth_Object in Hd. apply object_codec, wf_section_codec; [done|by split_and!|lia].
  - by apply uint64s_codec.
  - by apply uint32s_codec.
  - apply strings_codec.
  - apply objects_codec. rewrite value_depth_ObjectArray in Hd.
    apply le_S_n, max_depth_le in Hd. rewrite Forall_forall in *.
    intros s Hs. apply wf_section_codec; [done| |by apply Hd].
    split_and!; auto.
Qed.

(** ** Normal forms *)
Lemma norm_section_wf s : mwf s -> mwf (norm_section s).
Proof. intros. apply mcanon_wf. unfold mwf. by rewrite fmap_keys. Qed.

Lemma mget_norm_section s k : mwf s -> mget (norm_section s) k = norm <$> mget s k.
Proof.
  intros. unfold norm_section. rewrite mget_mcanon, mget_fmap; [done|].
  unfold mwf. by rewrite fmap_keys.
Qed.

Lemma sorted_keys_norm_section s : mwf s -> sorted_keys (norm_section s) = sorted_keys s.
Proof.
  intros Hwf. apply sorted_keys_unique. unfold norm_section.
  rewrite mcanon_Permutation by (unfold mwf; by rewrite fmap_keys). by rewrite fmap_keys.
Qed.

(** What normalisation keeps. *)
Definition norm_ok (v : Value) : Prop :=
  norm (norm v) = norm v /\ value_depth (norm v) = value_depth v /\ wf_value (norm v).

Lemma norm_section_ok s :
  wf_section s -> Forall (fun kv => norm_ok kv.2) s ->
  norm_section (norm_section s) = norm_section s /\
  section_depth (norm_section s) = section_depth s /\ wf_section (norm_section s).
Proof.
  intros (Hwf & Hn & Hv) Hok. split_and!.
  - transitivity (mcanon (norm_section s)).
    + unfold norm_section at 1. f_equal. rewrite norm_section_entries.
      apply (mcanon_Forall _ s Hwf) in Hok. rewrite <- list_fmap_compose.
      apply list_fmap_ext. intros i [k v] Hi. cbn. unfold prod_map.
      f_equal. apply (Forall_lookup_1 _ _ _ _ Hok Hi).
    + unfold norm_section. apply mcanon_idemp. unfold mwf. by rewrite fmap_keys.
  - rewrite norm_section_entries, <- (section_depth_mcanon s Hwf).
    apply (mcanon_Forall _ s Hwf) in Hok. unfold section_depth.
    induction Hok as [|[k v] es (_ & Hd & _) _ IH]; [done|].
    unfold max_depth in *. cbn [fmap list_fmap foldr]. rewrite IH.
    cbn [snd prod_map] in *. by rewrite Hd.
  - split_and!; [by apply norm_section_wf|..];
      rewrite norm_section_entries, Forall_fmap; apply mcanon_Forall; try done.
    eapply Forall_impl; [exact Hok|]. by intros [k v] (_ & _ & ?).
Qed.

Lemma max_depth_fmap {A B} (f : B -> nat) (g : A -> B) l :
  max_depth f (g <$> l) = max_depth (fun x => f (g x)) l.
Proof. unfold max_depth. induction l; cbn [fmap list_fmap foldr]; congruence. Qed.

Lemma wf_norm_ok n v : wf_value v -> (value_depth v <= n)%nat -> norm_ok v.
Proof.
  revert v. induction n as [|n IH]; intros v Hv Hd; [destruct v; cbn in Hd; lia|].
  destruct Hv as [| | | | | | | | | | |s Hwf Hn Hv| | | |ss Hwf Hn Hv];
    try (by split_and!; try done; constructor).
  - rewrite value_depth_Object in Hd. apply le_S_n, section_depth_le in Hd.
    destruct (norm_section_ok s) as (H1 & H2 & H3 & H4 & H5); [done|..].
    { rewrite Forall_forall in *. eauto. }
    unfold norm_ok. rewrite !norm_Object, H1, !value_depth_Object, H2. by split_and!; [..|constructor].
  - rewrite value_depth_ObjectArray in Hd. apply le_S_n, max_depth_le in Hd.
    assert (Hs : Forall (fun s => norm_section (norm_section s) = norm_section s /\
      section_depth (norm_section s) = section_depth s /\ wf_section (norm_section s)) ss).
    { rewrite Forall_forall in *. intros s Hs. apply norm_section_ok; [by split_and!; auto|].
      specialize (Hd s Hs). apply section_depth_le in Hd. specialize (Hv s Hs).
      rewrite Forall_forall in *. eauto. }
    unfold norm_ok. rewrite !norm_ObjectArray, !value_depth_ObjectArray. split_and!.
    + f_equal. rewrite <- list_fmap_compose. apply list_fmap_ext. intros i s Hi.
      by apply (Forall_lookup_1 _ _ _ _ Hs Hi).
    + f_equal. rewrite max_depth_fmap. unfold max_depth.
      induction Hs as [|s ss (_ & H2 & _) _ IHs]; cbn [foldr]; [done|].
      inversion Hwf; inversion Hn; inversion Hv; inversion Hd; subst. rewrite H2, IHs; done.
    + constructor; rewrite Forall_fmap; (eapply Forall_impl; [exact Hs|]);
        intros s (_ & _ & ? & ? & ?); done.
Qed.

Lemma wf_section_norm s : wf_section s ->
  norm_section (norm_section s) = norm_section s /\
  section_depth (norm_section s) = section_depth s /\ wf_section (norm_section s).
Proof.
  intros Hs. apply norm_section_ok; [done|]. destruct Hs as (_ & _ & Hv).
  eapply Forall_impl; [exact Hv|]. intros [k v] Hw. by eapply wf_norm_ok.
Qed.

(** The encoder only sees the normal form. *)
Lemma encodeEntries_norm encV s keys buf :
  mwf s -> Forall (fun kv => forall buf, encV buf (norm kv.2) = encV buf kv.2) s ->
  Forall (fun k => k ∈ s.*1) keys ->
  encodeEntries encV (norm_section s) keys buf = encodeEntries encV s keys buf.
Proof.
  intros Hwf He Hk. revert buf. induction Hk as [|k keys Hk _ IH]; intros buf; [done|].
  cbn [encodeEntries]. rewrite mget_norm_section by done.
  destruct (mget s k) as [v|] eqn:Hg; [|by apply mget_None in Hg].
  cbn [fmap option_fmap option_map default id]. case_decide; [done|]. cbv zeta.
  rewrite norm_Type. apply mget_Some in Hg; [|done].
  rewrite Forall_forall in He. rewrite (He (k, v) Hg). cbn [snd].
  destruct (encV _ v); cbn [mbind Result_bind]; auto.
Qed.

Lemma encodeSection_norm encV s buf :
  mwf s -> Forall (fun kv => forall buf, encV buf (norm kv.2) = encV buf kv.2) s ->
  encodeSection encV buf (norm_section s) = encodeSection encV buf s.
Proof.
  intros Hwf He. unfold encodeSection. rewrite sorted_keys_norm_section by done.
  apply encodeEntries_norm; [done..|]. apply Forall_forall. intros k. by rewrite sorted_keys_perm.
Qed.

Lemma encodeValue_norm f v buf :
  wf_value v -> encodeValue f buf (norm v) = encodeValue f buf v.
Proof.
  revert v buf. induction f as [|f IH]; intros v buf Hv; [done|].
  destruct Hv as [| | | | | | | | | | |s Hwf Hn Hv| | | |ss Hwf Hn Hv]; try done.
  - rewrite norm_Object. apply (encodeSection_norm (encodeValue f)); [done|].
    eapply Forall_impl; [exact Hv|]. auto.
  - rewrite norm_ObjectArray.
    change (encodeValue (S f) buf (ObjectArrayVal ?x))
      with (encodeSections (encodeValue f) x (buf ++ PackVarint (u64 (len x)))).
    replace (len (norm_section <$> ss)) with (len ss) by (unfold len; by rewrite length_fmap).
    generalize (buf ++ PackVarint (u64 (len ss))). clear buf.
    induction ss as [|s ss IHs]; intros buf; [done|].
    inversion Hwf; inversion Hn; inversion Hv; subst. cbn [fmap list_fmap encodeSections].
    rewrite (encodeSection_norm (encodeValue f)); [|done|eapply Forall_impl; [done|]; auto].
    destruct (encodeSection _ buf s); cbn [mbind Result_bind]; auto.
Qed.

(** [DecodeStorage] past a valid header. *)
Lemma DecodeStorage_header tail :
  DecodeStorage (storage_header ++ tail) =
    (decoded ← decodeSection (decodeValue (9 + length tail)) tail; Ok (ds_Section decoded)).
Proof.
  unfold DecodeStorage. pose proof (len_nonneg tail).
  assert (Hl : len (storage_header ++ tail) = 9 + len tail) by (by rewrite len_app).
  rewrite decide_False by (unfold StorageHeaderSize; lia).
  assert (H1 : storage_header ++ tail =
    [] ++ le_bytes 4 StorageSignatureA ++ (le_bytes 4 StorageSignatureB ++ StorageVersion :: tail))
    by done.
  assert (H2 : storage_header ++ tail =
    le_bytes 4 StorageSignatureA ++ le_bytes 4 StorageSignatureB ++ (StorageVersion :: tail)) by done.
  assert (H3 : storage_header ++ tail =
    (le_bytes 4 StorageSignatureA ++ le_bytes 4 StorageSignatureB) ++ StorageVersion :: tail) by done.
  rewrite H1 at 1. rewrite slice_mid by done. cbn [mbind Result_bind].
  rewrite LE_Uint_exact by done. cbn [mbind Result_bind].
  rewrite H2 at 1. rewrite slice_mid by done. cbn [mbind Result_bind].
  rewrite LE_Uint_exact by done. cbn [mbind Result_bind].
  rewrite H3 at 1. change 8 with (len (le_bytes 4 StorageSignatureA ++ le_bytes 4 StorageSignatureB)) at 1.
  rewrite index_mid. cbn [mbind Result_bind].
  rewrite decide_False by (unfold not; tauto). rewrite decide_False by (unfold not; tauto).
  rewrite slice_from_app by done. cbn [mbind Result_bind].
  by rewrite length_app.
Qed.

Lemma EncodeStorage_codec s :
  wf_section s ->
  exists b, EncodeStorage s = Ok (storage_header ++ b) /\ section_codec (section_depth s) s b.
Proof.
  intros Hs. destruct (wf_section_codec (section_depth s) s) as [b Hb]; [|done..|].
  - intros v. apply wf_value_codec.
  - exists b. split; [|done]. apply Hb.
Qed.

(** ** Theorems *)

(** C1 (roundtrip): every well-formed section can be encoded, and decoding the
    bytes gives a section that denotes the same nested maps: the same keys, at
    every depth, bound to the same values (in ascending key order in the
    model's representation).  The only condition is on the size of the encoding,
    so that no allocation of the decoder exceeds the address space. *)
Theorem storage_roundtrip s :
  wf_section s ->
  exists b, EncodeStorage s = Ok b /\
    (fits b -> exists s', DecodeStorage b = Ok s' /\ s' ≡ s /\
       forall k, mget s' k = norm <$> mget s k).
Proof.
  intros Hs. destruct (EncodeStorage_codec s Hs) as (b & He & _ & Hd & Hdec).
  exists (storage_header ++ b). split; [done|]. intros Hfit. exists (norm_section s).
  split_and!.
  - rewrite DecodeStorage_header. specialize (Hdec (9 + length b)%nat []).
    rewrite app_nil_r in Hdec. rewrite Hdec; [done|lia|].
    unfold fits in *. rewrite len_app in Hfit. pose proof (len_nonneg storage_header). lia.
  - apply wf_section_norm, Hs.
  - intros k. apply mget_norm_section, Hs.
Qed.

Definition sample_section : StorageSection :=
  [("peers", ObjectArrayVal [[("id", Uint64Val 7); ("addr", StringVal [1; 2])]]);
   ("ok", BoolVal true); ("delta", Int16Val (-3))].

Lemma sample_section_wf : wf_section sample_section.
Proof.
  assert (Hs : forall k (v : Value), slen k <= 255 -> slen (k, v).1 <= 255) by done.
  unfold sample_section. split_and!.
  - by apply (bool_decide_unpack _).
  - repeat constructor; unfold slen; cbn; lia.
  - repeat constructor; cbn; unfold in_u, in_s, slen; cbn; try lia; try set_solver.
Qed.

Lemma storage_roundtrip_witness :
  exists s', (EncodeStorage sample_section ≫= DecodeStorage) = Ok s' /\ s' ≡ sample_section.
Proof.
  destruct (storage_roundtrip sample_section sample_section_wf) as (b & He & Hd).
  assert (Hfit : fits b).
  { assert (Hv : EncodeStorage sample_section = Ok b) by done. vm_compute in Hv.
    injection Hv as <-. unfold fits, maxAlloc. vm_compute. discriminate. }
  destruct (Hd Hfit) as (s' & Hs & Heq & _). exists s'. by rewrite He.
Defined.

(** The encoding is deterministic: two well-formed sections that
    denote the same nested maps, in whatever order their maps are iterated,
    have the same encoding. *)
Theorem storage_encoding_deterministic s1 s2 :
  wf_section s1 -> wf_section s2 -> s1 ≡ s2 -> EncodeStorage s1 = EncodeStorage s2.
Proof.
  assert (Hn : forall s, wf_section s -> EncodeStorage (norm_section s) = EncodeStorage s).
  { intros s Hs. unfold EncodeStorage. destruct (wf_section_norm s Hs) as (_ & -> & _).
    destruct Hs as (Hwf & _ & Hv). apply encodeSection_norm; [done|].
    eapply Forall_impl; [exact Hv|]. intros kv Hkv buf. by apply encodeValue_norm. }
  intros H1 H2 Heq. rewrite <- (Hn s1 H1), <- (Hn s2 H2). by rewrite Heq.
Qed.

Lemma storage_encoding_deterministic_witness :
  EncodeStorage sample_section = EncodeStorage (reverse sample_section).
Proof.
  apply (storage_encoding_deterministic sample_section (reverse sample_section)).
  - apply sample_section_wf.
  - destruct sample_section_wf as (H1 & H2 & H3). split_and!.
    + unfold mwf. by rewrite reverse_Permutation.
    + by apply Forall_reverse.
    + by apply Forall_reverse.
  - vm_compute. reflexivity.
Defined.
