(* ===== verification/StorageSafety.v ===== *)
(** * Portable storage: the decoder on hostile input

    On any byte string [DecodeStorage] terminates, stays inside its buffer and
    returns a well-formed section or an error; the one panic it can raise is
    the allocation of an array whose element count, taken from the wire, is
    larger than the address space. *)

From S2P Require Import Prelude GoMap Varint Storage StorageDecode StorageProofs.

(** The outcomes the decoder may have: success with [P], an error, or the
    panic of an oversized [make]. *)
Definition safe {A} (P : A -> Prop) (r : Result A) : Prop :=
  match r with
  | Ok a => P a
  | Fail _ => True
  | Panic p => p = MakeSliceLenOutOfRange
  | OutOfFuel => False
  end.

Lemma safe_bind {A B} (P : A -> Prop) (Q : B -> Prop) (m : Result A) (f : A -> Result B) :
  safe P m -> (forall a, m = Ok a -> P a -> safe Q (f a)) -> safe Q (m ≫= f).
Proof. destruct m; cbn; auto. Qed.

Lemma safe_map_fail {A} (P : A -> Prop) w (m : Result A) : safe P m -> safe P (map_fail w m).
Proof. by destruct m. Qed.

Lemma safe_impl {A} (P Q : A -> Prop) (m : Result A) :
  safe P m -> (forall a, P a -> Q a) -> safe Q m.
Proof. destruct m; cbn; auto. Qed.

Lemma safe_index (buf : bytes) i :
  all_bytes buf -> 0 <= i < len buf -> safe is_byte (index buf i).
Proof.
  intros Hb Hi. unfold index. rewrite decide_True by lia.
  destruct (buf !! Z.to_nat i) as [x|] eqn:Hx.
  - by apply (Forall_lookup_1 _ _ _ _ Hb Hx).
  - apply lookup_ge_None in Hx. unfold len in Hi. lia.
Qed.

Lemma safe_slice (buf : bytes) lo hi :
  all_bytes buf -> 0 <= lo <= hi -> hi <= len buf ->
  safe (fun s => all_bytes s /\ len s = hi - lo) (slice buf lo hi).
Proof.
  intros Hb Hlo Hhi. destruct (slice buf lo hi) as [s| | |] eqn:Hs.
  - cbn. split; [|apply slice_Ok in Hs; lia].
    unfold slice in Hs. case_decide; [|done]. injection Hs as <-.
    by apply Forall_take, Forall_drop.
  - done.
  - unfold slice in Hs. case_decide; [done|lia].
  - unfold slice in Hs. by case_decide.
Qed.

Lemma safe_slice_from (buf : bytes) lo :
  all_bytes buf -> 0 <= lo <= len buf ->
  safe (fun s => all_bytes s /\ len s = len buf - lo) (slice_from buf lo).
Proof. intros. apply safe_slice; [done|lia|lia]. Qed.

Lemma safe_LE_Uint n (s : bytes) :
  all_bytes s -> len s = Z.of_nat n -> safe (in_u (8 * Z.of_nat n)) (LE_Uint n s).
Proof.
  intros Hb Hl. unfold len in Hl. unfold LE_Uint. rewrite decide_False by lia. cbn.
  rewrite take_ge by lia. apply le_uint_range in Hb. unfold len in Hb.
  by replace (Z.of_nat n) with (Z.of_nat (length s)).
Qed.

Lemma safe_Unpack (buf : bytes) :
  all_bytes buf ->
  safe (fun r => 0 <= uv_Value r <= varintMax8 /\ 1 <= uv_BytesConsumed r <= len buf)
    (UnpackVarint buf).
Proof.
  intros Hb. destruct (UnpackVarint_total buf Hb) as [[r Hr]| ->]; [|done].
  rewrite Hr. cbn. destruct (UnpackVarint_Ok buf r Hb Hr) as (_ & Hw & Hl).
  split; [by apply UnpackVarint_max in Hr|lia].
Qed.

Lemma safe_makeslice n c : safe (fun _ => True) (makeslice n c).
Proof. unfold makeslice. by case_decide. Qed.

#[export] Hint Resolve safe_index safe_slice safe_slice_from safe_LE_Uint safe_Unpack
  safe_makeslice safe_map_fail : go.

(** ** The loops *)
Lemma decodeUints_safe n lfuel buf count off arr :
  (0 < n)%nat -> all_bytes buf -> 0 <= off <= len buf -> len buf - off < Z.of_nat lfuel ->
  Forall (in_u (8 * Z.of_nat n)) arr ->
  safe (fun r => Forall (in_u (8 * Z.of_nat n)) r.1 /\ off <= r.2 <= len buf)
    (decodeUints n lfuel buf count off arr).
Proof.
  intros Hn Hb. revert count off arr.
  induction lfuel as [|lfuel IH]; intros count off arr Hoff Hf Harr; cbn [decodeUints];
    case_decide; try (by cbn; split_and!; try done; lia); [lia|].
  case_decide; [done|].
  eapply safe_bind; [apply safe_slice; [done|lia|lia]|]. intros s _ [Hs Hl].
  eapply safe_bind; [apply safe_LE_Uint; [done|lia]|]. intros x _ Hx.
  eapply safe_impl; [apply IH; [lia|lia|by apply Forall_app; split; [|constructor]]|].
  cbn. intros r [? ?]. split; [done|lia].
Qed.

(** The length test of a string: no wrap-around, so the data is in the buffer. *)
Lemma string_in_range (buf : bytes) off strLen :
  0 <= off <= len buf -> len buf <= maxAlloc -> 0 <= strLen ->
  ~ u64 (len buf - off) < strLen -> off + strLen <= len buf /\ makeslice 1 strLen = Ok tt.
Proof.
  intros Hoff Hm Hs H. unfold maxAlloc in Hm. rewrite uwrap_id in H by (unfold in_u; lia).
  split; [lia|]. unfold makeslice. rewrite decide_True; [done|]. unfold maxAlloc. lia.
Qed.

Lemma decodeStrings_safe lfuel buf count off arr :
  all_bytes buf -> len buf <= maxAlloc -> 0 <= off <= len buf -> len buf - off < Z.of_nat lfuel ->
  Forall all_bytes arr ->
  safe (fun r => Forall all_bytes r.1 /\ off <= r.2 <= len buf)
    (decodeStrings lfuel buf count off arr).
Proof.
  intros Hb Hm. revert count off arr.
  induction lfuel as [|lfuel IH]; intros count off arr Hoff Hf Harr; cbn [decodeStrings];
    case_decide; try (by cbn; split_and!; try done; lia); [lia|].
  eapply safe_bind; [apply safe_slice_from; [done|lia]|]. intros tl _ [Htl Hl].
  eapply safe_bind; [by apply safe_Unpack|]. intros r _ [Hv Hc]. cbv zeta.
  case_decide as Hlt; [done|].
  destruct (string_in_range buf (off + uv_BytesConsumed r) (uv_Value r)) as [Hin ->]; [lia|lia|lia|done|].
  cbn [mbind Result_bind].
  eapply safe_bind; [apply safe_slice; [done|lia|lia]|]. intros s _ [Hs _].
  eapply safe_impl; [apply IH; [lia|lia|by apply Forall_app; split; [|constructor]]|].
  cbn. intros a [? ?]. split; [done|lia].
Qed.

(** What a value decoder must do on inputs shorter than [n]. *)
Definition decV_safe (n : nat) (decV : bytes -> Z -> Result decodedValueResult) : Prop :=
  forall buf tag, all_bytes buf -> is_byte tag -> len buf <= maxAlloc -> (length buf < n)%nat ->
    safe (fun d => wf_value (dv_Value d) /\ 0 <= dv_Consumed d <= len buf) (decV buf tag).

Lemma slen_string_of_bytes b : slen (string_of_bytes b) = len b.
Proof.
  unfold slen, string_of_bytes, len. f_equal. induction b as [|z b IH]; cbn; [done|]. by rewrite IH.
Qed.

Lemma wf_section_set s k v : wf_section s -> slen k <= 255 -> wf_value v -> wf_section (mset s k v).
Proof.
  intros (H1 & H2 & H3) Hk Hv. split_and!; [by apply mset_wf|by apply mset_Forall..].
Qed.

Lemma decodeEntries_safe decV n lfuel buf count off s :
  decV_safe n decV -> (length buf <= n)%nat -> all_bytes buf -> len buf <= maxAlloc ->
  0 <= off <= len buf -> len buf - off < Z.of_nat lfuel -> wf_section s ->
  safe (fun d => wf_section (ds_Section d) /\ off <= ds_Consumed d <= len buf)
    (decodeEntries decV lfuel buf count off s).
Proof.
  intros HV Hn Hb Hm. revert count off s.
  induction lfuel as [|lfuel IH]; intros count off s Hoff Hf Hs; cbn [decodeEntries];
    case_decide; try (by cbn; split_and!; try done; lia); [lia|].
  case_decide; [done|].
  eapply safe_bind; [apply safe_index; [done|lia]|]. intros nl _ Hnl. cbv zeta.
  case_decide; [done|]. unfold in_u in Hnl.
  eapply safe_bind; [apply safe_slice; [done|lia|lia]|]. intros nb _ [_ Hnb].
  case_decide; [done|].
  eapply safe_bind; [apply safe_index; [done|lia]|]. intros tag _ Htag.
  eapply safe_bind; [apply safe_slice_from; [done|lia]|]. intros tl _ [Htl Hl].
  eapply safe_bind; [apply safe_map_fail, HV; try done; unfold len in *; lia|].
  intros d _ [Hd Hc].
  eapply safe_impl; [apply IH; [lia|lia|]|].
  - apply wf_section_set; [done| |done]. rewrite slen_string_of_bytes. lia.
  - cbn. intros a [? ?]. split; [done|lia].
Qed.

Lemma wf_section_nil : wf_section [].
Proof. split_and!; constructor. Qed.

Lemma decodeSection_safe decV n buf :
  decV_safe n decV -> (length buf <= n)%nat -> all_bytes buf -> len buf <= maxAlloc ->
  safe (fun d => wf_section (ds_Section d) /\ 1 <= ds_Consumed d <= len buf)
    (decodeSection decV buf).
Proof.
  intros HV Hn Hb Hm. unfold decodeSection.
  eapply safe_bind; [by apply safe_map_fail, safe_Unpack|]. intros r _ [Hv Hc]. cbv zeta.
  eapply safe_impl; [eapply decodeEntries_safe; try done; [lia|unfold len; lia|apply wf_section_nil]|].
  cbn. intros d [? ?]. split; [done|lia].
Qed.

Lemma decodeSections_safe decV n lfuel buf count off arr :
  decV_safe n decV -> (length buf <= n)%nat -> all_bytes buf -> len buf <= maxAlloc ->
  0 <= off <= len buf -> len buf - off < Z.of_nat lfuel -> Forall wf_section arr ->
  safe (fun r => Forall wf_section r.1 /\ off <= r.2 <= len buf)
    (decodeSections decV lfuel buf count off arr).
Proof.
  intros HV Hn Hb Hm. revert count off arr.
  induction lfuel as [|lfuel IH]; intros count off arr Hoff Hf Harr; cbn [decodeSections];
    case_decide; try (by cbn; split_and!; try done; lia); [lia|].
  eapply safe_bind; [apply safe_slice_from; [done|lia]|]. intros tl _ [Htl Hl].
  eapply safe_bind; [eapply decodeSection_safe; try done; unfold len in *; lia|].
  intros d _ [Hd Hc].
  eapply safe_impl; [apply IH; [lia|lia|by apply Forall_app; split; [|constructor]]|].
  cbn. intros a [? ?]. split; [done|lia].
Qed.

(** ** Values *)

(** A byte tag with the array flag is the flag and its element type. *)
Lemma array_tag tag elem :
  is_byte tag -> Z.land tag ArrayFlag <> 0 -> Z.land tag (Z.lxor ArrayFlag 255) = elem ->
  tag = Z.lor ArrayFlag elem.
Proof.
  intros Ht Hf <-.
  assert (Hall : Forall (fun t => Z.land t ArrayFlag <> 0 ->
            t = Z.lor ArrayFlag (Z.land t (Z.lxor ArrayFlag 255))) (seqZ 0 256))
    by (apply (bool_decide_unpack _); vm_compute; exact I).
  rewrite Forall_forall in Hall. apply Hall; [|done].
  apply elem_of_seqZ. unfold in_u in Ht. lia.
Qed.

Lemma decodeArray_safe decV n buf tag :
  decV_safe n decV -> (length buf <= n)%nat -> all_bytes buf -> len buf <= maxAlloc ->
  is_byte tag -> Z.land tag ArrayFlag <> 0 ->
  safe (fun d => wf_value (dv_Value d) /\ 0 <= dv_Consumed d <= len buf) (decodeArray decV buf tag).
Proof.
  intros HV Hn Hb Hm Ht Hf. unfold decodeArray.
  assert (Htag : forall t, Z.land tag (Z.lxor ArrayFlag 255) = t -> tag = Z.lor ArrayFlag t)
    by (intros; by apply array_tag).
  eapply safe_bind; [by apply safe_Unpack|]. intros r _ [Hv Hc]. cbv zeta.
  case_decide as He; [|clear He; case_decide as He; [|clear He; case_decide as He;
    [|clear He; case_decide as He; [|done]]]].
  all: apply Htag in He; eapply safe_bind; [apply safe_makeslice|]; intros _ _ _.
  - eapply safe_bind; [apply decodeUints_safe; [lia|done|lia|unfold len; lia|done]|].
    intros [xs off] _ [Hx Ho]. cbn in *. subst tag. by split; [constructor|lia].
  - eapply safe_bind; [apply decodeUints_safe; [lia|done|lia|unfold len; lia|done]|].
    intros [xs off] _ [Hx Ho]. cbn in *. subst tag. by split; [constructor|lia].
  - eapply safe_bind; [apply decodeStrings_safe; [done|done|lia|unfold len; lia|done]|].
    intros [xs off] _ [Hx Ho]. cbn in *. subst tag. by split; [constructor|lia].
  - eapply safe_bind; [by eapply decodeSections_safe; try done; [lia|unfold len; lia]|].
    intros [xs off] _ [Hx Ho]. cbn in *. subst tag. split; [|lia].
    constructor; (eapply Forall_impl; [exact Hx|]); intros s (? & ? & ?); done.
Qed.

Lemma decodeScalar_safe k buf mk :
  all_bytes buf -> (forall x, in_u (8 * Z.of_nat k) x -> wf_value (mk x)) ->
  safe (fun d => wf_value (dv_Value d) /\ 0 <= dv_Consumed d <= len buf) (decodeScalar k buf mk).
Proof.
  intros Hb Hmk. unfold decodeScalar. case_decide; [done|].
  eapply safe_bind; [apply safe_slice; [done|lia|lia]|]. intros s _ [Hs Hl].
  eapply safe_bind; [apply safe_LE_Uint; [done|lia]|]. intros x _ Hx.
  cbn. split; [auto|lia].
Qed.

Lemma decodeByte_safe buf mk :
  all_bytes buf -> (forall x, is_byte x -> wf_value (mk x)) ->
  safe (fun d => wf_value (dv_Value d) /\ 0 <= dv_Consumed d <= len buf)
    (if decide (len buf < 1) then Fail ErrStorageTruncated
     else b ← index buf 0; Ok (mkDecodedValue (mk b) 1)).
Proof.
  intros Hb Hmk. case_decide; [done|].
  eapply safe_bind; [apply safe_index; [done|lia]|]. intros x _ Hx. cbn. split; [auto|lia].
Qed.

Lemma decodeString_safe buf :
  all_bytes buf -> len buf <= maxAlloc ->
  safe (fun d => wf_value (dv_Value d) /\ 0 <= dv_Consumed d <= len buf)
    (unpacked ← UnpackVarint buf;
     if decide (u64 (len buf - uv_BytesConsumed unpacked) < uv_Value unpacked)
     then Fail ErrStorageTruncated
     else
       _ ← makeslice 1 (uv_Value unpacked);
       data ← slice buf (uv_BytesConsumed unpacked) (uv_BytesConsumed unpacked + uv_Value unpacked);
       Ok (mkDecodedValue (StringVal data) (uv_BytesConsumed unpacked + uv_Value unpacked))).
Proof.
  intros Hb Hm. eapply safe_bind; [by apply safe_Unpack|]. intros r _ [Hv Hc].
  case_decide; [done|].
  destruct (string_in_range buf (uv_BytesConsumed r) (uv_Value r)) as [Hin ->]; [lia|lia|lia|done|].
  cbn [mbind Result_bind].
  eapply safe_bind; [apply safe_slice; [done|lia|lia]|]. intros s _ [Hs _].
  cbn. split; [by constructor|lia].
Qed.

Lemma decodeValue_safe f : decV_safe f (decodeValue f).
Proof.
  induction f as [|f IH]; intros buf tag Hb Ht Hm Hf; [lia|].
  cbn [decodeValue]. unfold decodeValueBody.
  case_decide; [by eapply decodeArray_safe; try done; lia|].
  repeat (case_decide;
    [first [apply decodeScalar_safe; [done|]; intros x Hx; constructor; first [done|apply swrap_range; lia]
           |apply (decodeByte_safe buf Uint8Val); [done|]; by constructor
           |apply (decodeByte_safe buf (fun b => Int8Val (i8 b))); [done|]; intros; constructor; apply swrap_range; lia
           |apply (decodeByte_safe buf (fun b => BoolVal (bool_decide (b <> 0)))); [done|]; by constructor
           |by apply decodeString_safe
           |idtac]|]); [|done].
  eapply safe_bind; [eapply decodeSection_safe; try done; lia|].
  intros d _ [(? & ? & ?) Hc]. cbn. split; [by constructor|lia].
Qed.

(** A concrete header is accepted only as such; everything after it is handled
    by [decodeSection]. *)
Lemma DecodeStorage_safe data :
  all_bytes data -> len data <= maxAlloc -> safe wf_section (DecodeStorage data).
Proof.
  intros Hb Hm. unfold DecodeStorage. unfold StorageHeaderSize in *. case_decide; [done|].
  eapply safe_bind; [apply safe_slice; [done|lia|lia]|]. intros s1 _ [Hs1 Hl1].
  eapply safe_bind; [apply safe_LE_Uint; [done|lia]|]. intros sa _ _.
  eapply safe_bind; [apply safe_slice; [done|lia|lia]|]. intros s2 _ [Hs2 Hl2].
  eapply safe_bind; [apply safe_LE_Uint; [done|lia]|]. intros sb _ _.
  eapply safe_bind; [apply safe_index; [done|lia]|]. intros ver _ _.
  case_decide; [done|]. case_decide; [done|].
  eapply safe_bind; [apply safe_slice_from; [done|lia]|]. intros tl _ [Htl Hl].
  eapply safe_bind; [eapply decodeSection_safe; [apply decodeValue_safe|..]; try done; unfold len in *; lia|].
  intros d _ [Hd _]. done.
Qed.

(** ** Theorems *)

(** C2 (termination): on every input that fits in memory [DecodeStorage]
    returns: its loops and its recursion end although their counts come from
    the wire.  The outcome is a well-formed section (distinct keys of at most
    255 bytes, integers in range, at every depth), an error, or the panic of an
    oversized [make]; no index or slice expression is ever out of range. *)
Theorem storage_decode_total data :
  all_bytes data -> len data <= maxAlloc ->
  match DecodeStorage data with
  | Ok s => wf_section s
  | Fail _ => True
  | Panic p => p = MakeSliceLenOutOfRange
  | OutOfFuel => False
  end.
Proof. intros Hb Hm. pose proof (DecodeStorage_safe data Hb Hm). by destruct (DecodeStorage data). Qed.

Lemma storage_decode_total_witness :
  match DecodeStorage (storage_header ++ [252; 255; 255; 255]) with
  | Ok s => wf_section s | Fail _ => True
  | Panic p => p = MakeSliceLenOutOfRange | OutOfFuel => False
  end.
Proof.
  apply (storage_decode_total (storage_header ++ [252; 255; 255; 255])).
  - apply (bool_decide_unpack _). vm_compute. exact I.
  - vm_compute. discriminate.
Defined.

(** Whatever [DecodeStorage] accepts can be encoded again, and
    the new encoding decodes to a section denoting the same maps. *)
Theorem storage_reencode data s :
  all_bytes data -> len data <= maxAlloc -> DecodeStorage data = Ok s ->
  exists b, EncodeStorage s = Ok b /\
    (fits b -> exists s', DecodeStorage b = Ok s' /\ s' ≡ s).
Proof.
  intros Hb Hm Hd. pose proof (DecodeStorage_safe data Hb Hm) as Hs. rewrite Hd in Hs.
  destruct (EncodeStorage_codec s Hs) as (b & He & _ & Hdp & Hdec).
  exists (storage_header ++ b). split; [done|]. intros Hfit. exists (norm_section s). split.
  - rewrite DecodeStorage_header. specialize (Hdec (9 + length b)%nat []).
    rewrite app_nil_r in Hdec. rewrite Hdec; [done|lia|].
    unfold fits in *. rewrite len_app in Hfit. pose proof (len_nonneg storage_header). lia.
  - by apply wf_section_norm.
Qed.

Lemma storage_reencode_witness :
  exists b, EncodeStorage [("a", Uint8Val 5)] = Ok b /\
    (fits b -> exists s', DecodeStorage b = Ok s' /\ s' ≡ [("a", Uint8Val 5)]).
Proof.
  apply (storage_reencode (storage_header ++ [8; 1; 97; 8; 4; 1; 97; 8; 5])).
  - apply (bool_decide_unpack _). vm_compute. exact I.
  - vm_compute. discriminate.
  - vm_compute. reflexivity.
Defined.

(** The allocation panic is real: a section with one [uint64]
    array whose announced count exceeds the address space makes
    [DecodeStorage] panic, whatever follows the count (21 bytes of input are
    enough). *)
Theorem storage_decode_make_panics n rest :
  maxAlloc < 8 * n -> n <= varintMax8 ->
  DecodeStorage (storage_header ++
    [4; 1; 97; Z.lor ArrayFlag TypeUint64] ++ PackVarint n ++ rest) =
    Panic MakeSliceLenOutOfRange.
Proof.
  intros Hn Hv. rewrite DecodeStorage_header. unfold varintMax8 in Hv.
  set (arr := PackVarint n ++ rest). change ([4; 1; 97; ?t] ++ ?x) with (4 :: 1 :: 97 :: t :: x).
  assert (Ha : forall g, decodeValue (S g) arr (Z.lor ArrayFlag TypeUint64) =
                         Panic MakeSliceLenOutOfRange).
  { intros g. change (decodeValue (S g) ?b (Z.lor ArrayFlag TypeUint64))
      with (decodeArray (decodeValue g) b (Z.lor ArrayFlag TypeUint64)).
    unfold arr. rewrite decodeArray_count by (unfold maxAlloc in Hn; lia). cbv zeta. elem_type.
    unfold makeslice. by rewrite decide_False by lia. }
  clearbody arr. unfold decodeSection.
  change (UnpackVarint (4 :: ?t)) with (@Ok unpackVarintResult (mkUnpack 1 1)).
  cbn [map_fail mbind Result_bind uv_Value uv_BytesConsumed decodeEntries].
  pose proof (len_nonneg arr). rewrite decide_False by lia.
  rewrite decide_False by (autorewrite with go; lia).
  change (index (4 :: 1 :: ?t) 1) with (Ok 1). cbn [mbind Result_bind].
  rewrite decide_False by (autorewrite with go; lia).
  change (4 :: 1 :: 97 :: ?t) with ([4; 1] ++ [97] ++ t). rewrite slice_mid by done.
  cbn [mbind Result_bind]. rewrite decide_False by (autorewrite with go; lia).
  change (index ([4; 1] ++ [97] ++ ?t :: arr) (1 + 1 + 1)) with (Ok t). cbn [mbind Result_bind].
  change ([4; 1] ++ [97] ++ ?t :: arr) with ([4; 1; 97; t] ++ arr).
  rewrite slice_from_app by done. cbn [mbind Result_bind].
  change (9 + ?m)%nat with (S (8 + m)). by rewrite Ha.
Qed.

Lemma storage_decode_make_panics_witness :
  DecodeStorage (storage_header ++ [4; 1; 97; 133] ++ PackVarint (2 ^ 46) ++ []) =
    Panic MakeSliceLenOutOfRange.
Proof.
  apply (storage_decode_make_panics (2 ^ 46) []); vm_compute; [reflexivity|discriminate].
Defined.
