(* ===== verification/Connection.v ===== *)
(** * Framed Levin I/O (src/go/node/levin/connection.go)

    A [Connection] over a byte stream: [WritePacket], [WriteResponse],
    [writeFrame] and [ReadPacket], the theorems that what one side writes the
    other reads, and the concurrent semantics of [writeFrame] under its mutex. *)

From S2P Require Import Prelude Header.

Definition FlagRequest : Z := 1.
Definition FlagResponse : Z := 2.
Definition LevinProtocolVersion : Z := 1.

(** Durations in nanoseconds. *)
Definition Second : Z := 1000000000.
Definition DefaultReadTimeout : Z := 120 * Second.
Definition DefaultWriteTimeout : Z := 30 * Second.

(** ** The network connection

    [net.Conn] as its owner sees it: the bytes that will still arrive before
    the remote side closes, the bytes handed to the network, the two deadlines,
    and the faults the network will inject, one entry per call: [None] lets the
    call succeed, [Some (n, e)] makes it fail with [e] after transferring at
    most [n] bytes.  An exhausted schedule injects no fault. *)
Record NetConn : Type := mkNetConn {
  inbox : bytes;
  outbox : bytes;
  readDeadline : Z;
  writeDeadline : Z;
  faults : list (option (nat * error));
  closed : bool
}.

Definition with_faults f (c : NetConn) : NetConn :=
  mkNetConn (inbox c) (outbox c) (readDeadline c) (writeDeadline c) f (closed c).
Definition with_inbox i (c : NetConn) : NetConn :=
  mkNetConn i (outbox c) (readDeadline c) (writeDeadline c) (faults c) (closed c).
Definition with_outbox o (c : NetConn) : NetConn :=
  mkNetConn (inbox c) o (readDeadline c) (writeDeadline c) (faults c) (closed c).

(** The next scheduled fault. *)
Definition next_fault : SR NetConn (option (nat * error)) := fun c =>
  match faults c with
  | [] => (Ok None, c)
  | f :: fs => (Ok f, with_faults fs c)
  end.

Definition SetWriteDeadline (t : Z) : SR NetConn unit :=
  f ← next_fault;
  match f with
  | Some (_, e) => fail e
  | None => modify (fun c => mkNetConn (inbox c) (outbox c) (readDeadline c) t (faults c) (closed c))
  end.

Definition SetReadDeadline (t : Z) : SR NetConn unit :=
  f ← next_fault;
  match f with
  | Some (_, e) => fail e
  | None => modify (fun c => mkNetConn (inbox c) (outbox c) t (writeDeadline c) (faults c) (closed c))
  end.

(** A call that fails with [e] after a side effect. *)
Definition fail_after {A} (f : NetConn -> NetConn) (e : error) : SR NetConn A :=
  fun c => (Fail e, f c).

Definition Write (b : bytes) : SR NetConn unit :=
  f ← next_fault;
  match f with
  | Some (n, e) => fail_after (fun c => with_outbox (outbox c ++ take n b) c) e
  | None => modify (fun c => with_outbox (outbox c ++ b) c)
  end.

(** [io.ReadFull(conn, buf)] with [len(buf) = n]: [io.EOF] when nothing was
    read, [io.ErrUnexpectedEOF] after a partial read. *)
Definition read_inbox (n : Z) : SR NetConn bytes := fun c =>
  if decide (n <= len (inbox c)) then
    (Ok (take (Z.to_nat n) (inbox c)), with_inbox (drop (Z.to_nat n) (inbox c)) c)
  else if decide (len (inbox c) = 0) then (Fail io_EOF, c)
  else (Fail io_ErrUnexpectedEOF, with_inbox [] c).
Definition ReadFull (n : Z) : SR NetConn bytes :=
  f ← next_fault;
  match f with
  | Some (k, e) => fail_after (fun c => with_inbox (drop k (inbox c)) c) e
  | None => read_inbox n
  end.

Definition NetClose : SR NetConn unit :=
  f ← next_fault;
  match f with
  | Some (_, e) => fail e
  | None => modify (fun c => mkNetConn (inbox c) (outbox c) (readDeadline c) (writeDeadline c) (faults c) true)
  end.

(** ** The Levin connection *)
Record Connection : Type := mkConnection {
  c_MaxPayloadSize : Z;
  c_ReadTimeout : Z;
  c_WriteTimeout : Z;
  conn : NetConn
}.

Record readPacketResult : Type := mkReadPacket {
  rp_Header : Header;
  rp_Payload : bytes
}.

Definition NewConnection (nc : NetConn) : Connection :=
  mkConnection MaxPayloadSize DefaultReadTimeout DefaultWriteTimeout nc.

(** A call on the wrapped connection. *)
Definition on_conn {A} (m : SR NetConn A) : SR Connection A := fun c =>
  let '(r, nc) := m (conn c) in
  (r, mkConnection (c_MaxPayloadSize c) (c_ReadTimeout c) (c_WriteTimeout c) nc).

(** [now] is the reading of the clock when the method is called. *)
Definition writeFrame (now : Z) (h : Header) (payload : bytes) : SR Connection unit :=
  let buf := EncodeHeader h in
  timeout ← gets c_WriteTimeout;
  _ ← on_conn (SetWriteDeadline (now + timeout));
  _ ← on_conn (Write buf);
  if decide (len payload > 0) then on_conn (Write payload) else mret tt.

Definition WritePacket (now cmd : Z) (payload : bytes) (expectResponse : bool) : SR Connection unit :=
  let h := mkHeader Signature (u64 (len payload)) expectResponse cmd ReturnOK
             FlagRequest LevinProtocolVersion in
  writeFrame now h payload.

Definition WriteResponse (now cmd : Z) (payload : bytes) (returnCode : Z) : SR Connection unit :=
  let h := mkHeader Signature (u64 (len payload)) false cmd returnCode
             FlagResponse LevinProtocolVersion in
  writeFrame now h payload.

Definition ReadPacket (now : Z) : SR Connection readPacketResult :=
  timeout ← gets c_ReadTimeout;
  _ ← on_conn (SetReadDeadline (now + timeout));
  hdrBuf ← on_conn (ReadFull HeaderSize);
  h ← lift (DecodeHeader hdrBuf);
  max ← gets c_MaxPayloadSize;
  if decide (h_PayloadSize h > max) then fail ErrPayloadTooBig
  else if decide (h_PayloadSize h = 0) then mret (mkReadPacket h [])
  else
    _ ← lift (makeslice 1 (h_PayloadSize h));
    payload ← on_conn (ReadFull (h_PayloadSize h));
    mret (mkReadPacket h payload).

Definition Close : SR Connection unit := on_conn NetClose.

(** ** Lemmas *)

(** The bytes of one frame. *)
Definition frame (h : Header) (payload : bytes) : bytes := EncodeHeader h ++ payload.

(** [c] after sending [b] / receiving up to [rest]; the deadlines move too. *)
Definition sent (c : Connection) (dl : Z) (b : bytes) : Connection :=
  let nc := conn c in
  mkConnection (c_MaxPayloadSize c) (c_ReadTimeout c) (c_WriteTimeout c)
    (mkNetConn (inbox nc) (outbox nc ++ b) (readDeadline nc) dl (faults nc) (closed nc)).
Definition received (c : Connection) (dl : Z) (rest : bytes) : Connection :=
  let nc := conn c in
  mkConnection (c_MaxPayloadSize c) (c_ReadTimeout c) (c_WriteTimeout c)
    (mkNetConn rest (outbox nc) dl (writeDeadline nc) (faults nc) (closed nc)).

Lemma writeFrame_ok now h payload c :
  faults (conn c) = [] ->
  writeFrame now h payload c = (Ok tt, sent c (now + c_WriteTimeout c) (frame h payload)).
Proof.
  intros Hf. destruct c as [mx rt wt [ib ob rd wd fs cl]]. cbn in Hf. subst fs.
  unfold writeFrame, sent, frame. cbv [mbind SR_bind gets on_conn SetWriteDeadline Write next_fault
    modify with_outbox conn c_WriteTimeout c_ReadTimeout c_MaxPayloadSize inbox outbox
    readDeadline writeDeadline faults closed].
  case_decide as Hp; cbv beta iota; rewrite <- ?app_assoc; [done|].
  destruct payload; [done|]. rewrite len_cons in Hp. pose proof (len_nonneg payload). lia.
Qed.

Lemma ReadFull_ok n nc a rest :
  faults nc = [] -> inbox nc = a ++ rest -> len a = n ->
  ReadFull n nc = (Ok a, with_inbox rest nc).
Proof.
  intros Hf Hi Hl. unfold ReadFull. cbv [mbind SR_bind next_fault]. rewrite Hf. unfold read_inbox. rewrite Hi.
  pose proof (len_nonneg rest). rewrite decide_True by (rewrite len_app; lia).
  unfold len in Hl. replace (Z.to_nat n) with (length a) by lia.
  by rewrite take_app_length, drop_app_length.
Qed.

(** Headers the two writers produce, and every header a peer may send. *)
Definition sendable (h : Header) (payload : bytes) : Prop :=
  header_wf h /\ h_Signature h = Signature /\ h_PayloadSize h = len payload /\
  len payload <= MaxPayloadSize.

Lemma on_conn_ReadFull n c a rest :
  faults (conn c) = [] -> inbox (conn c) = a ++ rest -> len a = n ->
  on_conn (ReadFull n) c = (Ok a, received c (readDeadline (conn c)) rest).
Proof.
  intros Hf Hi Hl. unfold on_conn. by rewrite (ReadFull_ok n (conn c) a rest).
Qed.

Lemma ReadPacket_ok now h payload rest c :
  sendable h payload -> len payload <= c_MaxPayloadSize c ->
  faults (conn c) = [] -> inbox (conn c) = frame h payload ++ rest ->
  ReadPacket now c =
    (Ok (mkReadPacket h payload), received c (now + c_ReadTimeout c) rest).
Proof.
  intros (Hwf & Hs & Hps & Hmax) Hc Hf Hi. unfold frame in Hi. rewrite <- app_assoc in Hi.
  unfold ReadPacket. rewrite (SR_bind_Ok _ _ c (c_ReadTimeout c) c) by done.
  rewrite (SR_bind_Ok _ _ c tt (received c (now + c_ReadTimeout c) (inbox (conn c)))).
  2: { cbv [on_conn SetReadDeadline mbind SR_bind next_fault modify]. by rewrite Hf. }
  rewrite (SR_bind_Ok _ _ _ (EncodeHeader h) (received c (now + c_ReadTimeout c) (payload ++ rest)))
    by (by rewrite (on_conn_ReadFull _ _ (EncodeHeader h) (payload ++ rest))).
  rewrite (SR_bind_Ok _ _ _ h (received c (now + c_ReadTimeout c) (payload ++ rest))).
  2: { unfold lift. rewrite Decode_Encode_cases by done.
       rewrite decide_False by tauto. by rewrite decide_False by lia. }
  rewrite (SR_bind_Ok _ _ _ (c_MaxPayloadSize c) (received c (now + c_ReadTimeout c) (payload ++ rest)))
    by done.
  rewrite decide_False by lia. case_decide as H0.
  - destruct payload as [|x p]; [done|]. rewrite H0, len_cons in Hps. pose proof (len_nonneg p). lia.
  - rewrite (SR_bind_Ok _ _ _ tt (received c (now + c_ReadTimeout c) (payload ++ rest))).
    2: { unfold lift, makeslice. by rewrite decide_True by (unfold MaxPayloadSize, maxAlloc in *; lia). }
    rewrite (SR_bind_Ok _ _ _ payload (received c (now + c_ReadTimeout c) rest)); [done|].
    by rewrite (on_conn_ReadFull _ _ payload rest).
Qed.

(** ** Sequences of packets *)

(** A call of one of the two public writers. *)
Inductive levin_msg : Type :=
| Request (cmd : Z) (payload : bytes) (expectResponse : bool)
| Response (cmd : Z) (payload : bytes) (returnCode : Z).

Definition send_msg (now : Z) (m : levin_msg) : SR Connection unit :=
  match m with
  | Request cmd payload er => WritePacket now cmd payload er
  | Response cmd payload rc => WriteResponse now cmd payload rc
  end.

(** The packet a message is read back as. *)
Definition msg_payload (m : levin_msg) : bytes :=
  match m with Request _ p _ => p | Response _ p _ => p end.
Definition msg_header (m : levin_msg) : Header :=
  match m with
  | Request cmd p er => mkHeader Signature (len p) er cmd ReturnOK FlagRequest LevinProtocolVersion
  | Response cmd p rc => mkHeader Signature (len p) false cmd rc FlagResponse LevinProtocolVersion
  end.
Definition msg_packet (m : levin_msg) : readPacketResult := mkReadPacket (msg_header m) (msg_payload m).
Definition msg_bytes (m : levin_msg) : bytes := frame (msg_header m) (msg_payload m).

(** Machine-width arguments and a payload within the protocol limit. *)
Definition msg_wf (m : levin_msg) : Prop :=
  len (msg_payload m) <= MaxPayloadSize /\
  match m with
  | Request cmd _ _ => in_u 32 cmd
  | Response cmd _ rc => in_u 32 cmd /\ in_s 32 rc
  end.

Fixpoint send_all (now : Z) (ms : list levin_msg) : SR Connection unit :=
  match ms with
  | [] => mret tt
  | m :: ms => _ ← send_msg now m; send_all now ms
  end.

Fixpoint read_all (now : Z) (n : nat) : SR Connection (list readPacketResult) :=
  match n with
  | O => mret []
  | S n => p ← ReadPacket now; ps ← read_all now n; mret (p :: ps)
  end.

Lemma msg_sendable m : msg_wf m -> sendable (msg_header m) (msg_payload m).
Proof.
  intros [Hl Hm]. pose proof (len_nonneg (msg_payload m)) as Hn.
  assert (Hu : in_u 64 (len (msg_payload m))) by (unfold in_u, MaxPayloadSize in *; lia).
  destruct m; unfold sendable, header_wf;
    cbn [msg_header msg_payload h_Signature h_PayloadSize h_ExpectResponse h_Command h_ReturnCode
         h_Flags h_ProtocolVersion] in *;
    split_and!; try done; try tauto; by apply bool_decide_unpack.
Qed.

Lemma send_msg_ok now m c :
  msg_wf m -> faults (conn c) = [] ->
  send_msg now m c = (Ok tt, sent c (now + c_WriteTimeout c) (msg_bytes m)).
Proof.
  intros Hm Hf. destruct (msg_sendable m Hm) as ((_ & Hu & _) & _).
  destruct m; cbn [send_msg]; unfold WritePacket, WriteResponse;
    cbn [msg_header h_PayloadSize] in Hu; rewrite (uwrap_id 64 _ Hu); by apply writeFrame_ok.
Qed.

Lemma send_all_ok now ms c :
  Forall msg_wf ms -> faults (conn c) = [] ->
  exists c', send_all now ms c = (Ok tt, c') /\
    outbox (conn c') = outbox (conn c) ++ concat (msg_bytes <$> ms) /\ faults (conn c') = [].
Proof.
  intros Hms. revert c. induction Hms as [|m ms Hm _ IH]; intros c Hf.
  - exists c. cbn. by rewrite app_nil_r.
  - cbn [send_all]. rewrite (SR_bind_Ok _ _ c tt (sent c (now + c_WriteTimeout c) (msg_bytes m)))
      by (by apply send_msg_ok).
    destruct (IH (sent c (now + c_WriteTimeout c) (msg_bytes m)) Hf) as (c' & -> & Ho & Hf').
    exists c'. split_and!; [done| |done]. rewrite Ho. unfold sent. cbn [conn outbox].
    rewrite <- app_assoc. done.
Qed.

Lemma read_all_ok now ms rest c :
  Forall msg_wf ms -> MaxPayloadSize <= c_MaxPayloadSize c ->
  faults (conn c) = [] -> inbox (conn c) = concat (msg_bytes <$> ms) ++ rest ->
  exists c', read_all now (length ms) c = (Ok (msg_packet <$> ms), c') /\ inbox (conn c') = rest.
Proof.
  intros Hms Hmax. revert c Hmax. induction Hms as [|m ms Hm _ IH]; intros c Hmax Hf Hi.
  - exists c. done.
  - cbn [read_all length]. cbn [fmap list_fmap concat] in Hi. rewrite <- app_assoc in Hi.
    set (rest' := concat (msg_bytes <$> ms) ++ rest) in *.
    rewrite (SR_bind_Ok _ _ c (msg_packet m) (received c (now + c_ReadTimeout c) rest')).
    2: { apply ReadPacket_ok; try done; [by apply msg_sendable|].
         destruct Hm. lia. }
    destruct (IH (received c (now + c_ReadTimeout c) rest')) as (c' & Hr & Hin); [done..|].
    exists c'. split; [|done].
    rewrite (SR_bind_Ok _ _ _ (msg_packet <$> ms) c') by done. done.
Qed.

(** ** Theorems *)

(** C3 (roundtrip): any sequence of [WritePacket] and [WriteResponse] calls on
    one side is read by as many [ReadPacket] calls on the other as the same
    sequence of headers and payloads, and the reader stops exactly at the end
    of the last frame.  Empty payloads and negative return codes included. *)
Theorem levin_stream_roundtrip now now' ms w r tail :
  Forall msg_wf ms -> MaxPayloadSize <= c_MaxPayloadSize r ->
  faults (conn w) = [] -> faults (conn r) = [] ->
  exists w' stream,
    send_all now ms w = (Ok tt, w') /\ outbox (conn w') = outbox (conn w) ++ stream /\
    (inbox (conn r) = stream ++ tail ->
     exists r', read_all now' (length ms) r = (Ok (msg_packet <$> ms), r') /\
       inbox (conn r') = tail).
Proof.
  intros Hms Hmax Hw Hr. destruct (send_all_ok now ms w Hms Hw) as (w' & Hs & Ho & _).
  exists w', (concat (msg_bytes <$> ms)). split_and!; [done|done|].
  intros Hi. by apply read_all_ok.
Qed.

Definition idle_conn (b : bytes) : NetConn := mkNetConn b [] 0 0 [] false.
Definition sample_msgs : list levin_msg := [Request 1003 [] true; Response 1001 [1; 2; 3] (-7)].

Lemma levin_stream_roundtrip_witness :
  exists r', read_all 0 2 (NewConnection (idle_conn (concat (msg_bytes <$> sample_msgs) ++ [9]))) =
    (Ok (msg_packet <$> sample_msgs), r') /\ inbox (conn r') = [9].
Proof.
  destruct (levin_stream_roundtrip 0 0 sample_msgs (NewConnection (idle_conn []))
    (NewConnection (idle_conn (concat (msg_bytes <$> sample_msgs) ++ [9]))) [9])
    as (w' & stream & Hs & Ho & Hr).
  - repeat constructor; vm_compute; done.
  - done.
  - done.
  - done.
  - apply Hr. assert (Hv : send_all 0 sample_msgs (NewConnection (idle_conn [])) = (Ok tt, w')) by done.
    vm_compute in Hv. injection Hv as <-. vm_compute in Ho. subst stream. reflexivity.
Defined.

(** ** Reading from an arbitrary peer *)

(** One [io.ReadFull]: it either returns the next [n] bytes of the stream or
    fails after consuming a prefix of it. *)
Definition reads (n : Z) (ib ib' : bytes) (r : Result bytes) : Prop :=
  (exists b, r = Ok b /\ len b = n /\ ib = b ++ ib') \/
  (exists e b, r = Fail e /\ ib = b ++ ib').

Lemma ReadFull_reads n c r c' :
  0 <= n -> on_conn (ReadFull n) c = (r, c') ->
  reads n (inbox (conn c)) (inbox (conn c')) r /\ c_MaxPayloadSize c' = c_MaxPayloadSize c.
Proof.
  intros Hn. destruct c as [mx rt wt [ib ob rd wd fs cl]].
  cbv [on_conn ReadFull mbind SR_bind next_fault read_inbox fail_after faults with_faults with_inbox conn inbox].
  destruct fs as [|[[k e]|] fs]; cbn beta iota zeta; repeat case_decide;
    intros Heq; injection Heq as <- <-; cbn [c_MaxPayloadSize conn inbox]; split; try done.
  all: try by right; eexists _, []; eauto.
  all: try by right; eexists _, (take k ib); rewrite take_drop; eauto.
  all: try by right; eexists _, ib; rewrite app_nil_r; eauto.
  all: left; exists (take (Z.to_nat n) ib); rewrite take_drop; split_and!; try done;
    unfold len in *; rewrite length_take; lia.
Qed.

Lemma SetReadDeadline_effect t c r c' :
  on_conn (SetReadDeadline t) c = (r, c') ->
  (r = Ok tt \/ exists e, r = Fail e) /\ inbox (conn c') = inbox (conn c) /\
  c_MaxPayloadSize c' = c_MaxPayloadSize c.
Proof.
  destruct c as [mx rt wt [ib ob rd wd fs cl]].
  cbv [on_conn SetReadDeadline mbind SR_bind next_fault modify fail lift faults conn].
  destruct fs as [|[[k e]|] fs]; cbn beta iota zeta; intros Heq; injection Heq as <- <-;
    cbn; eauto.
Qed.

(** C38 (safety): whatever bytes a peer sends and whatever faults the network
    injects, [ReadPacket] never panics (in particular its [make] is bounded); a
    packet it returns is the exact next [33 + PayloadSize] bytes of the stream,
    with [PayloadSize] within both the protocol's and the connection's limit,
    and on an error only a prefix of the stream is gone. *)
Theorem ReadPacket_safe now c r c' :
  all_bytes (inbox (conn c)) ->
  ReadPacket now c = (r, c') ->
  (exists h p hdr, r = Ok (mkReadPacket h p) /\
     inbox (conn c) = hdr ++ p ++ inbox (conn c') /\ len hdr = 33 /\
     DecodeHeader hdr = Ok h /\ len p = h_PayloadSize h /\
     len p <= MaxPayloadSize /\ len p <= c_MaxPayloadSize c) \/
  (exists e b, r = Fail e /\ inbox (conn c) = b ++ inbox (conn c')).
Proof.
  intros Hb. unfold ReadPacket. rewrite (SR_bind_Ok _ _ c (c_ReadTimeout c) c) by done.
  destruct (on_conn (SetReadDeadline (now + c_ReadTimeout c)) c) as [r0 c0] eqn:H0.
  destruct (SetReadDeadline_effect _ _ _ _ H0) as ([-> | [e ->]] & Hi0 & Hm0); sr_step H0.
  2: { intros Heq. injection Heq as <- <-. right. by exists e, []. }
  destruct (on_conn (ReadFull HeaderSize) c0) as [r1 c1] eqn:H1.
  destruct (ReadFull_reads HeaderSize c0 r1 c1 ltac:(done) H1)
    as ([(hdr & -> & Hl & Hi1) | (e & b & -> & Hi1)] & Hm1); rewrite Hi0 in Hi1; sr_step H1.
  2: { intros Heq. injection Heq as <- <-. right. eauto. }
  rewrite Hi1 in Hb. apply Forall_app in Hb as [Hhdr _].
  destruct (DecodeHeader_total hdr Hhdr Hl) as [(h & Hd & Hps) | [e Hd]].
  2: { rewrite (SR_bind_Fail _ _ _ e c1) by (unfold lift; by rewrite Hd).
       intros Heq. injection Heq as <- <-. right. eauto. }
  rewrite (SR_bind_Ok _ _ c1 h c1) by (unfold lift; by rewrite Hd).
  rewrite (SR_bind_Ok _ _ c1 (c_MaxPayloadSize c1) c1) by done. rewrite Hm1, Hm0.
  case_decide as Hbig. { intros Heq. injection Heq as <- <-. right. eauto. }
  case_decide as Hz.
  { intros Heq. injection Heq as <- <-. left. exists h, [], hdr. rewrite len_nil. split_and!; auto; lia. }
  rewrite (SR_bind_Ok _ _ c1 tt c1)
    by (unfold lift, makeslice; by rewrite decide_True by (unfold MaxPayloadSize, maxAlloc in *; lia)).
  destruct (on_conn (ReadFull (h_PayloadSize h)) c1) as [r2 c2] eqn:H2.
  destruct (ReadFull_reads _ _ _ _ (proj1 Hps) H2)
    as ([(p & -> & Hlp & Hi2) | (e & b & -> & Hi2)] & Hm2); sr_step H2;
    intros Heq; injection Heq as <- <-; rewrite Hi2 in Hi1.
  - left. exists h, p, hdr. split_and!; auto; lia.
  - right. exists e, (hdr ++ b). by rewrite <- app_assoc.
Qed.

(** A peer that announces three bytes and sends five: the packet is the 36 bytes
    of the frame, and the two bytes after it stay in the stream. *)
Lemma ReadPacket_safe_witness :
  let hdr0 := EncodeHeader (mkHeader Signature 3 true 1 0 1 1) in
  let c := NewConnection (idle_conn (hdr0 ++ [7; 8; 9] ++ [1; 2])) in
  exists h p hdr, fst (ReadPacket 0 c) = Ok (mkReadPacket h p) /\ len hdr = 33 /\
    inbox (conn c) = hdr ++ p ++ inbox (conn (snd (ReadPacket 0 c))) /\ DecodeHeader hdr = Ok h.
Proof.
  intros hdr0 c. destruct (ReadPacket_safe 0 c (fst (ReadPacket 0 c)) (snd (ReadPacket 0 c)))
    as [(h & p & hdr & Hr & Hi & Hl & Hd & _) | (e & b & Hr & _)].
  - apply (bool_decide_unpack _). vm_compute. exact I.
  - apply surjective_pairing.
  - exists h, p, hdr. split; [exact Hr|split; [exact Hl|split; [exact Hi|exact Hd]]].
  - vm_compute in Hr. discriminate Hr.
Defined.

(** ** Concurrent writers

    [writeFrame] as a goroutine runs it: the mutex, the three calls on the
    network connection as separate steps, the early returns through the deferred
    unlock.  [calls] are the frames of the goroutines, indexed by goroutine. *)
Section Writers.
Context (calls : list (Header * bytes)).

Inductive wpc : Type :=
| WStart
| WDeadline (now : Z)
| WHeader
| WPayload
| WUnlock (r : Result unit)
| WDone (r : Result unit).

Record wsys : Type := mkWsys {
  shared : Connection;
  writeMu : option nat;
  pcs : list wpc
}.

(** Go on to [pc] or leave with the error. *)
Definition or_return (r : Result unit) (pc : wpc) : wpc :=
  match r with Ok _ => pc | _ => WUnlock r end.

Inductive wstep : wsys -> wsys -> Prop :=
| ws_lock i f now c ps :
    calls !! i = Some f -> ps !! i = Some WStart ->
    wstep (mkWsys c None ps) (mkWsys c (Some i) (<[i := WDeadline now]> ps))
| ws_deadline i now c o ps r c' :
    ps !! i = Some (WDeadline now) ->
    on_conn (SetWriteDeadline (now + c_WriteTimeout c)) c = (r, c') ->
    wstep (mkWsys c o ps) (mkWsys c' o (<[i := or_return r WHeader]> ps))
| ws_header i h p c o ps r c' :
    calls !! i = Some (h, p) -> ps !! i = Some WHeader ->
    on_conn (Write (EncodeHeader h)) c = (r, c') ->
    wstep (mkWsys c o ps) (mkWsys c' o (<[i := or_return r WPayload]> ps))
| ws_payload i h p c o ps r c' :
    calls !! i = Some (h, p) -> ps !! i = Some WPayload ->
    (if decide (len p > 0) then on_conn (Write p) c else (Ok tt, c)) = (r, c') ->
    wstep (mkWsys c o ps) (mkWsys c' o (<[i := WUnlock r]> ps))
| ws_unlock i r c o ps :
    ps !! i = Some (WUnlock r) ->
    wstep (mkWsys c o ps) (mkWsys c None (<[i := WDone r]> ps)).

Definition winit (c : Connection) : wsys := mkWsys c None (replicate (length calls) WStart).

(** The sequential reference: whole [writeFrame] calls, one after the other. *)
Fixpoint run_log (log : list (nat * Z)) (c : Connection) : list (nat * Result unit) * Connection :=
  match log with
  | [] => ([], c)
  | (i, now) :: log =>
      match calls !! i with
      | Some (h, p) =>
          let '(r, c1) := writeFrame now h p c in
          let '(rs, c2) := run_log log c1 in ((i, r) :: rs, c2)
      | None => ([], c)
      end
  end.

(** What a goroutine inside the critical section has still to do. *)
Definition wcont (h : Header) (p : bytes) (pc : wpc) : SR Connection unit :=
  match pc with
  | WDeadline now => writeFrame now h p
  | WHeader => _ ← on_conn (Write (EncodeHeader h)); if decide (len p > 0) then on_conn (Write p) else mret tt
  | WPayload => if decide (len p > 0) then on_conn (Write p) else mret tt
  | WUnlock r | WDone r => lift r
  | WStart => mret tt
  end.

Definition critical (pc : wpc) : bool :=
  match pc with WStart | WDone _ => false | _ => true end.

(** The holder of the mutex is the one goroutine in its critical section, and
    finishing its call from here is the call run from the state it started in. *)
Definition winv (c0 : Connection) (s : wsys) : Prop :=
  exists log rs c,
    run_log log c0 = (rs, c) /\ rs.*1 = log.*1 /\ NoDup log.*1 /\
    (forall i r, pcs s !! i = Some (WDone r) <-> (i, r) ∈ rs) /\
    (forall i pc, pcs s !! i = Some pc -> critical pc = true -> writeMu s = Some i) /\
    match writeMu s with
    | None => shared s = c
    | Some i => exists h p now pc, calls !! i = Some (h, p) /\ pcs s !! i = Some pc /\
        critical pc = true /\ wcont h p pc (shared s) = writeFrame now h p c
    end.

Lemma run_log_snoc log i now h p c rs c1 r c2 :
  run_log log c = (rs, c1) -> rs.*1 = log.*1 -> calls !! i = Some (h, p) ->
  writeFrame now h p c1 = (r, c2) ->
  run_log (log ++ [(i, now)]) c = (rs ++ [(i, r)], c2).
Proof.
  intros Hr Hf Hi Hw. revert rs c Hr Hf. induction log as [|[j t] log IH]; intros rs c; cbn [run_log app].
  - intros [= <- <-] _. by rewrite Hi, Hw.
  - destruct (calls !! j) as [[hj pj]|]; [|by intros [= <- <-]].
    destruct (writeFrame t hj pj c) as [r' c']. destruct (run_log log c') as [rs' c''] eqn:Hl.
    intros [= <- <-] [= Hf]. by rewrite (IH rs' c' Hl Hf).
Qed.

(** Each step inside the critical section performs the next part of the call. *)
Lemma wcont_deadline h p now c r c' :
  on_conn (SetWriteDeadline (now + c_WriteTimeout c)) c = (r, c') ->
  wcont h p (or_return r WHeader) c' = wcont h p (WDeadline now) c.
Proof.
  intros H. cbn [wcont]. unfold writeFrame. rewrite (SR_bind_Ok _ _ c (c_WriteTimeout c) c) by done.
  cbv [mbind SR_bind]. rewrite H. by destruct r.
Qed.

Lemma wcont_header h p c r c' :
  on_conn (Write (EncodeHeader h)) c = (r, c') ->
  wcont h p (or_return r WPayload) c' = wcont h p WHeader c.
Proof. intros H. cbn [wcont]. cbv [mbind SR_bind]. rewrite H. by destruct r. Qed.

Lemma wcont_payload h p c r c' :
  (if decide (len p > 0) then on_conn (Write p) c else (Ok tt, c)) = (r, c') ->
  wcont h p (WUnlock r) c' = wcont h p WPayload c.
Proof. intros H. cbn [wcont]. unfold lift. rewrite <- H. by case_decide. Qed.

Lemma critical_or_return r pc : critical pc = true -> critical (or_return r pc) = true.
Proof. by destruct r. Qed.

Lemma winv_inside c0 i pc pc' c c' o ps :
  ps !! i = Some pc -> critical pc = true -> critical pc' = true ->
  (forall h p, calls !! i = Some (h, p) -> wcont h p pc' c' = wcont h p pc c) ->
  winv c0 (mkWsys c o ps) -> winv c0 (mkWsys c' o (<[i := pc']> ps)).
Proof.
  intros Hi Hc Hc' Hw (log & rs & cs & Hr & Hf & Hn & Hd & Hm & Hs). cbn [pcs writeMu shared] in *.
  pose proof (Hm _ _ Hi Hc) as ->. destruct Hs as (h & p & now & pc0 & Hcall & Hi0 & _ & Heq).
  rewrite Hi in Hi0. injection Hi0 as <-. pose proof (lookup_lt_Some _ _ _ Hi).
  exists log, rs, cs. cbn [pcs writeMu shared]. split_and!; try done.
  - intros j r. rewrite <- Hd. destruct (decide (i = j)) as [<-|].
    + rewrite list_lookup_insert_eq, Hi by done. by split; intros [= ->].
    + by rewrite list_lookup_insert_ne.
  - intros j q Hj Hq. destruct (decide (i = j)) as [<-|]; [done|].
    rewrite list_lookup_insert_ne in Hj by done. eauto.
  - exists h, p, now, pc'. rewrite list_lookup_insert_eq by done.
    split_and!; try done. by rewrite Hw.
Qed.

Lemma winv_lock c0 i f now c ps :
  calls !! i = Some f -> ps !! i = Some WStart ->
  winv c0 (mkWsys c None ps) -> winv c0 (mkWsys c (Some i) (<[i := WDeadline now]> ps)).
Proof.
  intros Hf Hi (log & rs & cs & Hr & Hfst & Hn & Hd & Hm & Hs). cbn [pcs writeMu shared] in *.
  pose proof (lookup_lt_Some _ _ _ Hi). destruct f as [h p].
  exists log, rs, cs. cbn [pcs writeMu shared]. split_and!; try done.
  - intros j r. rewrite <- Hd. destruct (decide (i = j)) as [<-|].
    + rewrite list_lookup_insert_eq, Hi by done. by split; intros [= ->].
    + by rewrite list_lookup_insert_ne.
  - intros j q Hj Hq. destruct (decide (i = j)) as [<-|]; [done|].
    rewrite list_lookup_insert_ne in Hj by done. by pose proof (Hm _ _ Hj Hq).
  - exists h, p, now, (WDeadline now). rewrite list_lookup_insert_eq by done.
    split_and!; try done. by rewrite Hs.
Qed.

Lemma winv_unlock c0 i r c o ps :
  ps !! i = Some (WUnlock r) ->
  winv c0 (mkWsys c o ps) -> winv c0 (mkWsys c None (<[i := WDone r]> ps)).
Proof.
  intros Hi (log & rs & cs & Hr & Hfst & Hn & Hd & Hm & Hs). cbn [pcs writeMu shared] in *.
  pose proof (Hm _ _ Hi eq_refl) as ->. destruct Hs as (h & p & now & pc & Hcall & Hi0 & _ & Heq).
  rewrite Hi in Hi0. injection Hi0 as <-. cbn [wcont] in Heq. unfold lift in Heq. symmetry in Heq.
  pose proof (lookup_lt_Some _ _ _ Hi).
  exists (log ++ [(i, now)]), (rs ++ [(i, r)]), c. cbn [pcs writeMu shared]. rewrite !fmap_app.
  split_and!.
  - by apply (run_log_snoc _ _ _ h p _ _ cs).
  - by rewrite Hfst.
  - apply NoDup_app. split_and!; [done| |by apply NoDup_singleton].
    intros j Hj Hji. apply list_elem_of_singleton in Hji as ->. cbn in Hj.
    rewrite <- Hfst in Hj. apply list_elem_of_fmap in Hj as ([j r'] & Heqj & Hin). cbn in Heqj. subst j.
    apply Hd in Hin. by rewrite Hi in Hin.
  - intros j r'. rewrite elem_of_app, list_elem_of_singleton, <- Hd. destruct (decide (i = j)) as [<-|].
    + rewrite list_lookup_insert_eq, Hi by done. split; [intros [= ->]; by right|naive_solver].
    + rewrite list_lookup_insert_ne by done. split; [by left|naive_solver].
  - intros j q Hj Hq. destruct (decide (i = j)) as [<-|].
    + rewrite list_lookup_insert_eq in Hj by done. by injection Hj as <-.
    + rewrite list_lookup_insert_ne in Hj by done. by pose proof (Hm _ _ Hj Hq) as [= ->].
  - done.
Qed.

Lemma winv_step c0 s s' : wstep s s' -> winv c0 s -> winv c0 s'.
Proof.
  destruct 1 as [i f now c ps Hf Hi|i now c o ps r c' Hi Hop|i h p c o ps r c' Hf Hi Hop
                |i h p c o ps r c' Hf Hi Hop|i r c o ps Hi].
  - by eapply winv_lock.
  - eapply winv_inside; [done|done|by apply critical_or_return|].
    intros h p _. by apply wcont_deadline.
  - eapply winv_inside; [done|done|by apply critical_or_return|].
    intros h' p' Hf'. rewrite Hf in Hf'. injection Hf' as <- <-. by apply wcont_header.
  - eapply winv_inside; [done|done|done|].
    intros h' p' Hf'. rewrite Hf in Hf'. injection Hf' as <- <-. by apply wcont_payload.
  - by apply winv_unlock.
Qed.

Lemma winv_init c0 : winv c0 (winit c0).
Proof.
  assert (Hst : forall i pc, pcs (winit c0) !! i = Some pc -> pc = WStart).
  { intros i pc Hi. by apply lookup_replicate in Hi as [-> _]. }
  exists [], [], c0. split_and!; try done; [by constructor| |].
  - intros i r. split; [|by intros ?%not_elem_of_nil]. intros Hi%Hst. done.
  - intros i pc ->%Hst. done.
Qed.

Lemma winv_reachable c0 s : rtc wstep (winit c0) s -> winv c0 s.
Proof.
  refine (rtc_ind_r (winv c0) (winit c0) _ _ s); [apply winv_init|].
  intros. by eapply winv_step.
Qed.

(** The frames of a log, in its order. *)
Definition log_frames (log : list (nat * Z)) : bytes :=
  concat (omap (fun e => f ← calls !! e.1; Some (frame f.1 f.2)) log).

Lemma run_log_outbox log c rs c' :
  run_log log c = (rs, c') -> rs.*1 = log.*1 -> faults (conn c) = [] ->
  outbox (conn c') = outbox (conn c) ++ log_frames log.
Proof.
  revert rs c. induction log as [|[j t] log IH]; intros rs c; cbn [run_log].
  - intros [= <- <-] _ _. by rewrite app_nil_r.
  - unfold log_frames. cbn [omap list_omap fst].
    destruct (calls !! j) as [[hj pj]|]; [|by intros [= <- <-]].
    intros Hl Hf Hn. rewrite writeFrame_ok in Hl by done.
    destruct (run_log log _) as [rs' c''] eqn:Hl'. injection Hl as <- <-. injection Hf as Hf.
    rewrite (IH _ _ Hl' Hf) by done. unfold sent, log_frames. cbn [conn outbox].
    cbn [mbind option_bind fst snd concat]. by rewrite <- app_assoc.
Qed.

(** Steps a goroutine still has to take. *)
Definition wrank (pc : wpc) : nat :=
  match pc with
  | WStart => 5 | WDeadline _ => 4 | WHeader => 3 | WPayload => 2 | WUnlock _ => 1 | WDone _ => 0
  end.
Definition wmeasure (s : wsys) : nat := sum_list_with wrank (pcs s).

Lemma sum_insert ps i pc pc' :
  ps !! i = Some pc -> (wrank pc' < wrank pc)%nat ->
  (sum_list_with wrank (<[i := pc']> ps) < sum_list_with wrank ps)%nat.
Proof.
  revert i. induction ps as [|q ps IH]; intros [|i] Hi Hlt; try done.
  - injection Hi as ->. cbn [insert list_insert sum_list_with]. lia.
  - specialize (IH i Hi Hlt). cbn [insert list_insert sum_list_with].
    apply Nat.add_lt_mono_l, IH.
Qed.

Lemma wstep_measure s s' : wstep s s' -> (wmeasure s' < wmeasure s)%nat.
Proof.
  unfold wmeasure. destruct 1; cbn [pcs]; (eapply sum_insert; [done|]);
    try destruct r; cbn; lia.
Qed.

Definition all_done (s : wsys) : Prop := Forall (fun pc => wrank pc = 0%nat) (pcs s).

Lemma wstep_length s s' : wstep s s' -> length (pcs s') = length (pcs s).
Proof. destruct 1; cbn [pcs]; by rewrite length_insert. Qed.

(** The goroutine holding the mutex can always go on. *)
Lemma critical_steps i pc c o ps :
  ps !! i = Some pc -> critical pc = true -> (exists f, calls !! i = Some f) ->
  exists s', wstep (mkWsys c o ps) s'.
Proof.
  intros Hi Hc [[h p] Hf]. destruct pc; try done; eexists.
  - eapply ws_deadline; [done|]. apply surjective_pairing.
  - eapply ws_header; [done|done|]. apply surjective_pairing.
  - eapply ws_payload; [done|done|]. apply surjective_pairing.
  - by apply ws_unlock.
Qed.

Lemma wprogress c0 s :
  winv c0 s -> length (pcs s) = length calls -> all_done s \/ exists s', wstep s s'.
Proof.
  destruct s as [c o ps]. intros (log & rs & cs & _ & _ & _ & _ & Hm & Hs) Hlen. cbn [pcs writeMu shared] in *.
  destruct o as [i|].
  - destruct Hs as (h & p & now & pc & Hf & Hi & Hc & _). right. eapply critical_steps; eauto.
  - destruct (decide (Forall (fun pc => wrank pc = 0%nat) ps)) as [|Hnd]; [by left|].
    apply not_Forall_Exists in Hnd; [|apply _]. apply Exists_exists in Hnd as (pc & Hin & Hne).
    apply list_elem_of_lookup in Hin as [i Hi]. right. destruct (critical pc) eqn:Hc.
    { by pose proof (Hm _ _ Hi Hc). }
    destruct pc; try done; [|by destruct Hne]. pose proof (lookup_lt_Some _ _ _ Hi).
    destruct (lookup_lt_is_Some_2 calls i) as [f Hf]; [lia|].
    eexists. by apply (ws_lock i f 0).
Qed.

Lemma nsteps_winit c0 n s :
  nsteps wstep n (winit c0) s ->
  (n + wmeasure s <= 5 * length calls)%nat /\ length (pcs s) = length calls.
Proof.
  assert (H0 : wmeasure (winit c0) = (5 * length calls)%nat).
  { unfold wmeasure, winit. cbn [pcs]. induction (length calls); cbn in *; lia. }
  revert s. induction n as [|n IH]; intros s Hn.
  - inversion Hn; subst. split; [lia|]. apply length_replicate.
  - apply nsteps_inv_r in Hn as (s' & Hn & Hst). destruct (IH _ Hn) as [Hm Hl].
    pose proof (wstep_measure _ _ Hst). rewrite (wstep_length _ _ Hst). split; [lia|done].
Qed.

(** C25 (refinement): however the goroutines calling the writers of one
    connection interleave, whenever the mutex is free the connection is in the
    state, and the finished calls have returned the results, of the same
    [writeFrame] calls run one after the other in some order, each call at
    most once; on a network without faults the stream is therefore a sequence
    of whole frames. *)
Theorem levin_writers_linearizable c0 s :
  rtc wstep (winit c0) s -> writeMu s = None ->
  exists log rs,
    run_log log c0 = (rs, shared s) /\ NoDup log.*1 /\
    (forall i r, pcs s !! i = Some (WDone r) <-> (i, r) ∈ rs) /\
    (faults (conn c0) = [] ->
     outbox (conn (shared s)) = outbox (conn c0) ++ log_frames log).
Proof.
  intros Hr Ho. destruct (winv_reachable _ _ Hr) as (log & rs & c & Hl & Hf & Hn & Hd & _ & Hs).
  rewrite Ho in Hs. rewrite Hs. exists log, rs. split_and!; try done.
  intros. by eapply run_log_outbox.
Qed.

(** The writers of a connection cannot deadlock and cannot run
    for ever: a goroutine takes at most five steps, and as long as some call has
    not returned, some goroutine can take a step, network faults included. *)
Theorem levin_writers_progress c0 n s :
  nsteps wstep n (winit c0) s ->
  (n <= 5 * length calls)%nat /\ (all_done s \/ exists s', wstep s s').
Proof.
  intros Hn. destruct (nsteps_winit _ _ _ Hn) as [Hm Hl]. split; [lia|].
  apply (wprogress c0); [|done]. apply winv_reachable. apply rtc_nsteps. by exists n.
Qed.

End Writers.

(** Two writers, the second of which takes the mutex first. *)
Definition two_calls : list (Header * bytes) :=
  [(msg_header (Request 1003 [5] true), [5]); (msg_header (Response 1001 [] 0), [])].

(** The state after goroutine [i] runs its call alone on a fault-free network. *)
Lemma solo_run calls i h p c ps :
  calls !! i = Some (h, p) -> ps !! i = Some WStart -> faults (conn c) = [] ->
  rtc (wstep calls) (mkWsys c None ps)
    (mkWsys (sent c (c_WriteTimeout c) (frame h p)) None (<[i := WDone (Ok tt)]> ps)).
Proof.
  intros Hf Hi Hn. pose proof (writeFrame_ok 0 h p c Hn) as Hw. pose proof (lookup_lt_Some _ _ _ Hi) as Hlt.
  destruct c as [mx rt wt [ib ob rd wd fs cl]]. cbn in Hn. subst fs.
  eapply rtc_l. { by apply (ws_lock _ i (h, p) 0). }
  eapply rtc_l. { eapply ws_deadline; [by apply list_lookup_insert_eq|reflexivity]. }
  rewrite list_insert_insert_eq. cbn [or_return].
  eapply rtc_l. { eapply ws_header; [done|by apply list_lookup_insert_eq|reflexivity]. }
  rewrite list_insert_insert_eq. cbn [or_return].
  eapply rtc_l. { eapply ws_payload; [done|by apply list_lookup_insert_eq|]. apply surjective_pairing. }
  rewrite list_insert_insert_eq.
  eapply rtc_l. { apply ws_unlock. by apply list_lookup_insert_eq. }
  rewrite list_insert_insert_eq.
  replace (if decide (len p > 0) then _ else _) with
    (Ok tt, sent (mkConnection mx rt wt (mkNetConn ib ob rd wd [] cl)) (0 + wt) (frame h p)); [done|].
  cbn [c_WriteTimeout] in Hw. rewrite <- Hw. unfold writeFrame.
  cbv [mbind SR_bind gets on_conn SetWriteDeadline Write next_fault
    modify with_outbox conn c_WriteTimeout c_ReadTimeout c_MaxPayloadSize inbox outbox
    readDeadline writeDeadline faults closed]. by case_decide.
Qed.

Lemma two_calls_run :
  rtc (wstep two_calls) (winit two_calls (NewConnection (idle_conn [])))
    (mkWsys (sent (sent (NewConnection (idle_conn [])) DefaultWriteTimeout (frame (msg_header (Response 1001 [] 0)) []))
               DefaultWriteTimeout (frame (msg_header (Request 1003 [5] true)) [5]))
       None [WDone (Ok tt); WDone (Ok tt)]).
Proof.
  etrans; [by eapply (solo_run two_calls 1)|]. by apply (solo_run two_calls 0).
Qed.

Lemma levin_writers_linearizable_witness :
  exists log rs s, run_log two_calls log (NewConnection (idle_conn [])) = (rs, shared s) /\
    NoDup log.*1 /\ (1%nat, Ok tt) ∈ rs /\ outbox (conn (shared s)) = log_frames two_calls log.
Proof.
  destruct (levin_writers_linearizable two_calls _ _ two_calls_run eq_refl)
    as (log & rs & Hr & Hn & Hd & Ho).
  exists log, rs. eexists. split_and!; [exact Hr|exact Hn|by apply Hd|exact (Ho eq_refl)].
Defined.

Lemma levin_writers_progress_witness :
  exists n s, nsteps (wstep two_calls) n (winit two_calls (NewConnection (idle_conn []))) s /\
    all_done s /\ (n <= 10)%nat.
Proof.
  destruct (proj1 (rtc_nsteps _ _) two_calls_run) as [n Hn]. exists n. eexists.
  destruct (levin_writers_progress two_calls _ _ _ Hn) as [Hle _].
  split_and!; [exact Hn| |exact Hle]. repeat constructor.
Defined.
