(* ===== verification/Crypto.v ===== *)
(** * The hash functions of the Go standard library the program calls

    [crypto/sha256], [crypto/hmac] and [crypto/hkdf] (Expand), executable, with
    the published test vectors.  They are the primitives under the UEPS packet
    signature (src/go/ueps) and the key derivation of src/go/node. *)

From S2P Require Import Prelude.

(** ** SHA-256 (FIPS 180-4) *)

Definition rotr (x n : Z) : Z := Z.lor (Z.shiftr x n) (u32 (Z.shiftl x (32 - n))).
Definition add32 (x y : Z) : Z := u32 (x + y).
Definition not32 (x : Z) : Z := Z.lxor x 0xffffffff.

Definition Ch (x y z : Z) : Z := Z.lxor (Z.land x y) (Z.land (not32 x) z).
Definition Maj (x y z : Z) : Z := Z.lxor (Z.lxor (Z.land x y) (Z.land x z)) (Z.land y z).
Definition Sigma0 (x : Z) : Z := Z.lxor (Z.lxor (rotr x 2) (rotr x 13)) (rotr x 22).
Definition Sigma1 (x : Z) : Z := Z.lxor (Z.lxor (rotr x 6) (rotr x 11)) (rotr x 25).
Definition sigma0 (x : Z) : Z := Z.lxor (Z.lxor (rotr x 7) (rotr x 18)) (Z.shiftr x 3).
Definition sigma1 (x : Z) : Z := Z.lxor (Z.lxor (rotr x 17) (rotr x 19)) (Z.shiftr x 10).

(** The constants, as FIPS 180-4 defines them: the first 32 bits of the
    fractional parts of the cube roots of the first 64 primes, and of the square
    roots of the first eight. *)
Definition is_prime (n : Z) : bool :=
  (1 <? n) && forallb (fun d => negb (n mod d =? 0)) (seqZ 2 (n - 2)).

Definition primes : list Z := Eval vm_compute in filter is_prime (seqZ 2 310).

(** The integer cube root, bit by bit from the top. *)
Fixpoint cube_root (bits : nat) (n r : Z) : Z :=
  match bits with
  | O => r
  | S b =>
      let r' := r + 2 ^ Z.of_nat b in
      cube_root b n (if r' * r' * r' <=? n then r' else r)
  end.

Definition K256 : list Z :=
  Eval vm_compute in (fun p => cube_root 40 (p * 2 ^ 96) 0 mod 2 ^ 32) <$> primes.

Record sha_state : Type := mkSha { sa : Z; sb : Z; sc : Z; sd : Z; se : Z; sf : Z; sg : Z; sh : Z }.

Definition sha_init : sha_state :=
  Eval vm_compute in
    match (fun p => Z.sqrt (p * 2 ^ 64) mod 2 ^ 32) <$> primes with
    | a :: b :: c :: d :: e :: f :: g :: h :: _ => mkSha a b c d e f g h
    | _ => mkSha 0 0 0 0 0 0 0 0
    end.

Definition sha_round (k w : Z) (s : sha_state) : sha_state :=
  let t1 := add32 (add32 (add32 (sh s) (Sigma1 (se s))) (add32 (Ch (se s) (sf s) (sg s)) k)) w in
  let t2 := add32 (Sigma0 (sa s)) (Maj (sa s) (sb s) (sc s)) in
  mkSha (add32 t1 t2) (sa s) (sb s) (sc s) (add32 (sd s) t1) (se s) (sf s) (sg s).

(** The rounds, with the message schedule as a sliding window of 16 words. *)
Fixpoint sha_rounds (ks : list Z) (win : list Z) (s : sha_state) : sha_state :=
  match ks with
  | [] => s
  | k :: ks =>
      let w i := nth i win 0 in
      let next := add32 (add32 (sigma1 (w 14%nat)) (w 9%nat)) (add32 (sigma0 (w 1%nat)) (w 0%nat)) in
      sha_rounds ks (tl win ++ [next]) (sha_round k (w 0%nat) s)
  end.

Definition sha_add (s t : sha_state) : sha_state :=
  mkSha (add32 (sa s) (sa t)) (add32 (sb s) (sb t)) (add32 (sc s) (sc t)) (add32 (sd s) (sd t))
        (add32 (se s) (se t)) (add32 (sf s) (sf t)) (add32 (sg s) (sg t)) (add32 (sh s) (sh t)).

(** Big-endian 32-bit words of a block. *)
Fixpoint words (n : nat) (b : bytes) : list Z :=
  match n with
  | O => []
  | S n => be_uint (take 4 b) :: words n (drop 4 b)
  end.

Fixpoint sha_blocks (n : nat) (b : bytes) (s : sha_state) : sha_state :=
  match n with
  | O => s
  | S n => sha_blocks n (drop 64 b) (sha_add s (sha_rounds K256 (words 16 b) s))
  end.

Definition sha_pad (m : bytes) : bytes :=
  m ++ [0x80] ++ replicate (Z.to_nat ((55 - len m) mod 64)) 0 ++ be_bytes 8 (8 * len m).

Definition sha_output (s : sha_state) : bytes :=
  be_bytes 4 (sa s) ++ be_bytes 4 (sb s) ++ be_bytes 4 (sc s) ++ be_bytes 4 (sd s) ++
  be_bytes 4 (se s) ++ be_bytes 4 (sf s) ++ be_bytes 4 (sg s) ++ be_bytes 4 (sh s).

Definition Sum256 (m : bytes) : bytes :=
  let p := sha_pad m in
  sha_output (sha_blocks (length p / 64) p sha_init).

Definition sha256_Size : Z := 32.
Definition sha256_BlockSize : Z := 64.

(** ** HMAC (FIPS 198-1) *)
Definition hmac_key (key : bytes) : bytes :=
  let k := if decide (len key > sha256_BlockSize) then Sum256 key else key in
  k ++ replicate (Z.to_nat (sha256_BlockSize - len k)) 0.

Definition HMAC (key msg : bytes) : bytes :=
  let k := hmac_key key in
  Sum256 (map (Z.lxor 0x5c) k ++ Sum256 (map (Z.lxor 0x36) k ++ msg)).

(** [hmac.Equal]. *)
Definition hmac_Equal (a b : bytes) : bool := bool_decide (a = b).

(** ** HKDF-Expand (RFC 5869), [hkdf.Expand] *)
Definition ErrKeyLength : error := NewError "hkdf: requested key length too large".

Fixpoint hkdf_blocks (n : nat) (i : Z) (prk info prev : bytes) : bytes :=
  match n with
  | O => []
  | S n =>
      let t := HMAC prk (prev ++ info ++ [u8 i]) in
      t ++ hkdf_blocks n (i + 1) prk info t
  end.

Definition hkdf_Expand (prk info : bytes) (keyLength : Z) : Result bytes :=
  if decide (keyLength > sha256_Size * 255) then Fail ErrKeyLength
  else Ok (take (Z.to_nat keyLength)
             (hkdf_blocks (Z.to_nat ((keyLength + sha256_Size - 1) / sha256_Size)) 1 prk info [])).

(** ** Facts *)
Lemma len_Sum256 m : len (Sum256 m) = 32.
Proof. unfold Sum256, sha_output. rewrite !len_app, !len_be_bytes. done. Qed.

Lemma Sum256_bytes m : all_bytes (Sum256 m).
Proof. unfold Sum256, sha_output. rewrite !Forall_app. split_and!; apply be_bytes_all. Qed.

Lemma len_HMAC k m : len (HMAC k m) = 32.
Proof. apply len_Sum256. Qed.

Lemma HMAC_bytes k m : all_bytes (HMAC k m).
Proof. apply Sum256_bytes. Qed.

(** ** Test vectors *)
Definition hex (b : bytes) : string := String.concat "" (map hex2 b).

(** FIPS 180-4, one and two blocks. *)
Example sha256_abc :
  hex (Sum256 (bytes_of_string "abc")) =
    "ba7816bf8f01cfea414140de5dae2223b00361a396177a9cb410ff61f20015ad".
Proof. vm_compute. reflexivity. Qed.

Example sha256_two_blocks :
  hex (Sum256 (bytes_of_string "abcdbcdecdefdefgefghfghighijhijkijkljklmklmnlmnomnopnopq")) =
    "248d6a61d20638b8e5c026930c3e6039a33ce45964ff2167f6ecedd419db06c1".
Proof. vm_compute. reflexivity. Qed.

(** RFC 4231, test case 2. *)
Example hmac_jefe :
  hex (HMAC (bytes_of_string "Jefe") (bytes_of_string "what do ya want for nothing?")) =
    "5bdcc146bf60754e6a042426089575c75a003f089d2739839dec58b964ec3843".
Proof. vm_compute. reflexivity. Qed.

(** RFC 5869, test case 3 (no salt, no info), expand step. *)
Example hkdf_case3 :
  option_map hex (match hkdf_Expand
    [0x19;0xef;0x24;0xa3;0x2c;0x71;0x7b;0x16;0x7f;0x33;0xa9;0x1d;0x6f;0x64;0x8b;0xdf;
     0x96;0x59;0x67;0x76;0xaf;0xdb;0x63;0x77;0xac;0x43;0x4c;0x1c;0x29;0x3c;0xcb;0x04] [] 42
    with Ok k => Some k | _ => None end) =
    Some "8da4e775a563c18f715f802a063c5a31b8a11f5c5ee1879ec3454e5f3c738d2d9d201395faa4b61a96c8".
Proof. vm_compute. reflexivity. Qed.
