(* ===== verification/Ueps.v ===== *)
(** * UEPS packets (src/go/ueps/packet.go, src/go/ueps/reader.go)

    The signed TLV frame: the builder, the reader with its HMAC check, the
    abstract reading of a frame as a list of TLVs that the reader implements,
    and what the signature does and does not protect. *)

From S2P Require Import Prelude Crypto.

Definition uepsMACKeyInfoV1 : string := "lthn-p2p-mac-v1".

Definition TagVersion : Z := 0x01.
Definition TagCurrentLay : Z := 0x02.
Definition TagTargetLay : Z := 0x03.
Definition TagIntent : Z := 0x04.
Definition TagThreatScore : Z := 0x05.
Definition TagHMAC : Z := 0x06.
Definition TagPayload : Z := 0xFF.

Record UEPSHeader : Type := mkUEPSHeader {
  Version : Z;
  CurrentLayer : Z;
  TargetLayer : Z;
  IntentID : Z;
  ThreatScore : Z
}.

Record PacketBuilder : Type := mkBuilder {
  pb_Header : UEPSHeader;
  pb_Payload : bytes
}.

Record ParsedPacket : Type := mkParsed {
  pp_Header : UEPSHeader;
  pp_Payload : bytes
}.

Definition NewBuilder (intentID : Z) (payload : bytes) : PacketBuilder :=
  mkBuilder (mkUEPSHeader 0x09 5 5 intentID 0) payload.

(** ** Writing *)

(** The writer is an in-memory buffer ([core.NewBuffer]), whose [Write] appends
    and never fails. *)
Definition buffer_Write (b : bytes) : SR bytes unit := modify (fun buf => buf ++ b).

Definition writeTLV (tag : Z) (value : bytes) : SR bytes unit :=
  if decide (len value > 65535) then
    fail (E "ueps.writeTLV" "TLV value too large for 2-byte length header" None)
  else
    _ ← buffer_Write [tag];
    _ ← buffer_Write (be_bytes 2 (u16 (len value)));
    buffer_Write value.

Definition derivePacketMACKey (sharedSecret : bytes) : Result bytes :=
  map_fail (fun err => Errorf "derive UEPS MAC key: %w" (Some err))
    (hkdf_Expand sharedSecret (bytes_of_string uepsMACKeyInfoV1) sha256_Size).

(** [mac.Write] is called twice; the hash sees the concatenation. *)
Definition MarshalAndSign (p : PacketBuilder) (sharedSecret : bytes) : Result bytes :=
  let h := pb_Header p in
  fst ((_ ← writeTLV TagVersion [Version h];
        _ ← writeTLV TagCurrentLay [CurrentLayer h];
        _ ← writeTLV TagTargetLay [TargetLayer h];
        _ ← writeTLV TagIntent [IntentID h];
        _ ← writeTLV TagThreatScore (be_bytes 2 (ThreatScore h));
        macKey ← lift (derivePacketMACKey sharedSecret);
        headers ← gets id;
        let signature := HMAC macKey (headers ++ pb_Payload p) in
        _ ← writeTLV TagHMAC signature;
        _ ← writeTLV TagPayload (pb_Payload p);
        gets id) []).

(** ** Reading *)

(** A [bufio.Reader]: the bytes still to come and the error that ends them,
    [None] for [io.EOF]. *)
Record Reader : Type := mkReader {
  r_data : bytes;
  r_err : option error
}.

Definition ReadByte : SR Reader Z := fun r =>
  match r_data r with
  | [] => (Fail (default io_EOF (r_err r)), r)
  | b :: t => (Ok b, mkReader t (r_err r))
  end.

(** [io.ReadFull] into [n] bytes: the reader's error when nothing was read,
    [io.ErrUnexpectedEOF] for an end of file in the middle. *)
Definition ReadFull (n : Z) : SR Reader bytes := fun r =>
  if decide (n <= len (r_data r)) then
    (Ok (take (Z.to_nat n) (r_data r)), mkReader (drop (Z.to_nat n) (r_data r)) (r_err r))
  else
    (Fail (match r_err r with
           | Some e => e
           | None => if decide (len (r_data r) = 0) then io_EOF else io_ErrUnexpectedEOF
           end), mkReader [] (r_err r)).

(** The variables of the loop. *)
Record loopVars : Type := mkVars {
  signedData : bytes;
  header : UEPSHeader;
  signature : bytes;
  payload : bytes
}.

Definition zeroHeader : UEPSHeader := mkUEPSHeader 0 0 0 0 0.

(** The [switch tag] of the loop; the boolean is the [goto verify]. *)
Definition handleTag (tag : Z) (lenBuf value : bytes) (v : loopVars) : Result (loopVars * bool) :=
  let h := header v in
  let signed := signedData v ++ [tag] ++ lenBuf ++ value in
  if decide (tag = TagVersion) then
    x ← index value 0;
    Ok (mkVars signed (mkUEPSHeader x (CurrentLayer h) (TargetLayer h) (IntentID h) (ThreatScore h))
          (signature v) (payload v), false)
  else if decide (tag = TagCurrentLay) then
    x ← index value 0;
    Ok (mkVars signed (mkUEPSHeader (Version h) x (TargetLayer h) (IntentID h) (ThreatScore h))
          (signature v) (payload v), false)
  else if decide (tag = TagTargetLay) then
    x ← index value 0;
    Ok (mkVars signed (mkUEPSHeader (Version h) (CurrentLayer h) x (IntentID h) (ThreatScore h))
          (signature v) (payload v), false)
  else if decide (tag = TagIntent) then
    x ← index value 0;
    Ok (mkVars signed (mkUEPSHeader (Version h) (CurrentLayer h) (TargetLayer h) x (ThreatScore h))
          (signature v) (payload v), false)
  else if decide (tag = TagThreatScore) then
    x ← BE_Uint 2 value;
    Ok (mkVars signed (mkUEPSHeader (Version h) (CurrentLayer h) (TargetLayer h) (IntentID h) x)
          (signature v) (payload v), false)
  else if decide (tag = TagHMAC) then
    Ok (mkVars (signedData v) h value (payload v), false)
  else if decide (tag = TagPayload) then
    Ok (mkVars (signedData v) h (signature v) value, true)
  else Ok (mkVars signed h (signature v) (payload v), false).

(** The loop; every iteration reads at least three bytes, so [fuel] above the
    length of the stream is enough ([ReadAndVerify_total]). *)
Fixpoint readLoop (fuel : nat) (v : loopVars) : SR Reader loopVars :=
  match fuel with
  | O => lift OutOfFuel
  | S fuel =>
      tag ← ReadByte;
      lenBuf ← ReadFull 2;
      length_ ← lift (BE_Uint 2 lenBuf);
      value ← ReadFull length_;
      vd ← lift (handleTag tag lenBuf value v);
      if (vd.2 : bool) then mret vd.1 else readLoop fuel vd.1
  end.

Definition verify (v : loopVars) (sharedSecret : bytes) : Result ParsedPacket :=
  if decide (len (signature v) = 0) then
    Fail (E "ueps.ReadAndVerify" "UEPS packet missing HMAC signature" None)
  else
    macKey ← derivePacketMACKey sharedSecret;
    let expectedMAC := HMAC macKey (signedData v ++ payload v) in
    if negb (hmac_Equal (signature v) expectedMAC) then
      Fail (E "ueps.ReadAndVerify" "integrity violation: HMAC mismatch (ThreatScore +100)" None)
    else Ok (mkParsed (header v) (payload v)).

Definition ReadAndVerify (sharedSecret : bytes) : SR Reader ParsedPacket := fun r =>
  (v ← readLoop (S (length (r_data r))) (mkVars [] zeroHeader [] []);
   lift (verify v sharedSecret)) r.

(** ** The frame as a list of TLVs *)

Definition tlv : Type := Z * bytes.
Definition tlv_bytes (t : tlv) : bytes := [t.1] ++ be_bytes 2 (len t.2) ++ t.2.
Definition tlvs_bytes (ts : list tlv) : bytes := concat (map tlv_bytes ts).
(** A TLV that may precede the payload. *)
Definition tlv_wf (t : tlv) : Prop := len t.2 <= 65535 /\ t.1 <> TagPayload.

(** The first byte, or the first two, of a header value. *)
Definition first_byte (value : bytes) : Result Z :=
  match value with x :: _ => Ok x | [] => Panic IndexOutOfRange end.
Definition first_word (value : bytes) : Result Z :=
  match value with x :: y :: _ => Ok (be_uint [x; y]) | _ => Panic IndexOutOfRange end.

(** What the TLVs before the payload mean: a later TLV overrides an earlier
    one of the same tag, and a value too short for its field aborts the
    program. *)
Definition field_of (t : tlv) (h : UEPSHeader) : Result UEPSHeader :=
  let '(mkUEPSHeader ver cur tgt int thr) := h in
  if decide (t.1 = TagVersion) then x ← first_byte t.2; Ok (mkUEPSHeader x cur tgt int thr)
  else if decide (t.1 = TagCurrentLay) then x ← first_byte t.2; Ok (mkUEPSHeader ver x tgt int thr)
  else if decide (t.1 = TagTargetLay) then x ← first_byte t.2; Ok (mkUEPSHeader ver cur x int thr)
  else if decide (t.1 = TagIntent) then x ← first_byte t.2; Ok (mkUEPSHeader ver cur tgt x thr)
  else if decide (t.1 = TagThreatScore) then x ← first_word t.2; Ok (mkUEPSHeader ver cur tgt int x)
  else Ok h.

Fixpoint fields_of (ts : list tlv) (h : UEPSHeader) : Result UEPSHeader :=
  match ts with
  | [] => Ok h
  | t :: ts => h' ← field_of t h; fields_of ts h'
  end.

Definition is_hmac (t : tlv) : bool := bool_decide (t.1 = TagHMAC).
Definition signed_of (ts : list tlv) : bytes := tlvs_bytes (filter (fun t => is_hmac t = false) ts).
Definition signature_from (sig : bytes) (ts : list tlv) : bytes :=
  default sig (snd <$> last (filter (fun t => is_hmac t = true) ts)).
Definition signature_of : list tlv -> bytes := signature_from [].

(** The key of the MACs: the first block of the HKDF expansion of the secret. *)
Definition mac_key (s : bytes) : bytes := HMAC s (bytes_of_string uepsMACKeyInfoV1 ++ [1]).

(** The specification of a whole frame: the fields of the header TLVs, and the
    packet if and only if the signature is there and is the MAC, under the key
    derived from the secret, of the bytes of the other TLVs and the payload. *)
Definition frame_spec (sharedSecret : bytes) (ts : list tlv) (p : bytes) : Result ParsedPacket :=
  h ← fields_of ts zeroHeader;
  if decide (signature_of ts = []) then
    Fail (E "ueps.ReadAndVerify" "UEPS packet missing HMAC signature" None)
  else if decide (signature_of ts = HMAC (mac_key sharedSecret) (signed_of ts ++ p)) then Ok (mkParsed h p)
  else Fail (E "ueps.ReadAndVerify" "integrity violation: HMAC mismatch (ThreatScore +100)" None).

(** ** Lemmas *)

Lemma len_tlv_bytes t : len (tlv_bytes t) = 3 + len t.2.
Proof. unfold tlv_bytes. rewrite !len_app, len_be_bytes, len_cons, len_nil. lia. Qed.

Lemma ReadFull_app n a rest e :
  len a = n -> ReadFull n (mkReader (a ++ rest) e) = (Ok a, mkReader rest e).
Proof.
  intros <-. unfold ReadFull. cbn [r_data r_err]. pose proof (len_nonneg rest).
  rewrite decide_True by (rewrite len_app; lia). unfold len. rewrite Nat2Z.id.
  by rewrite take_app_length, drop_app_length.
Qed.

Lemma index_first value : index value 0 = first_byte value.
Proof. by destruct value. Qed.

Lemma BE_Uint_first value : BE_Uint 2 value = first_word value.
Proof.
  unfold BE_Uint. by destruct value as [|x [|y t]].
Qed.

(** One turn of the [switch], for every tag but the payload's. *)
Lemma handleTag_spec t v :
  t.1 <> TagPayload ->
  handleTag t.1 (be_bytes 2 (len t.2)) t.2 v =
    h ← field_of t (header v);
    Ok (mkVars (signedData v ++ (if is_hmac t then [] else tlv_bytes t)) h
          (if is_hmac t then t.2 else signature v) (payload v), false).
Proof.
  destruct t as [tag value], v as [sg [ver cur tgt int thr] sig pl]. intros Hne.
  unfold handleTag, field_of, is_hmac, tlv_bytes.
  cbn [fst snd header signedData signature payload Version CurrentLayer TargetLayer IntentID ThreatScore].
  rewrite index_first, BE_Uint_first.
  repeat (let Htag := fresh "Htag" in case_decide as Htag; [subst tag; first
    [by destruct (first_byte value) | by destruct (first_word value)
    | by rewrite bool_decide_true, app_nil_r by done | done]|]).
  by rewrite bool_decide_false.
Qed.

(** One turn of the loop on a complete TLV. *)
Lemma readLoop_tlv fuel v t rest e :
  len t.2 <= 65535 ->
  readLoop (S fuel) v (mkReader (tlv_bytes t ++ rest) e) =
    (vd ← lift (handleTag t.1 (be_bytes 2 (len t.2)) t.2 v);
     if (vd.2 : bool) then mret vd.1 else readLoop fuel vd.1) (mkReader rest e).
Proof.
  intros Hl. pose proof (len_nonneg t.2). unfold tlv_bytes. cbn [readLoop].
  rewrite (SR_bind_Ok _ _ _ t.1 (mkReader (be_bytes 2 (len t.2) ++ t.2 ++ rest) e))
    by (by rewrite <- !app_assoc).
  rewrite (SR_bind_Ok _ _ _ (be_bytes 2 (len t.2)) (mkReader (t.2 ++ rest) e))
    by (apply ReadFull_app, len_be_bytes).
  rewrite (SR_bind_Ok _ _ _ (len t.2) (mkReader (t.2 ++ rest) e)).
  2: { unfold lift. rewrite BE_Uint_exact; [done|]. unfold in_u. change (2 ^ (8 * Z.of_nat 2)) with 65536. lia. }
  by rewrite (SR_bind_Ok _ _ _ t.2 (mkReader rest e)) by (by apply ReadFull_app).
Qed.

Lemma field_of_cases t h :
  (exists h', field_of t h = Ok h') \/ field_of t h = Panic IndexOutOfRange.
Proof.
  destruct t as [tag value], h as [ver cur tgt int thr]. unfold field_of. cbn [fst snd].
  destruct value as [|x [|y value]]; repeat case_decide; cbn; eauto.
Qed.

Lemma fields_of_cases ts h :
  (exists h', fields_of ts h = Ok h') \/ fields_of ts h = Panic IndexOutOfRange.
Proof.
  revert h. induction ts as [|t ts IH]; intros h; cbn [fields_of]; [eauto|].
  destruct (field_of_cases t h) as [[h' ->] | ->]; [apply IH|by right].
Qed.

Lemma signed_of_cons t ts :
  signed_of (t :: ts) = (if is_hmac t then [] else tlv_bytes t) ++ signed_of ts.
Proof.
  unfold signed_of. rewrite filter_cons. by destruct (is_hmac t).
Qed.

Lemma signature_from_cons sig t ts :
  signature_from sig (t :: ts) = signature_from (if is_hmac t then t.2 else sig) ts.
Proof.
  unfold signature_from. rewrite filter_cons.
  destruct (is_hmac t); [|done]. cbn [decide]. rewrite decide_True by done.
  rewrite last_cons. by destruct (last (filter _ ts)).
Qed.

(** The loop over a list of TLVs: the specification's fields, or its panic. *)
Lemma readLoop_tlvs ts fuel v rest e :
  Forall tlv_wf ts ->
  match fields_of ts (header v) with
  | Ok h => readLoop (length ts + fuel) v (mkReader (tlvs_bytes ts ++ rest) e) =
      readLoop fuel (mkVars (signedData v ++ signed_of ts) h
        (signature_from (signature v) ts) (payload v)) (mkReader rest e)
  | _ => fst (readLoop (length ts + fuel) v (mkReader (tlvs_bytes ts ++ rest) e)) = Panic IndexOutOfRange
  end.
Proof.
  intros Hts. revert v. induction Hts as [|t ts [Hl Hp] _ IH]; intros v; cbn [fields_of length].
  - cbn. destruct v. by rewrite app_nil_r.
  - change (tlvs_bytes (t :: ts)) with (tlv_bytes t ++ tlvs_bytes ts). rewrite <- app_assoc.
    rewrite Nat.add_succ_l, readLoop_tlv, handleTag_spec by done.
    destruct (field_of_cases t (header v)) as [[h' Hh] | Hh]; rewrite Hh; [|done].
    cbn [mbind Result_bind lift SR_bind fst snd].
    specialize (IH (mkVars (signedData v ++ (if is_hmac t then [] else tlv_bytes t)) h'
          (if is_hmac t then t.2 else signature v) (payload v))).
    cbn [header signedData signature payload] in IH.
    destruct (fields_of ts h') as [h''|?|?|]; [|exact IH..].
    rewrite signed_of_cons, signature_from_cons, app_assoc. exact IH.
Qed.

(** A stream that ends inside a TLV. *)
Definition truncated (b : bytes) : Prop :=
  len b < 3 \/ exists tag l1 l2 rest, b = tag :: l1 :: l2 :: rest /\ len rest < be_uint [l1; l2].

Lemma be_bytes_be_uint2 a b : is_byte a -> is_byte b -> be_bytes 2 (be_uint [a; b]) = [a; b].
Proof.
  intros Ha Hb. unfold be_bytes, be_uint. change (reverse [a; b]) with [b; a].
  change 2%nat with (length [b; a]). by rewrite le_bytes_le_uint by (by rewrite !Forall_cons, Forall_nil).
Qed.

Lemma be_uint2_range a b : is_byte a -> is_byte b -> 0 <= be_uint [a; b] < 65536.
Proof.
  intros Ha Hb. unfold be_uint. change (reverse [a; b]) with [b; a].
  apply (le_uint_range [b; a]). by rewrite !Forall_cons, Forall_nil.
Qed.

Lemma tlv_split b :
  all_bytes b ->
  (exists t rest, b = tlv_bytes t ++ rest /\ len t.2 <= 65535) \/ truncated b.
Proof.
  intros Hb. destruct b as [|tag [|l1 [|l2 rest]]]; try by right; left.
  apply Forall_cons in Hb as [_ Hb]. apply Forall_cons in Hb as [H1 Hb]. apply Forall_cons in Hb as [H2 Hb].
  pose proof (be_uint2_range l1 l2 H1 H2) as Hr.
  destruct (decide (be_uint [l1; l2] <= len rest)) as [Hle|Hgt].
  - left. exists (tag, take (Z.to_nat (be_uint [l1; l2])) rest), (drop (Z.to_nat (be_uint [l1; l2])) rest).
    assert (Hl : len (take (Z.to_nat (be_uint [l1; l2])) rest) = be_uint [l1; l2]).
    { unfold len in *. rewrite length_take. lia. }
    unfold tlv_bytes. cbn [fst snd]. rewrite Hl, be_bytes_be_uint2 by done. cbn [app].
    rewrite take_drop. split; [done|lia].
  - right. right. exists tag, l1, l2, rest. split; [done|lia].
Qed.

(** Every stream is TLVs followed by a payload TLV, or by a truncated tail. *)
Lemma stream_split b :
  all_bytes b -> exists ts, Forall tlv_wf ts /\
    ((exists p rest, len p <= 65535 /\ b = tlvs_bytes ts ++ tlv_bytes (TagPayload, p) ++ rest) \/
     (exists tail, truncated tail /\ b = tlvs_bytes ts ++ tail)).
Proof.
  induction b as [b IH] using (induction_ltof1 _ (@length Z)). intros Hb. unfold ltof in IH.
  destruct (tlv_split b Hb) as [([tag value] & rest & -> & Hl) | Ht].
  2: { exists []. split; [done|]. right. eauto. }
  destruct (decide (tag = TagPayload)) as [->|Hne].
  { exists []. split; [done|]. left. exists value, rest. done. }
  destruct (IH rest) as (ts & Hts & Hcase).
  - pose proof (len_tlv_bytes (tag, value)). pose proof (len_nonneg value). unfold len in *.
    rewrite length_app. cbn [snd] in *. lia.
  - by apply Forall_app in Hb as [_ Hb].
  - exists ((tag, value) :: ts). split; [by constructor|]. unfold tlvs_bytes in *. cbn [map concat].
    destruct Hcase as [(p & rest' & Hp & ->) | (tail & Ht & ->)]; [left|right].
    + exists p, rest'. by rewrite <- app_assoc.
    + exists tail. by rewrite <- app_assoc.
Qed.

Lemma readLoop_truncated fuel v b e :
  truncated b -> exists err, fst (readLoop (S fuel) v (mkReader b e)) = Fail err.
Proof.
  intros [Hl | (tag & l1 & l2 & rest & -> & Hl)].
  - destruct b as [|a [|l1 [|l2 rest]]]; cbn; eauto.
    unfold len in Hl. cbn [length] in Hl. lia.
  - cbn [readLoop]. rewrite (SR_bind_Ok _ _ _ tag (mkReader (l1 :: l2 :: rest) e)) by done.
    rewrite (SR_bind_Ok _ _ _ [l1; l2] (mkReader rest e)) by (by apply (ReadFull_app 2 [l1; l2])).
    rewrite (SR_bind_Ok _ _ _ (be_uint [l1; l2]) (mkReader rest e)) by done.
    eexists. erewrite SR_bind_Fail; [done|]. unfold ReadFull. cbn [r_data].
    rewrite decide_False by lia. done.
Qed.

Lemma length_tlvs ts : (3 * length ts <= length (tlvs_bytes ts))%nat.
Proof.
  induction ts as [|t ts IH]; [done|]. unfold tlvs_bytes in *. cbn [map concat length].
  pose proof (len_tlv_bytes t). pose proof (len_nonneg t.2). unfold len in *. rewrite length_app. lia.
Qed.

(** The loop of [ReadAndVerify] reaches the end of [ts] with fuel to spare. *)
Lemma fuel_split ts tail : exists k,
  S (length (tlvs_bytes ts ++ tail)) = (length ts + S k)%nat.
Proof.
  pose proof (length_tlvs ts). exists (length (tlvs_bytes ts ++ tail) - length ts)%nat.
  rewrite length_app. lia.
Qed.

Lemma derivePacketMACKey_Ok s : derivePacketMACKey s = Ok (mac_key s).
Proof.
  unfold derivePacketMACKey, hkdf_Expand, sha256_Size. rewrite decide_False by lia.
  change (Z.to_nat ((32 + 32 - 1) / 32)) with 1%nat. cbn [map_fail hkdf_blocks].
  rewrite app_nil_r, take_ge; [done|]. pose proof (len_HMAC s (bytes_of_string uepsMACKeyInfoV1 ++ [1])) as H.
  unfold len in H. change ([] ++ ?x) with x. change (u8 1) with 1. lia.
Qed.

(** The check of the collected TLVs is the one of the specification. *)
Lemma verify_spec s ts p h :
  fields_of ts zeroHeader = Ok h -> verify (mkVars (signed_of ts) h (signature_of ts) p) s = frame_spec s ts p.
Proof.
  intros Hh. unfold verify, frame_spec. cbn [signature signedData payload header]. rewrite Hh, derivePacketMACKey_Ok.
  cbn [mbind Result_bind]. unfold hmac_Equal. destruct (signature_of ts) as [|b bs]; [done|].
  rewrite decide_False by (rewrite len_cons; pose proof (len_nonneg bs); lia). rewrite decide_False by done.
  case_bool_decide as Hm; [by rewrite decide_True by done|by rewrite decide_False by done].
Qed.

Lemma ReadAndVerify_frame s ts p rest e :
  Forall tlv_wf ts -> len p <= 65535 ->
  let r := ReadAndVerify s (mkReader (tlvs_bytes ts ++ tlv_bytes (TagPayload, p) ++ rest) e) in
  match frame_spec s ts p with
  | Panic q => fst r = Panic q
  | res => r = (res, mkReader rest e)
  end.
Proof.
  intros Hts Hp r. subst r. unfold ReadAndVerify. cbn [r_data].
  destruct (fuel_split ts (tlv_bytes (TagPayload, p) ++ rest)) as [k ->].
  pose proof (readLoop_tlvs ts (S k) (mkVars [] zeroHeader [] []) (tlv_bytes (TagPayload, p) ++ rest) e Hts) as HL.
  cbn [header signedData signature payload] in HL.
  destruct (fields_of_cases ts zeroHeader) as [[h Hh] | Hh]; rewrite Hh in *; cbn [mbind Result_bind].
  - rewrite readLoop_tlv in HL by done. erewrite SR_bind_Ok; [|exact HL].
    change (signature_from [] ts) with (signature_of ts).
    unfold lift. change (verify _ s) with (verify (mkVars (signed_of ts) h (signature_of ts) p) s).
    rewrite (verify_spec s ts p h Hh). by destruct (frame_spec s ts p).
  - assert (frame_spec s ts p = Panic IndexOutOfRange) as -> by (unfold frame_spec; by rewrite Hh).
    cbv [mbind SR_bind]. destruct (readLoop _ _ _) as [[?|?|?|] ?]; cbn in HL |- *; congruence.
Qed.

Lemma ReadAndVerify_truncated s ts tail e :
  Forall tlv_wf ts -> truncated tail ->
  match fst (ReadAndVerify s (mkReader (tlvs_bytes ts ++ tail) e)) with
  | Fail _ | Panic _ => True
  | _ => False
  end.
Proof.
  intros Hts Ht. unfold ReadAndVerify. cbn [r_data]. destruct (fuel_split ts tail) as [k ->].
  pose proof (readLoop_tlvs ts (S k) (mkVars [] zeroHeader [] []) tail e Hts) as HL.
  cbn [header signedData signature payload] in HL. cbv [mbind SR_bind].
  destruct (fields_of_cases ts zeroHeader) as [[h Hh] | Hh]; rewrite Hh in *.
  - rewrite HL. destruct (readLoop_truncated k (mkVars ([] ++ signed_of ts) h (signature_from [] ts) []) tail e Ht)
      as [err He].
    destruct (readLoop (S k) _ _) as [rr ?]. cbn [fst] in He. by rewrite He.
  - destruct (readLoop _ _ _) as [[?|?|?|] ?]; cbn in *; congruence || done.
Qed.

(** ** What the builder writes *)

Definition header_tlvs (h : UEPSHeader) : list tlv :=
  [(TagVersion, [Version h]); (TagCurrentLay, [CurrentLayer h]); (TagTargetLay, [TargetLayer h]);
   (TagIntent, [IntentID h]); (TagThreatScore, be_bytes 2 (ThreatScore h))].
Definition packet_mac (s : bytes) (h : UEPSHeader) (p : bytes) : bytes :=
  HMAC (mac_key s) (tlvs_bytes (header_tlvs h) ++ p).
Definition packet_bytes (s : bytes) (h : UEPSHeader) (p : bytes) : bytes :=
  tlvs_bytes (header_tlvs h ++ [(TagHMAC, packet_mac s h p)]) ++ tlv_bytes (TagPayload, p).

Definition ueps_header_wf (h : UEPSHeader) : Prop :=
  is_byte (Version h) /\ is_byte (CurrentLayer h) /\ is_byte (TargetLayer h) /\
  is_byte (IntentID h) /\ in_u 16 (ThreatScore h).

Lemma writeTLV_ok tag value buf :
  len value <= 65535 -> writeTLV tag value buf = (Ok tt, buf ++ tlv_bytes (tag, value)).
Proof.
  intros Hl. pose proof (len_nonneg value). unfold writeTLV, tlv_bytes. cbn [fst snd].
  rewrite decide_False by lia. rewrite uwrap_id by (unfold in_u; lia).
  cbv [mbind SR_bind buffer_Write modify]. by rewrite <- !app_assoc.
Qed.

Lemma writeTLV_big tag value buf :
  len value > 65535 ->
  writeTLV tag value buf =
    (Fail (E "ueps.writeTLV" "TLV value too large for 2-byte length header" None), buf).
Proof. intros Hl. unfold writeTLV. by rewrite decide_True by lia. Qed.

Lemma MarshalAndSign_cases h p s :
  MarshalAndSign (mkBuilder h p) s =
    if decide (len p > 65535)
    then Fail (E "ueps.writeTLV" "TLV value too large for 2-byte length header" None)
    else Ok (packet_bytes s h p).
Proof.
  unfold MarshalAndSign. cbn [pb_Header pb_Payload].
  do 4 (erewrite SR_bind_Ok; [|by apply writeTLV_ok]).
  erewrite SR_bind_Ok; [|apply writeTLV_ok; rewrite len_be_bytes; done].
  erewrite SR_bind_Ok; [|unfold lift; rewrite derivePacketMACKey_Ok; reflexivity].
  erewrite SR_bind_Ok; [|reflexivity].
  erewrite SR_bind_Ok; [|apply writeTLV_ok; rewrite len_HMAC; lia].
  unfold packet_bytes, packet_mac, header_tlvs, tlvs_bytes. cbn [map concat app id].
  rewrite !app_nil_r. case_decide.
  - by erewrite SR_bind_Fail by (by apply writeTLV_big).
  - erewrite SR_bind_Ok by (apply writeTLV_ok; lia). cbn [gets fst]. by rewrite <- !app_assoc.
Qed.

Lemma header_tlvs_wf h : Forall tlv_wf (header_tlvs h).
Proof. unfold header_tlvs. repeat constructor; done. Qed.

Lemma first_word_be v : in_u 16 v -> first_word (be_bytes 2 v) = Ok v.
Proof.
  intros Hv. rewrite <- BE_Uint_first. by apply BE_Uint_exact.
Qed.

Lemma fields_of_header_raw ver cur tgt int b h0 :
  fields_of [(TagVersion, [ver]); (TagCurrentLay, [cur]); (TagTargetLay, [tgt]);
             (TagIntent, [int]); (TagThreatScore, b)] h0 =
    x ← first_word b; Ok (mkUEPSHeader ver cur tgt int x).
Proof. destruct h0. by destruct b as [|? [|? ?]]. Qed.

Lemma fields_of_header h h0 :
  in_u 16 (ThreatScore h) -> fields_of (header_tlvs h) h0 = Ok h.
Proof.
  intros Ht. unfold header_tlvs. rewrite fields_of_header_raw, first_word_be by done.
  by destruct h.
Qed.

Lemma fields_of_app ts us h : fields_of (ts ++ us) h = h' ← fields_of ts h; fields_of us h'.
Proof.
  revert h. induction ts as [|t ts IH]; intros h; [done|]. cbn [app fields_of].
  destruct (field_of t h); cbn [mbind Result_bind]; [apply IH|done..].
Qed.

Lemma signed_of_app ts us : signed_of (ts ++ us) = signed_of ts ++ signed_of us.
Proof. induction ts as [|t ts IH]; [done|]. cbn [app]. by rewrite !signed_of_cons, IH, app_assoc. Qed.

(** Verification of TLVs that carry the right signature. *)
Lemma frame_spec_accept s ts p h :
  fields_of ts zeroHeader = Ok h -> signature_of ts = HMAC (mac_key s) (signed_of ts ++ p) ->
  frame_spec s ts p = Ok (mkParsed h p).
Proof.
  intros Hh Hs. unfold frame_spec. rewrite Hh. cbn [mbind Result_bind].
  pose proof (len_HMAC (mac_key s) (signed_of ts ++ p)) as Hl. rewrite <- Hs in Hl.
  rewrite decide_False by (intros Hn; by rewrite Hn in Hl). by rewrite decide_True.
Qed.

Lemma header_tlvs_signed h : signed_of (header_tlvs h) = tlvs_bytes (header_tlvs h).
Proof. done. Qed.

Lemma packet_accepted s h p rest e :
  in_u 16 (ThreatScore h) -> len p <= 65535 ->
  ReadAndVerify s (mkReader (packet_bytes s h p ++ rest) e) = (Ok (mkParsed h p), mkReader rest e).
Proof.
  intros Ht Hp. unfold packet_bytes. rewrite <- app_assoc.
  set (ts := header_tlvs h ++ [(TagHMAC, packet_mac s h p)]).
  assert (Hts : Forall tlv_wf ts).
  { apply Forall_app. split; [apply header_tlvs_wf|]. repeat constructor; cbn [fst snd]; [|done].
    unfold packet_mac. rewrite len_HMAC. lia. }
  pose proof (ReadAndVerify_frame s ts p rest e Hts Hp) as H. cbv zeta in H.
  rewrite (frame_spec_accept s ts p h) in H; [exact H| |].
  - unfold ts. rewrite fields_of_app, fields_of_header by done. by destruct h.
  - unfold ts. rewrite signed_of_app, header_tlvs_signed. change (signed_of [_]) with (@nil Z).
    by rewrite app_nil_r.
Qed.

(** ** Theorems *)

(** C27 (roundtrip): a packet with any header and a payload of at most 65535
    bytes is built into a frame that the reader, with the same secret and
    whatever follows in the stream, accepts as the same header and payload,
    consuming exactly the frame. *)
Theorem ueps_roundtrip s h p :
  ueps_header_wf h -> len p <= 65535 ->
  exists frame, MarshalAndSign (mkBuilder h p) s = Ok frame /\
    forall rest e, ReadAndVerify s (mkReader (frame ++ rest) e) = (Ok (mkParsed h p), mkReader rest e).
Proof.
  intros (_ & _ & _ & _ & Ht) Hp. exists (packet_bytes s h p). rewrite MarshalAndSign_cases.
  rewrite decide_False by lia. split; [done|]. intros. by apply packet_accepted.
Qed.

Definition sample_secret : bytes := bytes_of_string "test-shared-secret-32-bytes!!!!!".

Lemma ueps_roundtrip_witness :
  exists frame, MarshalAndSign (NewBuilder 0x20 [104; 105]) sample_secret = Ok frame /\
    fst (ReadAndVerify sample_secret (mkReader (frame ++ [1]) None)) =
      Ok (mkParsed (mkUEPSHeader 9 5 5 0x20 0) [104; 105]).
Proof.
  destruct (ueps_roundtrip sample_secret (mkUEPSHeader 9 5 5 0x20 0) [104; 105]) as (frame & Hf & Hr).
  - vm_compute. intuition discriminate.
  - vm_compute. discriminate.
  - exists frame. split; [exact Hf|]. by rewrite Hr.
Defined.

(** Building a packet never panics; it fails exactly when the
    payload does not fit the two length bytes, and otherwise the frame is 59
    bytes longer than the payload. *)
Theorem ueps_marshal_bounds s h p :
  match MarshalAndSign (mkBuilder h p) s with
  | Ok frame => len p <= 65535 /\ len frame = 59 + len p
  | Fail e => len p > 65535 /\ e = E "ueps.writeTLV" "TLV value too large for 2-byte length header" None
  | _ => False
  end.
Proof.
  rewrite MarshalAndSign_cases. case_decide; [done|]. split; [lia|].
  unfold packet_bytes, header_tlvs, tlvs_bytes. cbn [app map concat].
  rewrite !len_app, !len_tlv_bytes, len_nil. cbn [snd]. rewrite len_be_bytes.
  unfold packet_mac. rewrite len_HMAC, !len_cons, !len_nil. lia.
Qed.

(** C26 (equivalence): on any sequence of TLVs closed by a payload TLV, whoever
    wrote it, the reader computes the specification of the TLV list: the last
    TLV of each header tag gives the field, unknown tags are signed and
    ignored, and the packet is returned if and only if the last HMAC TLV is the
    MAC, under the key derived from the secret, of the other TLVs and the payload
    (otherwise the error says that it is missing or different; a header TLV that is
    too short for its field panics in both); the stream is left after the frame,
    error or not. *)
Theorem ueps_reader_refines s ts p rest e :
  Forall tlv_wf ts -> len p <= 65535 ->
  let r := ReadAndVerify s (mkReader (tlvs_bytes ts ++ tlv_bytes (TagPayload, p) ++ rest) e) in
  match frame_spec s ts p with
  | Panic q => fst r = Panic q
  | res => r = (res, mkReader rest e)
  end.
Proof. apply ReadAndVerify_frame. Qed.

(** A frame with an unknown tag: signed, then with its payload changed, then
    without the signature. *)
Definition odd_tlvs : list tlv := header_tlvs (mkUEPSHeader 9 5 5 0x20 3) ++ [(0x77, [1; 2; 3])].
Definition odd_mac : tlv := (TagHMAC, HMAC (mac_key sample_secret) (tlvs_bytes odd_tlvs ++ [4])).
Definition odd_frame (ts : list tlv) (p : bytes) : Reader :=
  mkReader (tlvs_bytes ts ++ tlv_bytes (TagPayload, p) ++ [5]) None.

Lemma odd_wf : Forall tlv_wf (odd_tlvs ++ [odd_mac]).
Proof. apply (bool_decide_unpack _). vm_compute. exact I. Qed.

Lemma ueps_reader_refines_witness :
  ReadAndVerify sample_secret (odd_frame (odd_tlvs ++ [odd_mac]) [4]) =
    (Ok (mkParsed (mkUEPSHeader 9 5 5 0x20 3) [4]), mkReader [5] None) /\
  ReadAndVerify sample_secret (odd_frame (odd_tlvs ++ [odd_mac]) [6]) =
    (Fail (E "ueps.ReadAndVerify" "integrity violation: HMAC mismatch (ThreatScore +100)" None), mkReader [5] None) /\
  ReadAndVerify sample_secret (odd_frame [(0x77, [1; 2; 3])] [4]) =
    (Fail (E "ueps.ReadAndVerify" "UEPS packet missing HMAC signature" None), mkReader [5] None).
Proof.
  split_and!.
  - pose proof (ueps_reader_refines sample_secret (odd_tlvs ++ [odd_mac]) [4] [5] None odd_wf ltac:(done)) as H.
    cbv zeta in H. assert (Hs : frame_spec sample_secret (odd_tlvs ++ [odd_mac]) [4] = Ok (mkParsed (mkUEPSHeader 9 5 5 0x20 3) [4]))
      by (vm_compute; reflexivity). rewrite Hs in H. exact H.
  - pose proof (ueps_reader_refines sample_secret (odd_tlvs ++ [odd_mac]) [6] [5] None odd_wf ltac:(done)) as H.
    cbv zeta in H. assert (Hs : frame_spec sample_secret (odd_tlvs ++ [odd_mac]) [6] =
      Fail (E "ueps.ReadAndVerify" "integrity violation: HMAC mismatch (ThreatScore +100)" None))
      by (vm_compute; reflexivity). rewrite Hs in H. exact H.
  - apply (ueps_reader_refines sample_secret [(0x77, [1; 2; 3])] [4] [5] None); [repeat constructor; done|done].
Defined.

(** C28 (safety): on an arbitrary stream the reader always stops, and a packet
    it returns was framed in the stream with a 32-byte signature that is the
    HMAC, under the key derived from the secret, of all other TLVs and the
    payload. *)
Theorem ueps_accept_authentic s data e :
  all_bytes data ->
  match fst (ReadAndVerify s (mkReader data e)) with
  | Ok pkt => exists ts p rest,
      data = tlvs_bytes ts ++ tlv_bytes (TagPayload, p) ++ rest /\
      fields_of ts zeroHeader = Ok (pp_Header pkt) /\ pp_Payload pkt = p /\
      signature_of ts = HMAC (mac_key s) (signed_of ts ++ p)
  | OutOfFuel => False
  | _ => True
  end.
Proof.
  intros Hb. destruct (stream_split data Hb) as (ts & Hts & [(p & rest & Hp & ->) | (tail & Ht & ->)]).
  2: { pose proof (ReadAndVerify_truncated s ts tail e Hts Ht). by destruct (fst _). }
  pose proof (ReadAndVerify_frame s ts p rest e Hts Hp) as H. cbv zeta in H. revert H. unfold frame_spec.
  destruct (fields_of_cases ts zeroHeader) as [[h Hh] | Hh]; rewrite Hh; cbn [mbind Result_bind].
  2: { by intros ->. }
  case_decide; [by intros ->|]. case_decide as Hm; intros ->; [|done]. cbn [fst].
  exists ts, p, rest. split_and!; [reflexivity|exact Hh|reflexivity|exact Hm].
Qed.

Lemma ueps_accept_authentic_witness :
  exists frame pkt, MarshalAndSign (NewBuilder 1 [7]) sample_secret = Ok frame /\
    fst (ReadAndVerify sample_secret (mkReader frame None)) = Ok pkt /\
    exists ts p rest, frame = tlvs_bytes ts ++ tlv_bytes (TagPayload, p) ++ rest /\ pp_Payload pkt = p.
Proof.
  set (frame := packet_bytes sample_secret (mkUEPSHeader 9 5 5 1 0) [7]).
  exists frame, (mkParsed (mkUEPSHeader 9 5 5 1 0) [7]).
  assert (Hb : all_bytes frame) by (apply (bool_decide_unpack _); vm_compute; exact I).
  pose proof (ueps_accept_authentic sample_secret frame None Hb) as H.
  assert (Hr : fst (ReadAndVerify sample_secret (mkReader frame None)) =
               Ok (mkParsed (mkUEPSHeader 9 5 5 1 0) [7])) by (vm_compute; reflexivity).
  rewrite Hr in H. destruct H as (ts & p & rest & Hd & _ & Hp & _).
  split_and!; [vm_compute; reflexivity|exact Hr|]. exists ts, p, rest. by split.
Defined.

(** A header TLV whose value is shorter than its field panics the
    reader, whatever follows and whatever the secret: before any signature
    is checked. *)
Theorem ueps_short_tlv_panics s ts tail e :
  Forall tlv_wf ts -> fields_of ts zeroHeader = Panic IndexOutOfRange ->
  fst (ReadAndVerify s (mkReader (tlvs_bytes ts ++ tail) e)) = Panic IndexOutOfRange.
Proof.
  intros Hts Hf. unfold ReadAndVerify. cbn [r_data]. destruct (fuel_split ts tail) as [k ->].
  pose proof (readLoop_tlvs ts (S k) (mkVars [] zeroHeader [] []) tail e Hts) as HL.
  cbn [header] in HL. rewrite Hf in HL. cbv [mbind SR_bind].
  destruct (readLoop _ _ _) as [rr ?]. cbn [fst] in HL. by rewrite HL.
Qed.

Lemma ueps_short_tlv_panics_witness :
  fst (ReadAndVerify sample_secret (mkReader ([1; 0; 0] ++ [1; 2; 3]) None)) = Panic IndexOutOfRange.
Proof.
  apply (ueps_short_tlv_panics sample_secret [(TagVersion, [])] [1; 2; 3] None).
  - repeat constructor; done.
  - reflexivity.
Defined.

(** ** What the signature does not bind

    The MAC covers the header TLVs and the payload bytes as one string, not
    where one ends and the other begins.  Without the key, the threat score of
    a signed frame can be moved into its payload. *)
Definition strip_threat (frame : bytes) : bytes :=
  take 16 frame ++ take 35 (drop 21 frame) ++
  tlv_bytes (TagPayload, take 5 (drop 16 frame) ++ drop 59 frame).

Definition without_threat (h : UEPSHeader) : UEPSHeader :=
  mkUEPSHeader (Version h) (CurrentLayer h) (TargetLayer h) (IntentID h) 0.

Definition stripped_tlvs (s : bytes) (h : UEPSHeader) (p : bytes) : list tlv :=
  take 4 (header_tlvs h) ++ [(TagHMAC, packet_mac s h p)].

Lemma strip_packet s h p :
  strip_threat (packet_bytes s h p) =
    tlvs_bytes (stripped_tlvs s h p) ++
    tlv_bytes (TagPayload, tlv_bytes (TagThreatScore, be_bytes 2 (ThreatScore h)) ++ p).
Proof.
  reflexivity.
Qed.

Lemma stripped_wf s h p : Forall tlv_wf (stripped_tlvs s h p).
Proof.
  apply Forall_app. split; [apply Forall_take, header_tlvs_wf|]. repeat constructor; [|done].
  cbn [snd]. unfold packet_mac. rewrite len_HMAC. lia.
Qed.

Lemma stripped_accepted s h p e :
  len p <= 65530 ->
  ReadAndVerify s (mkReader (strip_threat (packet_bytes s h p)) e) =
    (Ok (mkParsed (without_threat h)
          (tlv_bytes (TagThreatScore, be_bytes 2 (ThreatScore h)) ++ p)), mkReader [] e).
Proof.
  intros Hp. rewrite strip_packet. set (p' := tlv_bytes (TagThreatScore, _) ++ p).
  assert (Hp' : len p' <= 65535).
  { unfold p'. rewrite len_app, len_tlv_bytes. cbn [snd]. rewrite len_be_bytes. lia. }
  pose proof (ReadAndVerify_frame s _ p' [] e (stripped_wf s h p) Hp') as H. cbv zeta in H.
  rewrite app_nil_r in H. rewrite (frame_spec_accept s _ p' (without_threat h)) in H; [exact H|done|].
  change (signature_of (stripped_tlvs s h p)) with (packet_mac s h p). unfold packet_mac. f_equal.
Qed.

(** The reader accepts the frame with the threat score cut out
    of the header and prepended to the payload, as a packet of threat score 0:
    the sender's signature over a threat score can be removed without knowing
    the secret. *)
Theorem ueps_threat_strip s h p frame e :
  len p <= 65530 ->
  MarshalAndSign (mkBuilder h p) s = Ok frame ->
  fst (ReadAndVerify s (mkReader (strip_threat frame) e)) =
    Ok (mkParsed (without_threat h)
          (tlv_bytes (TagThreatScore, be_bytes 2 (ThreatScore h)) ++ p)).
Proof.
  intros Hp. rewrite MarshalAndSign_cases, decide_False by lia.
  intros Hf. injection Hf as <-. by rewrite stripped_accepted.
Qed.

Lemma ueps_threat_strip_witness :
  exists frame, MarshalAndSign (mkBuilder (mkUEPSHeader 9 5 5 0x20 60000) [1; 2]) sample_secret = Ok frame /\
    fst (ReadAndVerify sample_secret (mkReader (strip_threat frame) None)) =
      Ok (mkParsed (mkUEPSHeader 9 5 5 0x20 0) [5; 0; 2; 0xEA; 0x60; 1; 2]).
Proof.
  exists (packet_bytes sample_secret (mkUEPSHeader 9 5 5 0x20 60000) [1; 2]).
  assert (Hm : MarshalAndSign (mkBuilder (mkUEPSHeader 9 5 5 0x20 60000) [1; 2]) sample_secret =
               Ok (packet_bytes sample_secret (mkUEPSHeader 9 5 5 0x20 60000) [1; 2]))
    by apply MarshalAndSign_cases.
  split; [exact Hm|].
  apply (ueps_threat_strip sample_secret (mkUEPSHeader 9 5 5 0x20 60000) [1; 2] _ None).
  - done.
  - exact Hm.
Defined.
