(* ===== verification/KeyDeriv.v ===== *)
(** * Sub-keys of a transport session (src/go/node/keyderiv.go)

    The three keys derived from a shared secret, and that the MAC key is the one
    the UEPS packets of the same secret are signed with. *)

From S2P Require Import Prelude Crypto Ueps.

Definition sharedSecretSize : Z := 32.
Definition subKeySize : Z := 32.
Definition keyInfoEncryptV1 : string := "lthn-p2p-encrypt-v1".
Definition keyInfoMACV1 : string := "lthn-p2p-mac-v1".
Definition keyInfoChallengeV1 : string := "lthn-p2p-challenge-v1".

Record transportSubKeys : Type := mkSubKeys {
  encKey : bytes;
  macKey : bytes;
  chlKey : bytes
}.

Definition deriveSubKey (sharedSecret : bytes) (info : string) : Result bytes :=
  map_fail (fun err => Errorf ("derive " ++ info ++ " key: %w") (Some err))
    (hkdf_Expand sharedSecret (bytes_of_string info) subKeySize).

Definition deriveSubKeys (sharedSecret : bytes) : Result transportSubKeys :=
  if decide (len sharedSecret <> sharedSecretSize) then
    Fail (Errorf "shared secret length %d, want %d" None)
  else
    encKey ← deriveSubKey sharedSecret keyInfoEncryptV1;
    macKey ← deriveSubKey sharedSecret keyInfoMACV1;
    chlKey ← deriveSubKey sharedSecret keyInfoChallengeV1;
    Ok (mkSubKeys encKey macKey chlKey).

(** The first block of the expansion, which is the whole of a 32-byte key. *)
Definition subkey (s : bytes) (info : string) : bytes := HMAC s (bytes_of_string info ++ [1]).

Lemma deriveSubKey_Ok s info : deriveSubKey s info = Ok (subkey s info).
Proof.
  unfold deriveSubKey, hkdf_Expand, subKeySize, sha256_Size. rewrite decide_False by lia.
  change (Z.to_nat ((32 + 32 - 1) / 32)) with 1%nat. cbn [map_fail hkdf_blocks].
  rewrite app_nil_r, take_ge; [done|]. pose proof (len_HMAC s (bytes_of_string info ++ [1])) as Hl.
  unfold len in Hl. change ([] ++ ?x) with x. change (u8 1) with 1. lia.
Qed.

(** A 32-byte secret gives three keys of 32 bytes, and the
    MAC key is the one [derivePacketMACKey] signs UEPS packets with, so the two
    sides of a session verify each other's packets; any other length of secret
    is refused. *)
Theorem subkeys_match_ueps s :
  match deriveSubKeys s with
  | Ok k => len s = 32 /\ len (encKey k) = 32 /\ len (macKey k) = 32 /\ len (chlKey k) = 32 /\
      derivePacketMACKey s = Ok (macKey k)
  | Fail e => len s <> 32 /\ e = Errorf "shared secret length %d, want %d" None
  | _ => False
  end.
Proof.
  unfold deriveSubKeys, sharedSecretSize. case_decide as Hl; [done|].
  rewrite !deriveSubKey_Ok. cbn [mbind Result_bind encKey macKey chlKey]. unfold subkey.
  rewrite !len_HMAC, derivePacketMACKey_Ok. split_and!; done || lia.
Qed.
