(* ===== verification/Dispatcher.v ===== *)
(** * The intent dispatcher (src/go/node/dispatcher.go)

    Routing of verified UEPS packets: registration of handlers, the threat
    circuit breaker, the dispatch, and the iterator over the handlers.  The
    theorems connect it to the packets of [Ueps]. *)

From S2P Require Import Prelude Ueps.

Definition ThreatScoreThreshold : Z := 50000.

Definition IntentHandshake : Z := 0x01.
Definition IntentCompute : Z := 0x20.
Definition IntentRehab : Z := 0x30.
Definition IntentCustom : Z := 0xFF.

Definition ErrThreatScoreExceeded : error :=
  E "Dispatcher.Dispatch" "packet rejected: threat score exceeds safety threshold (50000)" None.
Definition ErrUnknownIntent : error := E "Dispatcher.Dispatch" "packet dropped: unknown intent" None.
Definition ErrNilPacket : error := E "Dispatcher.Dispatch" "nil packet" None.

(** An entry written to the dispatcher's logger. *)
Inductive level : Type := DEBUG | WARN.
Record logEntry : Type := mkLog {
  log_level : level;
  log_msg : string;
  log_fields : list (string * Z)
}.

Section Dispatcher.

(** Handlers act on a world [W] of their own and return a value of type [V]. *)
Context {W V : Type}.

(** [IntentHandler]; [None] is the nil function, whose call panics. *)
Definition IntentHandler : Type := option (ParsedPacket -> SR W V).

Record Dispatcher : Type := mkDispatcher {
  handlers : gmap Z IntentHandler;
  log : list logEntry
}.

Definition NewDispatcher : Dispatcher := mkDispatcher ∅ [].

Definition write_log (e : logEntry) (d : Dispatcher) : Dispatcher :=
  mkDispatcher (handlers d) (log d ++ [e]).

Definition RegisterHandler (intentID : Z) (handler : IntentHandler) (d : Dispatcher) : Dispatcher :=
  write_log (mkLog DEBUG "handler registered" [("intent_id", intentID)])
    (mkDispatcher (<[intentID := handler]> (handlers d)) (log d)).

(** The iterator: [order] is the order in which the map is ranged over, a
    permutation of its entries that Go leaves open; iteration stops at the
    first [yield] that returns false. *)
Fixpoint Handlers {S} (order : list (Z * IntentHandler)) (yield : Z -> IntentHandler -> SR S bool) : SR S unit :=
  match order with
  | [] => mret tt
  | (intentID, handler) :: order =>
      more ← yield intentID handler;
      if (more : bool) then Handlers order yield else mret tt
  end.

Definition call (h : IntentHandler) (pkt : ParsedPacket) : SR W V :=
  match h with Some f => f pkt | None => lift (Panic NilDereference) end.

(** The packet is a pointer: [None] is nil. *)
Definition Dispatch (pkt : option ParsedPacket) : SR (Dispatcher * W) V := fun '(d, w) =>
  match pkt with
  | None => (Fail ErrNilPacket, (d, w))
  | Some p =>
      let h := pp_Header p in
      if decide (ThreatScore h > ThreatScoreThreshold) then
        (Fail ErrThreatScoreExceeded,
         (write_log (mkLog WARN "packet dropped: threat score exceeds safety threshold"
            [("threat_score", ThreatScore h); ("threshold", ThreatScoreThreshold);
             ("intent_id", IntentID h); ("version", Version h)]) d, w))
      else
        match handlers d !! IntentID h with
        | None =>
            (Fail ErrUnknownIntent,
             (write_log (mkLog WARN "packet dropped: unknown intent"
                [("intent_id", IntentID h); ("version", Version h)]) d, w))
        | Some handler => let '(r, w') := call handler p w in (r, (d, w'))
        end
  end.

(** ** Specification

    A dispatcher is known by the registrations made on it; the latest one of
    an intent is in force. *)
Definition registered (regs : list (Z * IntentHandler)) : Dispatcher :=
  fold_left (fun d '(i, h) => RegisterHandler i h d) regs NewDispatcher.

Fixpoint latest (regs : list (Z * IntentHandler)) (i : Z) : option IntentHandler :=
  match regs with
  | [] => None
  | (j, h) :: regs =>
      match latest regs i with
      | Some h' => Some h'
      | None => if decide (i = j) then Some h else None
      end
  end.

(** What happens to a packet, by its header alone. *)
Definition route (regs : list (Z * IntentHandler)) (h : UEPSHeader) : error + IntentHandler :=
  if decide (ThreatScore h <= ThreatScoreThreshold) then
    match latest regs (IntentID h) with
    | Some handler => inr handler
    | None => inl ErrUnknownIntent
    end
  else inl ErrThreatScoreExceeded.

Lemma handlers_fold regs d i :
  handlers (fold_left (fun d '(i, h) => RegisterHandler i h d) regs d) !! i =
    match latest regs i with Some h => Some h | None => handlers d !! i end.
Proof.
  revert d. induction regs as [|[j h] regs IH]; intros d; cbn [fold_left latest]; [done|].
  rewrite IH. destruct (latest regs i); [done|]. cbn [RegisterHandler write_log handlers].
  case_decide as Hij; [subst j; by rewrite lookup_insert_eq|by rewrite lookup_insert_ne].
Qed.

Lemma handlers_registered regs i : handlers (registered regs) !! i = latest regs i.
Proof. unfold registered. rewrite handlers_fold. by destruct (latest regs i). Qed.

Lemma Dispatch_route regs p w :
  match route regs (pp_Header p) with
  | inl e => exists d', Dispatch (Some p) (registered regs, w) = (Fail e, (d', w)) /\
      handlers d' = handlers (registered regs)
  | inr handler => exists r w', call handler p w = (r, w') /\
      Dispatch (Some p) (registered regs, w) = (r, (registered regs, w'))
  end.
Proof.
  unfold route, Dispatch. case_decide.
  - rewrite decide_False by lia. rewrite handlers_registered.
    destruct (latest regs (IntentID (pp_Header p))) as [handler|]; [|by eexists].
    destruct (call handler p w) as [r w']. eauto.
  - rewrite decide_True by lia. by eexists.
Qed.

(** C39 (functional): after any sequence of registrations a packet is routed by
    its header: above the threshold it is refused and no handler runs, an
    intent without a handler is refused, and otherwise exactly the handler
    registered last for the intent runs, once, and its result is returned. *)
Theorem dispatch_routes_latest regs p w :
  match route regs (pp_Header p) with
  | inl e => exists d', Dispatch (Some p) (registered regs, w) = (Fail e, (d', w)) /\
      handlers d' = handlers (registered regs)
  | inr handler => exists r w', call handler p w = (r, w') /\
      Dispatch (Some p) (registered regs, w) = (r, (registered regs, w'))
  end.
Proof. apply Dispatch_route. Qed.

End Dispatcher.
Arguments IntentHandler : clear implicits.
Arguments Dispatcher : clear implicits.

(** A handler that appends the packets it receives to its world. *)
Definition recorder : IntentHandler (list ParsedPacket) unit :=
  Some (fun p => modify (fun w => w ++ [p])).

(** A packet signed with a threat score above the threshold is
    refused when it is read as it was sent, with no handler run; the same
    frame with its threat TLV moved into the payload, which needs no key, is
    read as authentic and handed to the handler of its intent. *)
Theorem dispatch_threat_bypass {W V} s h p frame e regs (f : ParsedPacket -> SR W V) w :
  ueps_header_wf h -> ThreatScore h > ThreatScoreThreshold -> len p <= 65530 ->
  MarshalAndSign (mkBuilder h p) s = Ok frame -> latest regs (IntentID h) = Some (Some f) ->
  (exists pkt d', fst (ReadAndVerify s (mkReader frame e)) = Ok pkt /\
     Dispatch (Some pkt) (registered regs, w) = (Fail ErrThreatScoreExceeded, (d', w))) /\
  (exists pkt, fst (ReadAndVerify s (mkReader (strip_threat frame) e)) = Ok pkt /\
     pp_Header pkt = without_threat h /\
     Dispatch (Some pkt) (registered regs, w) =
       (fst (f pkt w), (registered regs, snd (f pkt w)))).
Proof.
  intros Hwf Hthr Hp Hm Hl. rewrite MarshalAndSign_cases, decide_False in Hm by lia.
  injection Hm as <-. destruct Hwf as (_ & _ & _ & _ & Ht). split.
  - exists (mkParsed h p). pose proof (packet_accepted s h p [] e Ht ltac:(lia)) as Hr.
    rewrite app_nil_r in Hr. pose proof (Dispatch_route regs (mkParsed h p) w) as Hd.
    unfold route in Hd. cbn [pp_Header] in Hd. rewrite decide_False in Hd by lia.
    destruct Hd as (d' & Hd & _). exists d'. by rewrite Hr.
  - rewrite stripped_accepted by done. eexists. split; [reflexivity|]. split; [reflexivity|].
    set (pkt := mkParsed _ _). pose proof (Dispatch_route regs pkt w) as Hd.
    unfold route in Hd. rewrite decide_True in Hd by done. cbn [pkt pp_Header without_threat IntentID] in Hd.
    rewrite Hl in Hd. destruct Hd as (r & w' & Hc & ->). cbn [call] in Hc. by rewrite Hc.
Qed.

Definition hostile_header : UEPSHeader := mkUEPSHeader 9 5 5 IntentCompute 60000.

Lemma dispatch_threat_bypass_witness :
  exists pkt, fst (ReadAndVerify sample_secret
      (mkReader (strip_threat (packet_bytes sample_secret hostile_header [1])) None)) = Ok pkt /\
    Dispatch (Some pkt) (registered [(IntentCompute, recorder)], []) =
      (Ok tt, (registered [(IntentCompute, recorder)], [pkt])).
Proof.
  destruct (dispatch_threat_bypass sample_secret hostile_header [1]
    (packet_bytes sample_secret hostile_header [1]) None [(IntentCompute, recorder)]
    (fun p => modify (fun w => w ++ [p])) []) as [_ (pkt & Hr & _ & Hd)].
  - vm_compute. intuition discriminate.
  - done.
  - done.
  - apply MarshalAndSign_cases.
  - done.
  - exists pkt. split; [exact Hr|exact Hd].
Defined.

(** ** The iterator *)
Lemma Handlers_visits {W V} (order : list (Z * IntentHandler W V)) acc :
  Handlers order (fun i h => fun l => (Ok true, l ++ [(i, h)])) acc = (Ok tt, acc ++ order).
Proof.
  revert acc. induction order as [|[i h] order IH]; intros acc; cbn [Handlers].
  - by rewrite app_nil_r.
  - erewrite SR_bind_Ok; [|reflexivity]. rewrite IH. by rewrite <- app_assoc.
Qed.

(** In whatever order the map is ranged over, a full
    iteration of [Handlers] yields every intent with a handler exactly once,
    each with the handler registered last. *)
Theorem handlers_iterate_latest {W V} (regs order : list (Z * IntentHandler W V)) :
  order ≡ₚ map_to_list (handlers (registered regs)) ->
  exists visited,
    Handlers order (fun i h => fun l => (Ok true, l ++ [(i, h)])) [] = (Ok tt, visited) /\
    NoDup visited.*1 /\ forall i h, (i, h) ∈ visited <-> latest regs i = Some h.
Proof.
  intros Ho. exists order. rewrite Handlers_visits. split; [done|]. split.
  - rewrite Ho. apply NoDup_fst_map_to_list.
  - intros i h. rewrite Ho, elem_of_map_to_list. by rewrite handlers_registered.
Qed.

Lemma handlers_iterate_latest_witness :
  exists visited : list (Z * IntentHandler (list ParsedPacket) unit),
    NoDup visited.*1 /\ (1, recorder) ∈ visited /\ ~ (1, None) ∈ visited.
Proof.
  destruct (handlers_iterate_latest [(1, None); (2, None); (1, recorder)]
    (map_to_list (handlers (registered [(1, None); (2, None); (1, recorder)]))))
    as (visited & _ & Hn & Hv); [reflexivity|].
  exists visited. split; [exact Hn|]. split; [by apply Hv|]. intros Hin. apply Hv in Hin. done.
Defined.
