(* ===== verification/Float64.v ===== *)
(** * Go's float64

    IEEE-754 binary64 as the Standard Library's executable [SpecFloat], with
    the operators the peer registry uses: arithmetic, comparisons, the built-in
    [min] and [max] (which propagate NaN and order the zeros), and the facts
    about their order. *)

From Stdlib Require Import SpecFloat.
From S2P Require Import Prelude.

Abbreviation float64 := spec_float.

Definition prec : Z := 53.
Definition emax : Z := 1024.

Definition fadd (x y : float64) : float64 := SFadd prec emax x y.
Definition fsub (x y : float64) : float64 := SFsub prec emax x y.
Definition fmul (x y : float64) : float64 := SFmul prec emax x y.

(** [float64(n)] of an integer, and the value of an integer constant. *)
Definition float_of_int (n : Z) : float64 := binary_normalize prec emax n 0 false.

Definition NaN : float64 := S754_nan.

(** [x < y], [x > y], [x == y]: all false when an operand is NaN. *)
Definition flt (x y : float64) : bool := SFltb x y.
Definition fgt (x y : float64) : bool := flt y x.
Definition feq (x y : float64) : bool := SFeqb x y.
Definition fle (x y : float64) : bool := SFleb x y.

Definition is_nan (x : float64) : bool := match x with S754_nan => true | _ => false end.
Definition is_neg_zero (x : float64) : bool := match x with S754_zero true => true | _ => false end.

(** The built-in functions [min] and [max]. *)
Definition go_min (x y : float64) : float64 :=
  if is_nan x || is_nan y then NaN
  else if flt y x then y
  else if flt x y then x
  else if is_neg_zero y then y else x.
Definition go_max (x y : float64) : float64 :=
  if is_nan x || is_nan y then NaN
  else if flt x y then y
  else if flt y x then x
  else if is_neg_zero x then y else x.

#[export] Instance float64_eq_dec : EqDecision float64.
Proof. solve_decision. Defined.

(** ** The order *)

(** A float that is not NaN as a point of Z * Z * Z, ordered lexicographically. *)
Definition fkey (x : float64) : Z * Z * Z :=
  match x with
  | S754_zero _ => (0, 0, 0)
  | S754_infinity s => (if s then -2 else 2, 0, 0)
  | S754_nan => (0, 0, 0)
  | S754_finite s m e => if s then (-1, - e, Z.neg m) else (1, e, Z.pos m)
  end.

Definition lexle (a b : Z * Z * Z) : Prop :=
  let '(a1, a2, a3) := a in
  let '(b1, b2, b3) := b in
  a1 < b1 \/ (a1 = b1 /\ (a2 < b2 \/ (a2 = b2 /\ a3 <= b3))).

Lemma fle_key x y : is_nan x = false -> is_nan y = false -> (fle x y = true <-> lexle (fkey x) (fkey y)).
Proof.
  intros Hx Hy. unfold fle, SFleb.
  destruct x as [sx|sx| |sx mx ex], y as [sy|sy| |sy my ey]; try discriminate;
    destruct sx, sy; cbn [SFcompare fkey lexle];
    try (split; [intros; lia|done]); try (split; [done|lia]).
  all: destruct (Z.compare_spec ex ey); cbn [CompOpp].
  all: try (split; [intros; lia|done]); try (split; [done|lia]).
  all: change (PosDef.Pos.compare_cont Eq mx my) with (Pos.compare mx my);
    destruct (Pos.compare_spec mx my); cbn [CompOpp];
    (split; [intros; try done; lia|try done; lia]).
Qed.

Lemma flt_fle x y : is_nan x = false -> is_nan y = false -> flt x y = negb (fle y x).
Proof.
  intros Hx Hy. unfold flt, fle, SFltb, SFleb.
  destruct x as [sx|sx| |sx mx ex], y as [sy|sy| |sy my ey]; try discriminate;
    destruct sx, sy; cbn; try done.
  all: rewrite (Z.compare_antisym ey ex); destruct (ey ?= ex); cbn; try done.
  all: change (PosDef.Pos.compare_cont Eq mx my) with (Pos.compare mx my);
    change (PosDef.Pos.compare_cont Eq my mx) with (Pos.compare my mx);
    rewrite (Pos.compare_antisym mx my); by destruct (mx ?= my)%positive.
Qed.

Lemma fle_refl x : is_nan x = false -> fle x x = true.
Proof. intros Hx. apply fle_key; try done. destruct (fkey x) as [[? ?] ?]. cbn. lia. Qed.

Lemma fle_total x y : is_nan x = false -> is_nan y = false -> fle x y = true \/ fle y x = true.
Proof.
  intros Hx Hy. rewrite !fle_key by done.
  destruct (fkey x) as [[? ?] ?], (fkey y) as [[? ?] ?]. cbn. lia.
Qed.

Lemma fle_trans x y z :
  is_nan x = false -> is_nan y = false -> is_nan z = false ->
  fle x y = true -> fle y z = true -> fle x z = true.
Proof.
  intros Hx Hy Hz. rewrite !fle_key by done.
  destruct (fkey x) as [[? ?] ?], (fkey y) as [[? ?] ?], (fkey z) as [[? ?] ?]. cbn. lia.
Qed.

(** [min] and [max] pick one of their operands. *)
Lemma go_min_le x y :
  is_nan x = false -> is_nan y = false ->
  is_nan (go_min x y) = false /\ fle (go_min x y) x = true /\ fle (go_min x y) y = true.
Proof.
  intros Hx Hy. unfold go_min. rewrite Hx, Hy, !flt_fle by done. cbn [orb].
  destruct (fle x y) eqn:Hxy, (fle y x) eqn:Hyx; cbn [negb];
    try destruct (is_neg_zero y); auto using fle_refl.
  all: destruct (fle_total x y Hx Hy); congruence.
Qed.

Lemma go_max_ge x y :
  is_nan x = false -> is_nan y = false ->
  is_nan (go_max x y) = false /\ fle x (go_max x y) = true /\ fle y (go_max x y) = true.
Proof.
  intros Hx Hy. unfold go_max. rewrite Hx, Hy, !flt_fle by done. cbn [orb].
  destruct (fle x y) eqn:Hxy, (fle y x) eqn:Hyx; cbn [negb];
    try destruct (is_neg_zero x); auto using fle_refl.
  all: destruct (fle_total x y Hx Hy); congruence.
Qed.

Lemma go_max_le x y z :
  is_nan x = false -> is_nan y = false ->
  fle x z = true -> fle y z = true -> fle (go_max x y) z = true.
Proof.
  intros Hx Hy Hxz Hyz. unfold go_max. rewrite Hx, Hy. cbn [orb].
  by repeat case_match.
Qed.
