(* ===== verification/Duration.v ===== *)
(** * Go's time.Duration

    Durations are int64 nanoseconds.  [Sub] saturates; [Seconds] converts to
    float64 and [int(d.Seconds())] truncates it back.  The theorem of the file
    is that on durations below 2^23 seconds this is the whole number of seconds:
    the two roundings of [Seconds] never carry the fraction up to the next
    second. *)

From Stdlib Require Import SpecFloat.
From S2P Require Import Prelude Float64.

Definition maxDuration : Z := 2 ^ 63 - 1.
Definition minDuration : Z := - 2 ^ 63.

(** [t.Sub(u)] of two instants in nanoseconds. *)
Definition Sub (t u : Z) : Z := Z.max minDuration (Z.min maxDuration (t - u)).

Definition second : Z := 10 ^ 9.

Definition fdiv (x y : float64) : float64 := SFdiv prec emax x y.

(** [d.Seconds()]: [float64(d / Second) + float64(d % Second)/1e9]. *)
Definition Seconds (d : Z) : float64 :=
  fadd (float_of_int (Z.quot d second)) (fdiv (float_of_int (Z.rem d second)) (float_of_int second)).

(** [int(x)] of a float64 in the range of an int. *)
Definition int_of_float (x : float64) : Z :=
  match x with
  | S754_finite s m e =>
      let v := if decide (0 <= e) then Z.pos m * 2 ^ e else Z.pos m / 2 ^ (- e) in
      if s then - v else v
  | _ => 0
  end.

(** ** Rounding *)

(** A non-negative finite float in units of the smallest float, 2^-1074. *)
Definition scaled (x : float64) (z : Z) : Prop :=
  match x with
  | S754_zero _ => z = 0
  | S754_finite false m e => -1074 <= e /\ z = Z.pos m * 2 ^ (e + 1074)
  | _ => False
  end.

Lemma iter_pos_nat {A} (f : A -> A) n x : SpecFloat.iter_pos f n x = Nat.iter (Pos.to_nat n) f x.
Proof.
  revert x. induction n as [n IH|n IH|]; intros x; cbn [SpecFloat.iter_pos]; [| |done].
  - rewrite !IH, <- Nat.iter_add, <- Nat.iter_succ_r. f_equal. lia.
  - rewrite !IH, <- Nat.iter_add. f_equal. lia.
Qed.

(** The bits shifted out are all zero. *)
Definition exact (r : shr_record) : Prop := shr_r r = false /\ shr_s r = false.

Lemma shr_1_spec r : 0 <= shr_m r ->
  shr_m (shr_1 r) = shr_m r / 2 /\ (exact (shr_1 r) <-> exact r /\ shr_m r mod 2 = 0).
Proof.
  destruct r as [m r s]. cbn [shr_m]. intros Hm. unfold exact.
  destruct m as [|[p|p|]|]; [| | | |lia]; cbn [shr_1 shr_m shr_r shr_s].
  - split; [done|]. rewrite orb_false_iff. change (0 mod 2) with 0. tauto.
  - rewrite (Pos2Z.inj_xI p). replace (2 * Z.pos p + 1) with (1 + Z.pos p * 2) by lia.
    rewrite Z.div_add, Z.mod_add by lia. split; [done|]. split; [intros [? ?]; discriminate|intros [_ ?]; discriminate].
  - rewrite (Pos2Z.inj_xO p). rewrite Z.mul_comm, Z.div_mul, Z.mod_mul by lia. rewrite orb_false_iff. tauto.
  - split; [done|]. split; [intros [? ?]; discriminate|intros [_ ?]; discriminate].
Qed.

Lemma shr_iter_spec n r : 0 <= shr_m r ->
  shr_m (Nat.iter n shr_1 r) = shr_m r / 2 ^ Z.of_nat n /\
  (exact (Nat.iter n shr_1 r) <-> exact r /\ shr_m r mod 2 ^ Z.of_nat n = 0).
Proof.
  intros Hm. induction n as [|n [IH1 IH2]].
  - change (2 ^ Z.of_nat 0) with 1. rewrite Z.div_1_r, Z.mod_1_r. cbn [Nat.iter]. tauto.
  - cbn [Nat.iter nat_rect]. fold (Nat.iter n shr_1 r).
    assert (Hp : 0 < 2 ^ Z.of_nat n) by lia.
    destruct (shr_1_spec (Nat.iter n shr_1 r)) as [H1 H2].
    { rewrite IH1. apply Z.div_pos; lia. }
    rewrite H1, H2, IH1, IH2. replace (Z.of_nat (S n)) with (Z.of_nat n + 1) by lia.
    rewrite Z.pow_add_r, Z.pow_1_r by lia. rewrite Z.div_div by lia. split; [done|].
    rewrite (Z.rem_mul_r (shr_m r) (2 ^ Z.of_nat n) 2) by lia.
    pose proof (Z.mod_pos_bound (shr_m r) (2 ^ Z.of_nat n) Hp).
    pose proof (Z.mod_pos_bound (shr_m r / 2 ^ Z.of_nat n) 2 ltac:(lia)). split; [intros [[? ?] ?]|intros [? ?]].
    + split; [done|]. lia.
    + assert (shr_m r mod 2 ^ Z.of_nat n = 0 /\ (shr_m r / 2 ^ Z.of_nat n) mod 2 = 0) by nia. tauto.
Qed.

Lemma digits_log2 p : Z.pos (digits2_pos p) = Z.log2 (Z.pos p) + 1.
Proof.
  induction p as [p IH|p IH|]; cbn [digits2_pos]; [| |done];
    rewrite Pos2Z.inj_succ, IH; [rewrite Pos2Z.inj_xI, Z.log2_succ_double by lia|
                                 rewrite Pos2Z.inj_xO, Z.log2_double by lia]; lia.
Qed.

Lemma Zdigits2_log2 m : 0 < m -> Zdigits2 m = Z.log2 m + 1.
Proof. destruct m as [|p|p]; intros; [lia| |lia]. apply digits_log2. Qed.

(** The exponent of the last place of a number of [Zdigits2 m] digits times
    2^e, and the digits to drop for it. *)
Definition place (m e : Z) : Z := Z.max e (Z.max (Zdigits2 m + e - 53) (-1074)).

Lemma shr_fexp_spec m e l : 0 <= m ->
  exists r, shr_fexp prec emax m e l = (r, place m e) /\ shr_m r = m / 2 ^ (place m e - e) /\
    (exact r <-> l = loc_Exact /\ m mod 2 ^ (place m e - e) = 0).
Proof.
  intros Hm. unfold shr_fexp, fexp, place, emin, prec, emax.
  set (k := Z.max (Zdigits2 m + e - 53) (3 - 1024 - 53)). change (3 - 1024 - 53) with (-1074) in k. fold k.
  assert (Hl : shr_m (shr_record_of_loc m l) = m) by (destruct l as [|[]]; done).
  assert (He : exact (shr_record_of_loc m l) <-> l = loc_Exact).
  { unfold exact. destruct l as [|[]]; cbn; split; intros; try done; naive_solver. }
  unfold shr. destruct (k - e) as [|n|n] eqn:Hk.
  - exists (shr_record_of_loc m l). rewrite Z.max_l by lia. rewrite Z.sub_diag, Z.pow_0_r, Z.div_1_r, Z.mod_1_r.
    rewrite Hl, He. tauto.
  - exists (SpecFloat.iter_pos shr_1 n (shr_record_of_loc m l)). rewrite Z.max_r by lia.
    rewrite iter_pos_nat. destruct (shr_iter_spec (Pos.to_nat n) (shr_record_of_loc m l)) as [H1 H2]; [lia|].
    rewrite positive_nat_Z, Hl, He in *. replace (k - e) with (Z.pos n) by lia.
    split_and!; [f_equal; lia|done|done].
  - exists (shr_record_of_loc m l). rewrite Z.max_l by lia. rewrite Z.sub_diag, Z.pow_0_r, Z.div_1_r, Z.mod_1_r.
    rewrite Hl, He. tauto.
Qed.

Lemma round_even_spec r : exists q, round_nearest_even (shr_m r) (loc_of_shr_record r) = q /\
  shr_m r <= q <= shr_m r + 1 /\ (exact r -> q = shr_m r).
Proof.
  destruct r as [m [] []]; cbn [shr_m loc_of_shr_record round_nearest_even]; eexists; (split; [reflexivity|]);
    unfold exact; cbn [shr_r shr_s]; try (split; [lia|naive_solver lia]).
  destruct (Z.even m); (split; [lia|naive_solver lia]).
Qed.

Lemma quotient_digits m e : 0 < m -> 0 <= m / 2 ^ (place m e - e) < 2 ^ 53.
Proof.
  intros Hm. assert (Hn : 0 <= place m e - e) by (unfold place; lia).
  assert (Hd : Z.log2 m + 1 - 53 <= place m e - e) by (unfold place; rewrite Zdigits2_log2 by lia; lia).
  split; [apply Z.div_pos; lia|]. apply Z.div_lt_upper_bound; [lia|].
  rewrite <- Z.pow_add_r by lia. destruct (Z.log2_spec m Hm) as [_ H].
  eapply Z.lt_le_trans; [exact H|]. apply Z.pow_le_mono_r; lia.
Qed.

(** [binary_round_aux] multiplies the unit of the last place by the quotient or,
    when bits are dropped, possibly by its successor. *)
Lemma round_aux_spec m e l : 0 < m -> place m e <= 900 ->
  exists q, scaled (binary_round_aux prec emax false m e l) (q * 2 ^ (place m e + 1074)) /\
    m / 2 ^ (place m e - e) <= q <= m / 2 ^ (place m e - e) + 1 /\
    (l = loc_Exact -> m mod 2 ^ (place m e - e) = 0 -> q = m / 2 ^ (place m e - e)).
Proof.
  intros Hm Hp. pose proof (quotient_digits m e Hm) as Hq. unfold binary_round_aux.
  destruct (shr_fexp_spec m e l ltac:(lia)) as (r & -> & Hr & Hx).
  destruct (round_even_spec r) as (q & -> & Hq1 & Hq2). rewrite Hr in *. exists q.
  split; [|split; [lia|intros; apply Hq2, Hx; done]].
  set (e1 := place m e) in *. assert (He1 : -1074 <= e1) by (unfold e1, place; lia).
  destruct (shr_fexp_spec q e1 loc_Exact ltac:(lia)) as (r' & -> & Hr' & _). rewrite Hr'.
  destruct (decide (q = 0)) as [->|Hq0]; [rewrite Z.div_0_l by (apply Z.pow_nonzero; unfold place; lia); done|].
  assert (Hv : place q e1 = e1 /\ q < 2 ^ 53 \/ place q e1 = e1 + 1 /\ q = 2 ^ 53).
  { destruct (decide (q = 2 ^ 53)) as [->|].
    - right. split; [|done]. unfold place. rewrite Zdigits2_log2 by lia. change (Z.log2 (2 ^ 53)) with 53. lia.
    - left. split; [|lia]. unfold place. rewrite Zdigits2_log2 by lia.
      assert (Z.log2 q < 53) by (apply Z.log2_lt_pow2; lia). lia. }
  destruct Hv as [[-> Hlt] | [-> ->]].
  - rewrite Z.sub_diag, Z.pow_0_r, Z.div_1_r. destruct q as [|p|p]; [lia| |lia].
    rewrite (proj2 (Z.leb_le _ _)) by (unfold emax, prec; lia). split; [lia|done].
  - replace (e1 + 1 - e1) with 1 by lia. change (2 ^ 53 / 2 ^ 1) with (Z.pos (2 ^ 52)).
    cbv iota beta.
    rewrite (proj2 (Z.leb_le _ _)) by (unfold emax, prec; lia). split; [lia|].
    replace (e1 + 1 + 1074) with (1 + (e1 + 1074)) by lia. rewrite (Z.pow_add_r 2 1) by lia. lia.
Qed.

(** Rounding is monotone at the numbers on the grid of the last place. *)
Lemma round_aux_between m e l lo hi : 0 < m -> -1074 <= e -> place m e <= 900 ->
  (2 ^ (place m e + 1074) | lo) -> (2 ^ (place m e + 1074) | hi) ->
  lo <= m * 2 ^ (e + 1074) <= hi -> (l <> loc_Exact -> m * 2 ^ (e + 1074) < hi) ->
  exists z, scaled (binary_round_aux prec emax false m e l) z /\ lo <= z <= hi.
Proof.
  intros Hm He Hp [a ->] [b ->] Hb Hl. destruct (round_aux_spec m e l Hm Hp) as (q & Hs & Hq & Hx).
  eexists. split; [exact Hs|]. set (n := place m e - e) in *. assert (Hn : 0 <= n) by (unfold n, place; lia).
  assert (HU : 2 ^ (place m e + 1074) = 2 ^ n * 2 ^ (e + 1074)).
  { rewrite <- Z.pow_add_r by lia. f_equal. lia. }
  rewrite HU in *. set (u := 2 ^ (e + 1074)) in *. assert (Hu : 0 < u) by (unfold u; lia).
  set (d := 2 ^ n) in *. assert (Hd : 0 < d) by (unfold d; lia).
  pose proof (Z.div_mod m d ltac:(lia)). pose proof (Z.mod_pos_bound m d Hd).
  assert (Hlo : a * d <= m) by nia. assert (Hhi : m <= b * d) by nia.
  assert (a <= m / d) by (apply Z.div_le_lower_bound; lia).
  assert (m / d <= b) by nia.
  assert (q <= b).
  { destruct (decide (m / d < b)); [lia|]. assert (m = b * d) by nia.
    destruct l as [|c]; [rewrite Hx; [lia|done|nia]|]. specialize (Hl ltac:(done)). nia. }
  nia.
Qed.

(** ** The conversions of [Seconds] *)

Lemma iter_xO m d : Z.pos (Pos.iter xO m d) = Z.pos m * 2 ^ Z.pos d.
Proof.
  induction d as [|d IH] using Pos.peano_ind; [cbn [Pos.iter]; lia|].
  rewrite Pos.iter_succ, Pos2Z.inj_xO, IH, Pos2Z.inj_succ, Z.pow_succ_r by lia. lia.
Qed.

Lemma shl_align_spec m e e' : exists m', shl_align m e e' = (m', Z.min e e') /\
  Z.pos m' = Z.pos m * 2 ^ (e - Z.min e e').
Proof.
  unfold shl_align. destruct (e' - e) as [|d|d] eqn:Hd.
  - exists m. rewrite Z.min_l, Z.sub_diag by lia. split; [done|lia].
  - exists m. rewrite Z.min_l, Z.sub_diag by lia. split; [done|lia].
  - exists (Pos.iter xO m d). rewrite Z.min_r by lia. split; [done|].
    replace (e - e') with (Z.pos d) by lia. apply iter_xO.
Qed.

Lemma log2_shift m k a j : 0 < m -> 0 <= k -> 0 < a -> 0 <= j ->
  m * 2 ^ k = a * 2 ^ j -> Z.log2 m + k = Z.log2 a + j.
Proof.
  intros Hm Hk Ha Hj H. apply (f_equal Z.log2) in H. rewrite !Z.log2_mul_pow2 in H by lia. lia.
Qed.

Lemma pow2_divide_le a b : 0 <= a <= b -> (2 ^ a | 2 ^ b).
Proof. intros. exists (2 ^ (b - a)). rewrite <- Z.pow_add_r by lia. f_equal. lia. Qed.

Lemma binary_round_between m e lo hi : -1074 <= e -> Z.log2 (Z.pos m) + e <= 900 ->
  let u := Z.max (Z.log2 (Z.pos m) + e - 52) (-1074) in
  (2 ^ (u + 1074) | lo) -> (2 ^ (u + 1074) | hi) -> lo <= Z.pos m * 2 ^ (e + 1074) <= hi ->
  exists z, scaled (binary_round prec emax false m e) z /\ lo <= z <= hi.
Proof.
  intros He Hp u Hlo Hhi Hb. unfold binary_round.
  assert (Hu : fexp prec emax (Z.pos (digits2_pos m) + e) = u).
  { unfold fexp, emin, prec, emax, u. rewrite digits_log2. lia. }
  rewrite Hu. destruct (shl_align_spec m e u) as (m' & -> & Hm').
  set (e' := Z.min e u) in *. assert (He' : -1074 <= e' <= e) by (unfold e', u; lia).
  assert (Hd : Zdigits2 (Z.pos m') + e' = Z.log2 (Z.pos m) + 1 + e).
  { rewrite Zdigits2_log2 by lia. rewrite Hm', Z.log2_mul_pow2 by lia. lia. }
  assert (Hpl : place (Z.pos m') e' = u) by (unfold place; rewrite Hd; unfold e', u; lia).
  apply round_aux_between; try rewrite Hpl; try done; try lia.
  rewrite Hm', <- Z.mul_assoc, <- Z.pow_add_r by lia. replace (e - e' + (e' + 1074)) with (e + 1074) by lia. done.
Qed.

Lemma float_of_int_scaled n : 0 < n < 2 ^ 53 ->
  exists m e, float_of_int n = S754_finite false m e /\ -1074 <= e /\ Z.pos m * 2 ^ (e + 1074) = n * 2 ^ 1074.
Proof.
  intros Hn. unfold float_of_int. destruct n as [|p|p]; [lia| |lia]. cbn [binary_normalize].
  assert (Hl : 0 <= Z.log2 (Z.pos p) < 53) by (split; [apply Z.log2_nonneg|apply Z.log2_lt_pow2; lia]).
  assert (Hd : (2 ^ (Z.max (Z.log2 (Z.pos p) + 0 - 52) (-1074) + 1074) | Z.pos p * 2 ^ 1074)).
  { apply Z.divide_mul_r, pow2_divide_le. lia. }
  destruct (binary_round_between p 0 (Z.pos p * 2 ^ 1074) (Z.pos p * 2 ^ 1074)) as (z & Hs & Hz);
    [lia|lia|exact Hd|exact Hd|lia|].
  destruct (binary_round prec emax false p 0) as [b|b| |[] m e]; cbn [scaled] in Hs; try done; [lia|].
  exists m, e. split; [done|]. lia.
Qed.

(** The fraction [float64(n)/1e9] stays below one, by more than 2^-30. *)
Definition fraction_max : Z := 2 ^ 1074 - 2 ^ 1044.

Lemma fraction_divide u : 0 <= u <= 1044 -> (2 ^ u | fraction_max).
Proof. intros. apply Z.divide_sub_r; apply pow2_divide_le; lia. Qed.

Lemma fraction_bound q u r n T : 0 < u -> 0 < T -> 0 <= r < 8388608000000000 -> n <= 999999999 ->
  (8388608000000000 * q + r) * u = n * (T * 1073741824) * 8388608 ->
  q * u <= T * 1073741824 - T /\ (r <> 0 -> q * u < T * 1073741824 - T).
Proof.
  intros Hu HT Hr Hn Hv. assert (Hru : 0 <= r * u) by nia. assert (Hr0 : r <> 0 -> 0 < r * u) by nia.
  assert (HnT : n * T <= 999999999 * T) by nia. split; [|intros H; specialize (Hr0 H)]; lia.
Qed.

Lemma fdiv_fraction n : 0 <= n < second ->
  exists z, scaled (fdiv (float_of_int n) (float_of_int second)) z /\ 0 <= z <= fraction_max.
Proof.
  intros Hn. destruct (decide (n = 0)) as [->|Hn0].
  { exists 0. split; [vm_compute; reflexivity|]. unfold fraction_max. lia. }
  assert (Hs : second < 2 ^ 30) by done.
  destruct (float_of_int_scaled n) as (m & e & -> & He & Hm); [lia|].
  assert (HD : 0 <= Z.log2 n < 30) by (split; [apply Z.log2_nonneg|apply Z.log2_lt_pow2; lia]).
  assert (Hlog : Z.log2 (Z.pos m) + (e + 1074) = Z.log2 n + 1074) by (apply log2_shift; lia).
  change (float_of_int second) with (S754_finite false (8388608000000000) (-23)).
  unfold fdiv, SFdiv, SFdiv_core_binary. cbv zeta.
  assert (Hf : fexp prec emax (Zdigits2 (Z.pos m) + e - (Zdigits2 8388608000000000 + -23)) = Z.log2 n - 82).
  { rewrite (Zdigits2_log2 (Z.pos m)) by lia. change (Zdigits2 8388608000000000 + -23) with 30.
    unfold fexp, emin, prec, emax. lia. }
  rewrite Hf. set (e' := Z.min (Z.log2 n - 82) (e - -23)). set (s := e - -23 - e').
  assert (Hs0 : 0 <= s) by (unfold s, e'; lia). assert (He' : -1074 <= e') by (unfold e'; lia).
  replace (match s with Z0 => Z.pos m | Z.pos _ => Z.shiftl (Z.pos m) s | Z.neg _ => 0 end) with (Z.pos m * 2 ^ s).
  2: { destruct s as [|p|p]; [lia|rewrite Z.shiftl_mul_pow2 by lia; done|lia]. }
  pose proof (Z_div_mod (Z.pos m * 2 ^ s) 8388608000000000 ltac:(lia)) as Hdiv.
  destruct (Z.div_eucl _ _) as [q r]. destruct Hdiv as [Hq Hr]. cbn [xorb].
  assert (Hbig : 2 ^ 53 <= Z.pos m * 2 ^ s).
  { destruct (Z.log2_spec (Z.pos m) ltac:(lia)) as [Hl _].
    transitivity (2 ^ (Z.log2 (Z.pos m) + s)); [apply Z.pow_le_mono_r; unfold s, e'; lia|].
    rewrite Z.pow_add_r by (try apply Z.log2_nonneg; lia). nia. }
  assert (Hq0 : 0 < q) by lia.
  set (u := 2 ^ (e' + 1074)). assert (Hu : 0 < u) by (unfold u; lia).
  assert (Hv : Z.pos m * 2 ^ s * u = n * 2 ^ 1074 * 2 ^ 23).
  { rewrite <- Hm, <- Z.mul_assoc, <- (Z.mul_assoc _ _ (2 ^ 23)). unfold u. rewrite <- !Z.pow_add_r by lia.
    do 2 f_equal. unfold s. lia. }
  assert (Hlt : q * u <= fraction_max /\ (r <> 0 -> q * u < fraction_max)).
  { unfold fraction_max. change (2 ^ 1074) with (2 ^ 1044 * 2 ^ 30) in *.
    assert (HT : 0 < 2 ^ 1044) by done. revert HT Hv. generalize (2 ^ 1044). intros T HT Hv. rewrite Hq in Hv.
    clear -Hv Hr Hu HT Hn. unfold second in Hn. apply (fraction_bound q u r n T); lia. }
  assert (Hlq : Z.log2 q + e' < 0).
  { assert (Z.log2 (q * u) < 1074) by (apply Z.log2_lt_pow2; [nia|unfold fraction_max in Hlt; lia]).
    unfold u in *. rewrite Z.log2_mul_pow2 in * by lia. lia. }
  assert (Hpl : -1074 <= place q e' <= -53).
  { unfold place. rewrite Zdigits2_log2 by lia. unfold e' in *. lia. }
  apply round_aux_between; try lia.
  - apply Z.divide_0_r.
  - apply fraction_divide. lia.
  - fold u. intros Hl. apply (proj2 Hlt). intros ->. apply Hl. reflexivity.
Qed.

Lemma fadd_scaled x y a b lo hi :
  scaled x a -> scaled y b -> 0 < a -> 0 < b ->
  (2 ^ 1044 | lo) -> (2 ^ 1044 | hi) -> lo <= a + b <= hi -> a + b < 2 ^ 1097 ->
  exists z, scaled (fadd x y) z /\ lo <= z <= hi.
Proof.
  intros Hx Hy Ha Hb Hlo Hhi Hab Hsmall.
  destruct x as [sx|sx| |[] mx ex]; cbn [scaled] in Hx; try lia; try done. destruct Hx as [Hex Hx].
  destruct y as [sy|sy| |[] my ey]; cbn [scaled] in Hy; try lia; try done. destruct Hy as [Hey Hy].
  unfold fadd, SFadd. cbn [cond_Zopp].
  destruct (shl_align_spec mx ex (Z.min ex ey)) as (mx' & -> & Hmx).
  destruct (shl_align_spec my ey (Z.min ex ey)) as (my' & -> & Hmy). cbn [fst].
  rewrite (Z.min_r ex (Z.min ex ey)) in Hmx by lia. rewrite (Z.min_r ey (Z.min ex ey)) in Hmy by lia.
  set (e := Z.min ex ey) in *. assert (He : -1074 <= e) by (unfold e; lia). cbn [Z.add binary_normalize].
  assert (Hsum : Z.pos (mx' + my') * 2 ^ (e + 1074) = a + b).
  { rewrite Pos2Z.inj_add, Z.mul_add_distr_r, Hmx, Hmy, Hx, Hy, <- !Z.mul_assoc, <- !Z.pow_add_r by lia.
    f_equal; do 2 f_equal; lia. }
  assert (Hl : Z.log2 (Z.pos (mx' + my')) + e < 23).
  { assert (Z.log2 (a + b) < 1097) by (apply Z.log2_lt_pow2; lia).
    rewrite <- Hsum, Z.log2_mul_pow2 in * by lia. lia. }
  apply binary_round_between; [lia|lia| | |lia].
  - etransitivity; [|exact Hlo]. apply pow2_divide_le. lia.
  - etransitivity; [|exact Hhi]. apply pow2_divide_le. lia.
Qed.

Lemma int_of_float_scaled x z k :
  scaled x z -> 0 <= k -> k * 2 ^ 1074 <= z < (k + 1) * 2 ^ 1074 -> int_of_float x = k.
Proof.
  intros Hx Hk Hz. destruct x as [s|s| |[] m e]; cbn [scaled int_of_float] in *; try done; [nia|].
  destruct Hx as [He ->]. case_decide as H0.
  - assert (Hp : Z.pos m * 2 ^ (e + 1074) = Z.pos m * 2 ^ e * 2 ^ 1074) by (rewrite Z.pow_add_r by lia; lia).
    rewrite Hp in Hz. assert (HT : 0 < 2 ^ 1074) by done. revert Hz HT. generalize (2 ^ 1074). intros. nia.
  - assert (Hp : 2 ^ 1074 = 2 ^ (- e) * 2 ^ (e + 1074)) by (rewrite <- Z.pow_add_r by lia; f_equal; lia).
    rewrite Hp in Hz. assert (0 < 2 ^ (e + 1074)) by lia. assert (0 < 2 ^ (- e)) by lia.
    symmetry. apply (Z.div_unique_pos _ _ _ (Z.pos m - k * 2 ^ (- e))); nia.
Qed.

(** Below 2^23 seconds, [int(d.Seconds())] is the whole number of seconds. *)
Lemma int_Seconds d : 0 <= d < 2 ^ 23 * second -> int_of_float (Seconds d) = d / second.
Proof.
  intros Hd. unfold Seconds. assert (Hs : second = 1000000000) by done.
  rewrite Z.quot_div_nonneg, Z.rem_mod_nonneg by lia.
  destruct (fdiv_fraction (d mod second)) as (b & Hb & Hb'); [apply Z.mod_pos_bound; lia|].
  assert (Hk : 0 <= d / second < 2 ^ 23).
  { split; [apply Z.div_pos; lia|apply Z.div_lt_upper_bound; lia]. }
  revert Hb Hk. generalize (d / second) (fdiv (float_of_int (d mod second)) (float_of_int second)).
  intros k y Hy Hk. unfold fraction_max in Hb'.
  destruct (decide (k = 0)) as [->|Hk0].
  { apply (int_of_float_scaled _ b); [|lia|lia]. change (float_of_int 0) with (S754_zero false).
    destruct y as [sy|sy| |[] my ey]; try done. by destruct sy. }
  destruct (float_of_int_scaled k) as (m & e & -> & He & Hm); [lia|].
  assert (Hx : scaled (S754_finite false m e) (k * 2 ^ 1074)) by (split; [lia|done]).
  destruct (decide (b = 0)) as [->|Hb0].
  { apply (int_of_float_scaled _ (k * 2 ^ 1074)); [|lia|lia]. destruct y as [sy|sy| |[] my ey]; cbn [scaled] in Hy; try done. lia. }
  destruct (fadd_scaled _ _ _ _ (k * 2 ^ 1074) (k * 2 ^ 1074 + fraction_max) Hx Hy) as (z & Hz & Hz'); unfold fraction_max in *; try lia.
  - apply Z.divide_mul_r, pow2_divide_le. lia.
  - apply Z.divide_add_r; [apply Z.divide_mul_r, pow2_divide_le; lia|apply fraction_divide; lia].
  - apply (int_of_float_scaled _ z); [done|lia|lia].
Qed.
