(* ===== verification/Limits.v ===== *)
(** * Rate limiting and deduplication (src/go/node/transport.go)

    The two guards every received message passes before it is handled: the
    token bucket of a connection ([PeerRateLimiter]) and the table of message
    IDs seen by the node ([MessageDeduplicator]). *)

From S2P Require Import Prelude Float64 Duration.

(** ** The token bucket *)

Record PeerRateLimiter : Type := mkLimiter {
  tokens : Z;
  maxTokens : Z;
  refillRate : Z;
  lastRefill : Z
}.

Definition NewPeerRateLimiter (now maxTokens refillRate : Z) : PeerRateLimiter :=
  mkLimiter maxTokens maxTokens refillRate now.

(** [Allow] at time [now]. *)
Definition Allow (now : Z) : SR PeerRateLimiter bool := fun r =>
  let elapsed := Sub now (lastRefill r) in
  let tokensToAdd := i64 (int_of_float (Seconds elapsed) * refillRate r) in
  let r := if decide (tokensToAdd > 0)
           then mkLimiter (Z.min (i64 (tokens r + tokensToAdd)) (maxTokens r)) (maxTokens r) (refillRate r) now
           else r in
  if decide (tokens r > 0)
  then (Ok true, mkLimiter (i64 (tokens r - 1)) (maxTokens r) (refillRate r) (lastRefill r))
  else (Ok false, r).

(** Calls at the given times; the number of them that were allowed. *)
Fixpoint allowed (ts : list Z) (r : PeerRateLimiter) : Z * PeerRateLimiter :=
  match ts with
  | [] => (0, r)
  | t :: ts =>
      match Allow t r with
      | (Ok b, r) => let '(n, r) := allowed ts r in ((if b then 1 else 0) + n, r)
      | (_, r) => allowed ts r
      end
  end.

(** ** The table of message IDs *)

Record MessageDeduplicator : Type := mkDedup {
  seen : gmap string Z;
  ttl : Z
}.

Definition NewMessageDeduplicator (ttl : Z) : MessageDeduplicator := mkDedup ∅ ttl.

Definition IsDuplicate (now : Z) (msgID : string) : SR MessageDeduplicator bool := fun d =>
  match seen d !! msgID with
  | None => (Ok false, d)
  | Some seenAt =>
      if decide (ttl d > 0 /\ Sub now seenAt > ttl d)
      then (Ok false, mkDedup (delete msgID (seen d)) (ttl d))
      else (Ok true, d)
  end.

Definition Mark (now : Z) (msgID : string) : SR MessageDeduplicator unit :=
  modify (fun d => mkDedup (<[msgID := now]> (seen d)) (ttl d)).

(** Deleting while ranging visits every entry once, in any order: what is left
    are the entries that are not expired. *)
Definition Cleanup (now : Z) : SR MessageDeduplicator unit :=
  modify (fun d => mkDedup (filter (fun e => ~ Sub now e.2 > ttl d) (seen d)) (ttl d)).

(** ** The token bucket: theorems *)

Definition limiter_wf (r : PeerRateLimiter) : Prop :=
  0 <= tokens r <= maxTokens r /\ 1 <= maxTokens r < 2 ^ 31 /\ 1 <= refillRate r < 2 ^ 31.

Lemma i64_small z : - 2 ^ 63 <= z < 2 ^ 63 -> i64 z = z.
Proof.
  intros. unfold swrap. cbv zeta. change (2 ^ (64 - 1)) with (2 ^ 63).
  destruct (decide (0 <= z)); [rewrite Z.mod_small by lia; case_decide; lia|].
  replace (z mod 2 ^ 64) with (z + 2 ^ 64) by (apply (Z.mod_unique _ _ (-1)); lia). case_decide; lia.
Qed.

Lemma Sub_small t u : 0 <= t - u < 2 ^ 63 -> Sub t u = t - u.
Proof. unfold Sub, minDuration, maxDuration. lia. Qed.

(** The result of one call on a well-formed bucket, without wrap-around: [k]
    whole seconds have passed. *)
Lemma Allow_spec now r :
  limiter_wf r -> 0 <= now - lastRefill r < 2 ^ 23 * second ->
  exists b r', Allow now r = (Ok b, r') /\ limiter_wf r' /\
    maxTokens r' = maxTokens r /\ refillRate r' = refillRate r /\
    let k := (now - lastRefill r) / second in
    lastRefill r' = (if decide (k = 0) then lastRefill r else now) /\
    tokens r' + (if b then 1 else 0) = Z.min (tokens r + k * refillRate r) (maxTokens r) /\
    (b = false <-> tokens r = 0 /\ k = 0).
Proof.
  intros (Ht & Hm & Hr) He. unfold Allow. assert (Hs : second = 1000000000) by done.
  rewrite Sub_small by lia. rewrite int_Seconds by lia.
  assert (Hk : 0 <= (now - lastRefill r) / second < 2 ^ 23).
  { split; [apply Z.div_pos; lia|apply Z.div_lt_upper_bound; lia]. }
  set (k := (now - lastRefill r) / second) in *. cbv zeta. clearbody k.
  rewrite (i64_small (k * refillRate r)) by nia.
  destruct (decide (k = 0)) as [->|Hk0].
  - rewrite (decide_False (P := 0 * refillRate r > 0)) by lia. case_decide as Hp.
    + eexists true, _. split; [reflexivity|]. unfold limiter_wf. cbn [tokens maxTokens refillRate lastRefill].
      rewrite i64_small by lia. split_and!; lia.
    + exists false, r. split; [reflexivity|]. unfold limiter_wf. split_and!; lia.
  - assert (Hadd : 0 < k * refillRate r) by nia. assert (k * refillRate r < 2 ^ 60) by nia.
    rewrite (decide_True (P := k * refillRate r > 0)) by lia. cbn [tokens maxTokens refillRate lastRefill].
    rewrite (i64_small (tokens r + _)) by lia. rewrite decide_True by lia.
    eexists true, _. split; [reflexivity|]. unfold limiter_wf. cbn [tokens maxTokens refillRate lastRefill].
    rewrite i64_small by lia. split_and!; lia.
Qed.

(** The last of a list of times, counting from [t]. *)
Definition last_time (t : Z) (ts : list Z) : Z := default t (last ts).

Lemma last_time_cons t u ts : last_time t (u :: ts) = last_time u ts.
Proof. unfold last_time. rewrite last_cons. by destruct (last ts). Qed.

Lemma sorted_last t ts : Sorted Z.le (t :: ts) -> t <= last_time t ts.
Proof.
  revert t. induction ts as [|u ts IH]; intros t Hs; [cbn; lia|].
  rewrite last_time_cons. apply Sorted_inv in Hs as [Hs Hd]. apply HdRel_inv in Hd.
  specialize (IH u Hs). lia.
Qed.

Lemma div_superadd a b : 0 <= a -> 0 <= b -> a / second + b / second <= (a + b) / second.
Proof.
  intros. apply Z.div_le_lower_bound; [done|].
  pose proof (Z.mul_div_le a second ltac:(done)). pose proof (Z.mul_div_le b second ltac:(done)). lia.
Qed.

(** What a run of calls can take out of the bucket, in the order of time. *)
Lemma allowed_bound ts t r n r' :
  limiter_wf r -> lastRefill r <= t -> Sorted Z.le (t :: ts) ->
  last_time t ts - lastRefill r < 2 ^ 23 * second -> allowed ts r = (n, r') ->
  limiter_wf r' /\ maxTokens r' = maxTokens r /\ refillRate r' = refillRate r /\
  lastRefill r <= lastRefill r' <= last_time t ts /\
  n + tokens r' <= tokens r + refillRate r * ((lastRefill r' - lastRefill r) / second).
Proof.
  revert t r n. induction ts as [|u ts IH]; intros t r n Hwf Hl Hs Hb.
  { intros [= <- <-]. cbn. rewrite Z.sub_diag. change (0 / second) with 0. split_and!; try done; lia. }
  rewrite last_time_cons in *. apply Sorted_inv in Hs as [Hs Hd]. apply HdRel_inv in Hd.
  pose proof (sorted_last u ts Hs) as Hul. cbn [allowed].
  destruct (Allow_spec u r Hwf) as (b & r1 & -> & Hwf1 & Hm1 & Hr1 & Hl1 & Ht1 & _); [lia|].
  set (k := (u - lastRefill r) / second) in *.
  assert (Hk : 0 <= k) by (apply Z.div_pos; [lia|done]).
  destruct (allowed ts r1) as [n1 r2] eqn:Ha. intros [= <- <-].
  destruct (IH u r1 n1 Hwf1) as (Hwf2 & Hm2 & Hr2 & Hl2 & Hn); try done;
    try (rewrite Hl1; case_decide; lia).
  assert (Hdist : (lastRefill r1 - lastRefill r) / second = k).
  { rewrite Hl1. case_decide as Hk0; [rewrite Hk0, Z.sub_diag; done|done]. }
  pose proof (div_superadd (lastRefill r1 - lastRefill r) (lastRefill r2 - lastRefill r1)) as Hsup.
  assert (lastRefill r <= lastRefill r1) by (rewrite Hl1; case_decide; lia).
  replace (lastRefill r1 - lastRefill r + (lastRefill r2 - lastRefill r1))
    with (lastRefill r2 - lastRefill r) in Hsup by lia.
  rewrite Hdist in Hsup. specialize (Hsup ltac:(lia) ltac:(lia)). rewrite Hr1 in Hn.
  destruct Hwf as (? & ? & ?). split_and!; try done; try lia. nia.
Qed.

Lemma allowed_from_start ts t0 max rate n r :
  1 <= max < 2 ^ 31 -> 1 <= rate < 2 ^ 31 -> Sorted Z.le (t0 :: ts) ->
  last_time t0 ts - t0 < 2 ^ 23 * second ->
  allowed ts (NewPeerRateLimiter t0 max rate) = (n, r) ->
  limiter_wf r /\ maxTokens r = max /\ refillRate r = rate /\ t0 <= lastRefill r <= last_time t0 ts.
Proof.
  intros Hm Hr Hs Hb Ha.
  destruct (allowed_bound ts t0 (NewPeerRateLimiter t0 max rate) n r) as (? & ? & ? & ? & _); try done; try (cbn; lia).
  unfold limiter_wf, NewPeerRateLimiter. cbn. lia.
Qed.

Lemma sorted_split t0 before start ts :
  Sorted Z.le (t0 :: before ++ start :: ts) ->
  Sorted Z.le (t0 :: before) /\ last_time t0 before <= start /\ Sorted Z.le (start :: ts).
Proof.
  revert t0. induction before as [|u before IH]; intros t0 Hs; cbn [app] in Hs;
    apply Sorted_inv in Hs as [Hs Hd]; apply HdRel_inv in Hd.
  - split_and!; [repeat constructor|done|done].
  - destruct (IH u Hs) as (H1 & H2 & H3). rewrite last_time_cons. split_and!; try done. constructor; [done|by constructor].
Qed.

Lemma allowed_nonneg ts r : 0 <= fst (allowed ts r).
Proof.
  revert r. induction ts as [|t ts IH]; intros r; [done|]. cbn [allowed].
  destruct (Allow t r) as [[[]| | |] r1]; try apply IH; specialize (IH r1); destruct (allowed ts r1); cbn in *; lia.
Qed.

(** C19 (bounds): whatever came before, a peer gets at most [maxTokens] messages
    through in a burst, and in any window of time at most [refillRate] more for
    each second of it, plus one; and a peer that is silent for a second is
    served again.  The arithmetic of the bucket is that of the code (float64
    seconds, wrapping integers), over 2^23 seconds of connection. *)
Theorem rate_limit_window max rate t0 before start ts n0 r n r' :
  1 <= max < 2 ^ 31 -> 1 <= rate < 2 ^ 31 ->
  Sorted Z.le (t0 :: before ++ start :: ts) -> last_time start ts - t0 < 2 ^ 23 * second ->
  allowed before (NewPeerRateLimiter t0 max rate) = (n0, r) ->
  allowed (start :: ts) r = (n, r') ->
  n <= max + rate * ((last_time start ts - start) / second + 1) /\
  (last_time t0 before + second <= start -> fst (Allow start r) = Ok true).
Proof.
  intros Hm Hr Hs Hb Hbef Hn. apply sorted_split in Hs as (Hs1 & Hst & Hs2).
  pose proof (sorted_last _ _ Hs1) as Ht0. pose proof (sorted_last _ _ Hs2) as Hte.
  destruct (allowed_from_start before t0 max rate n0 r) as (Hwf & Hmax & Hrate & Hl); try done; [lia|].
  cbn [allowed] in Hn.
  destruct (Allow_spec start r Hwf) as (b & r1 & HA & Hwf1 & Hm1 & Hr1 & Hl1 & Ht1 & Hb1); [lia|].
  set (k := (start - lastRefill r) / second) in *. rewrite HA in *.
  destruct (allowed ts r1) as [n1 r2] eqn:Ha. injection Hn as <- <-.
  assert (Hlast : 0 <= start - lastRefill r1 < second).
  { rewrite Hl1. case_decide as Hk0; [|unfold second; lia]. unfold k in Hk0.
    apply Z.div_small_iff in Hk0; [lia|done]. }
  assert (t0 <= lastRefill r1) by (rewrite Hl1; case_decide; lia).
  destruct (allowed_bound ts start r1 n1 r2) as (Hwf2 & _ & Hr2 & Hl2 & Hbound); try done; [lia|lia|].
  split.
  - destruct Hwf2 as ((? & _) & _).
    assert (Hq : (lastRefill r2 - lastRefill r1) / second <= (last_time start ts - start) / second + 1).
    { rewrite <- Z.div_add by done. apply Z.div_le_mono; [done|lia]. }
    rewrite Hr1, Hrate in Hbound. nia.
  - intros Hpause. cbn [fst]. destruct b; [done|]. destruct (proj1 Hb1 eq_refl) as [_ Hk0].
    unfold k in Hk0. apply Z.div_small_iff in Hk0; [lia|done].
Qed.

(** Three calls at once on a bucket of two tokens, then one a second later. *)
Lemma rate_limit_window_witness :
  fst (allowed [7; 7; 7] (NewPeerRateLimiter 7 2 1)) = 2 /\ 2 <= 2 + 1 * ((7 - 7) / second + 1) /\
  fst (Allow (7 + second) (snd (allowed [7; 7; 7] (NewPeerRateLimiter 7 2 1)))) = Ok true.
Proof.
  split; [vm_compute; reflexivity|]. split.
  - exact (proj1 (rate_limit_window 2 1 7 [] 7 [7; 7] 0 (mkLimiter 2 2 1 7) 2 (mkLimiter 0 2 1 7)
      ltac:(lia) ltac:(lia) ltac:(repeat constructor; lia) eq_refl eq_refl ltac:(vm_compute; reflexivity))).
  - exact (proj2 (rate_limit_window 2 1 7 [7; 7; 7] (7 + second) [] 2
      (snd (allowed [7; 7; 7] (NewPeerRateLimiter 7 2 1))) 1 (mkLimiter 0 2 1 (7 + second))
      ltac:(lia) ltac:(lia) ltac:(repeat constructor; unfold second; lia) eq_refl
      ltac:(vm_compute; reflexivity) ltac:(vm_compute; reflexivity)) ltac:(vm_compute; discriminate)).
Defined.

(** ** The table of message IDs: theorems *)

(** What one read loop does to the table: it checks an ID and, if it is new, marks
    it (two critical sections, each with its own clock read); between two messages
    the ticker cleans up.  The loops of several connections can come between the
    check and the mark of each other: that is the step relation of [Readers]. *)
Inductive dedup_event : Type :=
| Received (checked marked : Z) (msgID : string)
| Tick (at_ : Z).

(** The check and the mark of one message, with no other reader in between. *)
Definition receive (checked marked : Z) (msgID : string) : SR MessageDeduplicator bool :=
  dup ← IsDuplicate checked msgID;
  if (dup : bool) then mret false else _ ← Mark marked msgID; mret true.

(** Which of the received messages are new. *)
Fixpoint run_dedup (evs : list dedup_event) : SR MessageDeduplicator (list bool) :=
  match evs with
  | [] => mret []
  | Received c m id :: evs => b ← receive c m id; bs ← run_dedup evs; mret (b :: bs)
  | Tick t :: evs => _ ← Cleanup t; run_dedup evs
  end.

(** The specification remembers every message ever accepted. *)
Fixpoint dedup_spec (ttl : Z) (evs : list dedup_event) (log : list (Z * string)) : list bool :=
  match evs with
  | [] => []
  | Received c m id :: evs =>
      if decide (Forall (fun e => e.2 = id -> c - e.1 > ttl) log)
      then true :: dedup_spec ttl evs ((m, id) :: log)
      else false :: dedup_spec ttl evs log
  | Tick _ :: evs => dedup_spec ttl evs log
  end.

(** The clock does not go back. *)
Fixpoint timed (t : Z) (evs : list dedup_event) : Prop :=
  match evs with
  | [] => True
  | Received c m _ :: evs => t <= c <= m /\ timed m evs
  | Tick u :: evs => t <= u /\ timed u evs
  end.

(** The table against the log at time [t]: it holds the last acceptance of an
    ID, or the ID has no acceptance that still counts. *)
Definition dedup_inv (T t : Z) (d : MessageDeduplicator) (log : list (Z * string)) : Prop :=
  ttl d = T /\ (forall u id, (u, id) ∈ log -> u <= t) /\
  forall id, match seen d !! id with
             | Some u => (u, id) ∈ log /\ forall u', (u', id) ∈ log -> u' <= u
             | None => forall u, (u, id) ∈ log -> t - u > T
             end.

Lemma Sub_gt t u T : 0 < T < maxDuration -> u <= t -> (Sub t u > T <-> t - u > T).
Proof. unfold Sub, minDuration, maxDuration. lia. Qed.

Section Dedup.
Context (T : Z) (HT : 0 < T < maxDuration).

Lemma dedup_inv_later t t' d log : t <= t' -> dedup_inv T t d log -> dedup_inv T t' d log.
Proof.
  intros Ht (Hd & Hlog & Hs). split_and!; [done| |].
  - intros u id Hu. specialize (Hlog u id Hu). lia.
  - intros id. specialize (Hs id). destruct (seen d !! id); [done|]. intros u Hu. specialize (Hs u Hu). lia.
Qed.

Lemma Cleanup_inv t d log : dedup_inv T t d log -> dedup_inv T t (snd (Cleanup t d)) log.
Proof.
  intros (Hd & Hlog & Hs). split_and!; [done|done|]. intros id. cbn [Cleanup modify snd seen ttl].
  specialize (Hs id). destruct (seen d !! id) as [u|] eqn:Hu.
  - destruct (decide (Sub t u > ttl d)) as [Hx|Hx].
    + rewrite (map_lookup_filter_None_2 _ _ _) by (right; intros v Hv; cbn; naive_solver).
      intros u' Hu'. destruct Hs as [Hin Hmax]. specialize (Hmax u' Hu').
      rewrite Hd, Sub_gt in Hx; [lia|done|eauto].
    + rewrite (proj2 (map_lookup_filter_Some _ _ _ u)); done.
  - by rewrite (map_lookup_filter_None_2 _ _ _) by (left; done).
Qed.

(** No copy of the message was accepted within the last [T]. *)
Definition unheard (T now : Z) (id : string) (log : list (Z * string)) : bool :=
  bool_decide (Forall (fun e => e.2 = id -> now - e.1 > T) log).

Lemma IsDuplicate_spec now id d log :
  dedup_inv T now d log ->
  exists d', IsDuplicate now id d = (Ok (negb (unheard T now id log)), d') /\ dedup_inv T now d' log.
Proof.
  intros (Hd & Hlog & Hs). unfold IsDuplicate, unheard. pose proof (Hs id) as Hid. rewrite Hd.
  destruct (seen d !! id) as [u|] eqn:Hu; [destruct Hid as [Hin Hmax]; case_decide as Hx; rewrite Sub_gt in Hx by eauto|].
  - rewrite bool_decide_true by (apply Forall_forall; intros [u' j] Hu' [= ->]; cbn; specialize (Hmax u' Hu'); lia).
    eexists. split; [reflexivity|]. split_and!; [done|done|]. intros j. cbn [seen]. destruct (decide (j = id)) as [->|Hne].
    + rewrite lookup_delete_eq. intros u' Hu'. specialize (Hmax u' Hu'). lia.
    + rewrite lookup_delete_ne by done. apply Hs.
  - rewrite bool_decide_false by (rewrite Forall_forall; intros Hall; specialize (Hall (u, id) Hin eq_refl); cbn in Hall; lia).
    by exists d.
  - rewrite bool_decide_true by (apply Forall_forall; intros [u' j] Hu' [= ->]; cbn; by apply Hid).
    by exists d.
Qed.

Lemma Mark_inv now id d log : dedup_inv T now d log -> dedup_inv T now (snd (Mark now id d)) ((now, id) :: log).
Proof.
  intros (Hd & Hlog & Hs). split_and!; [done| |].
  - intros u j Hu. apply elem_of_cons in Hu as [[= -> ->]|Hu]; [done|]. by apply (Hlog u j).
  - intros j. cbn [Mark modify snd seen]. destruct (decide (j = id)) as [->|Hne].
    + rewrite lookup_insert_eq. split; [by left|]. intros u Hu.
      apply elem_of_cons in Hu as [[= ->]|Hu]; [done|]. by apply (Hlog u id).
    + rewrite lookup_insert_ne by done. specialize (Hs j). destruct (seen d !! j) as [u|].
      * destruct Hs as [Hin Hmax]. split; [by right|]. intros u' Hu'. apply elem_of_cons in Hu' as [[= -> ->]|Hu']; [done|auto].
      * intros u Hu. apply elem_of_cons in Hu as [[= -> ->]|Hu]; [done|]. by apply Hs.
Qed.

(** One received message: the answer is the specification's, and the table
    follows the log. *)
Lemma receive_inv c m id d log t :
  t <= c <= m -> dedup_inv T t d log ->
  let new := unheard T c id log in
  exists d', receive c m id d = (Ok new, d') /\
    dedup_inv T m d' (if new then (m, id) :: log else log).
Proof.
  intros Hc Hinv new. apply (dedup_inv_later t c) in Hinv; [|lia].
  destruct (IsDuplicate_spec c id d log Hinv) as (d' & Hrun & Hinv'). apply (dedup_inv_later c m) in Hinv'; [|lia].
  unfold receive. sr_step Hrun. fold new. destruct new; cbn [negb]; [|by exists d'].
  eexists. split; [reflexivity|]. by apply Mark_inv.
Qed.

Lemma run_dedup_spec evs t d log :
  timed t evs -> dedup_inv T t d log -> fst (run_dedup evs d) = Ok (dedup_spec T evs log).
Proof.
  revert t d log. induction evs as [|[c m id|u] evs IH]; intros t d log Ht Hinv; [done| |].
  - destruct Ht as [Hc Ht]. destruct (receive_inv c m id d log t Hc Hinv) as (d' & Hr & Hinv').
    cbn [run_dedup dedup_spec]. sr_step Hr. specialize (IH _ _ _ Ht Hinv').
    cbv [mbind SR_bind mret SR_ret]. destruct (run_dedup evs d') as [r d'']. cbn [fst] in IH. subst r.
    destruct (decide _) as [Hd|Hd].
    + unfold unheard. by rewrite bool_decide_true by done.
    + unfold unheard. by rewrite bool_decide_false by done.
  - destruct Ht as [Hu Ht]. cbn [run_dedup dedup_spec]. apply (dedup_inv_later t u) in Hinv; [|done].
    cbv [mbind SR_bind Cleanup modify]. apply (IH u); [done|]. by apply (Cleanup_inv u).
Qed.
End Dedup.

(** C14 (refinement): for messages received one after the other, the check and the
    mark of each done before the next is checked (one read loop, or several that
    do not overlap), the bounded table behaves as if every accepted message were
    remembered for ever: a message is dropped exactly when one with its ID was
    accepted at most [ttl] ago, whenever the clean-up runs between messages.  Read
    loops that overlap between the two critical sections are not covered here:
    [readers_copies] bounds what they let through. *)
Theorem dedup_refines T t evs :
  0 < T < maxDuration -> timed t evs ->
  fst (run_dedup evs (NewMessageDeduplicator T)) = Ok (dedup_spec T evs []).
Proof.
  intros HT Ht. apply (run_dedup_spec T HT evs t); [done|]. split_and!; [done| |].
  - intros u id Hu. by apply elem_of_nil in Hu.
  - intros id. cbn. rewrite lookup_empty. intros u Hu. by apply elem_of_nil in Hu.
Qed.

(** The second copy arrives within the five minutes of the transport, the third
    after them, with a clean-up in between. *)
Lemma dedup_refines_witness :
  fst (run_dedup [Received 10 11 "a"; Received (20 * second) (20 * second) "a"; Tick (400 * second);
                  Received (401 * second) (401 * second) "a"] (NewMessageDeduplicator (300 * second)))
    = Ok [true; false; true].
Proof.
  rewrite (dedup_refines (300 * second) 0); [vm_compute; reflexivity|vm_compute; split; reflexivity|].
  vm_compute. intuition discriminate.
Defined.
