(* ===== verification/Readers.v ===== *)
(** * Read loops that share the deduplicator (src/go/node/transport.go)

    Every connection has its read loop, and all of them ask one
    [MessageDeduplicator], in two critical sections: [IsDuplicate], then [Mark].
    The theorems say what is left of the promise of [Limits] when the loops are
    interleaved between the two. *)

From S2P Require Import Prelude Duration Limits.

(** ** The loops *)

(** Where a loop is: before the check of a message, or after it was found new. *)
Inductive reader : Type :=
| RIdle
| RNew (msgID : string).

(** The clock, the loops, and the messages handled by each, the last one first,
    with the time of their mark. *)
Record readers : Type := mkReaders {
  r_dedup : MessageDeduplicator;
  r_clock : Z;
  r_loops : list reader;
  r_handled : list (nat * (Z * string))
}.

Definition readers_init (ttl now : Z) (n : nat) : readers :=
  mkReaders (NewMessageDeduplicator ttl) now (replicate n RIdle) [].

(** One critical section of a loop, a clean-up, or time that passes. *)
Inductive rstep : readers -> readers -> Prop :=
| r_check k id d now ls hs dup d' :
    ls !! k = Some RIdle -> IsDuplicate now id d = (Ok dup, d') ->
    rstep (mkReaders d now ls hs) (mkReaders d' now (if dup then ls else <[k := RNew id]> ls) hs)
| r_mark k id d now ls hs :
    ls !! k = Some (RNew id) ->
    rstep (mkReaders d now ls hs)
          (mkReaders (snd (Mark now id d)) now (<[k := RIdle]> ls) ((k, (now, id)) :: hs))
| r_cleanup d now ls hs : rstep (mkReaders d now ls hs) (mkReaders (snd (Cleanup now d)) now ls hs)
| r_time d now now' ls hs : now <= now' -> rstep (mkReaders d now ls hs) (mkReaders d now' ls hs).

(** ** The invariant *)

(** Two copies that the same loop handled are more than [T] apart. *)
Fixpoint spaced (T : Z) (hs : list (nat * (Z * string))) : Prop :=
  match hs with
  | [] => True
  | (k, (t, id)) :: hs => (forall u, (k, (u, id)) ∈ hs -> t - u > T) /\ spaced T hs
  end.

Record readers_ok (T : Z) (n : nat) (s : readers) : Prop := mkReadersOk {
  rk_dedup : dedup_inv T (r_clock s) (r_dedup s) (r_handled s).*2;
  rk_new : forall k id u, r_loops s !! k = Some (RNew id) -> (k, (u, id)) ∈ r_handled s -> r_clock s - u > T;
  rk_spaced : spaced T (r_handled s);
  rk_loops : length (r_loops s) = n;
  rk_known : forall k e, (k, e) ∈ r_handled s -> (k < n)%nat
}.

Section Readers.
Context (T : Z) (HT : 0 < T < maxDuration) (n : nat).

Lemma handled_log (k : nat) (t : Z) (id : string) hs : (k, (t, id)) ∈ hs -> (t, id) ∈ hs.*2.
Proof. intros Hin. apply list_elem_of_fmap. by exists (k, (t, id)). Qed.

Lemma readers_step s s' : readers_ok T n s -> rstep s s' -> readers_ok T n s'.
Proof.
  intros [Hd Hnew Hsp Hlen Hk] Hstep. destruct Hstep as [k id d now ls hs dup d' Hl Hrun|k id d now ls hs Hl|d now ls hs|d now now' ls hs Hle];
    cbn [r_dedup r_clock r_loops r_handled] in *.
  - destruct (IsDuplicate_spec T HT now id d _ Hd) as (d2 & Hrun2 & Hd'). rewrite Hrun in Hrun2. injection Hrun2 as -> ->.
    destruct (unheard _ _ _ _) eqn:Hfresh; cbn [negb]; [|done]. apply bool_decide_eq_true in Hfresh.
    split; cbn [r_dedup r_clock r_loops r_handled]; [done| |done|by rewrite length_insert|done].
    intros k' id' u Hk' Hin. destruct (decide (k' = k)) as [->|Hne].
    + rewrite list_lookup_insert_eq in Hk' by (by eapply lookup_lt_Some). injection Hk' as <-.
      rewrite Forall_forall in Hfresh. by apply (Hfresh (u, id) (handled_log _ _ _ _ Hin)).
    + rewrite list_lookup_insert_ne in Hk' by done. by eapply Hnew.
  - split; cbn [r_dedup r_clock r_loops r_handled]; [by apply Mark_inv| |split; [|done]|by rewrite length_insert|].
    + intros k' id' u Hk' Hin. destruct (decide (k' = k)) as [->|Hne].
      * by rewrite list_lookup_insert_eq in Hk' by (by eapply lookup_lt_Some).
      * rewrite list_lookup_insert_ne in Hk' by done. apply elem_of_cons in Hin as [[= ]|Hin]; [done|]. by eapply Hnew.
    + intros u Hin. by eapply Hnew.
    + intros k' e Hin. apply elem_of_cons in Hin as [[= -> _]|Hin]; [|by eapply Hk].
      rewrite <- Hlen. by eapply lookup_lt_Some.
  - split; try done. by apply Cleanup_inv.
  - split; try done; cbn [r_dedup r_clock r_loops r_handled].
    + by eapply dedup_inv_later.
    + intros k id u Hl Hin. specialize (Hnew k id u Hl Hin). lia.
Qed.

Lemma readers_reachable t0 s : rtc rstep (readers_init T t0 n) s -> readers_ok T n s.
Proof.
  intros Hr. assert (Hi : readers_ok T n (readers_init T t0 n)).
  { split; cbn; [|intros k id u _ Hin; by apply elem_of_nil in Hin|done|apply length_replicate|intros k e Hin; by apply elem_of_nil in Hin].
    split_and!; [done|intros u id Hin; by apply elem_of_nil in Hin|]. intros id. cbn. rewrite lookup_empty.
    intros u Hin. by apply elem_of_nil in Hin. }
  induction Hr as [|s1 s2 s3 Hs _ IH]; [done|]. by eapply IH, readers_step.
Qed.

(** The copies of a message that were handled in the window from [t] on. *)
Definition copies (t : Z) (id : string) (hs : list (nat * (Z * string))) : list (nat * (Z * string)) :=
  filter (fun e => e.2.2 = id /\ t <= e.2.1 <= t + T) hs.

Lemma copies_loops t id hs : spaced T hs -> NoDup (copies t id hs).*1.
Proof.
  unfold copies. induction hs as [|[k [u j]] hs IH]; [constructor|]. intros [Hk Hsp]. specialize (IH Hsp).
  rewrite filter_cons. case_decide as Hc; [|done]. cbn [fmap list_fmap fst snd] in *. constructor; [|done].
  intros Hin. apply list_elem_of_fmap in Hin as ([k' [u' j']] & -> & Hin). apply list_elem_of_filter in Hin as [Hc' Hin].
  cbn [fst snd] in *. destruct Hc as [-> Hc], Hc' as [-> Hc']. specialize (Hk u' Hin). lia.
Qed.

(** Every loop can find the message new before the first of them marks it. *)
Lemma all_pass t0 id :
  rtc rstep (readers_init T t0 n)
    (mkReaders (Nat.iter n (fun d => snd (Mark t0 id d)) (NewMessageDeduplicator T)) t0 (replicate n RIdle)
       ((fun k => (k, (t0, id))) <$> rev (seq 0 n))).
Proof.
  etrans.
  - refine (sweep rstep (fun _ us => mkReaders (NewMessageDeduplicator T) t0 us []) RIdle (RNew id) n _).
    intros j us Hj. by apply (r_check j id _ _ _ _ false).
  - refine (sweep rstep (fun j us => mkReaders (Nat.iter j (fun d => snd (Mark t0 id d)) (NewMessageDeduplicator T)) t0 us
      ((fun k => (k, (t0, id))) <$> rev (seq 0 j))) (RNew id) RIdle n _).
    intros j us Hj. rewrite seq_S, rev_app_distr. by apply (r_mark j id).
Qed.

(** C18 (bounds): of the copies of a message that [n] connections receive, at most
    [n] are handled in a window as long as the time an ID is remembered, at most
    one by each read loop (the loops that handled them are all different),
    whenever the clean-up runs; and all [n] can be: a
    message is checked and marked in two critical sections, and the loops can
    pass each other between them. *)
Theorem readers_copies t0 :
  (forall s t id, rtc rstep (readers_init T t0 n) s ->
     NoDup (copies t id (r_handled s)).*1 /\ (length (copies t id (r_handled s)) <= n)%nat) /\
  (forall id, exists s, rtc rstep (readers_init T t0 n) s /\ length (copies t0 id (r_handled s)) = n).
Proof.
  split.
  - intros s t id Hr. destruct (readers_reachable t0 s Hr) as [_ _ Hsp _ Hk].
    split; [by apply copies_loops|]. rewrite <- (length_fmap fst). replace n with (length (seq 0 n)) by apply length_seq.
    apply submseteq_length, NoDup_submseteq; [by apply copies_loops|]. intros k Hin.
    apply list_elem_of_fmap in Hin as ([k' e] & -> & Hin). apply list_elem_of_filter in Hin as [_ Hin].
    apply elem_of_seq. specialize (Hk k' e Hin). cbn [fst]. lia.
  - intros id. pose proof (all_pass t0 id) as Hr. eexists. split; [exact Hr|]. cbn [r_handled]. unfold copies.
    assert (Hall : forall l : list nat, length (filter (fun e => e.2.2 = id /\ t0 <= e.2.1 <= t0 + T) ((fun k => (k, (t0, id))) <$> l)) = length l).
    { induction l as [|k l IH]; [done|]. cbn [fmap list_fmap]. rewrite filter_cons_True by (cbn; split; [done|lia]). cbn [length]. by rewrite IH. }
    rewrite Hall, length_rev. apply length_seq.
Qed.
End Readers.

(** Two connections within the five minutes of the transport: both copies pass. *)
Lemma readers_copies_witness :
  exists s, rtc rstep (readers_init (300 * second) 0 2) s /\
    length (copies (300 * second) 0 "a" (r_handled s)) = 2%nat.
Proof.
  assert (HT : 0 < 300 * second < maxDuration) by (vm_compute; split; reflexivity).
  exact (proj2 (readers_copies (300 * second) HT 2 0) "a"%string).
Defined.
