(* ===== verification/PeerName.v ===== *)
(** * Peer names (src/go/node/peer.go: validatePeerName, safeKeyPrefix)

    The name check by length and regular expression, and the theorem that it is
    the rule its comment states.  A small executable semantics of Go regular
    expressions, as far as the pattern uses them. *)

From Stdlib Require Import Ascii String.
From S2P Require Import Prelude.

Open Scope list_scope.

(** ** Regular expressions

    Anchored patterns: [rmatch r s] says that the whole text [s] matches.
    [Rep r n] is [r{0,n}]. *)
Inductive regex : Type :=
| Class (p : ascii -> bool)
| Cat (r1 r2 : regex)
| Alt (r1 r2 : regex)
| Rep (r : regex) (n : nat).

(** Some way to cut [s] in two with [f] on the left and [g] on the right. *)
Definition cuts (f g : list ascii -> bool) (s : list ascii) : bool :=
  existsb (fun k => if f (take k s) then g (drop k s) else false) (seq 0 (S (length s))).

Fixpoint rmatch (r : regex) (s : list ascii) : bool :=
  match r with
  | Class p => match s with [c] => p c | _ => false end
  | Cat r1 r2 => cuts (rmatch r1) (rmatch r2) s
  | Alt r1 r2 => if rmatch r1 s then true else rmatch r2 s
  | Rep r n =>
      (fix rep n s :=
         match s with
         | [] => true
         | _ => match n with O => false | S n => cuts (rmatch r) (rep n) s end
         end) n s
  end.

(** ** The name check *)
Definition in_range (lo hi c : ascii) : bool :=
  (N_of_ascii lo <=? N_of_ascii c)%N && (N_of_ascii c <=? N_of_ascii hi)%N.
Definition alnum (c : ascii) : bool :=
  in_range "a" "z" c || in_range "A" "Z" c || in_range "0" "9" c.
Definition inner (c : ascii) : bool :=
  alnum c || bool_decide (c = "-"%char) || bool_decide (c = "_"%char) || bool_decide (c = " "%char).

(** The pattern [^[a-zA-Z0-9][a-zA-Z0-9\-_ ]{0,62}[a-zA-Z0-9]$|^[a-zA-Z0-9]$]. *)
Definition peerNameRegex : regex :=
  Alt (Cat (Class alnum) (Cat (Rep (Class inner) 62) (Class alnum))) (Class alnum).

Definition MatchString (r : regex) (s : string) : bool := rmatch r (list_ascii_of_string s).

Definition PeerNameMaxLength : Z := 64.

Definition validatePeerName (name : string) : Result unit :=
  if decide (name = ""%string) then Ok tt
  else if decide (slen name > PeerNameMaxLength) then
    Fail (E "validatePeerName" "peer name too long" None)
  else if negb (MatchString peerNameRegex name) then
    Fail (E "validatePeerName" "peer name contains invalid characters (use alphanumeric, hyphens, underscores, spaces)" None)
  else Ok tt.

(** The key as it is logged. *)
Definition safeKeyPrefix (key : string) : string :=
  if decide (slen key >= 16) then (substring 0 16 key ++ "...")%string
  else if decide (slen key = 0) then "(empty)"
  else key.

(** ** Lemmas *)
Lemma cuts_spec f g s :
  cuts f g s = true <-> exists a b, s = a ++ b /\ f a = true /\ g b = true.
Proof.
  unfold cuts. rewrite existsb_exists. split.
  - intros (k & Hk & Hm). exists (take k s), (drop k s). rewrite take_drop.
    by destruct (f (take k s)).
  - intros (a & b & -> & Ha & Hb). exists (length a). rewrite in_seq, length_app.
    split; [lia|]. by rewrite take_app_length, drop_app_length, Ha.
Qed.

Lemma rmatch_Class p s : rmatch (Class p) s = true <-> exists c, s = [c] /\ p c = true.
Proof. destruct s as [|c [|? ?]]; cbn; naive_solver. Qed.

Lemma rmatch_Rep p n s :
  rmatch (Rep (Class p) n) s = true <-> (length s <= n)%nat /\ Forall (fun c => p c = true) s.
Proof.
  cbn [rmatch]. revert s. induction n as [|n IH]; intros [|c s].
  - split; [by intros _; split; [cbn; lia|]|done].
  - split; [done|]. intros [Hl _]. cbn in Hl. lia.
  - split; [by intros _; split; [cbn; lia|]|done].
  - rewrite cuts_spec. split.
    + intros (a & b & Heq & (c' & -> & Hp)%rmatch_Class & [Hl Hb]%IH).
      cbn in Heq. injection Heq as -> ->. cbn [length]. split; [lia|by constructor].
    + intros [Hl Hp]. apply Forall_cons in Hp as [Hc Hs]. exists [c], s.
      split_and!; [done|done|]. apply IH. cbn in Hl. split; [lia|done].
Qed.

Lemma rmatch_Cat r1 r2 s :
  rmatch (Cat r1 r2) s = true <-> exists a b, s = a ++ b /\ rmatch r1 a = true /\ rmatch r2 b = true.
Proof. apply cuts_spec. Qed.

Lemma rmatch_Alt r1 r2 s : rmatch (Alt r1 r2) s = true <-> rmatch r1 s = true \/ rmatch r2 s = true.
Proof. cbn [rmatch]. destruct (rmatch r1 s); naive_solver. Qed.

(** The rule of the comment: at most 64 characters, the first and the last
    alphanumeric, all of them alphanumeric, hyphens, underscores or spaces. *)
Definition name_rule (name : string) : Prop :=
  let s := list_ascii_of_string name in
  s = [] \/
  ((length s <= 64)%nat /\ Forall (fun c => inner c = true) s /\
   (exists c, head s = Some c /\ alnum c = true) /\ (exists c, last s = Some c /\ alnum c = true)).

Lemma alnum_inner c : alnum c = true -> inner c = true.
Proof. intros H. unfold inner. by rewrite H. Qed.

Lemma match_name s :
  rmatch peerNameRegex s = true <->
  (length s <= 64)%nat /\ Forall (fun c => inner c = true) s /\
  (exists c, head s = Some c /\ alnum c = true) /\ (exists c, last s = Some c /\ alnum c = true).
Proof.
  unfold peerNameRegex. rewrite rmatch_Alt, rmatch_Cat, rmatch_Class. split.
  - intros [(a & b & -> & (c & -> & Hc)%rmatch_Class & Hb) | (c & -> & Hc)].
    + apply rmatch_Cat in Hb as (m & z & -> & [Hl Hm]%rmatch_Rep & (d & -> & Hd)%rmatch_Class).
      cbn [app length head]. rewrite length_app. cbn [length]. split_and!; [lia| |by exists c|].
      * constructor; [by apply alnum_inner|]. apply Forall_app. split; [done|].
        constructor; [by apply alnum_inner|done].
      * exists d. split; [|done]. change (c :: m ++ [d]) with ((c :: m) ++ [d]). apply last_snoc.
    + cbn. split_and!; [lia|constructor; [by apply alnum_inner|done]|by exists c|by exists c].
  - intros (Hl & Hall & (c & Hh & Hc) & (d & Hlast & Hd)).
    destruct s as [|c' s]; [done|]. cbn in Hh. injection Hh as ->.
    destruct (last s) as [d'|] eqn:Hls.
    + destruct (proj1 (last_Some s d') Hls) as [m ->]. left. exists [c], (m ++ [d']).
      split_and!; [done|by apply rmatch_Class; eauto|]. apply rmatch_Cat.
      exists m, [d']. split_and!; [done| |].
      * apply rmatch_Rep. cbn [length] in Hl. rewrite length_app in Hl. cbn in Hl. split; [lia|].
        apply Forall_cons in Hall as [_ Hall]. by apply Forall_app in Hall as [Hall _].
      * change (c :: m ++ [d']) with ((c :: m) ++ [d']) in Hlast. rewrite last_snoc in Hlast.
        injection Hlast as ->. done.
    + apply last_None in Hls as ->. right. eauto.
Qed.

(** [validatePeerName] accepts exactly the names of its
    documented rule: the length test and the regular expression together are
    the rule. *)
Theorem validatePeerName_rule name :
  (validatePeerName name = Ok tt <-> name_rule name) /\
  (validatePeerName name = Ok tt \/ exists e, validatePeerName name = Fail e).
Proof.
  assert (Hlen : List.length (list_ascii_of_string name) = String.length name).
  { induction name as [|a name IH]; [done|]. cbn. by rewrite IH. }
  unfold validatePeerName, name_rule, MatchString.
  case_decide as H0; [by subst; split; [split; [by left|done]|by left]|].
  assert (Hne : list_ascii_of_string name <> []) by (by destruct name).
  case_decide as H1.
  { split; [|eauto]. split; [done|]. intros [|(Hl & _)]; [done|].
    unfold slen, PeerNameMaxLength in H1. lia. }
  destruct (rmatch peerNameRegex _) eqn:Hm; cbn [negb].
  - split; [|by left]. split; [|done]. intros _. right. by apply match_name.
  - split; [|eauto]. split; [done|]. intros [|Hr]; [done|].
    apply match_name in Hr. congruence.
Qed.

Example valid_name : validatePeerName "node-1 eu_west" = Ok tt.
Proof. vm_compute. reflexivity. Qed.
Example trailing_space : is_Ok (validatePeerName "node ") = false.
Proof. vm_compute. reflexivity. Qed.
