(* ===== verification/Peer.v ===== *)
(** * The peer registry (src/go/node/peer.go)

    The registry's data and all its operations: the map of peer pointers, the
    authentication allowlist, the metric and score updates, the KD-tree
    selection, and the debounced persistence.  The KD-tree package, the JSON
    encoder and the file system are code outside the repository: they are
    interfaces here ([KDLib], [JSON], [FileSystem]); their laws are stated where
    they are used. *)

From Stdlib Require Import SpecFloat.
From S2P Require Import Prelude Float64 PeerName.

(** ** Data *)

(** [time.Time] as nanoseconds since Go's zero time. *)
Abbreviation Time := Z (only parsing).
Definition IsZero (t : Time) : bool := bool_decide (t = 0).

Record Peer : Type := mkPeer {
  ID : string;
  Name : string;
  PublicKey : string;
  Address : string;
  Role : string;
  AddedAt : Time;
  LastSeen : Time;
  Latitude : float64;
  Longitude : float64;
  PingMS : float64;
  Hops : Z;
  GeoKM : float64;
  Score : float64;
  Connected : bool
}.

(** Assignments to fields through a pointer. *)
Definition set_AddedAt v (p : Peer) := mkPeer (ID p) (Name p) (PublicKey p) (Address p) (Role p) v
  (LastSeen p) (Latitude p) (Longitude p) (PingMS p) (Hops p) (GeoKM p) (Score p) (Connected p).
Definition set_LastSeen v (p : Peer) := mkPeer (ID p) (Name p) (PublicKey p) (Address p) (Role p) (AddedAt p)
  v (Latitude p) (Longitude p) (PingMS p) (Hops p) (GeoKM p) (Score p) (Connected p).
Definition set_metrics ping geo hops (p : Peer) := mkPeer (ID p) (Name p) (PublicKey p) (Address p) (Role p)
  (AddedAt p) (LastSeen p) (Latitude p) (Longitude p) ping hops geo (Score p) (Connected p).
Definition set_Score v (p : Peer) := mkPeer (ID p) (Name p) (PublicKey p) (Address p) (Role p) (AddedAt p)
  (LastSeen p) (Latitude p) (Longitude p) (PingMS p) (Hops p) (GeoKM p) v (Connected p).
Definition set_Connected v (p : Peer) := mkPeer (ID p) (Name p) (PublicKey p) (Address p) (Role p) (AddedAt p)
  (LastSeen p) (Latitude p) (Longitude p) (PingMS p) (Hops p) (GeoKM p) (Score p) v.

#[export] Instance Peer_eq_dec : EqDecision Peer.
Proof. solve_decision. Defined.

(** [PeerAuthMode] is an int. *)
Abbreviation PeerAuthMode := Z (only parsing).
Definition PeerAuthOpen : PeerAuthMode := 0.
Definition PeerAuthAllowlist : PeerAuthMode := 1.

(** Weights 1.0, 0.7, 0.2 and 1.2 as the float64 constants they denote. *)
Definition pingWeight : float64 := float_of_int 1.
Definition hopsWeight : float64 := S754_finite false 6305039478318694 (-53).
Definition geoWeight : float64 := S754_finite false 7205759403792794 (-55).
Definition scoreWeight : float64 := S754_finite false 5404319552844595 (-52).

Definition ScoreSuccessIncrement : float64 := float_of_int 1.
Definition ScoreFailureDecrement : float64 := float_of_int 5.
Definition ScoreTimeoutDecrement : float64 := float_of_int 3.
Definition ScoreMinimum : float64 := float_of_int 0.
Definition ScoreMaximum : float64 := float_of_int 100.
Definition ScoreDefault : float64 := float_of_int 50.

(** A pointer to a [Peer]; [None] is nil. *)
Abbreviation loc := positive (only parsing).
Abbreviation ptr := (option positive) (only parsing).

(** ** Code outside the repository *)

(** github.com/Snider/Poindexter. *)
Record KDPoint : Type := mkPoint {
  kd_ID : string;
  kd_Coords : list float64;
  kd_Value : string
}.
Class KDLib : Type := {
  KDTree : Type;
  NewKDTree : list KDPoint -> error + KDTree;
  Nearest : KDTree -> list float64 -> option KDPoint;
  KNearest : KDTree -> list float64 -> Z -> list KDPoint
}.

(** [core.JSONMarshalIndent] and [core.JSONUnmarshal] at the two types the
    registry stores; an array element may be [null]. *)
Class JSON : Type := {
  marshalPeers : list Peer -> error + string;
  unmarshalPeers : string -> error + list (option Peer);
  marshalKeys : list string -> error + string;
  unmarshalKeys : string -> error + list string
}.

(** [coreio.Local]. *)
Class FileSystem (FS : Type) : Type := {
  EnsureDir : string -> FS -> option error * FS;
  Write : string -> string -> FS -> option error * FS;
  Rename : string -> string -> FS -> option error * FS;
  Delete : string -> FS -> option error * FS;
  Read : string -> FS -> (error + string) * FS;
  Exists : string -> FS -> bool;
  PathDir : string -> string
}.

(** What a call leaves to the environment: the clock, and the order in which
    each map is ranged over, any permutation of its entries. *)
Record Choice : Type := mkChoice {
  now : Time;
  order : forall V, gmap string V -> list (string * V);
  order_perm : forall V (m : gmap string V), order V m ≡ₚ map_to_list m
}.
Arguments order _ {_} _.
Arguments order_perm _ {_} _.

(** [slices.SortFunc(s, cmp)].  Go's sort is not stable; with the order of the
    input already arbitrary, a stable one covers every order of equal
    elements. *)
Definition cmp_le {A} (cmp : A -> A -> Z) (a b : A) : Prop := cmp a b <= 0.
#[export] Instance cmp_le_dec {A} (cmp : A -> A -> Z) : RelDecision (cmp_le cmp).
Proof. intros a b. unfold cmp_le. apply _. Defined.
Definition SortFunc {A} (cmp : A -> A -> Z) (l : list A) : list A := merge_sort (cmp_le cmp) l.

Section Registry.
Context `{KDLib} `{JSON} {FS : Type} `{FileSystem FS}.

(** [saveTimer] says whether a timer is armed, [stopped] whether [stopChan] is
    closed.  The mutexes order the calls; their critical sections are the
    definitions below. *)
Record PeerRegistry : Type := mkRegistry {
  peers : gmap string loc;
  kdTree : option KDTree;
  path : string;
  authMode : PeerAuthMode;
  allowedPublicKeys : gmap string bool;
  allowlistPath : string;
  dirty : bool;
  saveTimer : bool;
  stopped : bool
}.

(** The registry, the [Peer] objects the program's pointers refer to (the
    registry's and its callers'), and the file system. *)
Record World : Type := mkWorld {
  heap : gmap loc Peer;
  reg : PeerRegistry;
  fs : FS
}.

Definition set_peers v (r : PeerRegistry) := mkRegistry v (kdTree r) (path r) (authMode r)
  (allowedPublicKeys r) (allowlistPath r) (dirty r) (saveTimer r) (stopped r).
Definition set_kdTree v (r : PeerRegistry) := mkRegistry (peers r) v (path r) (authMode r)
  (allowedPublicKeys r) (allowlistPath r) (dirty r) (saveTimer r) (stopped r).
Definition set_authMode v (r : PeerRegistry) := mkRegistry (peers r) (kdTree r) (path r) v
  (allowedPublicKeys r) (allowlistPath r) (dirty r) (saveTimer r) (stopped r).
Definition set_allowed v (r : PeerRegistry) := mkRegistry (peers r) (kdTree r) (path r) (authMode r)
  v (allowlistPath r) (dirty r) (saveTimer r) (stopped r).
Definition set_save d t (r : PeerRegistry) := mkRegistry (peers r) (kdTree r) (path r) (authMode r)
  (allowedPublicKeys r) (allowlistPath r) d t (stopped r).
Definition set_stopped v (r : PeerRegistry) := mkRegistry (peers r) (kdTree r) (path r) (authMode r)
  (allowedPublicKeys r) (allowlistPath r) (dirty r) (saveTimer r) v.

Definition on_reg (f : PeerRegistry -> PeerRegistry) (w : World) : World := mkWorld (heap w) (f (reg w)) (fs w).
Definition on_heap (f : gmap loc Peer -> gmap loc Peer) (w : World) : World := mkWorld (f (heap w)) (reg w) (fs w).

(** Reading and assigning through a pointer. *)
Definition deref (p : ptr) : SR World Peer := fun w =>
  match p with
  | Some l => match heap w !! l with Some x => (Ok x, w) | None => (Panic NilDereference, w) end
  | None => (Panic NilDereference, w)
  end.
Definition assign (l : loc) (f : Peer -> Peer) : SR World unit := modify (on_heap (alter f l)).

(** A call on the file system. *)
Definition on_fs (f : FS -> option error * FS) : World -> option error * World := fun w =>
  let '(e, s) := f (fs w) in (e, mkWorld (heap w) (reg w) s).

(** ** KD-tree *)
Definition peer_point (p : Peer) : KDPoint :=
  mkPoint (ID p)
    [fmul (PingMS p) pingWeight; fmul (float_of_int (Hops p)) hopsWeight;
     fmul (GeoKM p) geoWeight; fmul (fsub (float_of_int 100) (Score p)) scoreWeight] (ID p).

(** The peers a [range] over the map visits, in its order. *)
Definition peers_in_order (ch : Choice) (w : World) : list Peer :=
  omap (fun e => heap w !! e.2) (order ch (peers (reg w))).

Definition rebuildKDTree (ch : Choice) : SR World unit := fun w =>
  if decide (size (peers (reg w)) = 0%nat) then (Ok tt, on_reg (set_kdTree None) w)
  else match NewKDTree (peer_point <$> peers_in_order ch w) with
       | inr tree => (Ok tt, on_reg (set_kdTree (Some tree)) w)
       | inl _ => (Ok tt, w)
       end.

(** ** Debounced persistence *)

(** [scheduleSave]: the flag, and a timer unless one is armed. *)
Definition scheduleSave : SR World unit :=
  modify (on_reg (fun r => set_save true (if saveTimer r then saveTimer r else true) r)).

Definition save : SR World unit := _ ← scheduleSave; mret tt.

Definition saveNow (ch : Choice) : SR World unit := fun w =>
  let dir := PathDir (path (reg w)) in
  match on_fs (EnsureDir dir) w with
  | (Some err, w) => (Fail (E "PeerRegistry.saveNow" "failed to create peers directory" (Some err)), w)
  | (None, w) =>
      match marshalPeers (peers_in_order ch w) with
      | inl err => (Fail (E "PeerRegistry.saveNow" "failed to marshal peers" (Some err)), w)
      | inr data =>
          let tmpPath := (path (reg w) ++ ".tmp")%string in
          match on_fs (Write tmpPath data) w with
          | (Some err, w) => (Fail (E "PeerRegistry.saveNow" "failed to write peers temp file" (Some err)), w)
          | (None, w) =>
              match on_fs (Rename tmpPath (path (reg w))) w with
              | (Some err, w) =>
                  (Fail (E "PeerRegistry.saveNow" "failed to rename peers file" (Some err)),
                   snd (on_fs (Delete tmpPath) w))
              | (None, w) => (Ok tt, w)
              end
          end
      end
  end.

(** The timer's function, in its two critical sections: it takes the flag
    under [saveMu], then saves under [mu]; a failure is only logged. *)
Definition timerTake : SR World bool := fun w =>
  (Ok (dirty (reg w)), on_reg (set_save false false) w).
Definition timerSave (ch : Choice) (shouldSave : bool) : SR World unit := fun w =>
  if shouldSave then (Ok tt, snd (saveNow ch w)) else (Ok tt, w).
Definition timerFire (ch : Choice) : SR World unit :=
  shouldSave ← timerTake; timerSave ch shouldSave.

Definition Close (ch : Choice) : SR World unit :=
  _ ← modify (on_reg (set_stopped true));
  shouldSave ← timerTake;
  if (shouldSave : bool) then saveNow ch else mret tt.

(** ** Authentication *)
Definition saveAllowedPublicKeys (ch : Choice) : SR World unit := fun w =>
  let keys := SortFunc (fun a b => if String.leb a b then -1 else 1)
                (fst <$> order ch (allowedPublicKeys (reg w))) in
  let dir := PathDir (allowlistPath (reg w)) in
  match on_fs (EnsureDir dir) w with
  | (Some err, w) =>
      (Fail (E "PeerRegistry.saveAllowedPublicKeys" "failed to create allowlist directory" (Some err)), w)
  | (None, w) =>
      match marshalKeys keys with
      | inl err =>
          (Fail (E "PeerRegistry.saveAllowedPublicKeys" "failed to marshal allowlist" (Some err)), w)
      | inr data =>
          let tmpPath := (allowlistPath (reg w) ++ ".tmp")%string in
          match on_fs (Write tmpPath data) w with
          | (Some err, w) =>
              (Fail (E "PeerRegistry.saveAllowedPublicKeys" "failed to write allowlist temp file" (Some err)), w)
          | (None, w) =>
              match on_fs (Rename tmpPath (allowlistPath (reg w))) w with
              | (Some err, w) =>
                  (Fail (E "PeerRegistry.saveAllowedPublicKeys" "failed to rename allowlist file" (Some err)),
                   snd (on_fs (Delete tmpPath) w))
              | (None, w) => (Ok tt, w)
              end
          end
      end
  end.

Definition loadAllowedPublicKeys : SR World unit := fun w =>
  if negb (Exists (allowlistPath (reg w)) (fs w)) then (Ok tt, w)
  else
    let '(c, s) := Read (allowlistPath (reg w)) (fs w) in
    let w := mkWorld (heap w) (reg w) s in
    match c with
    | inl err =>
        (Fail (E "PeerRegistry.loadAllowedPublicKeys" "failed to read allowlist" (Some err)), w)
    | inr content =>
        match unmarshalKeys content with
        | inl err =>
            (Fail (E "PeerRegistry.loadAllowedPublicKeys" "failed to unmarshal allowlist" (Some err)), w)
        | inr keys =>
            (Ok tt, on_reg (set_allowed
               (fold_left (fun m key => if decide (key = ""%string) then m else <[key := true]> m) keys ∅)) w)
        end
    end.

Definition SetAuthMode (mode : PeerAuthMode) : SR World unit := modify (on_reg (set_authMode mode)).
Definition GetAuthMode (w : World) : PeerAuthMode := authMode (reg w).

(** A failure to persist is logged, not returned. *)
Definition AllowPublicKey (ch : Choice) (publicKey : string) : SR World unit := fun w =>
  let w := on_reg (fun r => set_allowed (<[publicKey := true]> (allowedPublicKeys r)) r) w in
  (Ok tt, snd (saveAllowedPublicKeys ch w)).
Definition RevokePublicKey (ch : Choice) (publicKey : string) : SR World unit := fun w =>
  let w := on_reg (fun r => set_allowed (delete publicKey (allowedPublicKeys r)) r) w in
  (Ok tt, snd (saveAllowedPublicKeys ch w)).

Definition IsPublicKeyAllowed (publicKey : string) (w : World) : bool :=
  default false (allowedPublicKeys (reg w) !! publicKey).

Definition IsPeerAllowed (peerID publicKey : string) (w : World) : bool :=
  let keyAllowed := default false (allowedPublicKeys (reg w) !! publicKey) in
  if decide (authMode (reg w) = PeerAuthOpen) then true
  else if decide (is_Some (peers (reg w) !! peerID)) then true
  else keyAllowed.

Definition ListAllowedPublicKeys (ch : Choice) (w : World) : list string :=
  fst <$> order ch (allowedPublicKeys (reg w)).

(** ** Peers *)
Definition not_found (op id : string) : error := E op ("peer " ++ id ++ " not found") None.

Definition AddPeer (ch : Choice) (p : ptr) : SR World unit :=
  peer ← deref p;
  if decide (ID peer = ""%string) then fail (E "PeerRegistry.AddPeer" "peer ID is required" None)
  else
    _ ← lift (validatePeerName (Name peer));
    r ← gets reg;
    if decide (is_Some (peers r !! ID peer)) then
      fail (E "PeerRegistry.AddPeer" ("peer " ++ ID peer ++ " already exists") None)
    else
      match p with
      | None => lift (Panic NilDereference)
      | Some l =>
          _ ← (if IsZero (AddedAt peer) then assign l (set_AddedAt (now ch)) else mret tt);
          _ ← (if feq (Score peer) (float_of_int 0) then assign l (set_Score (float_of_int 50)) else mret tt);
          _ ← modify (on_reg (fun r => set_peers (<[ID peer := l]> (peers r)) r));
          _ ← rebuildKDTree ch;
          save
      end.

Definition UpdatePeer (ch : Choice) (p : ptr) : SR World unit :=
  peer ← deref p;
  r ← gets reg;
  if decide (is_Some (peers r !! ID peer)) then
    match p with
    | None => lift (Panic NilDereference)
    | Some l =>
        _ ← modify (on_reg (fun r => set_peers (<[ID peer := l]> (peers r)) r));
        _ ← rebuildKDTree ch;
        save
    end
  else fail (not_found "PeerRegistry.UpdatePeer" (ID peer)).

Definition RemovePeer (ch : Choice) (id : string) : SR World unit :=
  r ← gets reg;
  if decide (is_Some (peers r !! id)) then
    _ ← modify (on_reg (fun r => set_peers (delete id (peers r)) r));
    _ ← rebuildKDTree ch;
    save
  else fail (not_found "PeerRegistry.RemovePeer" id).

(** [GetPeer] returns a pointer to a fresh copy, nil when there is none; the
    copy is its value. *)
Definition GetPeer (id : string) (w : World) : option Peer :=
  l ← peers (reg w) !! id; heap w !! l.

(** [Peers], [ListPeers] and [ConnectedPeers], [GetConnectedPeers]: the copies
    in the order of the range. *)
Definition ListPeers (ch : Choice) (w : World) : list Peer := peers_in_order ch w.
Definition GetConnectedPeers (ch : Choice) (w : World) : list Peer :=
  filter (fun p => Connected p = true) (peers_in_order ch w).
Definition Count (w : World) : Z := Z.of_nat (size (peers (reg w))).

Definition UpdateMetrics (ch : Choice) (id : string) (pingMS geoKM : float64) (hops : Z) : SR World unit :=
  r ← gets reg;
  match peers r !! id with
  | None => fail (not_found "PeerRegistry.UpdateMetrics" id)
  | Some l =>
      _ ← assign l (set_metrics pingMS geoKM hops);
      _ ← assign l (set_LastSeen (now ch));
      _ ← rebuildKDTree ch;
      save
  end.

Definition UpdateScore (ch : Choice) (id : string) (score : float64) : SR World unit :=
  r ← gets reg;
  match peers r !! id with
  | None => fail (not_found "PeerRegistry.UpdateScore" id)
  | Some l =>
      let score := go_max (float_of_int 0) (go_min score (float_of_int 100)) in
      _ ← assign l (set_Score score);
      _ ← rebuildKDTree ch;
      save
  end.

Definition SetConnected (ch : Choice) (id : string) (connected : bool) : SR World unit :=
  r ← gets reg;
  match peers r !! id with
  | None => mret tt
  | Some l =>
      _ ← assign l (set_Connected connected);
      _ ← (if connected then assign l (set_LastSeen (now ch)) else mret tt);
      if connected then save else mret tt
  end.

Definition MarkSeen (ch : Choice) (id : string) : SR World unit :=
  r ← gets reg;
  match peers r !! id with
  | None => mret tt
  | Some l => _ ← assign l (set_LastSeen (now ch)); save
  end.

Definition RecordSuccess (ch : Choice) (id : string) : SR World unit :=
  r ← gets reg;
  match peers r !! id with
  | None => mret tt
  | Some l =>
      _ ← assign l (fun p => set_Score (go_min (fadd (Score p) ScoreSuccessIncrement) ScoreMaximum) p);
      _ ← assign l (set_LastSeen (now ch));
      _ ← rebuildKDTree ch;
      save
  end.

Definition RecordFailure (ch : Choice) (id : string) : SR World unit :=
  r ← gets reg;
  match peers r !! id with
  | None => mret tt
  | Some l =>
      _ ← assign l (fun p => set_Score (go_max (fsub (Score p) ScoreFailureDecrement) ScoreMinimum) p);
      _ ← assign l (set_LastSeen (now ch));
      _ ← rebuildKDTree ch;
      save
  end.

Definition RecordTimeout (ch : Choice) (id : string) : SR World unit :=
  r ← gets reg;
  match peers r !! id with
  | None => mret tt
  | Some l =>
      _ ← assign l (fun p => set_Score (go_max (fsub (Score p) ScoreTimeoutDecrement) ScoreMinimum) p);
      _ ← assign l (set_LastSeen (now ch));
      _ ← rebuildKDTree ch;
      save
  end.

(** ** Selection *)
Definition cmp_score_desc (a b : Peer) : Z :=
  if fgt (Score b) (Score a) then 1 else if flt (Score b) (Score a) then -1 else 0.

Definition GetPeersByScore (ch : Choice) (w : World) : list Peer :=
  SortFunc cmp_score_desc (peers_in_order ch w).

(** The iterator forms.  All but [PeersByScore], which loops over the sorted copy,
    yield while they hold a read lock of the registry. *)
Definition Peers {S} (ch : Choice) (w : World) (yield : Peer -> SR S bool) : SR S unit := each (ListPeers ch w) yield.
Definition ConnectedPeers {S} (ch : Choice) (w : World) (yield : Peer -> SR S bool) : SR S unit :=
  each (GetConnectedPeers ch w) yield.
Definition PeersByScore {S} (ch : Choice) (w : World) (yield : Peer -> SR S bool) : SR S unit :=
  each (GetPeersByScore ch w) yield.
Definition AllowedPublicKeys {S} (ch : Choice) (w : World) (yield : string -> SR S bool) : SR S unit :=
  each (ListAllowedPublicKeys ch w) yield.

Definition SelectOptimalPeer (w : World) : option Peer :=
  match kdTree (reg w) with
  | None => None
  | Some tree =>
      if decide (size (peers (reg w)) = 0%nat) then None
      else
        let target := replicate 4 (float_of_int 0) in
        match Nearest tree target with
        | None => None
        | Some result => GetPeer (kd_Value result) w
        end
  end.

Definition SelectNearestPeers (n : Z) (w : World) : list Peer :=
  match kdTree (reg w) with
  | None => []
  | Some tree =>
      if decide (size (peers (reg w)) = 0%nat) then []
      else
        let target := replicate 4 (float_of_int 0) in
        omap (fun result => GetPeer (kd_Value result) w) (KNearest tree target n)
  end.

(** The distance [FindNearby] sorts by. *)
Definition nearby_score (latitude longitude : float64) (hopCount : Z) (peer : Peer) : float64 :=
  let deltaLat := fsub (Latitude peer) latitude in
  let deltaLon := fsub (Longitude peer) longitude in
  let coordDistance :=
    if feq (Latitude peer) (float_of_int 0) && feq (Longitude peer) (float_of_int 0)
    then fmul (GeoKM peer) (GeoKM peer)
    else fadd (fmul deltaLat deltaLat) (fmul deltaLon deltaLon) in
  let hopDelta := float_of_int (i64 (Hops peer - hopCount)) in
  fadd coordDistance (fmul hopDelta hopDelta).

Definition cmp_scored (a b : Peer * float64) : Z :=
  if flt a.2 b.2 then -1 else if fgt a.2 b.2 then 1 else 0.

Definition FindNearby (ch : Choice) (latitude longitude : float64) (hopCount maxResults : Z) (w : World) : Result (list Peer) :=
  if decide (maxResults <= 0 \/ size (peers (reg w)) = 0%nat) then Ok []
  else
    let scored := (fun p => (p, nearby_score latitude longitude hopCount p)) <$> peers_in_order ch w in
    let scored := SortFunc cmp_scored scored in
    let limit := Z.min maxResults (len scored) in
    Ok (fst <$> take (Z.to_nat limit) scored).

(** ** Start-up *)

(** Pointers to the decoded array elements: one new object each. *)
Fixpoint alloc_peers (ps : list (option Peer)) (h : gmap loc Peer) : list ptr * gmap loc Peer :=
  match ps with
  | [] => ([], h)
  | None :: ps => let '(ls, h) := alloc_peers ps h in (None :: ls, h)
  | Some p :: ps =>
      let l := fresh (dom h) in
      let '(ls, h) := alloc_peers ps (<[l := p]> h) in (Some l :: ls, h)
  end.

(** [for _, peer := range peers { r.peers[peer.ID] = peer }]. *)
Fixpoint register_loaded (ls : list ptr) : SR World unit :=
  match ls with
  | [] => mret tt
  | p :: ls =>
      peer ← deref p;
      match p with
      | None => lift (Panic NilDereference)
      | Some l =>
          _ ← modify (on_reg (fun r => set_peers (<[ID peer := l]> (peers r)) r));
          register_loaded ls
      end
  end.

Definition load : SR World unit := fun w =>
  let '(c, s) := Read (path (reg w)) (fs w) in
  let w := mkWorld (heap w) (reg w) s in
  match c with
  | inl err => (Fail (E "PeerRegistry.load" "failed to read peers" (Some err)), w)
  | inr content =>
      match unmarshalPeers content with
      | inl err => (Fail (E "PeerRegistry.load" "failed to unmarshal peers" (Some err)), w)
      | inr ps =>
          let '(ls, h) := alloc_peers ps (heap w) in
          register_loaded ls (mkWorld h (set_peers ∅ (reg w)) (fs w))
      end
  end.

Definition empty_registry (peersPath : string) : PeerRegistry :=
  mkRegistry ∅ None peersPath PeerAuthOpen ∅ (peersPath ++ ".allowlist.json") false false false.

(** A result whose failure the caller ignores; a panic still unwinds. *)
Definition best_effort (m : SR World unit) : SR World unit := fun w =>
  match m w with
  | (Fail _, w') => (Ok tt, w')
  | rw => rw
  end.

(** [NewPeerRegistryWithPath] in a process with heap [h] on file system [s]. *)
Definition NewPeerRegistryWithPath (ch : Choice) (peersPath : string) (h : gmap loc Peer) (s : FS) : Result unit * World :=
  (_ ← (fun w => match load w with
                 | (Fail _, w') => rebuildKDTree ch w'
                 | rw => rw
                 end);
   _ ← best_effort loadAllowedPublicKeys;
   rebuildKDTree ch) (mkWorld h (empty_registry peersPath) s).

(** [NewPeerRegistry]: the given path, or the one of the XDG configuration
    directory, which [xdg_ConfigFile] looks up. *)
Definition NewPeerRegistry (ch : Choice) (xdg_ConfigFile : string -> error + string) (paths : list string)
    (h : gmap loc Peer) (s : FS) : Result unit * World :=
  match paths with
  | p :: _ => if decide (p <> ""%string) then NewPeerRegistryWithPath ch p h s else
      match xdg_ConfigFile "lethean-desktop/peers.json" with
      | inl err => (Fail (E "PeerRegistry.New" "failed to get peers path" (Some err)), mkWorld h (empty_registry "") s)
      | inr peersPath => NewPeerRegistryWithPath ch peersPath h s
      end
  | [] =>
      match xdg_ConfigFile "lethean-desktop/peers.json" with
      | inl err => (Fail (E "PeerRegistry.New" "failed to get peers path" (Some err)), mkWorld h (empty_registry "") s)
      | inr peersPath => NewPeerRegistryWithPath ch peersPath h s
      end
  end.

End Registry.
Arguments PeerRegistry {_}.
Arguments World {_} _.
