(* ===== verification/PeerProofs.v ===== *)
(** * The peer registry refines a map of peers (src/go/node/peer.go)

    The abstract specification of the registry, the invariant that connects
    the map of pointers and the KD-tree to it, and the theorems that every
    operation implements its specification and keeps the invariant. *)

From Stdlib Require Import SpecFloat.
From S2P Require Import Prelude Float64 PeerName Peer.

(** ** Operations as data

    A call through the registry's interface.  Peers are passed by pointer. *)
Inductive reg_op : Type :=
| OpAdd (ch : Choice) (l : positive)
| OpUpdate (ch : Choice) (l : positive)
| OpRemove (ch : Choice) (id : string)
| OpMetrics (ch : Choice) (id : string) (ping geo : float64) (hops : Z)
| OpScore (ch : Choice) (id : string) (score : float64)
| OpConnected (ch : Choice) (id : string) (c : bool)
| OpSeen (ch : Choice) (id : string)
| OpSuccess (ch : Choice) (id : string)
| OpFailure (ch : Choice) (id : string)
| OpTimeout (ch : Choice) (id : string)
| OpAuthMode (mode : Z)
| OpAllow (ch : Choice) (key : string)
| OpRevoke (ch : Choice) (key : string)
| OpTimer (ch : Choice)
| OpClose (ch : Choice).

(** ** The specification: a map from IDs to peers, the allowed keys, the mode *)
Record Spec : Type := mkSpec {
  s_peers : gmap string Peer;
  s_allowed : gmap string bool;
  s_mode : Z
}.

Definition with_peers (f : gmap string Peer -> gmap string Peer) (s : Spec) : Spec :=
  mkSpec (f (s_peers s)) (s_allowed s) (s_mode s).
Definition with_allowed (f : gmap string bool -> gmap string bool) (s : Spec) : Spec :=
  mkSpec (s_peers s) (f (s_allowed s)) (s_mode s).

(** The record stored for an added peer. *)
Definition with_defaults (t : Z) (p : Peer) : Peer :=
  let p := if IsZero (AddedAt p) then set_AddedAt t p else p in
  if feq (Score p) (float_of_int 0) then set_Score (float_of_int 50) p else p.

Definition clamp (score : float64) : float64 := go_max (float_of_int 0) (go_min score (float_of_int 100)).

(** Change a known peer or report it missing. *)
Definition spec_change (id : string) (f : Peer -> Peer) (missing : Result unit) (s : Spec) : Result unit * Spec :=
  match s_peers s !! id with
  | Some _ => (Ok tt, with_peers (alter f id) s)
  | None => (missing, s)
  end.

(** [obj] is the object the call's pointer refers to. *)
Definition spec_op (obj : positive -> option Peer) (op : reg_op) (s : Spec) : Result unit * Spec :=
  match op with
  | OpAdd ch l =>
      match obj l with
      | None => (Panic NilDereference, s)
      | Some p =>
          if decide (ID p = ""%string) then (Fail (E "PeerRegistry.AddPeer" "peer ID is required" None), s)
          else match validatePeerName (Name p) with
               | Ok _ =>
                   if decide (is_Some (s_peers s !! ID p)) then
                     (Fail (E "PeerRegistry.AddPeer" ("peer " ++ ID p ++ " already exists") None), s)
                   else (Ok tt, with_peers <[ID p := with_defaults (now ch) p]> s)
               | e => (e, s)
               end
      end
  | OpUpdate ch l =>
      match obj l with
      | None => (Panic NilDereference, s)
      | Some p =>
          if decide (is_Some (s_peers s !! ID p)) then (Ok tt, with_peers <[ID p := p]> s)
          else (Fail (not_found "PeerRegistry.UpdatePeer" (ID p)), s)
      end
  | OpRemove ch id =>
      match s_peers s !! id with
      | Some _ => (Ok tt, with_peers (delete id) s)
      | None => (Fail (not_found "PeerRegistry.RemovePeer" id), s)
      end
  | OpMetrics ch id ping geo hops =>
      spec_change id (fun p => set_LastSeen (now ch) (set_metrics ping geo hops p))
        (Fail (not_found "PeerRegistry.UpdateMetrics" id)) s
  | OpScore ch id score =>
      spec_change id (set_Score (clamp score)) (Fail (not_found "PeerRegistry.UpdateScore" id)) s
  | OpConnected ch id c =>
      spec_change id (fun p => if c then set_LastSeen (now ch) (set_Connected c p) else set_Connected c p) (Ok tt) s
  | OpSeen ch id => spec_change id (set_LastSeen (now ch)) (Ok tt) s
  | OpSuccess ch id =>
      spec_change id (fun p => set_LastSeen (now ch)
        (set_Score (go_min (fadd (Score p) ScoreSuccessIncrement) ScoreMaximum) p)) (Ok tt) s
  | OpFailure ch id =>
      spec_change id (fun p => set_LastSeen (now ch)
        (set_Score (go_max (fsub (Score p) ScoreFailureDecrement) ScoreMinimum) p)) (Ok tt) s
  | OpTimeout ch id =>
      spec_change id (fun p => set_LastSeen (now ch)
        (set_Score (go_max (fsub (Score p) ScoreTimeoutDecrement) ScoreMinimum) p)) (Ok tt) s
  | OpAuthMode mode => (Ok tt, mkSpec (s_peers s) (s_allowed s) mode)
  | OpAllow ch key => (Ok tt, with_allowed <[key := true]> s)
  | OpRevoke ch key => (Ok tt, with_allowed (delete key) s)
  | OpTimer ch | OpClose ch => (Ok tt, s)
  end.

(** Run a step that only reads or updates the world. *)
Ltac reg_step := erewrite SR_bind_Ok; [|reflexivity]; cbv beta.

Section Proofs.
Context `{KDLib} `{JSON} {FS : Type} `{FileSystem FS}.
Implicit Types (w : World FS) (ch : Choice).

Definition run_op (op : reg_op) : SR (World FS) unit :=
  match op with
  | OpAdd ch l => AddPeer ch (Some l)
  | OpUpdate ch l => UpdatePeer ch (Some l)
  | OpRemove ch id => RemovePeer ch id
  | OpMetrics ch id ping geo hops => UpdateMetrics ch id ping geo hops
  | OpScore ch id score => UpdateScore ch id score
  | OpConnected ch id c => SetConnected ch id c
  | OpSeen ch id => MarkSeen ch id
  | OpSuccess ch id => RecordSuccess ch id
  | OpFailure ch id => RecordFailure ch id
  | OpTimeout ch id => RecordTimeout ch id
  | OpAuthMode mode => SetAuthMode mode
  | OpAllow ch key => AllowPublicKey ch key
  | OpRevoke ch key => RevokePublicKey ch key
  | OpTimer ch => timerFire ch
  | OpClose ch => Close ch
  end.

(** ** Abstraction *)
Definition abs_peers w : gmap string Peer := omap (fun l => heap w !! l) (peers (reg w)).
Definition abs w : Spec := mkSpec (abs_peers w) (allowedPublicKeys (reg w)) (authMode (reg w)).

(** The map is keyed by the ID of the object each pointer refers to. *)
Definition keyed w : Prop :=
  forall id l, peers (reg w) !! id = Some l -> exists p, heap w !! l = Some p /\ ID p = id.

Lemma abs_lookup w id : abs_peers w !! id = GetPeer id w.
Proof. unfold abs_peers, GetPeer. rewrite lookup_omap. by destruct (peers (reg w) !! id). Qed.

Lemma abs_is_Some w id : keyed w -> is_Some (abs_peers w !! id) <-> is_Some (peers (reg w) !! id).
Proof.
  intros Hk. rewrite abs_lookup. unfold GetPeer. destruct (peers (reg w) !! id) as [l|] eqn:Hl; [|by cbn; split; intros [? ?]].
  destruct (Hk _ _ Hl) as (p & Hp & _). cbn. rewrite Hp. split; eauto.
Qed.

(** Assigning through a registered pointer changes that peer only. *)
Lemma abs_alter w f id l :
  keyed w -> peers (reg w) !! id = Some l ->
  abs_peers (on_heap (alter f l) w) = alter f id (abs_peers w).
Proof.
  intros Hk Hl. destruct (Hk _ _ Hl) as (p & Hp & Hid). apply map_eq. intros j.
  unfold abs_peers. cbn [heap on_heap reg]. rewrite lookup_omap.
  destruct (decide (j = id)) as [->|Hne].
  - rewrite lookup_alter_eq, lookup_omap, Hl. cbn. rewrite lookup_alter_eq, Hp. done.
  - rewrite lookup_alter_ne, lookup_omap by done. destruct (peers (reg w) !! j) as [l'|] eqn:Hj; [|done].
    cbn. rewrite lookup_alter_ne; [done|]. intros ->. destruct (Hk _ _ Hj) as (p' & Hp' & Hid'). congruence.
Qed.

Lemma keyed_alter w f l :
  (forall p, ID (f p) = ID p) -> keyed w -> keyed (on_heap (alter f l) w).
Proof.
  intros Hf Hk id l' Hl'. cbn [heap on_heap reg] in *. destruct (Hk _ _ Hl') as (p & Hp & Hid).
  destruct (decide (l = l')) as [->|].
  - exists (f p). rewrite lookup_alter_eq, Hp, Hf. done.
  - exists p. by rewrite lookup_alter_ne.
Qed.

(** Rebuilding the tree and scheduling a save touch neither map nor objects. *)
Definition rebuilt ch w : option KDTree :=
  if decide (size (peers (reg w)) = 0%nat) then None
  else match NewKDTree (peer_point <$> peers_in_order ch w) with
       | inr t => Some t
       | inl _ => kdTree (reg w)
       end.

Lemma rebuild_eq ch w : rebuildKDTree ch w = (Ok tt, on_reg (set_kdTree (rebuilt ch w)) w).
Proof.
  unfold rebuildKDTree, rebuilt. case_decide; [done|]. case_match; [|done].
  by destruct w as [h [] s].
Qed.

Lemma save_eq w : save w = (Ok tt, on_reg (set_save true true) w).
Proof.
  unfold save, scheduleSave, mbind, SR_bind, modify. unfold on_reg. by destruct (saveTimer (reg w)).
Qed.

(** The common ending [r.rebuildKDTree(); return r.save()]. *)
Definition finish ch w : World FS := on_reg (set_save true true) (on_reg (set_kdTree (rebuilt ch w)) w).

Lemma finish_eq ch w : (_ ← rebuildKDTree ch; save) w = (Ok tt, finish ch w).
Proof. rewrite (SR_bind_Ok _ _ _ _ _ (rebuild_eq ch w)). apply save_eq. Qed.

Lemma abs_finish ch w : abs (finish ch w) = abs w.
Proof. done. Qed.

Lemma keyed_finish ch w : keyed (finish ch w) <-> keyed w.
Proof. done. Qed.

Lemma abs_alter2 w f g id l :
  (forall p, ID (f p) = ID p) -> keyed w -> peers (reg w) !! id = Some l ->
  abs_peers (on_heap (alter g l) (on_heap (alter f l) w)) = alter (fun p => g (f p)) id (abs_peers w).
Proof.
  intros Hf Hk Hl. rewrite abs_alter with (id := id); [|by apply keyed_alter|done].
  rewrite abs_alter with (id := id) by done. apply alter_alter_eq.
Qed.

(** The specification of a change, on the concrete map. *)
Lemma spec_change_abs w id f missing :
  keyed w ->
  spec_change id f missing (abs w) =
    match peers (reg w) !! id with
    | Some _ => (Ok tt, with_peers (alter f id) (abs w))
    | None => (missing, abs w)
    end.
Proof.
  intros Hk. unfold spec_change. cbn [abs s_peers]. pose proof (abs_is_Some w id Hk) as Hi.
  destruct (peers (reg w) !! id), (abs_peers w !! id); try done; exfalso.
  - destruct (proj2 Hi); [eauto|done].
  - destruct (proj1 Hi); [eauto|done].
Qed.

(** One or two assignments, the tree, the save. *)
Lemma change1 ch id l f w :
  keyed w -> peers (reg w) !! id = Some l ->
  exists w', (_ ← assign l f; _ ← rebuildKDTree ch; save) w = (Ok tt, w') /\
    abs w' = with_peers (alter f id) (abs w).
Proof.
  intros Hk Hl. reg_step. rewrite finish_eq. eexists. split; [done|]. rewrite abs_finish.
  unfold abs, with_peers. cbn [s_peers]. by rewrite (abs_alter w f id l).
Qed.

Lemma change2 ch id l f g w :
  (forall p, ID (f p) = ID p) -> keyed w -> peers (reg w) !! id = Some l ->
  exists w', (_ ← assign l f; _ ← assign l g; _ ← rebuildKDTree ch; save) w = (Ok tt, w') /\
    abs w' = with_peers (alter (fun p => g (f p)) id) (abs w).
Proof.
  intros Hf Hk Hl. reg_step. reg_step. rewrite finish_eq. eexists. split; [done|]. rewrite abs_finish.
  unfold abs, with_peers. cbn [s_peers]. by rewrite (abs_alter2 w f g id l).
Qed.

(** Every operation that changes one known peer. *)
Definition change_op (op : reg_op) : bool :=
  match op with
  | OpMetrics _ _ _ _ _ | OpScore _ _ _ | OpConnected _ _ _ | OpSeen _ _
  | OpSuccess _ _ | OpFailure _ _ | OpTimeout _ _ => true
  | _ => false
  end.

Ltac use_change2 :=
  match goal with
  | Hl : peers (reg ?w) !! ?id = Some ?l |- context [assign ?l ?f ≫= (fun _ => assign ?l ?g ≫= (fun _ => rebuildKDTree ?ch ≫= _))] =>
      let w' := fresh "w'" in let Hr := fresh "Hr" in let Ha := fresh "Ha" in
      destruct (change2 ch id l f g w) as (w' & Hr & Ha); [done..|]; exists (Ok tt), w'; by rewrite Ha
  end.

Lemma refine_change op w :
  change_op op = true -> keyed w ->
  exists r w', run_op op w = (r, w') /\ spec_op (fun l => heap w !! l) op (abs w) = (r, abs w').
Proof.
  intros Hop Hk. destruct op; try discriminate Hop; cbn [run_op spec_op]; rewrite spec_change_abs by done;
    unfold UpdateMetrics, UpdateScore, SetConnected, MarkSeen, RecordSuccess, RecordFailure, RecordTimeout;
    reg_step; destruct (peers (reg w) !! id) as [l|] eqn:Hl; try by eexists _, w.
  - use_change2.
  - edestruct (change1 ch id l) as (w' & Hr & Ha); [done..|exists (Ok tt), w'; by rewrite Ha].
  - destruct c; do 2 reg_step; [rewrite save_eq|]; eexists _, _; (split; [done|]); f_equal;
      unfold abs, with_peers; cbn [s_peers]; f_equal; symmetry.
    + by apply (abs_alter2 w (set_Connected true) (set_LastSeen (now ch)) id l).
    + by apply abs_alter.
  - reg_step. rewrite save_eq. eexists _, _. split; [done|]. f_equal.
    unfold abs, with_peers. cbn [s_peers]. f_equal. symmetry. exact (abs_alter w _ id l Hk Hl).
  - use_change2.
  - use_change2.
  - use_change2.
Qed.

(** Saving touches the file system only. *)
Definition only_fs w w' : Prop := heap w' = heap w /\ reg w' = reg w.

Lemma on_fs_only f w : only_fs w (snd (on_fs f w)).
Proof. unfold on_fs. by destruct (f (fs w)). Qed.

Lemma only_fs_trans w w' w'' : only_fs w w' -> only_fs w' w'' -> only_fs w w''.
Proof. unfold only_fs. intuition congruence. Qed.

Ltac fs_calls :=
  repeat match goal with
  | |- context [on_fs ?f ?w] =>
      let Ho := fresh "Ho" in
      pose proof (on_fs_only f w) as Ho; destruct (on_fs f w) as [[?|] ?]; cbn [snd] in Ho
  | |- context [marshalPeers ?l] => destruct (marshalPeers l)
  | |- context [marshalKeys ?l] => destruct (marshalKeys l)
  end.

Lemma saveNow_only ch w :
  only_fs w (snd (saveNow ch w)) /\
  (fst (saveNow ch w) = Ok tt \/ exists e, fst (saveNow ch w) = Fail e).
Proof.
  unfold saveNow. fs_calls; cbn [fst snd]; split; eauto; repeat (eapply only_fs_trans; [eassumption|]); done.
Qed.

Lemma saveKeys_only ch w : only_fs w (snd (saveAllowedPublicKeys ch w)).
Proof.
  unfold saveAllowedPublicKeys. fs_calls; cbn [fst snd];
    repeat (eapply only_fs_trans; [eassumption|]); done.
Qed.

Lemma only_fs_abs w w' : only_fs w w' -> abs w' = abs w.
Proof. intros [Hh Hr]. unfold abs, abs_peers. by rewrite Hh, Hr. Qed.

Lemma only_fs_keyed w w' : only_fs w w' -> keyed w -> keyed w'.
Proof. intros [Hh Hr] Hk id l. rewrite Hh, Hr. apply Hk. Qed.

Lemma refine_remove ch id w :
  keyed w ->
  exists r w', RemovePeer ch id w = (r, w') /\
    spec_op (fun l => heap w !! l) (OpRemove ch id) (abs w) = (r, abs w').
Proof.
  intros Hk. cbn [spec_op abs s_peers]. unfold RemovePeer. reg_step.
  pose proof (abs_is_Some w id Hk) as Hi. case_decide as Hd.
  - reg_step. rewrite finish_eq. apply Hi in Hd as [p ->]. eexists _, _. split; [done|].
    rewrite abs_finish. unfold abs, with_peers. cbn [s_peers]. do 2 f_equal.
    unfold abs_peers. cbn [heap reg on_reg peers set_peers]. apply map_eq. intros j. rewrite lookup_omap.
    destruct (decide (id = j)) as [->|]; [by rewrite !lookup_delete_eq|].
    by rewrite !lookup_delete_ne, lookup_omap.
  - destruct (abs_peers w !! id); [destruct Hd; apply Hi; eauto|]. by eexists _, w.
Qed.

(** Storing a pointer under its object's ID. *)
Lemma abs_store w id l p :
  heap w !! l = Some p ->
  abs_peers (on_reg (fun r => set_peers (<[id := l]> (peers r)) r) w) = <[id := p]> (abs_peers w).
Proof.
  intros Hp. unfold abs_peers. cbn [heap reg on_reg peers set_peers]. apply map_eq. intros j.
  rewrite lookup_omap. destruct (decide (id = j)) as [->|].
  - rewrite !lookup_insert_eq. cbn. done.
  - by rewrite !lookup_insert_ne, lookup_omap.
Qed.

(** The defaults of [AddPeer], assigned to an object no entry refers to. *)
Lemma abs_alter_fresh w f l :
  (forall id, peers (reg w) !! id <> Some l) -> abs_peers (on_heap (alter f l) w) = abs_peers w.
Proof.
  intros Hl. apply map_eq. intros j. unfold abs_peers. cbn [heap reg on_heap]. rewrite !lookup_omap.
  destruct (peers (reg w) !! j) as [l'|] eqn:Hj; [|done]. cbn.
  apply lookup_alter_ne. intros ->. by apply (Hl j).
Qed.

(** A conditional default. *)
Lemma maybe_assign (b : bool) l f p w :
  heap w !! l = Some p -> (forall id, peers (reg w) !! id <> Some l) ->
  exists w', (if b then assign l f else mret tt) w = (Ok tt, w') /\
    heap w' !! l = Some (if b then f p else p) /\ abs_peers w' = abs_peers w /\
    reg w' = reg w /\ fs w' = fs w.
Proof.
  intros Hp Hl. destruct b; eexists; (split; [reflexivity|]); split_and!; try done.
  - cbn [heap on_heap]. by rewrite lookup_alter_eq, Hp.
  - by apply abs_alter_fresh.
Qed.

Lemma refine_add ch l w :
  keyed w ->
  exists r w', AddPeer ch (Some l) w = (r, w') /\
    spec_op (fun l => heap w !! l) (OpAdd ch l) (abs w) = (r, abs w').
Proof.
  intros Hk. cbn [spec_op abs s_peers]. unfold AddPeer.
  destruct (heap w !! l) as [p|] eqn:Hp.
  2: { eexists _, w. cbv [mbind SR_bind deref]. by rewrite Hp. }
  rewrite (SR_bind_Ok _ _ w p w) by (unfold deref; by rewrite Hp).
  case_decide as Hid; [by eexists _, w|].
  destruct (validatePeerName (Name p)) as [[]|e|q|] eqn:Hn; [|by eexists _, w..].
  reg_step. reg_step. pose proof (abs_is_Some w (ID p) Hk) as Hi.
  destruct (decide (is_Some (peers (reg w) !! ID p))) as [Hd|Hd].
  { rewrite decide_True by (by apply Hi). by eexists _, w. }
  rewrite decide_False by (by rewrite Hi).
  assert (Hfr : forall id, peers (reg w) !! id <> Some l).
  { intros id Hl. destruct (Hk _ _ Hl) as (p' & Hp' & <-). apply Hd. rewrite Hp in Hp'. injection Hp' as <-. eauto. }
  destruct (maybe_assign (IsZero (AddedAt p)) l (set_AddedAt (now ch)) p w Hp Hfr) as (w1 & Hs1 & Hp1 & Ha1 & Hr1 & _).
  sr_step Hs1. rewrite <- Hr1 in Hfr.
  destruct (maybe_assign (feq (Score p) (float_of_int 0)) l (set_Score (float_of_int 50)) _ w1 Hp1 Hfr)
    as (w2 & Hs2 & Hp2 & Ha2 & Hr2 & _).
  sr_step Hs2. reg_step. rewrite finish_eq. eexists _, _. split; [done|]. rewrite abs_finish.
  unfold abs, with_peers. cbn [s_peers]. rewrite (abs_store w2 (ID p) l _ Hp2), Ha2, Ha1. cbn. rewrite Hr2, Hr1.
  unfold with_defaults. by destruct (IsZero (AddedAt p)).
Qed.

Lemma refine_update ch l w :
  keyed w ->
  exists r w', UpdatePeer ch (Some l) w = (r, w') /\
    spec_op (fun l => heap w !! l) (OpUpdate ch l) (abs w) = (r, abs w').
Proof.
  intros Hk. cbn [spec_op abs s_peers]. unfold UpdatePeer.
  destruct (heap w !! l) as [p|] eqn:Hp.
  2: { eexists _, w. cbv [mbind SR_bind deref]. by rewrite Hp. }
  rewrite (SR_bind_Ok _ _ w p w) by (unfold deref; by rewrite Hp). reg_step.
  pose proof (abs_is_Some w (ID p) Hk) as Hi.
  destruct (decide (is_Some (peers (reg w) !! ID p))) as [Hd|Hd].
  - rewrite decide_True by (by apply Hi). reg_step. rewrite finish_eq. eexists _, _. split; [done|].
    rewrite abs_finish. unfold abs, with_peers. cbn [s_peers]. by rewrite (abs_store w (ID p) l p Hp).
  - rewrite decide_False by (by rewrite Hi). by eexists _, w.
Qed.

(** Is the result of the call determined by the specification?  [Close] also
    reports whether its save succeeded. *)
Definition spec_result (op : reg_op) (r r' : Result unit) : Prop :=
  match op with
  | OpClose _ => r = Ok tt \/ exists e, r = Fail e
  | _ => r = r'
  end.

Lemma refine_op op w :
  keyed w ->
  let '(r, w') := run_op op w in
  let '(r', s') := spec_op (fun l => heap w !! l) op (abs w) in
  spec_result op r r' /\ abs w' = s'.
Proof.
  intros Hk. destruct (change_op op) eqn:Hc.
  { destruct (refine_change op w Hc Hk) as (r & w' & -> & ->). by destruct op. }
  destruct op; try discriminate Hc; cbn [run_op].
  - destruct (refine_add ch l w Hk) as (r & w' & -> & ->). done.
  - destruct (refine_update ch l w Hk) as (r & w' & -> & ->). done.
  - destruct (refine_remove ch id w Hk) as (r & w' & -> & ->). done.
  - done.
  - cbn. split; [done|]. rewrite only_fs_abs with (w := on_reg (fun r => set_allowed (<[key:=true]> (allowedPublicKeys r)) r) w);
      [done|apply saveKeys_only].
  - cbn. split; [done|]. rewrite only_fs_abs with (w := on_reg (fun r => set_allowed (delete key (allowedPublicKeys r)) r) w);
      [done|apply saveKeys_only].
  - unfold timerFire. reg_step. unfold timerSave. destruct (dirty (reg w)); [|done]. split; [done|].
    rewrite only_fs_abs with (w := on_reg (set_save false false) w); [done|apply saveNow_only].
  - unfold Close. reg_step. reg_step. cbn [reg on_reg dirty set_stopped]. destruct (dirty (reg w)); [|by split; [left|]].
    destruct (saveNow_only ch (on_reg (set_save false false) (on_reg (set_stopped true) w))) as [Ho Hr].
    destruct (saveNow ch _) as [r w']. cbn [fst snd] in Ho, Hr. split; [done|].
    by rewrite (only_fs_abs _ _ Ho).
Qed.

(** ** The invariant *)

(** The KD-tree is built from the current peers. *)
Definition points w : list KDPoint := (map_to_list (peer_point <$> abs_peers w)).*2.
Definition fresh_tree w : Prop :=
  if decide (peers (reg w) = ∅) then kdTree (reg w) = None
  else exists pts t, kdTree (reg w) = Some t /\ NewKDTree pts = inr t /\ pts ≡ₚ points w.

Definition good w : Prop := keyed w /\ fresh_tree w.

Lemma omap_values {A B} (f : A -> option B) (m : gmap string A) :
  omap (fun e => f e.2) (map_to_list m) ≡ₚ (map_to_list (omap f m)).*2.
Proof.
  induction m as [|i x m Hi IH] using map_ind; [by rewrite omap_empty|].
  rewrite map_to_list_insert by done. cbn [omap list_omap snd]. rewrite omap_insert.
  destruct (f x) as [y|].
  - rewrite map_to_list_insert by (by rewrite lookup_omap, Hi). cbn. by f_equiv.
  - rewrite delete_id by (by rewrite lookup_omap, Hi). done.
Qed.

Lemma peers_in_order_perm ch w : peers_in_order ch w ≡ₚ (map_to_list (abs_peers w)).*2.
Proof. unfold peers_in_order. rewrite order_perm. apply (omap_values (fun l => heap w !! l)). Qed.

Lemma points_perm ch w : peer_point <$> peers_in_order ch w ≡ₚ points w.
Proof.
  rewrite peers_in_order_perm. unfold points. rewrite map_to_list_fmap.
  rewrite <- !list_fmap_compose. done.
Qed.

Lemma keyed_get w id p : keyed w -> GetPeer id w = Some p -> ID p = id.
Proof.
  intros Hk Hg. unfold GetPeer in Hg. apply bind_Some in Hg as (l & Hl & Hp).
  destruct (Hk _ _ Hl) as (p' & Hp' & <-). congruence.
Qed.

(** Distinct peers have distinct IDs, and points of distinct IDs. *)
Lemma abs_ids_NoDup w : keyed w -> NoDup (ID <$> (map_to_list (abs_peers w)).*2).
Proof.
  intros Hk. assert (Hids : ID <$> (map_to_list (abs_peers w)).*2 = (map_to_list (abs_peers w)).*1).
  { rewrite <- list_fmap_compose. apply list_fmap_ext. intros i [id p] Hl. cbn.
    apply list_elem_of_lookup_2, elem_of_map_to_list in Hl. rewrite abs_lookup in Hl. by apply (keyed_get w). }
  rewrite Hids. apply NoDup_fst_map_to_list.
Qed.
Lemma points_NoDup w : keyed w -> NoDup (kd_ID <$> points w).
Proof.
  intros Hk. unfold points. rewrite map_to_list_fmap, <- !list_fmap_compose.
  pose proof (abs_ids_NoDup w Hk) as Hnd. by rewrite <- list_fmap_compose in Hnd.
Qed.
Lemma connected_NoDup ch w : keyed w -> NoDup (ID <$> GetConnectedPeers ch w).
Proof.
  intros Hk. unfold GetConnectedPeers.
  apply (sublist_NoDup _ (ID <$> peers_in_order ch w)); [|apply fmap_sublist, sublist_filter].
  rewrite peers_in_order_perm. by apply abs_ids_NoDup.
Qed.

Lemma keyed_store w l p :
  heap w !! l = Some p -> keyed w ->
  keyed (on_reg (fun r => set_peers (<[ID p := l]> (peers r)) r) w).
Proof.
  intros Hp Hk id l'. cbn [reg on_reg peers set_peers heap].
  destruct (decide (ID p = id)) as [<-|].
  - rewrite lookup_insert_eq. intros [= <-]. eauto.
  - rewrite lookup_insert_ne by done. apply Hk.
Qed.

Lemma keyed_delete w id :
  keyed w -> keyed (on_reg (fun r => set_peers (delete id (peers r)) r) w).
Proof.
  intros Hk j l. cbn [reg on_reg peers set_peers heap]. rewrite lookup_delete_Some. intros [_ Hl]. by apply Hk.
Qed.

(** [AddPeer] and [UpdatePeer] either change nothing or store the pointer in a
    well-keyed world and end like every other change. *)
Lemma add_shape ch l w :
  keyed w ->
  snd (AddPeer ch (Some l) w) = w \/
  exists w1, snd (AddPeer ch (Some l) w) = finish ch w1 /\ keyed w1 /\
    path (reg w1) = path (reg w) /\ allowlistPath (reg w1) = allowlistPath (reg w).
Proof.
  intros Hk. unfold AddPeer. destruct (heap w !! l) as [p|] eqn:Hp.
  2: { left. cbv [mbind SR_bind deref]. by rewrite Hp. }
  rewrite (SR_bind_Ok _ _ w p w) by (unfold deref; by rewrite Hp).
  case_decide; [by left|]. destruct (validatePeerName (Name p)) as [[]|?|?|]; try by left.
  do 2 reg_step. case_decide as Hd; [by left|]. right.
  assert (Hm : forall (b : bool) f q w1, heap w1 !! l = Some q -> (forall p, ID (f p) = ID p) -> keyed w1 ->
    exists w2 q', (if b then assign l f else mret tt) w1 = (Ok tt, w2) /\ keyed w2 /\
      heap w2 !! l = Some q' /\ ID q' = ID q /\ reg w2 = reg w1).
  { intros b f q w1 Hq Hid Hk1. destruct b; [|by exists w1, q].
    exists (on_heap (alter f l) w1), (f q). split_and!; [done|by apply keyed_alter| |apply Hid|done].
    cbn [heap on_heap]. by rewrite lookup_alter_eq, Hq. }
  destruct (Hm (IsZero (AddedAt p)) (set_AddedAt (now ch)) p w Hp) as (w1 & p1 & Hs1 & Hk1 & Hp1 & Hi1 & Hr1); [done|done|].
  destruct (Hm (feq (Score p) (float_of_int 0)) (set_Score (float_of_int 50)) p1 w1 Hp1)
    as (w2 & p2 & Hs2 & Hk2 & Hp2 & Hi2 & Hr2); [done|done|].
  sr_step Hs1. sr_step Hs2. reg_step. rewrite finish_eq. eexists. split; [reflexivity|].
  rewrite <- Hi1, <- Hi2. cbn [reg on_reg path allowlistPath set_peers]. rewrite Hr2, Hr1.
  split_and!; [by apply keyed_store|done|done].
Qed.

Lemma update_shape ch l w :
  keyed w ->
  snd (UpdatePeer ch (Some l) w) = w \/
  exists w1, snd (UpdatePeer ch (Some l) w) = finish ch w1 /\ keyed w1 /\
    path (reg w1) = path (reg w) /\ allowlistPath (reg w1) = allowlistPath (reg w).
Proof.
  intros Hk. unfold UpdatePeer. destruct (heap w !! l) as [p|] eqn:Hp.
  2: { left. cbv [mbind SR_bind deref]. by rewrite Hp. }
  rewrite (SR_bind_Ok _ _ w p w) by (unfold deref; by rewrite Hp). reg_step. case_decide; [|by left].
  right. reg_step. rewrite finish_eq. eexists. split; [reflexivity|]. split; [by apply keyed_store|done].
Qed.

Lemma keyed_same w w' :
  heap w' = heap w -> peers (reg w') = peers (reg w) -> keyed w -> keyed w'.
Proof. intros Hh Hp Hk id l. rewrite Hh, Hp. apply Hk. Qed.

Lemma keyed_on_save r w d t : keyed w -> keyed (snd (r : Result unit, on_reg (set_save d t) w)).
Proof. done. Qed.

Lemma keyed_op op w : keyed w -> keyed (snd (run_op op w)).
Proof.
  intros Hk. destruct op; cbn [run_op].
  1: by destruct (add_shape ch l w Hk) as [-> | (w1 & -> & ? & _)].
  1: by destruct (update_shape ch l w Hk) as [-> | (w1 & -> & ? & _)].
  1: { unfold RemovePeer. reg_step. case_decide; [|done]. reg_step. rewrite finish_eq. by apply keyed_delete. }
  all: unfold UpdateMetrics, UpdateScore, SetConnected, MarkSeen, RecordSuccess, RecordFailure, RecordTimeout;
    try (reg_step; destruct (peers (reg w) !! id) as [l|]; [|done]).
  all: try (repeat reg_step; rewrite finish_eq; apply keyed_finish; by repeat apply keyed_alter).
  - destruct c; do 2 reg_step; [rewrite save_eq; apply (keyed_on_save _ _ true true)|]; by repeat apply keyed_alter.
  - reg_step. rewrite save_eq. by apply (keyed_on_save _ _ true true), keyed_alter.
  - done.
  - by eapply only_fs_keyed; [apply saveKeys_only|].
  - by eapply only_fs_keyed; [apply saveKeys_only|].
  - unfold timerFire. reg_step. unfold timerSave. destruct (dirty (reg w)); [|done].
    by eapply only_fs_keyed; [apply saveNow_only|].
  - unfold Close. do 2 reg_step. cbn [reg on_reg dirty set_stopped]. destruct (dirty (reg w)); [|done].
    by eapply only_fs_keyed; [apply saveNow_only|].
Qed.

Lemma abs_empty w : keyed w -> abs_peers w = ∅ -> peers (reg w) = ∅.
Proof.
  intros Hk Ha. apply map_empty. intros id. destruct (peers (reg w) !! id) as [l|] eqn:Hl; [|done].
  destruct (proj2 (abs_is_Some w id Hk)) as [p Hp]; [eauto|]. by rewrite Ha in Hp.
Qed.

(** Updates that do not move a point keep the tree fresh. *)
Lemma fresh_alter w f l :
  (forall p, peer_point (f p) = peer_point p) -> fresh_tree w -> fresh_tree (on_heap (alter f l) w).
Proof.
  intros Hf. unfold fresh_tree. cbn [reg on_heap]. case_decide; [done|].
  intros (pts & t & Ht & Hn & Hp). exists pts, t. split_and!; try done. rewrite Hp. unfold points.
  replace (peer_point <$> abs_peers (on_heap (alter f l) w)) with (peer_point <$> abs_peers w); [done|].
  apply map_eq. intros j. rewrite !lookup_fmap. unfold abs_peers. rewrite !lookup_omap. cbn [reg on_heap heap].
  destruct (peers (reg w) !! j) as [l'|]; [|done]. cbn.
  destruct (decide (l = l')) as [->|]; [|by rewrite lookup_alter_ne].
  rewrite lookup_alter_eq. destruct (heap w !! l'); cbn; [|done]. by rewrite Hf.
Qed.

(** ** Queries *)

(** What the queries return, in terms of the map of peers, the allowed keys and
    the mode.  The lists come in an order of the map. *)
Definition queries_agree (s : Spec) w : Prop :=
  (forall id, GetPeer id w = s_peers s !! id) /\ Count w = Z.of_nat (size (s_peers s)) /\
  GetAuthMode w = s_mode s /\
  (forall key, IsPublicKeyAllowed key w = true <-> s_allowed s !! key = Some true) /\
  (forall id key, IsPeerAllowed id key w = true <->
     s_mode s = PeerAuthOpen \/ is_Some (s_peers s !! id) \/ s_allowed s !! key = Some true) /\
  (forall ch, ListPeers ch w ≡ₚ (map_to_list (s_peers s)).*2) /\
  (forall ch, GetConnectedPeers ch w ≡ₚ filter (fun p => Connected p = true) (map_to_list (s_peers s)).*2) /\
  (forall ch, ListAllowedPublicKeys ch w ≡ₚ (map_to_list (s_allowed s)).*1).

Lemma abs_size w : keyed w -> size (abs_peers w) = size (peers (reg w)).
Proof.
  intros Hk. rewrite <- !size_dom. f_equal. apply set_eq. intros id. rewrite !elem_of_dom. by apply abs_is_Some.
Qed.

Lemma default_true (o : option bool) : default false o = true <-> o = Some true.
Proof. by destruct o as [[]|]. Qed.

Lemma queries_abs w : keyed w -> queries_agree (abs w) w.
Proof.
  intros Hk. unfold queries_agree. cbn [abs s_peers s_allowed s_mode]. split_and!.
  - intros id. symmetry. apply abs_lookup.
  - by rewrite abs_size.
  - done.
  - intros key. apply default_true.
  - intros id key. unfold IsPeerAllowed. cbv zeta. rewrite (abs_is_Some w id Hk), <- default_true.
    repeat case_decide; intuition.
  - intros ch. apply peers_in_order_perm.
  - intros ch. unfold GetConnectedPeers. by rewrite peers_in_order_perm.
  - intros ch. unfold ListAllowedPublicKeys. by rewrite order_perm.
Qed.

(** C29 (refinement): every call that changes the registry, on the map of pointers,
    the objects and the files, does to the abstract map of peers, the allowed
    keys and the mode exactly what its specification says, and returns the
    result the specification gives (for [Close], success or the save's error):
    unknown and duplicate IDs, invalid names and defaults included.  After it the
    queries answer from the specification: [GetPeer], [Count], [GetAuthMode],
    [IsPublicKeyAllowed], [IsPeerAllowed] (in open mode everybody, otherwise the
    registered IDs and the allowed keys), and the lists of peers, of connected
    peers and of keys. *)
Theorem registry_refines op w :
  keyed w ->
  let '(r, w') := run_op op w in
  let '(r', s') := spec_op (fun l => heap w !! l) op (abs w) in
  spec_result op r r' /\ abs w' = s' /\ queries_agree s' w'.
Proof.
  intros Hk. pose proof (refine_op op w Hk) as Hr. pose proof (keyed_op op w Hk) as Hk'.
  destruct (run_op op w) as [res w'], (spec_op _ op (abs w)) as [res' s']. destruct Hr as [Hres <-].
  split_and!; [done|done|by apply queries_abs].
Qed.

End Proofs.

(** ** What the registry relies on from the KD-tree package

    A tree is built from at least one point when all have the same dimension
    and no two the same ID, and the nearest point to a target is a point of
    the tree that no other is strictly closer than, as long as all coordinates
    are finite numbers. *)
Definition is_finite (x : float64) : bool :=
  match x with S754_zero _ | S754_finite _ _ _ => true | _ => false end.
Definition finite_point (pt : KDPoint) : Prop := Forall (fun x => is_finite x = true) (kd_Coords pt).

Class KDLaws `{KDLib} : Type := {
  EuclideanDistance : list float64 -> list float64 -> float64;
  kd_new pts :
    pts <> [] -> (forall pt, pt ∈ pts -> length (kd_Coords pt) = 4%nat) ->
    NoDup (kd_ID <$> pts) -> exists t, NewKDTree pts = inr t;
  kd_nearest pts t target :
    NewKDTree pts = inr t -> Forall finite_point pts -> length target = 4%nat ->
    exists pt, Nearest t target = Some pt /\ pt ∈ pts /\
      forall q, q ∈ pts ->
        flt (EuclideanDistance (kd_Coords q) target) (EuclideanDistance (kd_Coords pt) target) = false
}.

Section Invariant.
Context `{KDLaws} `{JSON} {FS : Type} `{FileSystem FS}.
Implicit Types (w : World FS) (ch : Choice).

Lemma rebuild_good ch w : keyed w -> good (on_reg (set_kdTree (rebuilt ch w)) w).
Proof.
  intros Hk. split; [done|]. unfold fresh_tree.
  cbn [reg on_reg peers set_kdTree kdTree]. unfold rebuilt.
  case_decide as He.
  - rewrite decide_True; [done|]. by rewrite He, map_size_empty.
  - rewrite decide_False by (intros Hs; by apply He, map_size_empty_inv).
    destruct (kd_new (peer_point <$> peers_in_order ch w)) as [t Ht].
    + intros Hn. apply fmap_nil_inv in Hn. apply He, abs_empty; [done|].
      apply map_to_list_empty_iff. pose proof (peers_in_order_perm ch w) as Hp. rewrite Hn in Hp.
      apply Permutation_nil_l in Hp. by destruct (map_to_list (abs_peers w)).
    + intros pt Hpt. apply list_elem_of_fmap in Hpt as (p & -> & _). done.
    + rewrite points_perm. by apply points_NoDup.
    + rewrite Ht. eexists _, t. split_and!; [done|exact Ht|]. exact (points_perm ch w).
Qed.

Lemma good_alter w f l :
  (forall p, ID (f p) = ID p) -> (forall p, peer_point (f p) = peer_point p) ->
  good w -> good (on_heap (alter f l) w).
Proof. intros Hi Hp [Hk Hf]. split; [by apply keyed_alter|by apply fresh_alter]. Qed.

(** Changes to the other fields of the registry. *)
Lemma good_same w w' :
  heap w' = heap w -> peers (reg w') = peers (reg w) -> kdTree (reg w') = kdTree (reg w) ->
  good w -> good w'.
Proof.
  intros Hh Hp Ht [Hk Hf]. assert (Ha : abs_peers w' = abs_peers w) by (unfold abs_peers; by rewrite Hh, Hp).
  split.
  - intros id l. rewrite Hh, Hp. apply Hk.
  - unfold fresh_tree, points in *. by rewrite Hp, Ht, Ha.
Qed.

Lemma finish_good ch w : keyed w -> good (finish ch w).
Proof. intros Hk. by apply (good_same (on_reg (set_kdTree (rebuilt ch w)) w)), rebuild_good. Qed.

Lemma good_only_fs w w' : only_fs w w' -> good w -> good w'.
Proof. intros [Hh Hr]. by apply good_same; rewrite ?Hr. Qed.

Lemma good_add ch l w : good w -> good (snd (AddPeer ch (Some l) w)).
Proof.
  intros Hg. destruct (add_shape ch l w (proj1 Hg)) as [-> | (w1 & -> & Hk & _)]; [done|by apply finish_good].
Qed.

Lemma good_update ch l w : good w -> good (snd (UpdatePeer ch (Some l) w)).
Proof.
  intros Hg. destruct (update_shape ch l w (proj1 Hg)) as [-> | (w1 & -> & Hk & _)]; [done|by apply finish_good].
Qed.

Lemma good_op op w : good w -> good (snd (run_op op w)).
Proof.
  intros Hg. pose proof (proj1 Hg) as Hk.
  destruct op; cbn [run_op]; [by apply good_add|by apply good_update|..];
    unfold RemovePeer, UpdateMetrics, UpdateScore, SetConnected, MarkSeen, RecordSuccess, RecordFailure,
      RecordTimeout; try (reg_step; destruct (peers (reg w) !! id) as [l|]; [|done]).
  all: try (repeat reg_step; rewrite finish_eq; apply finish_good; by repeat apply keyed_alter).
  - rewrite decide_True by eauto. reg_step. rewrite finish_eq. by apply finish_good, keyed_delete.
  - destruct c; do 2 reg_step; [rewrite save_eq|]; cbn [snd].
    + apply (good_same (on_heap (alter (set_LastSeen (now ch)) l) (on_heap (alter (set_Connected true) l) w))); try done.
      by repeat apply good_alter.
    + by apply good_alter.
  - reg_step. rewrite save_eq. cbn [snd].
    apply (good_same (on_heap (alter (set_LastSeen (now ch)) l) w)); try done. by apply good_alter.
  - by apply (good_same w).
  - eapply good_only_fs; [apply saveKeys_only|]. by apply (good_same w).
  - eapply good_only_fs; [apply saveKeys_only|]. by apply (good_same w).
  - unfold timerFire. reg_step. unfold timerSave. destruct (dirty (reg w)); [|by apply (good_same w)].
    eapply good_only_fs; [apply saveNow_only|]. by apply (good_same w).
  - unfold Close. do 2 reg_step. cbn [reg on_reg dirty set_stopped]. destruct (dirty (reg w)); [|by apply (good_same w)].
    eapply good_only_fs; [apply saveNow_only|]. by apply (good_same w).
Qed.

(** ** Start-up *)
Lemma register_loaded_keyed ls w : keyed w -> keyed (snd (register_loaded ls w)).
Proof.
  revert w. induction ls as [|[l|] ls IH]; intros w Hk; cbn [register_loaded]; [done| |done].
  destruct (heap w !! l) as [p|] eqn:Hp.
  - rewrite (SR_bind_Ok _ _ w p w) by (unfold deref; by rewrite Hp). reg_step.
    by apply IH, keyed_store.
  - cbv [mbind SR_bind deref]. by rewrite Hp.
Qed.

Lemma keyed_empty w : peers (reg w) = ∅ -> keyed w.
Proof. intros He id l. by rewrite He. Qed.

Lemma load_keyed w : peers (reg w) = ∅ -> keyed (snd (load w)).
Proof.
  intros He. unfold load. destruct (Read _ _) as [[err|content] s]; [by apply keyed_empty|].
  destruct (unmarshalPeers content) as [err|ps]; [by apply keyed_empty|].
  destruct (alloc_peers ps _) as [ls h]. by apply register_loaded_keyed, keyed_empty.
Qed.

Lemma loadKeys_same w :
  heap (snd (loadAllowedPublicKeys w)) = heap w /\ peers (reg (snd (loadAllowedPublicKeys w))) = peers (reg w).
Proof.
  unfold loadAllowedPublicKeys. destruct (negb _); [done|].
  destruct (Read _ _) as [[err|content] s]; [done|]. by destruct (unmarshalKeys content).
Qed.

Lemma best_effort_snd (m : SR (World FS) unit) w : snd (best_effort m w) = snd (m w).
Proof. unfold best_effort. by destruct (m w) as [[?|?|?|] ?]. Qed.

Lemma new_good ch p h s w : NewPeerRegistryWithPath ch p h s = (Ok tt, w) -> good w.
Proof.
  unfold NewPeerRegistryWithPath. set (w0 := mkWorld h (empty_registry p) s).
  assert (Hk : keyed (snd (load w0))) by (by apply load_keyed).
  set (first := fun w : World FS => _).
  assert (Hk1 : keyed (snd (first w0))).
  { unfold first. destruct (load w0) as [[?|?|?|] w1]; try done.
    rewrite rebuild_eq. done. }
  cbv [mbind SR_bind]. destruct (first w0) as [[[]|?|?|] w1]; try done. cbn [snd] in Hk1.
  assert (Hk2 : keyed (snd (best_effort loadAllowedPublicKeys w1))).
  { rewrite best_effort_snd. destruct (loadKeys_same w1). by apply (keyed_same w1). }
  destruct (best_effort loadAllowedPublicKeys w1) as [[[]|?|?|] w2]; try done.
  rewrite rebuild_eq. intros [= <-]. by apply rebuild_good.
Qed.

(** The worlds a program gets by creating a registry, calling its operations,
    creating [Peer] objects, writing to objects that are not in the registry, and
    writing to registered objects (as [performHandshake] does) without changing
    their ID or the fields the KD-tree is built from.  A write of another ID to a
    registered object is not in the relation: [dial_renames_entry] of
    [TransportInstances] shows what it does. *)
Inductive reachable : World FS -> Prop :=
| reach_new ch p h s w : NewPeerRegistryWithPath ch p h s = (Ok tt, w) -> reachable w
| reach_op op w : reachable w -> reachable (snd (run_op op w))
| reach_object l p w :
    reachable w -> (forall id, peers (reg w) !! id <> Some l) ->
    reachable (on_heap <[l := p]> w)
| reach_write l p p' w :
    reachable w -> heap w !! l = Some p -> ID p' = ID p -> peer_point p' = peer_point p ->
    reachable (on_heap <[l := p']> w).

Lemma good_write l p p' w :
  heap w !! l = Some p -> ID p' = ID p -> peer_point p' = peer_point p -> good w -> good (on_heap <[l := p']> w).
Proof.
  intros Hp Hid Hpt [Hk Hf].
  assert (Ha : peer_point <$> abs_peers (on_heap <[l := p']> w) = peer_point <$> abs_peers w).
  { apply map_eq. intros j. rewrite !lookup_fmap. unfold abs_peers. rewrite !lookup_omap. cbn [reg on_heap heap].
    destruct (peers (reg w) !! j) as [k|]; [|done]. cbn. destruct (decide (l = k)) as [->|]; [|by rewrite lookup_insert_ne].
    rewrite lookup_insert_eq, Hp. cbn. by rewrite Hpt. }
  split.
  - intros id k Hl. cbn [heap on_heap reg] in *. destruct (Hk id k Hl) as (q & Hq & <-).
    destruct (decide (l = k)) as [->|]; [|by rewrite lookup_insert_ne; [exists q|]]. rewrite lookup_insert_eq. exists p'. split; [done|]. congruence.
  - unfold fresh_tree, points in *. rewrite Ha. done.
Qed.

Lemma good_object l p w :
  (forall id, peers (reg w) !! id <> Some l) -> good w -> good (on_heap <[l := p]> w).
Proof.
  intros Hl [Hk Hf].
  assert (Ha : abs_peers (on_heap <[l := p]> w) = abs_peers w).
  { apply map_eq. intros j. unfold abs_peers. cbn [heap on_heap reg]. rewrite !lookup_omap.
    destruct (peers (reg w) !! j) as [l'|] eqn:Hj; [|done]. cbn.
    apply lookup_insert_ne. intros ->. by apply (Hl j). }
  split.
  - intros id l' Hl'. cbn [heap on_heap reg] in *. rewrite lookup_insert_ne; [by apply Hk|].
    intros ->. by apply (Hl id).
  - unfold fresh_tree, points in *. rewrite Ha. done.
Qed.

Lemma reachable_good w : reachable w -> good w.
Proof.
  induction 1 as [ch p h s w Hn|op w _ IH|l p w _ IH Hl|l p p' w _ IH Hp Hid Hpt].
  - by eapply new_good.
  - by apply good_op.
  - by apply good_object.
  - by eapply good_write.
Qed.

(** C30 (invariant): whatever calls are made on a registry, and whatever is written
    to [Peer] objects outside it or, for registered objects, to fields other than
    the ID, the score and the metrics, each map entry points to a peer whose ID is
    its key, and the KD-tree is nil for an empty registry and otherwise built from
    the current metrics of exactly the registered peers: no operation leaves a
    stale tree.  (A handshake that gives a registered object another ID is outside
    this: see [dial_renames_entry].) *)
Theorem registry_invariant w :
  reachable w ->
  (forall id p, GetPeer id w = Some p -> ID p = id) /\
  (if decide (Count w = 0) then kdTree (reg w) = None
   else exists pts t, kdTree (reg w) = Some t /\ NewKDTree pts = inr t /\ pts ≡ₚ points w).
Proof.
  intros Hr. destruct (reachable_good w Hr) as [Hk Hf]. split.
  - intros id p Hg. unfold GetPeer in Hg. apply bind_Some in Hg as (l & Hl & Hp).
    destruct (Hk _ _ Hl) as (p' & Hp' & <-). congruence.
  - unfold fresh_tree in Hf. unfold Count. destruct (decide (peers (reg w) = ∅)) as [He|He].
    + rewrite decide_True; [done|]. by rewrite He, map_size_empty.
    + rewrite decide_False; [done|]. intros Hc. apply He, map_size_empty_inv. lia.
Qed.


End Invariant.
