(* ===== verification/PeerSelect.v ===== *)
(** * Scores and selection of peers (src/go/node/peer.go)

    The arithmetic of reliability scores on float64 and the orderings of
    [GetPeersByScore] and [FindNearby]. *)

From Stdlib Require Import SpecFloat.
From S2P Require Import Prelude Float64 PeerName Peer PeerProofs.

(** ** Sorting *)

Section Sort.
Context {A : Type} (cmp : A -> A -> Z) (P : A -> Prop).

(** [cmp] is antisymmetric everywhere and transitive on [P]. *)
Hypothesis cmp_opp : forall a b, cmp b a = - cmp a b.
Hypothesis cmp_trans : forall a b c, P a -> P b -> P c -> cmp a b <= 0 -> cmp b c <= 0 -> cmp a c <= 0.

#[local] Instance cmp_le_total : Total (cmp_le cmp).
Proof. intros a b. unfold cmp_le. rewrite (cmp_opp a b). lia. Qed.

Lemma SortFunc_perm l : SortFunc cmp l ≡ₚ l.
Proof. apply merge_sort_Permutation. Qed.

Lemma sorted_strong l : Forall P l -> Sorted (cmp_le cmp) l -> StronglySorted (cmp_le cmp) l.
Proof.
  intros HP Hs. induction Hs as [|a l Hs IH Hd]; constructor.
  - apply IH. by apply Forall_cons in HP as [_ HP].
  - apply Forall_cons in HP as [Ha HP]. specialize (IH HP).
    destruct Hd as [|b l Hab]; constructor; [done|].
    apply Forall_cons in HP as [Hb HP]. apply StronglySorted_inv in IH as [_ IH].
    rewrite Forall_forall in *. intros c Hc. eapply cmp_trans; eauto. by apply IH.
Qed.

Lemma sorted_weaken (R : A -> A -> Prop) l :
  (forall a b, P a -> P b -> cmp a b <= 0 -> R a b) ->
  Forall P l -> StronglySorted (cmp_le cmp) l -> StronglySorted R l.
Proof.
  intros HR HP Hs. induction Hs as [|a l Hs IH Hall]; constructor.
  - apply IH. by apply Forall_cons in HP as [_ HP].
  - apply Forall_cons in HP as [Ha HP]. rewrite Forall_forall in *. intros b Hb.
    apply HR; [done|by apply HP|by apply Hall].
Qed.

Lemma SortFunc_sorted (R : A -> A -> Prop) l :
  (forall a b, P a -> P b -> cmp a b <= 0 -> R a b) ->
  Forall P l -> StronglySorted R (SortFunc cmp l).
Proof.
  intros HR HP. assert (HP' : Forall P (SortFunc cmp l)) by (by rewrite SortFunc_perm).
  apply (sorted_weaken R); [done|done|]. apply sorted_strong; [done|]. apply Sorted_merge_sort, _.
Qed.
End Sort.

Lemma cmp_float_opp x y :
  (if flt x y then -1 else if fgt x y then 1 else 0) = - (if flt y x then -1 else if fgt y x then 1 else 0).
Proof.
  unfold fgt. destruct (flt x y) eqn:H1, (flt y x) eqn:H2; try reflexivity.
  destruct (is_nan x) eqn:Hx; [by destruct x|]. destruct (is_nan y) eqn:Hy; [by destruct x, y|].
  rewrite flt_fle in * by done. destruct (fle_total x y Hx Hy) as [He | He]; rewrite He in *; done.
Qed.

(** The three-way comparison is the order of the floats. *)
Lemma cmp_float_le x y :
  is_nan x = false -> is_nan y = false ->
  (if flt x y then -1 else if fgt x y then 1 else 0) <= 0 <-> fle x y = true.
Proof.
  intros Hx Hy. unfold fgt. rewrite !flt_fle by done.
  destruct (fle x y) eqn:Hxy, (fle y x) eqn:Hyx; cbn [negb]; try (split; [done|lia]).
  destruct (fle_total x y Hx Hy); congruence.
Qed.

Definition cmp_float (x y : float64) : Z := if flt x y then -1 else if fgt x y then 1 else 0.

Lemma cmp_float_trans x y z :
  is_nan x = false -> is_nan y = false -> is_nan z = false ->
  cmp_float x y <= 0 -> cmp_float y z <= 0 -> cmp_float x z <= 0.
Proof. intros Hx Hy Hz. unfold cmp_float. rewrite !cmp_float_le by done. by apply fle_trans. Qed.

Lemma cmp_score_desc_float a b : cmp_score_desc a b = cmp_float (Score b) (Score a).
Proof.
  unfold cmp_score_desc. pose proof (cmp_float_opp (Score a) (Score b)) as Ho. unfold cmp_float, fgt in *.
  destruct (flt (Score a) (Score b)), (flt (Score b) (Score a)); lia.
Qed.

(** ** Scores *)

Definition in_bounds (x : float64) : Prop :=
  fle (float_of_int 0) x = true /\ fle x (float_of_int 100) = true.

Lemma clamp_bounds x : is_nan x = false -> in_bounds (clamp x).
Proof.
  intros Hx. unfold clamp. destruct (go_min_le x (float_of_int 100) Hx eq_refl) as (Hn & _ & Hle).
  destruct (go_max_ge (float_of_int 0) (go_min x (float_of_int 100)) eq_refl Hn) as (_ & Hge & _).
  split; [done|]. by apply go_max_le.
Qed.

(** The whole-number scores 0, 1, ..., 100, exact in float64. *)
Definition whole (x : float64) (k : Z) : Prop := x = float_of_int k /\ 0 <= k <= 100.

Definition score_step (k : Z) : bool :=
  bool_decide (go_min (fadd (float_of_int k) ScoreSuccessIncrement) ScoreMaximum = float_of_int (Z.min (k + 1) 100)) &&
  bool_decide (go_max (fsub (float_of_int k) ScoreFailureDecrement) ScoreMinimum = float_of_int (Z.max (k - 5) 0)) &&
  bool_decide (go_max (fsub (float_of_int k) ScoreTimeoutDecrement) ScoreMinimum = float_of_int (Z.max (k - 3) 0)).

Lemma score_steps : forallb score_step (map Z.of_nat (seq 0 101)) = true.
Proof. vm_compute. reflexivity. Qed.

Lemma score_step_all k : 0 <= k <= 100 -> score_step k = true.
Proof.
  intros Hk. pose proof score_steps as Hs. rewrite forallb_forall in Hs. apply Hs, in_map_iff.
  exists (Z.to_nat k). split; [lia|]. apply in_seq. lia.
Qed.

Section Select.
Context `{KDLib} `{JSON} {FS : Type} `{FileSystem FS}.
Implicit Types (w : World FS) (ch : Choice).

(** A change of one peer, seen through [GetPeer]. *)
Lemma change_get op id f m w p :
  change_op op = true -> keyed w ->
  (forall obj s, spec_op obj op s = spec_change id f m s) -> GetPeer id w = Some p ->
  fst (run_op op w) = Ok tt /\ GetPeer id (snd (run_op op w)) = Some (f p) /\
  (forall j, j <> id -> GetPeer j (snd (run_op op w)) = GetPeer j w).
Proof.
  intros Hop Hk Hs Hp. destruct (refine_change op w Hop Hk) as (r & w' & Hr & Hsp).
  rewrite Hr. rewrite Hs in Hsp. unfold spec_change in Hsp. cbn [abs s_peers] in Hsp.
  rewrite abs_lookup, Hp in Hsp. injection Hsp as <- Ha _ _. cbn [fst snd].
  split_and!; [done| |].
  - rewrite <- abs_lookup, <- Ha, lookup_alter_eq, abs_lookup, Hp. done.
  - intros j Hj. rewrite <- !abs_lookup, <- Ha. by apply lookup_alter_ne.
Qed.

(** [UpdateScore] of a known peer stores a score between 0 and
    100 for every float64 it is given but NaN, which it stores; the other
    peers keep theirs. *)
Theorem update_score_clamped ch id score w p :
  keyed w -> GetPeer id w = Some p ->
  fst (UpdateScore ch id score w) = Ok tt /\
  (exists p', GetPeer id (snd (UpdateScore ch id score w)) = Some p' /\
     if is_nan score then Score p' = NaN else in_bounds (Score p')) /\
  (forall j, j <> id -> GetPeer j (snd (UpdateScore ch id score w)) = GetPeer j w).
Proof.
  intros Hk Hp.
  destruct (change_get (OpScore ch id score) id (set_Score (clamp score)) (Fail (not_found "PeerRegistry.UpdateScore" id)) w p)
    as (Hr & Hg & Ho); [done..|].
  split_and!; [exact Hr| |exact Ho]. exists (set_Score (clamp score) p). split; [exact Hg|].
  destruct (is_nan score) eqn:Hn; cbn [Score set_Score]; [by destruct score|by apply clamp_bounds].
Qed.

(** On the whole-number scores, where every peer starts
    (50), the float arithmetic is exact: a success adds one up to 100, a
    failure takes five and a timeout three down to 0, so the scores stay whole
    numbers between 0 and 100 for ever. *)
Theorem score_arithmetic ch id w p k :
  keyed w -> GetPeer id w = Some p -> whole (Score p) k ->
  (exists p1, GetPeer id (snd (RecordSuccess ch id w)) = Some p1 /\ whole (Score p1) (Z.min (k + 1) 100)) /\
  (exists p2, GetPeer id (snd (RecordFailure ch id w)) = Some p2 /\ whole (Score p2) (Z.max (k - 5) 0)) /\
  (exists p3, GetPeer id (snd (RecordTimeout ch id w)) = Some p3 /\ whole (Score p3) (Z.max (k - 3) 0)).
Proof.
  intros Hk Hp [Hs Hb]. pose proof (score_step_all k Hb) as Hst. unfold score_step in Hst.
  rewrite !andb_true_iff, !bool_decide_eq_true in Hst. destruct Hst as [[H1s H2s] H3s].
  split_and!.
  - edestruct (change_get (OpSuccess ch id) id) as (_ & Hg & _); [done|done|reflexivity|exact Hp|].
    eexists. split; [exact Hg|]. cbn [Score set_LastSeen set_Score]. rewrite Hs. split; [exact H1s|lia].
  - edestruct (change_get (OpFailure ch id) id) as (_ & Hg & _); [done|done|reflexivity|exact Hp|].
    eexists. split; [exact Hg|]. cbn [Score set_LastSeen set_Score]. rewrite Hs. split; [exact H2s|lia].
  - edestruct (change_get (OpTimeout ch id) id) as (_ & Hg & _); [done|done|reflexivity|exact Hp|].
    eexists. split; [exact Hg|]. cbn [Score set_LastSeen set_Score]. rewrite Hs. split; [exact H3s|lia].
Qed.

(** All registered peers. *)
Definition all_peers w : list Peer := (map_to_list (abs_peers w)).*2.

Lemma all_peers_get w p : p ∈ all_peers w <-> exists id, GetPeer id w = Some p.
Proof.
  unfold all_peers. rewrite list_elem_of_fmap. split.
  - intros ([id p'] & -> & Hin). apply elem_of_map_to_list in Hin. rewrite abs_lookup in Hin. by exists id.
  - intros [id Hg]. exists (id, p). split; [done|]. apply elem_of_map_to_list. by rewrite abs_lookup.
Qed.

(** The list forms collect the iterators; a loop over [PeersByScore] that stops at
    the first peer a test accepts has visited the best peers up to it. *)
Lemma iterators_collect ch w :
  Peers ch w (fun p acc => (Ok true, acc ++ [p])) [] = (Ok tt, ListPeers ch w) /\
  ConnectedPeers ch w (fun p acc => (Ok true, acc ++ [p])) [] = (Ok tt, GetConnectedPeers ch w) /\
  AllowedPublicKeys ch w (fun k acc => (Ok true, acc ++ [k])) [] = (Ok tt, ListAllowedPublicKeys ch w) /\
  forall ok : Peer -> bool, PeersByScore ch w (fun p acc => (Ok (negb (ok p)), acc ++ [p])) [] =
    (Ok tt, match list_find (fun p => negb (ok p) = false) (GetPeersByScore ch w) with
            | Some (n, _) => take (S n) (GetPeersByScore ch w)
            | None => GetPeersByScore ch w
            end).
Proof.
  split_and!; [apply each_collects..|]. intros ok. apply (each_takes (fun p => negb (ok p)) _ []).
Qed.

(** [GetPeersByScore] returns every registered peer once, in
    non-increasing order of score, whatever the order of the map, provided no
    score is NaN. *)
Theorem peers_by_score ch w :
  (forall id p, GetPeer id w = Some p -> is_nan (Score p) = false) ->
  GetPeersByScore ch w ≡ₚ all_peers w /\
  StronglySorted (fun a b => fle (Score b) (Score a) = true) (GetPeersByScore ch w).
Proof.
  intros Hn. unfold GetPeersByScore.
  assert (Hperm : SortFunc cmp_score_desc (peers_in_order ch w) ≡ₚ all_peers w).
  { rewrite SortFunc_perm. apply peers_in_order_perm. }
  split; [done|]. set (P := fun p : Peer => is_nan (Score p) = false).
  assert (HP : Forall P (peers_in_order ch w)).
  { apply Forall_forall. intros p Hin. rewrite (peers_in_order_perm ch w) in Hin.
    apply all_peers_get in Hin as [id Hg]. by eapply Hn. }
  apply (SortFunc_sorted cmp_score_desc P); [| | |exact HP].
  - intros a b. rewrite !cmp_score_desc_float. apply cmp_float_opp.
  - intros a b c Ha Hb Hc. rewrite !cmp_score_desc_float. intros. by apply (cmp_float_trans _ (Score b)).
  - intros a b Ha Hb. rewrite cmp_score_desc_float. by apply cmp_float_le.
Qed.

Lemma length_all_peers w : keyed w -> len (all_peers w) = Count w.
Proof.
  intros Hk. unfold all_peers, len, Count. rewrite length_fmap, length_map_to_list.
  rewrite <- !(size_dom (D := gset string)). do 2 f_equal. apply set_eq. intros id.
  rewrite !elem_of_dom. by apply abs_is_Some.
Qed.

(** Peers paired with their distance, sorted by it. *)
Lemma nearby_sorted lat lon hop ch w :
  let ns := nearby_score lat lon hop in
  (forall p, p ∈ all_peers w -> is_nan (ns p) = false) ->
  StronglySorted (fun a b : Peer * float64 => fle (ns a.1) (ns b.1) = true)
    (SortFunc cmp_scored ((fun p => (p, ns p)) <$> peers_in_order ch w)).
Proof.
  intros ns Hn. apply (SortFunc_sorted cmp_scored (fun a => a.2 = ns a.1 /\ is_nan a.2 = false)).
  - intros a b. apply cmp_float_opp.
  - intros a b c [_ Ha] [_ Hb] [_ Hc]. by apply cmp_float_trans.
  - intros a b [Ea Ha] [Eb Hb] Hle. rewrite <- Ea, <- Eb. by apply cmp_float_le.
  - apply Forall_fmap, Forall_forall. intros p Hp. cbn. split; [done|].
    apply Hn. by rewrite (peers_in_order_perm ch w) in Hp.
Qed.

(** [FindNearby] returns [min(maxResults, Count)] distinct
    registered peers in non-decreasing order of distance, and no peer it leaves
    out is closer than one it returns, provided no distance is NaN; it never
    fails. *)
Theorem find_nearby ch lat lon hop n w :
  keyed w -> 0 <= n ->
  (forall id p, GetPeer id w = Some p -> is_nan (nearby_score lat lon hop p) = false) ->
  exists out rest, FindNearby ch lat lon hop n w = Ok out /\
    out ++ rest ≡ₚ all_peers w /\ len out = Z.min n (Count w) /\
    StronglySorted (fun a b => fle (nearby_score lat lon hop a) (nearby_score lat lon hop b) = true) out /\
    forall a b, a ∈ out -> b ∈ rest -> fle (nearby_score lat lon hop a) (nearby_score lat lon hop b) = true.
Proof.
  intros Hk Hpos Hn. pose proof (length_all_peers w Hk) as Hlen. unfold FindNearby. case_decide as Hc.
  { exists [], (all_peers w). split_and!; try done; [|constructor|by intros ? ? ?%not_elem_of_nil].
    rewrite len_nil. unfold Count. lia. }
  pose proof (nearby_sorted lat lon hop ch w) as Hs. cbv zeta in Hs.
  set (sorted := SortFunc cmp_scored _) in *.
  assert (Hperm : fst <$> sorted ≡ₚ all_peers w).
  { unfold sorted. rewrite SortFunc_perm, <- list_fmap_compose, list_fmap_id. apply peers_in_order_perm. }
  assert (Hl : len sorted = Count w).
  { rewrite <- Hlen. unfold len. rewrite <- Hperm. by rewrite length_fmap. }
  specialize (Hs ltac:(intros p [id Hg]%all_peers_get; by eapply Hn)).
  set (k := Z.to_nat (Z.min n (len sorted))). rewrite <- (take_drop k sorted) in Hs.
  apply StronglySorted_app in Hs as (Hcross & Htake & _).
  exists (fst <$> take k sorted), (fst <$> drop k sorted). split_and!.
  - done.
  - by rewrite <- fmap_app, take_drop.
  - unfold len. rewrite length_fmap, length_take. unfold k, len in *. lia.
  - by eapply StronglySorted_fmap; [|exact Htake].
  - intros a b Ha Hb. apply list_elem_of_fmap in Ha as (a' & -> & Ha).
    apply list_elem_of_fmap in Hb as (b' & -> & Hb). by apply Hcross.
Qed.
End Select.
