(* ===== verification/PeerPersist.v ===== *)
(** * Persistence of the peer registry (src/go/node/peer.go)

    What the registry relies on from the file system and the JSON encoder, and
    what it gives for it: the peers file is replaced atomically, a closed
    registry is found again by the next process, the debounced saver owes a
    save for every unsaved change, and the cases in which data is lost. *)

From Stdlib Require Import SpecFloat.
From S2P Require Import Prelude Float64 PeerName Peer PeerProofs PeerSelect.

(** ** Laws of the interfaces *)

(** [contents s p] is what a reader of file [p] would get.  A write may fail
    half-way and leave anything in the file it writes; a rename replaces its
    target or leaves it alone. *)
Class FSLaws (FS : Type) `{FileSystem FS} : Type := {
  contents : FS -> string -> option string;
  fs_EnsureDir d s q : contents (snd (EnsureDir d s)) q = contents s q;
  fs_Write_ok p d s s' : Write p d s = (None, s') -> contents s' p = Some d;
  fs_Write_frame p d s q : q <> p -> contents (snd (Write p d s)) q = contents s q;
  fs_Rename_ok a b s s' : a <> b -> Rename a b s = (None, s') -> contents s' b = contents s a;
  fs_Rename_fail a b s s' e : a <> b -> Rename a b s = (Some e, s') -> contents s' b = contents s b;
  fs_Rename_frame a b s q : q <> a -> q <> b -> contents (snd (Rename a b s)) q = contents s q;
  fs_Delete_frame p s q : q <> p -> contents (snd (Delete p s)) q = contents s q;
  fs_Read p s d s' : Read p s = (inr d, s') -> contents s p = Some d /\ contents s' = contents s
}.

(** What is stored of a peer: [Connected] is not. *)
Definition persisted (p : Peer) : Peer := set_Connected false p.

(** Encoded peers are decoded as they were, but for [Connected], when the
    encoder can represent them ([json_safe]: valid UTF-8 and finite numbers). *)
Class JSONLaws `{JSON} : Type := {
  json_safe : Peer -> Prop;
  json_persisted p : json_safe p -> json_safe (persisted p);
  json_roundtrip ps d :
    Forall json_safe ps -> marshalPeers ps = inr d ->
    unmarshalPeers d = inr (Some <$> (persisted <$> ps))
}.

Lemma string_length_app (a b : string) : String.length (a ++ b) = (String.length a + String.length b)%nat.
Proof. induction a as [|x a IH]; [done|]. change (S (String.length (a ++ b)) = S (String.length a + String.length b)). by f_equal. Qed.

(** A file name and a longer one with it as a prefix differ. *)
Lemma suffix_ne (p e : string) : e <> ""%string -> (p ++ e)%string <> p.
Proof.
  intros He Heq. apply (f_equal String.length) in Heq. rewrite string_length_app in Heq.
  destruct e; [done|]. cbn in Heq. lia.
Qed.

Section Persist.
Context `{KDLib} `{JSONLaws} {FS : Type} `{FSLaws FS}.
Implicit Types (w : World FS) (ch : Choice).

Definition file w : string -> option string := contents (fs w).

Lemma on_fs_fs f w e w' : on_fs f w = (e, w') -> f (fs w) = (e, fs w') /\ heap w' = heap w /\ reg w' = reg w.
Proof. unfold on_fs. destruct (f (fs w)) as [e' s]. by intros [= <- <-]. Qed.

(** The write-then-rename of a file [target] through [target ++ ".tmp"]. *)
Lemma saveNow_files ch w r w' :
  saveNow ch w = (r, w') ->
  let tmp := (path (reg w) ++ ".tmp")%string in
  (forall q, q <> path (reg w) -> q <> tmp -> file w' q = file w q) /\
  match r with
  | Ok _ => exists d, marshalPeers (peers_in_order ch w) = inr d /\ file w' (path (reg w)) = Some d
  | Fail _ => file w' (path (reg w)) = file w (path (reg w))
  | _ => False
  end.
Proof.
  intros Hs tmp. assert (Htmp : tmp <> path (reg w)) by (by apply suffix_ne).
  unfold saveNow in Hs. unfold file.
  destruct (on_fs (EnsureDir _) w) as [e1 w1] eqn:Hf1. apply on_fs_fs in Hf1 as (Hf1 & Hh1 & Hr1).
  pose proof (fs_EnsureDir (PathDir (path (reg w))) (fs w)) as Hc1. rewrite Hf1 in Hc1. cbn [snd] in Hc1.
  destruct e1; [by injection Hs as <- <-; split; [intros; apply Hc1|apply Hc1]|].
  assert (Ho : peers_in_order ch w1 = peers_in_order ch w) by (unfold peers_in_order; by rewrite Hh1, Hr1).
  rewrite Ho, Hr1 in Hs. destruct (marshalPeers (peers_in_order ch w)) as [e2|d] eqn:Hm.
  { injection Hs as <- <-. split; [intros; apply Hc1|apply Hc1]. }
  fold tmp in Hs. destruct (on_fs (Write tmp d) w1) as [e2 w2] eqn:Hf2. apply on_fs_fs in Hf2 as (Hf2 & Hh2 & Hr2).
  assert (Hc2 : forall q, q <> tmp -> contents (fs w2) q = contents (fs w) q).
  { intros q Hq. rewrite <- Hc1, <- (fs_Write_frame tmp d (fs w1) q Hq), Hf2. done. }
  destruct e2; [injection Hs as <- <-; split; [by intros; apply Hc2|by apply Hc2]|].
  rewrite Hr2, Hr1 in Hs. destruct (on_fs (Rename tmp (path (reg w))) w2) as [e3 w3] eqn:Hf3.
  apply on_fs_fs in Hf3 as (Hf3 & Hh3 & Hr3).
  assert (Hc3 : forall q, q <> tmp -> q <> path (reg w) -> contents (fs w3) q = contents (fs w) q).
  { intros q Hq Hq'. rewrite <- Hc2, <- (fs_Rename_frame tmp (path (reg w)) (fs w2) q Hq Hq'), Hf3 by done. done. }
  destruct e3; injection Hs as <- <-.
  - assert (Hd : forall q, q <> tmp -> contents (fs (snd (on_fs (Delete tmp) w3))) q = contents (fs w3) q).
    { intros q Hq. unfold on_fs. rewrite <- (fs_Delete_frame tmp (fs w3) q Hq). by destruct (Delete tmp (fs w3)). }
    split; [intros; rewrite Hd; auto|]. rewrite Hd, <- Hc2 by done. by eapply fs_Rename_fail.
  - split; [auto|]. exists d. split; [done|].
    rewrite (fs_Rename_ok _ _ _ _ Htmp Hf3). by eapply fs_Write_ok.
Qed.

(** C33 (safety): saving replaces the peers file as a whole or not at all: on
    success it is the encoding of exactly the current peers, on any error, in
    whichever step, it is what it was before; no other file but the temporary
    one is touched, and the registry itself is unchanged. *)
Theorem save_atomic ch w r w' :
  saveNow ch w = (r, w') ->
  abs w' = abs w /\
  (forall q, q <> path (reg w) -> q <> (path (reg w) ++ ".tmp")%string -> file w' q = file w q) /\
  match r with
  | Ok _ => exists ps d, ps ≡ₚ all_peers w /\ marshalPeers ps = inr d /\ file w' (path (reg w)) = Some d
  | Fail _ => file w' (path (reg w)) = file w (path (reg w))
  | _ => False
  end.
Proof.
  intros Hs. destruct (saveNow_files ch w r w' Hs) as [Hf Hr].
  destruct (saveNow_only ch w) as [Ho _]. rewrite Hs in Ho. cbn [snd] in Ho.
  split_and!; [by apply only_fs_abs|done|]. destruct r as [?|?|?|]; try done.
  destruct Hr as (d & Hm & Hd). exists (peers_in_order ch w), d.
  split_and!; try done. apply peers_in_order_perm.
Qed.

(** ** Loading what was saved *)

Lemma alloc_peers_spec ps h :
  exists ls h', alloc_peers (Some <$> ps) h = (Some <$> ls, h') /\ h ⊆ h' /\
    Forall2 (fun l p => h' !! l = Some p) ls ps.
Proof.
  revert h. induction ps as [|p ps IH]; intros h; cbn [fmap list_fmap alloc_peers].
  - by exists [], h.
  - set (l := fresh (dom h)). destruct (IH (<[l := p]> h)) as (ls & h' & Heq & Hsub & Hall).
    fold l. rewrite Heq. exists (l :: ls), h'. split; [done|].
    assert (Hl : h !! l = None) by (apply not_elem_of_dom, is_fresh).
    split.
    + etrans; [by apply insert_subseteq|done].
    + constructor; [|done]. eapply lookup_weaken; [|exact Hsub]. by rewrite lookup_insert_eq.
Qed.

Lemma register_loaded_spec ls ps w :
  Forall2 (fun l p => heap w !! l = Some p) ls ps ->
  exists w', register_loaded (Some <$> ls) w = (Ok tt, w') /\
    abs_peers w' = fold_left (fun m p => <[ID p := p]> m) ps (abs_peers w) /\
    heap w' = heap w /\ path (reg w') = path (reg w) /\ fs w' = fs w.
Proof.
  intros Hall. remember (heap w) as h eqn:Hh. revert w Hh.
  induction Hall as [|l p ls ps Hl _ IH]; intros w Hh; cbn [fmap list_fmap register_loaded fold_left].
  - by exists w.
  - rewrite (SR_bind_Ok _ _ w p w) by (unfold deref; by rewrite <- Hh, Hl). reg_step.
    destruct (IH (on_reg (fun r => set_peers (<[ID p := l]> (peers r)) r) w) Hh) as (w' & -> & Ha & Hrest).
    exists w'. split; [done|]. rewrite Ha. rewrite (abs_store w (ID p) l p) by (by rewrite <- Hh). done.
Qed.

(** Registering peers with distinct IDs gives the map of them. *)
Lemma fold_insert_lookup ps (m : gmap string Peer) id :
  NoDup (ID <$> ps) ->
  fold_left (fun m p => <[ID p := p]> m) ps m !! id =
    match list_find (fun p => ID p = id) ps with Some (_, p) => Some p | None => m !! id end.
Proof.
  revert m. induction ps as [|p ps IH]; intros m Hnd; cbn [fold_left list_find]; [done|].
  apply NoDup_cons in Hnd as [Hni Hnd]. rewrite IH by done. case_decide as Hid.
  - destruct (list_find _ ps) as [[i q]|] eqn:Hf.
    + apply list_find_Some in Hf as (Hq & Hqid & _). destruct Hni. rewrite Hid, <- Hqid.
      apply list_elem_of_fmap. exists q. split; [done|]. by eapply list_elem_of_lookup_2.
    + subst id. by rewrite lookup_insert_eq.
  - destruct (list_find _ ps) as [[i q]|]; cbn; [done|]. by rewrite lookup_insert_ne.
Qed.

(** Any listing of the peers' records rebuilds the map. *)
Lemma fold_insert_peers w ps :
  keyed w -> ps ≡ₚ persisted <$> all_peers w ->
  fold_left (fun m p => <[ID p := p]> m) ps ∅ = persisted <$> abs_peers w.
Proof.
  intros Hk Hps.
  assert (Hin : forall p, p ∈ ps <-> exists id q, GetPeer id w = Some q /\ p = persisted q).
  { intros p. rewrite Hps, list_elem_of_fmap. setoid_rewrite all_peers_get. naive_solver. }
  assert (Hnd : NoDup (ID <$> ps)).
  { rewrite Hps, <- list_fmap_compose. exact (abs_ids_NoDup w Hk). }
  apply map_eq. intros id. rewrite fold_insert_lookup by done. rewrite lookup_fmap, abs_lookup.
  destruct (list_find _ ps) as [[i p]|] eqn:Hf.
  - apply list_find_Some in Hf as (Hp & Hid & _).
    apply list_elem_of_lookup_2, Hin in Hp as (id' & q & Hq & ->). cbn in Hid.
    rewrite (keyed_get w id' q) in Hid by done. subst id'. by rewrite Hq.
  - apply list_find_None in Hf. destruct (GetPeer id w) as [q|] eqn:Hq; [|done]. exfalso.
    rewrite Forall_forall in Hf. apply (Hf (persisted q)); [apply Hin; by exists id, q|].
    cbn. by apply (keyed_get w).
Qed.

Lemma loadKeys_ok w : exists w', best_effort loadAllowedPublicKeys w = (Ok tt, w').
Proof.
  unfold best_effort, loadAllowedPublicKeys. destruct (negb _); [by eexists|].
  destruct (Read _ _) as [[?|c] ?]; [by eexists|]. destruct (unmarshalKeys c); by eexists.
Qed.

(** A registry opened on a file that encodes the peers of [w]. *)
Lemma new_from_file ch p h s s' w ps d :
  keyed w -> ps ≡ₚ all_peers w -> Forall json_safe ps -> marshalPeers ps = inr d ->
  Read p s = (inr d, s') ->
  exists w', NewPeerRegistryWithPath ch p h s = (Ok tt, w') /\
    abs_peers w' = persisted <$> abs_peers w.
Proof.
  intros Hk Hps Hsafe Hm Hrd. unfold NewPeerRegistryWithPath.
  destruct (alloc_peers_spec (persisted <$> ps) h) as (ls & h' & Hal & _ & Hall).
  destruct (register_loaded_spec ls (persisted <$> ps) (mkWorld h' (set_peers ∅ (empty_registry p)) s') Hall)
    as (w1 & Hr1 & Ha1 & Hh1 & _).
  assert (Hload : load (mkWorld h (empty_registry p) s) = (Ok tt, w1)).
  { unfold load. cbn [reg fs heap path empty_registry]. rewrite Hrd, (json_roundtrip ps d Hsafe Hm).
    by rewrite Hal. }
  rewrite (SR_bind_Ok _ _ _ tt w1) by (by rewrite Hload).
  assert (Ha : abs_peers w1 = persisted <$> abs_peers w).
  { rewrite Ha1. unfold abs_peers at 1. cbn [reg peers set_peers]. rewrite omap_empty.
    apply fold_insert_peers; [done|]. by rewrite Hps. }
  destruct (loadKeys_same w1) as [Hh2 Hp2]. rewrite <- best_effort_snd in Hh2, Hp2.
  destruct (loadKeys_ok w1) as [w2 Hw2]. rewrite Hw2 in Hh2, Hp2. cbn [snd] in Hh2, Hp2. sr_step Hw2. rewrite rebuild_eq.
  eexists. split; [done|]. rewrite <- Ha. unfold abs_peers. cbn [heap reg on_reg peers set_kdTree].
  by rewrite Hh2, Hp2.
Qed.

(** C31 (roundtrip): when [Close] of a registry with unsaved changes succeeds, a
    registry opened later on the same path, by any process, holds exactly the
    same peers with the same fields, all of them disconnected. *)
Theorem restart_roundtrip ch ch' w w1 h d s' :
  keyed w -> dirty (reg w) = true -> Forall json_safe (all_peers w) ->
  Close ch w = (Ok tt, w1) -> Read (path (reg w)) (fs w1) = (inr d, s') ->
  exists w2, NewPeerRegistryWithPath ch' (path (reg w)) h (fs w1) = (Ok tt, w2) /\
    forall id, GetPeer id w2 = persisted <$> GetPeer id w.
Proof.
  intros Hk Hd Hsafe Hc Hrd. unfold Close in Hc.
  erewrite SR_bind_Ok in Hc; [|reflexivity]. erewrite SR_bind_Ok in Hc; [|reflexivity].
  cbn [reg on_reg dirty set_stopped] in Hc. rewrite Hd in Hc.
  set (w0 := on_reg (set_save false false) (on_reg (set_stopped true) w)) in *.
  destruct (saveNow_files ch w0 (Ok tt) w1 Hc) as [_ (d' & Hm & Hf)].
  change (path (reg w0)) with (path (reg w)) in Hf.
  destruct (fs_Read _ _ _ _ Hrd) as [Hd' _]. unfold file in Hf. rewrite Hf in Hd'. injection Hd' as ->.
  change (peers_in_order ch w0) with (peers_in_order ch w) in Hm.
  destruct (new_from_file ch' (path (reg w)) h (fs w1) s' w (peers_in_order ch w) d Hk) as (w2 & Hn & Ha).
  - apply peers_in_order_perm.
  - by rewrite (peers_in_order_perm ch w).
  - done.
  - done.
  - exists w2. split; [done|]. intros id. by rewrite <- !abs_lookup, Ha, lookup_fmap.
Qed.

(** ** The debounced saver *)

(** What a process that opened the file now would hold. *)
Definition loaded (c : option string) : option (gmap string Peer) :=
  match c with
  | None => Some ∅
  | Some d =>
      match unmarshalPeers d with
      | inl _ => Some ∅
      | inr ps => (fun ps => fold_left (fun m p => <[ID p := p]> m) ps ∅) <$> mapM id ps
      end
  end.
Definition disk_agrees w : Prop := loaded (file w (path (reg w))) = Some (persisted <$> abs_peers w).

(** Calls of the interface that can change the registry. *)
Definition is_api (op : reg_op) : bool :=
  match op with OpTimer _ | OpClose _ => false | _ => true end.

(** Such a call without its last part, [r.save()], which comes after [r.mu] is
    released; and whether there is that part. *)
Definition unmarked w : World FS := on_reg (set_save false false) w.
Definition change (op : reg_op) w : World FS :=
  on_reg (set_save (dirty (reg w)) (saveTimer (reg w))) (snd (run_op op (unmarked w))).
Definition schedules (op : reg_op) w : bool := dirty (reg (snd (run_op op (unmarked w)))).

(** The registry with the goroutines around its saver: the calls that have made
    their change and not marked it yet, the timers whose function has not started
    (it runs once, also when [Close] came too late to stop it), and the saves that
    the timer's function or [Close] have taken on and not made. *)
Record saver : Type := mkSaver {
  sv_world : World FS;
  sv_marks : nat;
  sv_timers : nat;
  sv_saves : nat
}.

(** The first part of [Close], up to the release of [saveMu]. *)
Definition closeTake w : World FS := snd (timerTake (on_reg (set_stopped true) w)).

(** One critical section of a call, of the timer's function or of [Close], in any
    order; every save is made in one step and succeeds.  [d_object] is the program
    at work on objects that it has not handed over. *)
Inductive dstep : saver -> saver -> Prop :=
| d_change op w m t n :
    is_api op = true -> dstep (mkSaver w m t n) (mkSaver (change op w) (if schedules op w then S m else m) t n)
| d_mark w m t n :
    dstep (mkSaver w (S m) t n) (mkSaver (snd (scheduleSave w)) m (if saveTimer (reg w) then t else S t) n)
| d_take w m t n :
    dstep (mkSaver w m (S t) n) (mkSaver (snd (timerTake w)) m t (if dirty (reg w) then S n else n))
(** [Close] stops the timer in time, or there is none, or its function has started. *)
| d_close_stop w m t n :
    saveTimer (reg w) = true ->
    dstep (mkSaver w m (S t) n) (mkSaver (closeTake w) m t (if dirty (reg w) then S n else n))
| d_close w m t n :
    dstep (mkSaver w m t n) (mkSaver (closeTake w) m t (if dirty (reg w) then S n else n))
| d_save ch w w' m t n :
    Forall json_safe (all_peers w) -> saveNow ch w = (Ok tt, w') -> dstep (mkSaver w m t (S n)) (mkSaver w' m t n)
| d_object l p w m t n :
    (forall id, peers (reg w) !! id <> Some l) -> dstep (mkSaver w m t n) (mkSaver (on_heap <[l := p]> w) m t n).

Definition paths_ok w : Prop := allowlistPath (reg w) = (path (reg w) ++ ".allowlist.json")%string.

(** A change either schedules a save or is invisible on disk. *)
Definition owes w w' : Prop :=
  path (reg w') = path (reg w) /\ allowlistPath (reg w') = allowlistPath (reg w) /\
  ((dirty (reg w') = true /\ saveTimer (reg w') = true) \/
   (dirty (reg w') = dirty (reg w) /\ saveTimer (reg w') = saveTimer (reg w) /\
    file w' (path (reg w)) = file w (path (reg w)) /\
    persisted <$> abs_peers w' = persisted <$> abs_peers w)).

Lemma owes_refl w : owes w w.
Proof. unfold owes. split_and!; try done. by right. Qed.

Lemma owes_finish ch w w1 : path (reg w1) = path (reg w) -> allowlistPath (reg w1) = allowlistPath (reg w) ->
  owes w (finish ch w1).
Proof. intros Hp Ha. unfold owes, finish. cbn. split_and!; try done. by left. Qed.

Lemma saveKeys_files ch w w' :
  paths_ok w -> snd (saveAllowedPublicKeys ch w) = w' -> file w' (path (reg w)) = file w (path (reg w)).
Proof.
  intros Hpo <-. unfold paths_ok in Hpo.
  assert (Hne1 : path (reg w) <> allowlistPath (reg w)) by (rewrite Hpo; by apply not_eq_sym, suffix_ne).
  assert (Hne2 : path (reg w) <> (allowlistPath (reg w) ++ ".tmp")%string).
  { intros Heq. apply (f_equal String.length) in Heq. rewrite Hpo, !string_length_app in Heq. cbn in Heq. lia. }
  unfold saveAllowedPublicKeys, file.
  destruct (on_fs (EnsureDir _) w) as [e1 w1] eqn:Hf1. apply on_fs_fs in Hf1 as (Hf1 & Hh1 & Hr1).
  pose proof (fs_EnsureDir (PathDir (allowlistPath (reg w))) (fs w) (path (reg w))) as Hc1. rewrite Hf1 in Hc1.
  destruct e1; [exact Hc1|]. destruct (marshalKeys _) as [|d]; [exact Hc1|]. rewrite Hr1.
  destruct (on_fs (Write _ d) w1) as [e2 w2] eqn:Hf2. apply on_fs_fs in Hf2 as (Hf2 & Hh2 & Hr2).
  pose proof (fs_Write_frame _ d (fs w1) _ Hne2) as Hc2. rewrite Hf2 in Hc2. cbn [snd] in Hc1, Hc2.
  rewrite Hc1 in Hc2. destruct e2; [exact Hc2|]. rewrite Hr2, Hr1.
  destruct (on_fs (Rename _ _) w2) as [e3 w3] eqn:Hf3. apply on_fs_fs in Hf3 as (Hf3 & _ & _).
  pose proof (fs_Rename_frame _ _ (fs w2) _ Hne2 Hne1) as Hc3. rewrite Hf3, Hc2 in Hc3. cbn [snd] in Hc3.
  destruct e3; [|exact Hc3]. cbn [snd]. unfold on_fs.
  pose proof (fs_Delete_frame _ (fs w3) _ Hne2) as Hc4. rewrite Hc3 in Hc4. rewrite <- Hc4.
  by destruct (Delete _ (fs w3)).
Qed.

Lemma owes_keys ch w w1 :
  paths_ok w -> heap w1 = heap w -> path (reg w1) = path (reg w) -> allowlistPath (reg w1) = allowlistPath (reg w) ->
  dirty (reg w1) = dirty (reg w) -> saveTimer (reg w1) = saveTimer (reg w) -> peers (reg w1) = peers (reg w) ->
  fs w1 = fs w ->
  owes w (snd (saveAllowedPublicKeys ch w1)).
Proof.
  intros Hpo Hh Hp Ha Hd Ht Hps Hfs. destruct (saveKeys_only ch w1) as [Hh' Hr'].
  unfold owes. rewrite Hr', Hp, Ha, Hd, Ht. split_and!; try done. right. split_and!; try done.
  - rewrite <- Hp. rewrite (saveKeys_files ch w1 _); [|by unfold paths_ok in *; congruence|done].
    unfold file. by rewrite Hfs, Hp.
  - unfold abs_peers. by rewrite Hh', Hr', Hh, Hps.
Qed.

Lemma owes_op op w : is_api op = true -> keyed w -> paths_ok w -> owes w (snd (run_op op w)).
Proof.
  intros Hop Hk Hpo. destruct op; try discriminate Hop; cbn [run_op].
  1: destruct (add_shape ch l w Hk) as [-> | (w1 & -> & _ & ? & ?)]; [apply owes_refl|by apply owes_finish].
  1: destruct (update_shape ch l w Hk) as [-> | (w1 & -> & _ & ? & ?)]; [apply owes_refl|by apply owes_finish].
  1: { unfold RemovePeer. reg_step. case_decide; [|apply owes_refl]. reg_step. rewrite finish_eq. by apply owes_finish. }
  all: unfold UpdateMetrics, UpdateScore, SetConnected, MarkSeen, RecordSuccess, RecordFailure, RecordTimeout;
    try (reg_step; destruct (peers (reg w) !! id) as [l|] eqn:Hl; [|apply owes_refl]).
  all: try (repeat reg_step; rewrite finish_eq; by apply owes_finish).
  - destruct c; do 2 reg_step.
    + rewrite save_eq. unfold owes. cbn. split_and!; try done. by left.
    + unfold owes. cbn [snd mret SR_ret reg on_heap]. split_and!; try done. right. split_and!; try done.
      rewrite (abs_alter w _ id l) by done. apply map_eq. intros j. rewrite !lookup_fmap.
      destruct (decide (j = id)) as [->|]; [|by rewrite lookup_alter_ne].
      rewrite lookup_alter_eq. by destruct (abs_peers w !! id).
  - reg_step. rewrite save_eq. unfold owes. cbn. split_and!; try done. by left.
  - unfold owes. cbn. split_and!; try done. by right.
  - by apply owes_keys.
  - by apply owes_keys.
Qed.

(** The calls are their two parts, one after the other. *)
Lemma saveKeys_flags ch w d t :
  saveAllowedPublicKeys ch (on_reg (set_save d t) w) =
  (fst (saveAllowedPublicKeys ch w), on_reg (set_save d t) (snd (saveAllowedPublicKeys ch w))).
Proof.
  unfold saveAllowedPublicKeys, on_fs. cbn [reg on_reg allowlistPath allowedPublicKeys set_save fs].
  destruct (EnsureDir _ (fs w)) as [[e|] s1]; [done|]. destruct (marshalKeys _) as [|d1]; [done|]. cbn.
  destruct (Write _ d1 _) as [[e|] s2]; [done|]. cbn. destruct (Rename _ _ _) as [[e|] s3]; [|done]. cbn.
  by destruct (Delete _ _).
Qed.

Lemma op_flags op w : is_api op = true ->
  (forall d t, snd (run_op op (on_reg (set_save d t) w)) = on_reg (set_save true true) (snd (run_op op w))) \/
  (forall d t, snd (run_op op (on_reg (set_save d t) w)) = on_reg (set_save d t) (snd (run_op op w))).
Proof.
  intros Hop. destruct op; try discriminate Hop; cbn [run_op];
    unfold AddPeer, UpdatePeer, RemovePeer, UpdateMetrics, UpdateScore, SetConnected, MarkSeen, RecordSuccess, RecordFailure, RecordTimeout,
      AllowPublicKey, RevokePublicKey, deref, assign, gets, modify, lift, fail; cbv [mbind SR_bind mret SR_ret];
    cbn [heap on_reg reg peers set_save];
    try (destruct (peers (reg w) !! id) as [l|]; [|by right]; left; intros d t; rewrite ?rebuild_eq; cbn [fst snd]; by rewrite !save_eq).
  - destruct (heap w !! l) as [p|]; [|by right]. case_decide; [by right|]. destruct (validatePeerName (Name p)) as [[]| | |]; try by right.
    cbn [reg on_reg peers set_save].
    destruct (decide (is_Some (peers (reg w) !! ID p))); [by right|]. left. intros d t.
    destruct (IsZero (AddedAt p)), (feq (Score p) (float_of_int 0)); rewrite !rebuild_eq; cbn [fst snd]; by rewrite !save_eq.
  - destruct (heap w !! l) as [p|]; [|by right]. cbn [reg on_reg peers set_save]. case_decide; [|by right].
    left. intros d t. rewrite !rebuild_eq. cbn [fst snd]. by rewrite !save_eq.
  - case_decide; [|by right]. left. intros d t. rewrite !rebuild_eq. cbn [fst snd]. by rewrite !save_eq.
  - destruct (peers (reg w) !! id) as [l|]; [|by right]. destruct c; [left|by right]. intros d t. by rewrite !save_eq.
  - by right.
  - right. intros d t. set (w1 := on_reg (fun r => set_allowed (<[key := true]> (allowedPublicKeys r)) r) w).
    exact (f_equal snd (saveKeys_flags ch w1 d t)).
  - right. intros d t. set (w1 := on_reg (fun r => set_allowed (delete key (allowedPublicKeys r)) r) w).
    exact (f_equal snd (saveKeys_flags ch w1 d t)).
Qed.

Lemma op_parts op w : is_api op = true ->
  snd (run_op op w) = if schedules op w then snd (scheduleSave (change op w)) else change op w.
Proof.
  intros Hop. assert (Hw : w = on_reg (set_save (dirty (reg w)) (saveTimer (reg w))) w) by (by destruct w as [? [] ?]).
  unfold schedules, change, unmarked. destruct (op_flags op w Hop) as [Hf|Hf]; rewrite !Hf.
  - cbn. rewrite Hw at 1. rewrite Hf. by destruct (saveTimer (reg w)).
  - cbn. rewrite Hw at 1. by rewrite Hf.
Qed.

(** The invariant of the saver. *)
Definition dinv (s : saver) : Prop :=
  let '(mkSaver w m t n) := s in
  keyed w /\ paths_ok w /\ (dirty (reg w) = true -> saveTimer (reg w) = true) /\ (saveTimer (reg w) = true -> (0 < t)%nat) /\
  (disk_agrees w \/ (0 < m)%nat \/ dirty (reg w) = true \/ (0 < n)%nat).

Lemma mapM_Some {A} (l : list A) : mapM id (Some <$> l) = Some l.
Proof. induction l as [|x l IH]; [done|]. cbn in *. by rewrite IH. Qed.

Lemma saved_agrees ch w w' :
  keyed w -> Forall json_safe (all_peers w) -> saveNow ch w = (Ok tt, w') -> disk_agrees w'.
Proof.
  intros Hk Hsafe Hs. destruct (saveNow_files ch w _ w' Hs) as [_ (d & Hm & Hf)].
  destruct (saveNow_only ch w) as [Ho _]. rewrite Hs in Ho. cbn [snd] in Ho. destruct Ho as [Hh Hr].
  unfold disk_agrees, loaded. rewrite Hr, Hf.
  rewrite (json_roundtrip (peers_in_order ch w) d) by (done || by rewrite (peers_in_order_perm ch w)).
  rewrite mapM_Some. cbn [fmap option_fmap option_map]. f_equal.
  rewrite (fold_insert_peers w); [|done|by rewrite (peers_in_order_perm ch w)].
  unfold abs_peers. by rewrite Hh, Hr.
Qed.

Lemma disk_owes w w' : path (reg w') = path (reg w) ->
  file w' (path (reg w)) = file w (path (reg w)) -> persisted <$> abs_peers w' = persisted <$> abs_peers w ->
  disk_agrees w -> disk_agrees w'.
Proof. intros Hp Hf Ha. unfold disk_agrees. by rewrite Hp, Hf, Ha. Qed.

(** A change is counted as not marked yet, or invisible on disk. *)
Lemma change_owes op w : is_api op = true -> keyed w -> paths_ok w ->
  keyed (change op w) /\ paths_ok (change op w) /\
  (schedules op w = true \/ (disk_agrees w -> disk_agrees (change op w))).
Proof.
  intros Hop Hk Hpo. destruct (owes_op op (unmarked w) Hop Hk Hpo) as (Hp & Ha & Ho). split_and!.
  - exact (keyed_op op (unmarked w) Hk).
  - unfold paths_ok in *. cbn. rewrite Ha, Hp. exact Hpo.
  - unfold schedules. destruct Ho as [[Hd _]|(_ & _ & Hf & Hps)]; [by left|right].
    apply (disk_owes w (change op w)); [exact Hp|exact Hf|exact Hps].
Qed.

(** Taking the flag leaves the peers and the files. *)
Lemma taken_dinv w w' m t t' n :
  heap w' = heap w -> fs w' = fs w -> peers (reg w') = peers (reg w) -> path (reg w') = path (reg w) ->
  allowlistPath (reg w') = allowlistPath (reg w) -> dirty (reg w') = false -> saveTimer (reg w') = false ->
  dinv (mkSaver w m t n) -> dinv (mkSaver w' m t' (if dirty (reg w) then S n else n)).
Proof.
  intros Hh Hf Hps Hp Ha Hd Ht (Hk & Hpo & _ & _ & Hdisk). unfold dinv. rewrite Hd, Ht. split_and!; try done.
  - by apply (keyed_same w).
  - unfold paths_ok in *. congruence.
  - destruct (dirty (reg w)); [right; right; right; lia|]. destruct Hdisk as [Hdisk|[Hm|[Hx|Hn]]]; [left|by right; left|done|by right; right; right].
    apply (disk_owes w); [done| |unfold abs_peers; by rewrite Hh, Hps|done]. unfold file. by rewrite Hf.
Qed.

Lemma dinv_step s s' : dstep s s' -> dinv s -> dinv s'.
Proof.
  destruct 1 as [op w m t n Hop|w m t n|w m t n|w m t n Ht|w m t n|ch w w' m t n Hsafe Hs|l p w m t n Hl].
  - intros (Hk & Hpo & Ht & Htt & Hd). destruct (change_owes op w Hop Hk Hpo) as (Hk' & Hpo' & Ho).
    unfold dinv. split_and!; [done|done|exact Ht|exact Htt|]. destruct Ho as [->|Ho]; [right; left; lia|].
    destruct Hd as [Hd|[Hm|[Hx|Hn]]]; [left; by apply Ho|right; left; destruct (schedules op w); lia|by right; right; left|by right; right; right].
  - intros (Hk & Hpo & Ht & Htt & Hd). unfold dinv, scheduleSave, modify. cbn. destruct (saveTimer (reg w)) eqn:Hst;
      (split_and!; [done|done|done|intros; auto with lia|by right; right; left]).
  - by apply taken_dinv.
  - by apply taken_dinv.
  - by apply taken_dinv.
  - intros (Hk & Hpo & Ht & Htt & _). pose proof (saved_agrees ch w w' Hk Hsafe Hs) as Hag.
    destruct (saveNow_only ch w) as [Ho _]. rewrite Hs in Ho. cbn [snd] in Ho.
    pose proof (only_fs_keyed _ _ Ho Hk) as Hk'. destruct Ho as [Hh Hr].
    unfold dinv, paths_ok in *. rewrite Hr. split_and!; auto.
  - intros (Hk & Hpo & Ht & Htt & Hd). unfold dinv. split_and!; [|done|done|done|].
    + intros id l' Hl'. cbn [heap on_heap reg] in *. rewrite lookup_insert_ne; [by apply Hk|].
      intros ->. by apply (Hl id).
    + destruct Hd as [Hd | Hd]; [left|by right]. apply (disk_owes w); try done.
      f_equal. apply map_eq. intros j. unfold abs_peers. cbn [heap on_heap reg]. rewrite !lookup_omap.
      destruct (peers (reg w) !! j) as [l'|] eqn:Hj; [|done]. cbn.
      apply lookup_insert_ne. intros ->. by apply (Hl j).
Qed.

(** C32 (invariant): the critical sections of calls, timer functions and [Close]
    interleave in any order: a call changes the registry and only then marks it
    dirty, a timer's function and [Close] take the mark and only then save, and a
    timer that [Close] stops too late still runs.  As long as the saves that are
    made succeed and do not overlap each other (each is one step), and registered
    objects are changed by the registry alone, no change is lost: a dirty registry
    has a timer to come, and when no call is before its mark, nothing is dirty and
    no save is taken on and not made, a process opening the file would load
    exactly the current peers. *)
Theorem saver_durable w0 w m t n :
  keyed w0 -> paths_ok w0 -> dirty (reg w0) = false -> saveTimer (reg w0) = false -> disk_agrees w0 ->
  rtc dstep (mkSaver w0 0 0 0) (mkSaver w m t n) ->
  (dirty (reg w) = true -> (0 < t)%nat) /\
  (m = 0%nat -> dirty (reg w) = false -> n = 0%nat -> disk_agrees w).
Proof.
  intros Hk Hpo Hd Hst Hag Hr.
  assert (Hinv : dinv (mkSaver w m t n)).
  { refine (rtc_ind_r dinv (mkSaver w0 0 0 0) _ _ _ Hr).
    - unfold dinv. rewrite Hd, Hst. split_and!; try done. by left.
    - intros. by eapply dinv_step. }
  destruct Hinv as (_ & _ & Hdt & Htt & Hdisk). split; [auto|]. intros -> Hd' ->.
  destruct Hdisk as [|[|[|]]]; [done|lia|congruence|lia].
Qed.

(** A change whose debounced save fails is forgotten: the flag is
    already cleared, so a later [Close] reports success without writing, and
    the file still has the contents from before the change. *)
Theorem failed_save_forgotten ch ch' w e :
  dirty (reg w) = true ->
  fst (saveNow ch (on_reg (set_save false false) w)) = Fail e ->
  exists w1 w2, timerFire ch w = (Ok tt, w1) /\ Close ch' w1 = (Ok tt, w2) /\
    file w2 (path (reg w)) = file w (path (reg w)) /\ abs_peers w2 = abs_peers w.
Proof.
  intros Hd Hf. set (w0 := on_reg (set_save false false) w) in *.
  destruct (saveNow ch w0) as [r w1] eqn:Hs. cbn [fst] in Hf. subst r.
  destruct (saveNow_files ch w0 _ w1 Hs) as [_ Hfile]. destruct (saveNow_only ch w0) as [[Hh Hr] _].
  rewrite Hs in Hh, Hr. cbn [snd] in Hh, Hr.
  exists w1, (on_reg (set_save false false) (on_reg (set_stopped true) w1)). split_and!.
  - unfold timerFire. reg_step. unfold timerSave. rewrite Hd. fold w0. by rewrite Hs.
  - unfold Close. do 2 reg_step. cbn [reg on_reg dirty set_stopped]. by rewrite Hr.
  - exact Hfile.
  - unfold abs_peers. cbn [heap reg on_reg peers set_save set_stopped]. by rewrite Hh, Hr.
Qed.

Lemma alloc_null ps h : None ∈ ps -> None ∈ fst (alloc_peers ps h).
Proof.
  revert h. induction ps as [|[p|] ps IH]; intros h Hin; cbn [alloc_peers]; [by apply not_elem_of_nil in Hin| |].
  - apply elem_of_cons in Hin as [|Hin]; [done|]. specialize (IH (<[fresh (dom h) := p]> h) Hin).
    destruct (alloc_peers ps _). by right.
  - destruct (alloc_peers ps h). by left.
Qed.

Lemma register_null ls w : None ∈ ls -> fst (register_loaded ls w) = Panic NilDereference.
Proof.
  revert w. induction ls as [|[l|] ls IH]; intros w Hin; cbn [register_loaded]; [by apply not_elem_of_nil in Hin| |done].
  apply elem_of_cons in Hin as [|Hin]; [done|]. destruct (heap w !! l) as [p|] eqn:Hp.
  - rewrite (SR_bind_Ok _ _ w p w) by (unfold deref; by rewrite Hp). reg_step. by apply IH.
  - cbv [mbind SR_bind deref]. by rewrite Hp.
Qed.

(** Opening a registry on a file whose array holds a [null] panics
    with a nil dereference, unless an error of the reader or decoder hides the
    file: start-up is not best effort for such a file. *)
Theorem null_entry_panics ch p h s s' content ps :
  Read p s = (inr content, s') -> unmarshalPeers content = inr ps -> None ∈ ps ->
  fst (NewPeerRegistryWithPath ch p h s) = Panic NilDereference.
Proof.
  intros Hr Hu Hin. unfold NewPeerRegistryWithPath. set (w0 := mkWorld h (empty_registry p) s).
  assert (Hl : fst (load w0) = Panic NilDereference).
  { unfold load, w0. cbn [reg fs heap path empty_registry]. rewrite Hr, Hu.
    pose proof (alloc_null ps h Hin) as Hn. destruct (alloc_peers ps h) as [ls h']. by apply register_null. }
  cbv [mbind SR_bind]. destruct (load w0) as [r w1]. cbn [fst] in Hl. by rewrite Hl.
Qed.

End Persist.
