(* ===== verification/PeerInstances.v ===== *)
(** * Implementations of the registry's interfaces, and its theorems at work

    A KD-tree that searches its list of points, an encoder and a file system
    in memory with injected faults, each with the laws the registry relies on;
    then the theorems of [PeerProofs], [PeerSelect] and [PeerPersist] on
    concrete registries. *)

From Stdlib Require Import SpecFloat Ascii.
From S2P Require Import Prelude Float64 PeerName Peer PeerProofs PeerSelect PeerPersist.

(** ** Exhaustive nearest-neighbour search *)
Definition distance (a b : list float64) : float64 :=
  SFsqrt prec emax
    (fold_right fadd (float_of_int 0) (zip_with (fun x y => fmul (fsub x y) (fsub x y)) a b)).

Definition closest (target : list float64) (t : list KDPoint) (pt : KDPoint) : bool :=
  forallb (fun q => negb (flt (distance (kd_Coords q) target) (distance (kd_Coords pt) target))) t.

#[export] Instance list_kd : KDLib := {
  KDTree := list KDPoint;
  NewKDTree pts := match pts with [] => inl (NewError "kdtree: no points provided") | _ => inr pts end;
  Nearest t target := List.find (closest target t) t;
  KNearest t target n := take (Z.to_nat n) (SortFunc (fun a b =>
    cmp_float (distance (kd_Coords a) target) (distance (kd_Coords b) target)) t)
}.

Lemma flt_irrefl x : flt x x = false.
Proof. destruct (is_nan x) eqn:Hx; [by destruct x|]. by rewrite flt_fle, fle_refl by done. Qed.

Lemma flt_not_nan x y : flt x y = true -> is_nan x = false /\ is_nan y = false.
Proof. by destruct x, y. Qed.

Lemma flt_trans x y z : flt x y = true -> flt y z = true -> flt x z = true.
Proof.
  intros H1 H2. destruct (flt_not_nan _ _ H1) as [Hx Hy]. destruct (flt_not_nan _ _ H2) as [_ Hz].
  rewrite flt_fle in * by done. rewrite negb_true_iff in *. destruct (fle z x) eqn:Hzx; [|done].
  destruct (fle_total x y Hx Hy) as [Hxy | ?]; [|congruence].
  rewrite (fle_trans z x y) in H2 by done. done.
Qed.

(** A finite list has a minimal element for a strict order. *)
Lemma minimal_exists {A} (R : A -> A -> bool) (l : list A) :
  (forall x, R x x = false) -> (forall x y z, R x y = true -> R y z = true -> R x z = true) ->
  l <> [] -> exists x, x ∈ l /\ forall y, y ∈ l -> R y x = false.
Proof.
  intros Hirr Htr. induction l as [|a [|b l] IH]; intros Hne; [done| |].
  - exists a. split; [by left|]. intros y Hy. apply list_elem_of_singleton in Hy as ->. apply Hirr.
  - destruct IH as (m & Hm & Hmin); [done|]. destruct (R a m) eqn:Ham.
    + exists a. split; [by left|]. intros y Hy. apply elem_of_cons in Hy as [->|Hy]; [apply Hirr|].
      destruct (R y a) eqn:Hya; [|done]. rewrite <- (Hmin y Hy). symmetry. by eapply Htr.
    + exists m. split; [by right|]. intros y Hy. apply elem_of_cons in Hy as [->|Hy]; [done|by apply Hmin].
Qed.

#[export] Instance list_kd_laws : KDLaws.
Proof.
  refine {| EuclideanDistance := distance |}.
  - intros pts Hne _ _. destruct pts; [done|]. by eexists.
  - intros pts t target Hn _ _. destruct pts as [|pt0 pts']; [done|]. injection Hn as <-.
    set (t := pt0 :: pts'). set (d := fun q => distance (kd_Coords q) target).
    destruct (minimal_exists (fun a b => flt (d a) (d b)) t) as (m & Hm & Hmin);
      [intros; apply flt_irrefl|intros ? ? ?; apply flt_trans|done|].
    assert (Hc : closest target t m = true).
    { apply forallb_forall. intros q Hq. apply list_elem_of_In in Hq. apply negb_true_iff. by apply Hmin. }
    change (Nearest (KDLib := list_kd) t target) with (List.find (closest target t) t).
    destruct (List.find (closest target t) t) as [pt|] eqn:Hf.
    + apply find_some in Hf as [Hin Hcl]. exists pt. split_and!; [done|by apply list_elem_of_In|].
      intros q Hq. unfold closest in Hcl. rewrite forallb_forall in Hcl.
      apply negb_true_iff, Hcl. by apply list_elem_of_In.
    + exfalso. apply list_elem_of_In in Hm. rewrite (find_none _ _ Hf m Hm) in Hc. done.
Defined.

(** ** An encoder *)
Fixpoint bits (p : positive) : string :=
  match p with
  | xH => ""
  | xO p => String.String "0"%char (bits p)
  | xI p => String.String "1"%char (bits p)
  end.
Fixpoint unbits (s : string) : positive :=
  match s with
  | String.EmptyString => xH
  | String.String c s => if decide (c = "1"%char) then xI (unbits s) else xO (unbits s)
  end.
Lemma unbits_bits p : unbits (bits p) = p.
Proof. induction p as [p IH|p IH|]; cbn; by rewrite ?IH. Qed.

#[export] Instance float64_countable : Countable float64.
Proof.
  apply (inj_countable'
    (fun x => match x with
              | S754_zero s => inl (inl s) | S754_infinity s => inl (inr s)
              | S754_nan => inr (inl tt) | S754_finite s m e => inr (inr (s, m, e)) end)
    (fun y => match y with
              | inl (inl s) => S754_zero s | inl (inr s) => S754_infinity s
              | inr (inl _) => S754_nan | inr (inr (s, m, e)) => S754_finite s m e end)).
  by intros [].
Defined.

(** The stored fields of a peer, and a peer from them. *)
Definition fields (p : Peer) : list positive :=
  [encode (ID p); encode (Name p); encode (PublicKey p); encode (Address p); encode (Role p);
   encode (AddedAt p); encode (LastSeen p); encode (Latitude p); encode (Longitude p);
   encode (PingMS p); encode (Hops p); encode (GeoKM p); encode (Score p)].
Definition of_fields (l : list positive) : option Peer :=
  match l with
  | [f1; f2; f3; f4; f5; f6; f7; f8; f9; f10; f11; f12; f13] =>
      i ← decode f1; n ← decode f2; k ← decode f3; a ← decode f4; r ← decode f5;
      t ← decode f6; ls ← decode f7; la ← decode f8; lo ← decode f9;
      pm ← decode f10; h ← decode f11; g ← decode f12; s ← decode f13;
      Some (mkPeer i n k a r t ls la lo pm h g s false)
  | _ => None
  end.
Lemma of_fields_fields p : of_fields (fields p) = Some (persisted p).
Proof. unfold fields, of_fields. rewrite !decode_encode. by destruct p. Qed.

#[export] Instance bits_json : JSON := {
  marshalPeers ps := inr (bits (encode (map (fun p => Some (fields p)) ps)));
  unmarshalPeers s :=
    match decode (A := list (option (list positive))) (unbits s) with
    | Some l => inr (map (fun o => o ≫= of_fields) l)
    | None => inl (NewError "invalid character")
    end;
  marshalKeys ks := inr (bits (encode ks));
  unmarshalKeys s :=
    match decode (unbits s) with Some ks => inr ks | None => inl (NewError "invalid character") end
}.

#[export] Instance bits_json_laws : JSONLaws.
Proof.
  refine {| json_safe := fun _ => True |}; [done|].
  intros ps d _ [= <-]. cbn [unmarshalPeers bits_json]. rewrite unbits_bits, decode_encode. f_equal.
  rewrite map_map. induction ps as [|p ps IH]; [done|]. cbn [map fmap list_fmap]. f_equal; [|exact IH].
  cbn [mbind option_bind]. apply of_fields_fields.
Defined.

(** ** A file system in memory

    [failing] lists, call by call, whether a write or a rename fails; a write
    that fails leaves half of the data.  A directory cannot be prepared when it
    holds a file [.readonly]. *)
Record memfs : Type := mkMem { files : gmap string string; failing : list bool }.

Definition io_error : error := NewError "input/output error".
Definition next (s : memfs) : bool * list bool :=
  match failing s with [] => (false, []) | b :: bs => (b, bs) end.

#[export] Instance mem_fs : FileSystem memfs := {
  EnsureDir d s :=
    (if decide (is_Some (files s !! (d ++ "/.readonly")%string)) then Some io_error else None, s);
  Write p d s :=
    let '(b, bs) := next s in
    if b then (Some io_error, mkMem (<[p := String.substring 0 (String.length d / 2) d]> (files s)) bs)
    else (None, mkMem (<[p := d]> (files s)) bs);
  Rename a b s :=
    let '(f, bs) := next s in
    match files s !! a with
    | Some d => if f then (Some io_error, mkMem (files s) bs)
                else (None, mkMem (<[b := d]> (delete a (files s))) bs)
    | None => (Some io_error, mkMem (files s) bs)
    end;
  Delete p s := (None, mkMem (delete p (files s)) (failing s));
  Read p s :=
    match files s !! p with
    | Some d => (inr d, s)
    | None => (inl (NewError "file does not exist"), s)
    end;
  Exists p s := bool_decide (is_Some (files s !! p));
  PathDir p := p
}.

#[export] Instance mem_fs_laws : FSLaws memfs.
Proof.
  refine {| contents := fun s p => files s !! p |}; unfold Write, Rename, Delete, Read, EnsureDir, mem_fs.
  - done.
  - intros p d s s'. destruct (next s) as [[] bs]; intros Heq; [done|]. injection Heq as <-. apply lookup_insert_eq.
  - intros p d s q Hq. destruct (next s) as [[] bs]; by apply lookup_insert_ne.
  - intros a b s s' Hab. destruct (next s) as [f bs]. destruct (files s !! a) as [d|] eqn:Ha; [|done].
    destruct f; intros Heq; [done|]. injection Heq as <-. cbn. by rewrite lookup_insert_eq.
  - intros a b s s' e Hab. destruct (next s) as [f bs]. destruct (files s !! a) as [d|]; [destruct f|];
      intros Heq; try done; by injection Heq as <- <-.
  - intros a b s q Ha Hb. destruct (next s) as [f bs]. destruct (files s !! a) as [d|]; [destruct f|]; try done.
    cbn. by rewrite lookup_insert_ne, lookup_delete_ne.
  - intros p s q Hq. by apply lookup_delete_ne.
  - intros p s d s'. destruct (files s !! p) eqn:Hp; intros Heq; [|done]. by injection Heq as -> <-.
Defined.

(** ** Two peers *)
Definition at_time (t : Z) : Choice :=
  mkChoice t (fun V m => map_to_list m) (fun V m => reflexivity (map_to_list m)).

Definition alice : Peer :=
  mkPeer "alice" "Alice node" "pk-a" "10.0.0.1:9091" "worker" 0 0 (float_of_int 51) (float_of_int 3)
    (float_of_int 20) 2 (float_of_int 100) (float_of_int 0) false.
Definition bob : Peer :=
  mkPeer "bob" "" "pk-b" "10.0.0.2:9091" "dual" 7 7 (float_of_int 0) (float_of_int 0)
    (float_of_int 80) 5 (float_of_int 900) (float_of_int 90) true.

Definition objects : gmap positive Peer := {[ 1%positive := alice; 2%positive := bob ]}.
Definition start (s : memfs) : World memfs := snd (NewPeerRegistryWithPath (at_time 1) "peers.json" objects s).
Definition no_files : memfs := mkMem ∅ [].
Definition w_empty : World memfs := start no_files.
Definition w_alice : World memfs := snd (AddPeer (at_time 10) (Some 1%positive) w_empty).
Definition w_both : World memfs := snd (AddPeer (at_time 11) (Some 2%positive) w_alice).

(** The same registry with another state of the disk. *)
Definition on_disk (s : memfs) (w : World memfs) : World memfs := mkWorld (heap w) (reg w) s.

Lemma pair_of_fst {A B} (x : A * B) a : fst x = a -> x = (a, snd x).
Proof. by destruct x as [? ?]; intros <-. Qed.

Lemma w_empty_reachable : reachable w_empty.
Proof. apply (reach_new (at_time 1) "peers.json" objects no_files), pair_of_fst. vm_compute. reflexivity. Qed.
Lemma w_alice_reachable : reachable w_alice.
Proof. apply (reach_op (OpAdd (at_time 10) 1%positive)), w_empty_reachable. Qed.
Lemma w_both_reachable : reachable w_both.
Proof. apply (reach_op (OpAdd (at_time 11) 2%positive)), w_alice_reachable. Qed.
Lemma w_both_keyed : keyed w_both.
Proof. apply reachable_good, w_both_reachable. Qed.

(** A decidable property of all peers of a concrete registry. *)
Lemma all_get (P : Peer -> Prop) `{forall p, Decision (P p)} (w : World memfs) :
  bool_decide (map_Forall (fun _ => P) (abs_peers w)) = true ->
  forall id p, GetPeer id w = Some p -> P p.
Proof.
  intros Hb id p Hg. apply bool_decide_eq_true in Hb. apply (Hb id p). by rewrite abs_lookup.
Qed.

(** ** The theorems on them *)
Lemma registry_refines_witness :
  abs w_both = snd (spec_op (fun l => heap w_alice !! l) (OpAdd (at_time 11) 2%positive) (abs w_alice)) /\
  GetPeer "bob" w_both = Some bob /\ IsPeerAllowed "bob" "" w_both = true.
Proof.
  pose proof (registry_refines (OpAdd (at_time 11) 2%positive) w_alice
    (proj1 (reachable_good _ w_alice_reachable))) as Hr.
  rewrite (surjective_pairing (run_op (OpAdd (at_time 11) 2%positive) w_alice)) in Hr.
  rewrite (surjective_pairing (spec_op _ _ _)) in Hr. destruct Hr as (_ & Ha & _ & _ & _ & _ & Hallow & _).
  split; [exact Ha|split; [vm_compute; reflexivity|]]. apply Hallow. left. reflexivity.
Defined.

Lemma registry_invariant_witness :
  exists pts t, kdTree (reg w_both) = Some t /\ NewKDTree pts = inr t /\ pts ≡ₚ points w_both.
Proof.
  destruct (registry_invariant w_both w_both_reachable) as [_ Ht].
  rewrite decide_False in Ht by (vm_compute; discriminate). exact Ht.
Defined.


Lemma update_score_clamped_witness :
  exists p', GetPeer "bob" (snd (UpdateScore (at_time 20) "bob" (float_of_int 250) w_both)) = Some p' /\
    in_bounds (Score p').
Proof.
  assert (Hg : GetPeer "bob" w_both = Some bob) by (vm_compute; reflexivity).
  destruct (update_score_clamped (at_time 20) "bob" (float_of_int 250) w_both bob w_both_keyed Hg)
    as (_ & Hp & _). exact Hp.
Defined.

(** NaN goes through the clamp. *)
Lemma update_score_nan :
  (Score <$> GetPeer "bob" (snd (UpdateScore (at_time 20) "bob" NaN w_both))) = Some NaN.
Proof. vm_compute. reflexivity. Qed.

Lemma score_arithmetic_witness :
  exists p1, GetPeer "alice" (snd (RecordFailure (at_time 20) "alice" w_both)) = Some p1 /\
    whole (Score p1) 45.
Proof.
  assert (Hg : GetPeer "alice" w_both =
    Some (set_Score (float_of_int 50) (set_AddedAt 10 alice))) by (vm_compute; reflexivity).
  destruct (score_arithmetic (at_time 20) "alice" w_both _ 50 w_both_keyed Hg) as (_ & Hp & _).
  - split; [reflexivity|lia].
  - exact Hp.
Defined.

Lemma peers_by_score_witness :
  GetPeersByScore (at_time 0) w_both ≡ₚ all_peers w_both /\ ID <$> GetPeersByScore (at_time 0) w_both = ["bob"; "alice"]%string.
Proof.
  split.
  - apply (peers_by_score (at_time 0) w_both).
    apply (all_get (fun p => is_nan (Score p) = false)). vm_compute. reflexivity.
  - vm_compute. reflexivity.
Defined.

Lemma find_nearby_witness :
  exists out rest, FindNearby (at_time 0) (float_of_int 50) (float_of_int 0) 3 1 w_both = Ok out /\
    out ++ rest ≡ₚ all_peers w_both /\ len out = 1.
Proof.
  destruct (find_nearby (at_time 0) (float_of_int 50) (float_of_int 0) 3 1 w_both w_both_keyed)
    as (out & rest & Hf & Hp & Hl & _).
  - lia.
  - apply (all_get (fun p => is_nan (nearby_score (float_of_int 50) (float_of_int 0) 3 p) = false)).
    vm_compute. reflexivity.
  - exists out, rest. split_and!; [exact Hf|exact Hp|]. rewrite Hl. vm_compute. reflexivity.
Defined.

(** A rename that fails leaves the old file. *)
Lemma save_atomic_witness :
  let w := on_disk (mkMem {[ "peers.json"%string := "old"%string ]} [false; true]) w_both in
  file (snd (saveNow (at_time 0) w)) "peers.json" = Some "old"%string.
Proof.
  intros w. destruct (save_atomic (at_time 0) w (fst (saveNow (at_time 0) w)) (snd (saveNow (at_time 0) w)))
    as (_ & _ & Hr); [apply surjective_pairing|].
  assert (Hf : exists e, fst (saveNow (at_time 0) w) = Fail e) by (eexists; vm_compute; reflexivity).
  destruct Hf as [e He]. rewrite He in Hr. exact Hr.
Defined.

Lemma restart_roundtrip_witness :
  exists w1 w2, Close (at_time 0) w_both = (Ok tt, w1) /\
    NewPeerRegistryWithPath (at_time 5) "peers.json" ∅ (fs w1) = (Ok tt, w2) /\
    GetPeer "bob" w2 = Some (set_Connected false bob).
Proof.
  assert (Hc : Close (at_time 0) w_both = (Ok tt, snd (Close (at_time 0) w_both)))
    by (apply pair_of_fst; vm_compute; reflexivity).
  destruct (restart_roundtrip (at_time 0) (at_time 5) w_both (snd (Close (at_time 0) w_both)) ∅
    (default ""%string (files (fs (snd (Close (at_time 0) w_both))) !! "peers.json"%string))
    (fs (snd (Close (at_time 0) w_both)))) as (w2 & Hn & Hg).
  - apply w_both_keyed.
  - vm_compute. reflexivity.
  - apply Forall_true. done.
  - exact Hc.
  - vm_compute. reflexivity.
  - eexists _, w2. split_and!; [exact Hc|exact Hn|]. rewrite Hg. vm_compute. reflexivity.
Defined.

(** One peer is added; [Close] comes before the change is marked and saves nothing;
    then the change is marked, and the timer's function saves it. *)
Lemma saver_durable_witness :
  exists w, rtc dstep (mkSaver w_empty 0 0 0) (mkSaver w 0 0 0) /\ disk_agrees w /\ GetPeer "alice" w = GetPeer "alice" w_alice.
Proof.
  set (add := OpAdd (at_time 10) 1%positive). set (w1 := closeTake (change add w_empty)).
  set (w2 := snd (timerTake (snd (scheduleSave w1)))). set (w3 := snd (saveNow (at_time 15) w2)).
  assert (Hs : fst (saveNow (at_time 15) w2) = Ok tt) by (vm_compute; reflexivity).
  assert (Hsch : schedules add w_empty = true) by (vm_compute; reflexivity).
  assert (Hr : rtc dstep (mkSaver w_empty 0 0 0) (mkSaver w3 0 0 0)).
  { eapply rtc_l; [exact (d_change add w_empty 0 0 0 eq_refl)|]. rewrite Hsch.
    eapply rtc_l; [exact (d_close (change add w_empty) 1 0 0)|]. fold w1.
    change (if dirty (reg (change add w_empty)) then 1%nat else 0%nat) with 0%nat.
    eapply rtc_l; [exact (d_mark w1 0 0 0)|]. change (if saveTimer (reg w1) then 0%nat else 1%nat) with 1%nat.
    eapply rtc_l; [exact (d_take (snd (scheduleSave w1)) 0 0 0)|]. fold w2.
    change (if dirty (reg (snd (scheduleSave w1))) then 1%nat else 0%nat) with 1%nat.
    apply rtc_once. apply (d_save (at_time 15) w2 w3 0 0 0); [apply Forall_true; done|exact (pair_of_fst _ _ Hs)]. }
  exists w3. split; [exact Hr|].
  destruct (saver_durable w_empty w3 0 0 0) as [_ Hd].
  - apply reachable_good, w_empty_reachable.
  - reflexivity.
  - reflexivity.
  - reflexivity.
  - reflexivity.
  - exact Hr.
  - split; [apply Hd; [reflexivity|vm_compute; reflexivity|reflexivity]|]. vm_compute. reflexivity.
Defined.

(** The disk fails once, while the debounced save runs. *)
Lemma failed_save_forgotten_witness :
  exists w1 w2, timerFire (at_time 15) (on_disk (mkMem ∅ [true]) w_both) = (Ok tt, w1) /\
    Close (at_time 16) w1 = (Ok tt, w2) /\ file w2 "peers.json" = None /\ abs_peers w2 = abs_peers w_both.
Proof.
  destruct (failed_save_forgotten (at_time 15) (at_time 16) (on_disk (mkMem ∅ [true]) w_both)
    (E "PeerRegistry.saveNow" "failed to write peers temp file" (Some io_error))) as (w1 & w2 & Ht & Hc & Hf & Ha).
  - vm_compute. reflexivity.
  - vm_compute. reflexivity.
  - exists w1, w2. split_and!; [exact Ht|exact Hc|exact Hf|exact Ha].
Defined.

Definition null_file : string := bits (encode [@None (list positive)]).

Lemma null_entry_panics_witness :
  fst (NewPeerRegistryWithPath (at_time 1) "peers.json" ∅ (mkMem {[ "peers.json"%string := null_file ]} [])) =
    Panic NilDereference.
Proof.
  apply (null_entry_panics (at_time 1) "peers.json" ∅ _ (mkMem {[ "peers.json"%string := null_file ]} []) null_file [None]).
  - vm_compute. reflexivity.
  - vm_compute. reflexivity.
  - by left.
Defined.
