(* ===== verification/Identity.v ===== *)
(** * The node's identity (src/go/node/identity.go, errors.go)

    Key generation, the two files the identity lives in, the shared secret with
    a peer, and the challenge of the handshake.  The key-pair package (STMF),
    X25519 and the JSON encoder are interfaces. *)

From S2P Require Import Prelude Crypto PeerName Peer PeerPersist.

(** ** Challenges *)
Definition ChallengeSize : Z := 32.

(** [rand_Read n] is what [rand.Read] fills a buffer of [n] bytes with. *)
Definition GenerateChallenge (rand_Read : Z -> error + bytes) : Result bytes :=
  match rand_Read ChallengeSize with
  | inl err => Fail (E "GenerateChallenge" "failed to generate challenge" (Some err))
  | inr challenge => Ok challenge
  end.

Definition SignChallenge (challenge sharedSecret : bytes) : bytes := HMAC sharedSecret challenge.

Definition VerifyChallenge (challenge response sharedSecret : bytes) : bool :=
  let expected := SignChallenge challenge sharedSecret in
  hmac_Equal response expected.

(** ** Data *)
Definition RoleController : string := "controller".
Definition RoleWorker : string := "worker".
Definition RoleDual : string := "dual".

Record NodeIdentity : Type := mkIdentity {
  ni_ID : string;
  ni_Name : string;
  ni_PublicKey : string;
  ni_CreatedAt : Z;
  ni_Role : string
}.

Definition ErrIdentityNotInitialized : error := E "node" "node identity not initialized" None.
Definition ErrMinerManagerNotConfigured : error := E "node" "miner manager not configured" None.

(** The permission bits [0600]. *)
Definition mode0600 : Z := 6 * 8 ^ 2.

(** ** Code outside the repository *)

(** github.com/Snider/Borg/pkg/stmf and crypto/ecdh. *)
Class KeyLib : Type := {
  KeyPair : Type;
  kp_PublicKey : KeyPair -> bytes;
  kp_PublicKeyBase64 : KeyPair -> string;
  kp_PrivateKey : KeyPair -> bytes;
  LoadKeyPair : bytes -> error + KeyPair;
  LoadPublicKeyBase64 : string -> error + bytes;
  NewPrivateKey : bytes -> error + bytes;
  ECDH : bytes -> bytes -> error + bytes
}.

(** [core.JSONMarshal] of the pointer, nil included, and [core.JSONUnmarshal]. *)
Class IdentityJSON : Type := {
  marshalIdentity : option NodeIdentity -> error + string;
  unmarshalIdentity : string -> error + NodeIdentity
}.

(** The calls with file modes. *)
Class ModeFS (FS : Type) : Type := {
  WriteMode : string -> string -> Z -> FS -> option error * FS;
  Chmod : string -> Z -> FS -> option error * FS
}.

Section Node.
Context `{KeyLib} `{IdentityJSON} {FS : Type} `{FileSystem FS} `{ModeFS FS}.

Record NodeManager : Type := mkManager {
  identity : option NodeIdentity;
  privateKey : option bytes;
  keyPair : option KeyPair;
  keyPath : string;
  configPath : string
}.

(** A manager and the file system. *)
Record Node : Type := mkNode { nm : NodeManager; nfs : FS }.

Definition set_identity i pk kp (n : NodeManager) : NodeManager :=
  mkManager i pk kp (keyPath n) (configPath n).
Definition on_nm (f : NodeManager -> NodeManager) (w : Node) : Node := mkNode (f (nm w)) (nfs w).
Definition node_fs (f : FS -> option error * FS) : Node -> option error * Node := fun w =>
  let '(e, s) := f (nfs w) in (e, mkNode (nm w) s).

Definition HasIdentity (w : Node) : bool := bool_decide (is_Some (identity (nm w))).
(** The copy is its value. *)
Definition GetIdentity (w : Node) : option NodeIdentity := identity (nm w).

(** ** Files *)
Definition savePrivateKey : SR Node unit := fun w =>
  let dir := PathDir (keyPath (nm w)) in
  match node_fs (EnsureDir dir) w with
  | (Some err, w) => (Fail (E "NodeManager.savePrivateKey" "failed to create key directory" (Some err)), w)
  | (None, w) =>
      match node_fs (WriteMode (keyPath (nm w)) (string_of_bytes (default [] (privateKey (nm w)))) mode0600) w with
      | (Some err, w) => (Fail (E "NodeManager.savePrivateKey" "failed to write private key" (Some err)), w)
      | (None, w) =>
          match node_fs (Chmod (keyPath (nm w)) mode0600) w with
          | (Some err, w) =>
              (Fail (E "NodeManager.savePrivateKey" "failed to set private key permissions" (Some err)), w)
          | (None, w) => (Ok tt, w)
          end
      end
  end.

Definition saveIdentity : SR Node unit := fun w =>
  let dir := PathDir (configPath (nm w)) in
  match node_fs (EnsureDir dir) w with
  | (Some err, w) => (Fail (E "NodeManager.saveIdentity" "failed to create config directory" (Some err)), w)
  | (None, w) =>
      match marshalIdentity (identity (nm w)) with
      | inl err => (Fail (E "NodeManager.saveIdentity" "failed to marshal identity" (Some err)), w)
      | inr data =>
          match node_fs (Write (configPath (nm w)) data) w with
          | (Some err, w) => (Fail (E "NodeManager.saveIdentity" "failed to write identity" (Some err)), w)
          | (None, w) => (Ok tt, w)
          end
      end
  end.

Definition loadIdentity : SR Node unit := fun w =>
  let '(c, s) := Read (configPath (nm w)) (nfs w) in
  let w := mkNode (nm w) s in
  match c with
  | inl err => (Fail (E "NodeManager.loadIdentity" "failed to read identity" (Some err)), w)
  | inr content =>
      match unmarshalIdentity content with
      | inl err => (Fail (E "NodeManager.loadIdentity" "failed to unmarshal identity" (Some err)), w)
      | inr i =>
          let '(k, s) := Read (keyPath (nm w)) (nfs w) in
          let w := mkNode (nm w) s in
          match k with
          | inl err => (Fail (E "NodeManager.loadIdentity" "failed to read private key" (Some err)), w)
          | inr keyContent =>
              let pk := bytes_of_string keyContent in
              match LoadKeyPair pk with
              | inl err => (Fail (E "NodeManager.loadIdentity" "failed to load keypair" (Some err)), w)
              | inr kp => (Ok tt, on_nm (set_identity (Some i) (Some pk) (Some kp)) w)
              end
          end
      end
  end.

(** ** Operations *)

(** [generated] is what [stmf.GenerateKeyPair] returns, [now] the clock. *)
Definition GenerateIdentity (generated : error + KeyPair) (now : Z) (name role : string) : SR Node unit := fun w =>
  match generated with
  | inl err => (Fail (E "NodeManager.GenerateIdentity" "failed to generate keypair" (Some err)), w)
  | inr kp =>
      let hash := Sum256 (kp_PublicKey kp) in
      let nodeID := hex (take 16 hash) in
      let i := mkIdentity nodeID name (kp_PublicKeyBase64 kp) now role in
      let w := on_nm (set_identity (Some i) (Some (kp_PrivateKey kp)) (Some kp)) w in
      match savePrivateKey w with
      | (Fail err, w) => (Fail (E "NodeManager.GenerateIdentity" "failed to save private key" (Some err)), w)
      | (Ok _, w) =>
          match saveIdentity w with
          | (Fail err, w) => (Fail (E "NodeManager.GenerateIdentity" "failed to save identity" (Some err)), w)
          | rw => rw
          end
      | rw => rw
      end
  end.

Definition DeriveSharedSecret (peerPubKeyBase64 : string) (w : Node) : Result bytes :=
  match privateKey (nm w) with
  | None => Fail ErrIdentityNotInitialized
  | Some priv =>
      match LoadPublicKeyBase64 peerPubKeyBase64 with
      | inl err => Fail (E "NodeManager.DeriveSharedSecret" "failed to load peer public key" (Some err))
      | inr peerPubKey =>
          match NewPrivateKey priv with
          | inl err => Fail (E "NodeManager.DeriveSharedSecret" "failed to load private key" (Some err))
          | inr k =>
              match ECDH k peerPubKey with
              | inl err => Fail (E "NodeManager.DeriveSharedSecret" "failed to derive shared secret" (Some err))
              | inr sharedSecret => Ok (Sum256 sharedSecret)
              end
          end
      end
  end.

Definition DeleteIdentity : SR Node unit := fun w =>
  let r := if Exists (keyPath (nm w)) (nfs w) then node_fs (Delete (keyPath (nm w))) w else (None, w) in
  match r with
  | (Some err, w) => (Fail (E "NodeManager.Delete" "failed to remove private key" (Some err)), w)
  | (None, w) =>
      let r := if Exists (configPath (nm w)) (nfs w) then node_fs (Delete (configPath (nm w))) w else (None, w) in
      match r with
      | (Some err, w) => (Fail (E "NodeManager.Delete" "failed to remove identity" (Some err)), w)
      | (None, w) => (Ok tt, on_nm (set_identity None None None) w)
      end
  end.

(** ** Start-up *)
Definition NewNodeManagerWithPaths (keyPath configPath : string) (s : FS) : Result unit * Node :=
  match loadIdentity (mkNode (mkManager None None None keyPath configPath) s) with
  | (Fail _, w) => (Ok tt, w)
  | rw => rw
  end.

(** [xdg.DataFile] and [xdg.ConfigFile] resolve the default paths. *)
Definition default_paths (op : string) (DataFile ConfigFile : string -> error + string) : Result (string * string) :=
  match DataFile "lethean-desktop/node/private.key" with
  | inl err => Fail (E op "failed to get key path" (Some err))
  | inr k =>
      match ConfigFile "lethean-desktop/node.json" with
      | inl err => Fail (E op "failed to get config path" (Some err))
      | inr c => Ok (k, c)
      end
  end.

Definition NewNodeManager (DataFile ConfigFile : string -> error + string) (s : FS) : Result (Result unit * Node) :=
  p ← default_paths "NodeManager.New" DataFile ConfigFile;
  Ok (NewNodeManagerWithPaths p.1 p.2 s).

Definition LoadOrCreateIdentityWithPaths (generated : error + KeyPair) (now : Z) (hostname keyPath configPath : string)
    (s : FS) : Result unit * Node :=
  match NewNodeManagerWithPaths keyPath configPath s with
  | (Ok _, w) =>
      if HasIdentity w then (Ok tt, w)
      else
        let name := if decide (hostname = ""%string) then "lethean-node"%string else hostname in
        match GenerateIdentity generated now name RoleDual w with
        | (Fail err, w) =>
            (Fail (E "LoadOrCreateIdentityWithPaths" "failed to generate identity" (Some err)), w)
        | rw => rw
        end
  | rw => rw
  end.

Definition LoadOrCreateIdentity (generated : error + KeyPair) (now : Z) (hostname : string)
    (DataFile ConfigFile : string -> error + string) (s : FS) : Result (Result unit * Node) :=
  p ← default_paths "LoadOrCreateIdentity" DataFile ConfigFile;
  Ok (LoadOrCreateIdentityWithPaths generated now hostname p.1 p.2 s).

End Node.
Arguments Node {_} _.

(** ** What the node relies on *)

Class ModeFSLaws (FS : Type) `{FSLaws FS} `{ModeFS FS} : Prop := {
  mode_WriteMode_ok p d m s s' : WriteMode p d m s = (None, s') -> contents s' p = Some d;
  mode_WriteMode_frame p d m s q : q <> p -> contents (snd (WriteMode p d m s)) q = contents s q;
  mode_Chmod p m s q : contents (snd (Chmod p m s)) q = contents s q
}.

(** A key pair is loaded back from its private key; X25519 is symmetric. *)
Class KeyLaws `{KeyLib} : Prop := {
  kp_private_bytes kp : all_bytes (kp_PrivateKey kp);
  kp_load kp : LoadKeyPair (kp_PrivateKey kp) = inr kp;
  kp_public kp : LoadPublicKeyBase64 (kp_PublicKeyBase64 kp) = inr (kp_PublicKey kp);
  kp_private kp : exists k, NewPrivateKey (kp_PrivateKey kp) = inr k;
  kp_agree a b ka kb :
    NewPrivateKey (kp_PrivateKey a) = inr ka -> NewPrivateKey (kp_PrivateKey b) = inr kb ->
    exists s, ECDH ka (kp_PublicKey b) = inr s /\ ECDH kb (kp_PublicKey a) = inr s
}.

Class IdentityJSONLaws `{IdentityJSON} : Type := {
  identity_safe : NodeIdentity -> Prop;
  identity_roundtrip i d :
    identity_safe i -> marshalIdentity (Some i) = inr d -> unmarshalIdentity d = inr i
}.

Section NodeProofs.
Context `{KL : KeyLaws} `{JL : IdentityJSONLaws} {FS : Type} `{ML : ModeFSLaws FS}.
Implicit Types w : Node FS.

(** A call that may only change the file [p]. *)
Lemma node_fs_frame f w e w' p :
  (forall q, q <> p -> contents (snd (f (nfs w))) q = contents (nfs w) q) -> node_fs f w = (e, w') ->
  nm w' = nm w /\ nfs w' = snd (f (nfs w)) /\ forall q, q <> p -> contents (nfs w') q = contents (nfs w) q.
Proof. intros Hf. unfold node_fs. destruct (f (nfs w)) as [e' s]. intros [= <- <-]. done. Qed.

Lemma savePrivateKey_spec w r w' :
  savePrivateKey w = (r, w') ->
  nm w' = nm w /\ (forall q, q <> keyPath (nm w) -> contents (nfs w') q = contents (nfs w) q) /\
  match r with
  | Ok _ => contents (nfs w') (keyPath (nm w)) = Some (string_of_bytes (default [] (privateKey (nm w))))
  | Fail _ => True
  | _ => False
  end.
Proof.
  unfold savePrivateKey. destruct (node_fs (EnsureDir _) w) as [e1 w1] eqn:Hc1.
  apply (node_fs_frame _ _ _ _ (keyPath (nm w))) in Hc1 as (Hn1 & Hs1 & Hf1); [|intros; apply fs_EnsureDir].
  destruct e1 as [e1|]; [by intros [= <- <-]|]. rewrite Hn1.
  destruct (node_fs (WriteMode _ _ _) w1) as [e2 w2] eqn:Hc2. pose proof Hc2 as Hw2.
  apply (node_fs_frame _ _ _ _ (keyPath (nm w))) in Hc2 as (Hn2 & Hs2 & Hf2); [|intros; by apply mode_WriteMode_frame].
  assert (Hf12 : forall q, q <> keyPath (nm w) -> contents (nfs w2) q = contents (nfs w) q) by (intros; rewrite Hf2, Hf1; done).
  destruct e2 as [e2|]; [intros [= <- <-]; split_and!; [congruence|done|done]|].
  rewrite Hn2, Hn1. destruct (node_fs (Chmod _ _) w2) as [e3 w3] eqn:Hc3.
  apply (node_fs_frame _ _ _ _ (keyPath (nm w))) in Hc3 as (Hn3 & Hs3 & Hf3); [|intros; apply mode_Chmod].
  assert (Hf13 : forall q, q <> keyPath (nm w) -> contents (nfs w3) q = contents (nfs w) q) by (intros; rewrite Hf3, Hf12; done).
  assert (Hk : contents (nfs w3) (keyPath (nm w)) = Some (string_of_bytes (default [] (privateKey (nm w))))).
  { rewrite Hs3, mode_Chmod, Hs2. unfold node_fs in Hw2. destruct (WriteMode _ _ _ (nfs w1)) as [e s] eqn:Hw.
    injection Hw2 as -> _. exact (mode_WriteMode_ok _ _ _ _ _ Hw). }
  destruct e3 as [e3|]; intros [= <- <-]; (split_and!; [congruence|done|done]).
Qed.

Lemma saveIdentity_spec w r w' :
  saveIdentity w = (r, w') ->
  nm w' = nm w /\ (forall q, q <> configPath (nm w) -> contents (nfs w') q = contents (nfs w) q) /\
  match r with
  | Ok _ => exists d, marshalIdentity (identity (nm w)) = inr d /\ contents (nfs w') (configPath (nm w)) = Some d
  | Fail _ => True
  | _ => False
  end.
Proof.
  unfold saveIdentity. destruct (node_fs (EnsureDir _) w) as [e1 w1] eqn:Hc1.
  apply (node_fs_frame _ _ _ _ (configPath (nm w))) in Hc1 as (Hn1 & Hs1 & Hf1); [|intros; apply fs_EnsureDir].
  destruct e1 as [e1|]; [by intros [= <- <-]|]. rewrite Hn1.
  destruct (marshalIdentity _) as [e|d] eqn:Hd; [intros [= <- <-]; done|].
  destruct (node_fs (Write _ _) w1) as [e2 w2] eqn:Hc2. pose proof Hc2 as Hw2.
  apply (node_fs_frame _ _ _ _ (configPath (nm w))) in Hc2 as (Hn2 & Hs2 & Hf2); [|intros; by apply fs_Write_frame].
  assert (Hf12 : forall q, q <> configPath (nm w) -> contents (nfs w2) q = contents (nfs w) q) by (intros; rewrite Hf2, Hf1; done).
  destruct e2 as [e2|]; intros [= <- <-]; (split_and!; [congruence|done|]); [done|].
  exists d. split; [done|]. rewrite Hs2. unfold node_fs in Hw2. destruct (Write _ _ (nfs w1)) as [e s] eqn:Hw.
  injection Hw2 as -> _. exact (fs_Write_ok _ _ _ _ Hw).
Qed.

(** The identity a key pair is given. *)
Definition new_identity (kp : KeyPair) (now : Z) (name role : string) : NodeIdentity :=
  mkIdentity (hex (take 16 (Sum256 (kp_PublicKey kp)))) name (kp_PublicKeyBase64 kp) now role.

(** What [GenerateIdentity] leaves: on success both files, and when only the
    identity could not be saved the new private key. *)
Lemma GenerateIdentity_spec kp now name role w r w' :
  keyPath (nm w) <> configPath (nm w) ->
  GenerateIdentity (inr kp) now name role w = (r, w') ->
  (exists e, r = Fail (E "NodeManager.GenerateIdentity" "failed to save private key" (Some e))) \/
  (nm w' = set_identity (Some (new_identity kp now name role)) (Some (kp_PrivateKey kp)) (Some kp) (nm w) /\
   contents (nfs w') (keyPath (nm w)) = Some (string_of_bytes (kp_PrivateKey kp)) /\
   match r with
   | Ok _ => exists d, marshalIdentity (Some (new_identity kp now name role)) = inr d /\
       contents (nfs w') (configPath (nm w)) = Some d
   | Fail e => exists e', e = E "NodeManager.GenerateIdentity" "failed to save identity" (Some e')
   | _ => False
   end).
Proof.
  intros Hne. unfold GenerateIdentity. fold (new_identity kp now name role).
  set (w0 := on_nm _ w). destruct (savePrivateKey w0) as [r1 w1] eqn:Hc1.
  apply savePrivateKey_spec in Hc1 as (Hn1 & Hf1 & Hok1).
  destruct r1 as [[]|e| |]; [|intros [= <- <-]; left; by eexists|done|done].
  destruct (saveIdentity w1) as [r2 w2] eqn:Hc2. apply saveIdentity_spec in Hc2 as (Hn2 & Hf2 & Hok2).
  rewrite Hn1 in *. cbn [w0 on_nm nm set_identity keyPath configPath identity privateKey default] in *.
  assert (Hk : contents (nfs w2) (keyPath (nm w)) = Some (string_of_bytes (kp_PrivateKey kp))).
  { rewrite Hf2 by done. exact Hok1. }
  destruct r2 as [[]|e| |]; try done; intros [= <- <-]; right; (split_and!; [done|done|]); [done|by eexists].
Qed.

(** [loadIdentity] takes what the two files hold. *)
Lemma NewNodeManager_loads k c s d key i kp s1 s2 :
  Read c s = (inr d, s1) -> unmarshalIdentity d = inr i ->
  Read k s1 = (inr key, s2) -> LoadKeyPair (bytes_of_string key) = inr kp ->
  NewNodeManagerWithPaths k c s =
    (Ok tt, mkNode (mkManager (Some i) (Some (bytes_of_string key)) (Some kp) k c) s2).
Proof.
  intros Hc Hi Hk Hkp. unfold NewNodeManagerWithPaths, loadIdentity. cbn [nm nfs configPath keyPath].
  by rewrite Hc, Hi, Hk, Hkp.
Qed.

(** Reading back the key file of a key pair. *)
Lemma key_bytes kp : bytes_of_string (string_of_bytes (kp_PrivateKey kp)) = kp_PrivateKey kp.
Proof. apply bytes_of_string_of_bytes, kp_private_bytes. Qed.

(** C24 (roundtrip): an identity that was generated and saved is the identity of
    every later process on the same paths: it is loaded with the same name, keys
    and shared secrets, no new one is generated, and the files are not
    touched. *)
Theorem identity_restart kp now name role w w' d key s1 s2 gen now' host :
  keyPath (nm w) <> configPath (nm w) -> identity_safe (new_identity kp now name role) ->
  GenerateIdentity (inr kp) now name role w = (Ok tt, w') ->
  Read (configPath (nm w)) (nfs w') = (inr d, s1) -> Read (keyPath (nm w)) s1 = (inr key, s2) ->
  exists w2, LoadOrCreateIdentityWithPaths gen now' host (keyPath (nm w)) (configPath (nm w)) (nfs w') = (Ok tt, w2) /\
    GetIdentity w2 = Some (new_identity kp now name role) /\ GetIdentity w2 = GetIdentity w' /\
    (forall pub, DeriveSharedSecret pub w2 = DeriveSharedSecret pub w') /\
    contents (nfs w2) = contents (nfs w').
Proof.
  intros Hne Hsafe Hg Hr1 Hr2. apply GenerateIdentity_spec in Hg as [[e ?]|(Hn & Hk & d' & Hd' & Hc)]; [done| |done].
  destruct (fs_Read _ _ _ _ Hr1) as [Hd Hs1]. destruct (fs_Read _ _ _ _ Hr2) as [Hkey Hs2].
  rewrite Hs1, Hk in Hkey. rewrite Hd in Hc. injection Hkey as <-. injection Hc as <-.
  eexists. unfold LoadOrCreateIdentityWithPaths.
  rewrite (NewNodeManager_loads _ _ _ _ _ _ kp _ _ Hr1 (identity_roundtrip _ _ Hsafe Hd') Hr2).
  2: { rewrite key_bytes. apply kp_load. }
  split; [reflexivity|]. unfold GetIdentity, DeriveSharedSecret. rewrite Hn. cbn [nm nfs identity privateKey set_identity].
  rewrite key_bytes. split_and!; try done. congruence.
Qed.

(** The two files are not written together and not compared when
    they are loaded: if the identity of a new key pair cannot be saved over an
    old one, the next process announces the old public key and ID and computes
    its secrets with the new private key. *)
Theorem identity_torn kp now name role w e w' d old key s1 s2 :
  keyPath (nm w) <> configPath (nm w) -> unmarshalIdentity d = inr old ->
  GenerateIdentity (inr kp) now name role w =
    (Fail (E "NodeManager.GenerateIdentity" "failed to save identity" e), w') ->
  Read (configPath (nm w)) (nfs w') = (inr d, s1) -> Read (keyPath (nm w)) s1 = (inr key, s2) ->
  exists w2, NewNodeManagerWithPaths (keyPath (nm w)) (configPath (nm w)) (nfs w') = (Ok tt, w2) /\
    GetIdentity w2 = Some old /\ keyPair (nm w2) = Some kp /\ privateKey (nm w2) = Some (kp_PrivateKey kp).
Proof.
  intros Hne Hold Hg Hr1 Hr2. apply GenerateIdentity_spec in Hg as [[e' ?]|(Hn & Hk & _)]; [done| |done].
  destruct (fs_Read _ _ _ _ Hr1) as [Hd Hs1]. destruct (fs_Read _ _ _ _ Hr2) as [Hkey Hs2].
  rewrite Hs1, Hk in Hkey. injection Hkey as <-. eexists. split.
  - apply (NewNodeManager_loads _ _ _ _ _ old kp _ _ Hr1 Hold Hr2). rewrite key_bytes. apply kp_load.
  - unfold GetIdentity. cbn [nm identity keyPair privateKey]. by rewrite key_bytes.
Qed.

(** Two nodes compute the same secret from each other's announced keys. *)
Lemma shared_secret_agree a b w1 w2 :
  privateKey (nm w1) = Some (kp_PrivateKey a) -> privateKey (nm w2) = Some (kp_PrivateKey b) ->
  exists s, DeriveSharedSecret (kp_PublicKeyBase64 b) w1 = Ok s /\
    DeriveSharedSecret (kp_PublicKeyBase64 a) w2 = Ok s /\ len s = 32.
Proof.
  intros Hw1 Hw2. destruct (kp_private a) as [ka Hka]. destruct (kp_private b) as [kb Hkb].
  destruct (kp_agree a b ka kb Hka Hkb) as (s & Hs1 & Hs2). exists (Sum256 s).
  unfold DeriveSharedSecret. rewrite Hw1, Hw2, !kp_public, Hka, Hkb, Hs1, Hs2, len_Sum256. done.
Qed.
End NodeProofs.
