(* ===== verification/NodeInstances.v ===== *)
(** * Implementations of the node's interfaces, and its theorems at work

    Diffie-Hellman in the integers modulo 251 with one-byte exponents, an
    encoder of identities, file modes on the file system in memory; then the
    theorems of [Identity] on concrete files. *)

From Stdlib Require Import Ascii Zpow_facts.
From S2P Require Import Prelude Crypto PeerName Peer PeerPersist PeerInstances Identity.

(** ** Keys *)
Definition exponent (a : Ascii.ascii) : Z := Z.of_N (Ascii.N_of_ascii a).
Definition toy_public (a : Ascii.ascii) : Z := 6 ^ exponent a mod 251.

#[export] Instance toy_keys : KeyLib := {
  KeyPair := Ascii.ascii;
  kp_PublicKey a := [toy_public a];
  kp_PublicKeyBase64 a := string_of_bytes [toy_public a];
  kp_PrivateKey a := [exponent a];
  LoadKeyPair b :=
    match b with
    | [k] => inr (Ascii.ascii_of_N (Z.to_N k))
    | _ => inl (NewError "invalid private key size")
    end;
  LoadPublicKeyBase64 s :=
    match bytes_of_string s with
    | [y] => inr [y]
    | _ => inl (NewError "invalid public key size")
    end;
  NewPrivateKey b :=
    match b with
    | [k] => inr [k]
    | _ => inl (NewError "crypto/ecdh: invalid private key size")
    end;
  ECDH k y :=
    match k, y with
    | [k], [y] => inr [y ^ k mod 251]
    | _, _ => inl (NewError "crypto/ecdh: private key and public key curves do not match")
    end
}.

Lemma exponent_byte a : is_byte (exponent a).
Proof. pose proof (Ascii.N_ascii_bounded a). unfold exponent, in_u. lia. Qed.

#[export] Instance toy_key_laws : KeyLaws.
Proof.
  split.
  - intros a. constructor; [apply exponent_byte|constructor].
  - intros a. cbn. unfold exponent. by rewrite N2Z.id, Ascii.ascii_N_embedding.
  - intros a. unfold LoadPublicKeyBase64, kp_PublicKeyBase64, kp_PublicKey, toy_keys.
    rewrite bytes_of_string_of_bytes; [done|]. constructor; [|constructor].
    pose proof (Z.mod_pos_bound (6 ^ exponent a) 251 ltac:(lia)). unfold toy_public, in_u. lia.
  - intros a. by eexists.
  - intros a b ka kb. cbn. intros [= <-] [= <-]. eexists. split; [reflexivity|]. unfold toy_public.
    rewrite <- !Zpower_mod by lia. rewrite <- !Z.pow_mul_r by apply exponent_byte.
    by rewrite Z.mul_comm.
Defined.

(** ** Identities *)
Definition identity_code (i : NodeIdentity) : list positive :=
  [encode (ni_ID i); encode (ni_Name i); encode (ni_PublicKey i); encode (ni_CreatedAt i); encode (ni_Role i)].
Definition identity_of_code (l : list positive) : option NodeIdentity :=
  match l with
  | [a; b; c; d; e] =>
      a ← decode a; b ← decode b; c ← decode c; d ← decode d; e ← decode e; Some (mkIdentity a b c d e)
  | _ => None
  end.
Lemma identity_of_code_code i : identity_of_code (identity_code i) = Some i.
Proof. unfold identity_code, identity_of_code. rewrite !decode_encode. by destruct i. Qed.

#[export] Instance bits_identity : IdentityJSON := {
  marshalIdentity o :=
    inr (match o with Some i => bits (encode (identity_code i)) | None => "null"%string end);
  unmarshalIdentity s :=
    match decode (A := list positive) (unbits s) ≫= identity_of_code with
    | Some i => inr i
    | None => inl (NewError "unexpected end of JSON input")
    end
}.

#[export] Instance bits_identity_laws : IdentityJSONLaws.
Proof.
  refine {| identity_safe := fun _ => True |}. intros i d _ [= <-]. cbn [unmarshalIdentity bits_identity].
  rewrite unbits_bits, decode_encode. cbn [mbind option_bind]. by rewrite identity_of_code_code.
Defined.

(** ** File modes *)
#[export] Instance mem_mode : ModeFS memfs := {
  WriteMode p d m s := Write p d s;
  Chmod p m s := (None, s)
}.
#[export] Instance mem_mode_laws : ModeFSLaws memfs.
Proof.
  split.
  - intros p d m s s'. apply fs_Write_ok.
  - intros p d m s q. apply fs_Write_frame.
  - done.
Defined.

(** ** The theorems *)
Definition fresh_node (s : memfs) : Node memfs := mkNode (mkManager None None None "private.key" "node.json") s.
Definition kp1 : KeyPair := "k"%char.
Definition kp2 : KeyPair := "z"%char.

Lemma identity_restart_witness :
  exists w2, LoadOrCreateIdentityWithPaths (inr kp2) 9 "host" "private.key" "node.json"
      (nfs (snd (GenerateIdentity (inr kp1) 5 "miner" RoleWorker (fresh_node no_files)))) = (Ok tt, w2) /\
    GetIdentity w2 = Some (new_identity kp1 5 "miner" RoleWorker).
Proof.
  set (w := fresh_node no_files). set (w' := snd (GenerateIdentity (inr kp1) 5 "miner" RoleWorker w)).
  destruct (identity_restart kp1 5 "miner" RoleWorker w w'
    (bits (encode (identity_code (new_identity kp1 5 "miner" RoleWorker)))) "k" (nfs w') (nfs w') (inr kp2) 9 "host")
    as (w2 & Hl & Hi & _).
  - discriminate.
  - exact I.
  - apply pair_of_fst. vm_compute. reflexivity.
  - vm_compute. reflexivity.
  - vm_compute. reflexivity.
  - exists w2. split; [exact Hl|exact Hi].
Defined.

(** The directory of the identity has become read-only, that of the key not. *)
Definition old_identity : NodeIdentity := new_identity kp1 5 "miner" RoleWorker.
Definition one_identity : memfs :=
  mkMem {[ "private.key" := "k"; "node.json" := bits (encode (identity_code old_identity));
           "node.json/.readonly" := "" ]}%string [].

Lemma identity_torn_witness :
  exists w2, NewNodeManagerWithPaths "private.key" "node.json"
      (nfs (snd (GenerateIdentity (inr kp2) 9 "miner" RoleWorker (fresh_node one_identity)))) = (Ok tt, w2) /\
    GetIdentity w2 = Some old_identity /\ privateKey (nm w2) = Some [exponent kp2] /\
    ni_PublicKey old_identity <> kp_PublicKeyBase64 kp2.
Proof.
  set (w := fresh_node one_identity). set (w' := snd (GenerateIdentity (inr kp2) 9 "miner" RoleWorker w)).
  destruct (identity_torn kp2 9 "miner" RoleWorker w
    (Some (E "NodeManager.saveIdentity" "failed to create config directory" (Some io_error))) w'
    (bits (encode (identity_code old_identity))) old_identity "z" (nfs w') (nfs w')) as (w2 & Hl & Hi & _ & Hk).
  - discriminate.
  - vm_compute. reflexivity.
  - apply pair_of_fst. vm_compute. reflexivity.
  - vm_compute. reflexivity.
  - vm_compute. reflexivity.
  - exists w2. split_and!; [exact Hl|exact Hi|exact Hk|vm_compute; discriminate].
Defined.
