(* ===== verification/Controller.v ===== *)
(** * Request/response correlation (src/go/node/controller.go)

    The goroutines of a [Controller]: any number of [sendRequest] calls and of
    [handleResponse] callbacks, interleaved at their critical sections and
    channel operations.  The theorems say which response a request returns, that
    the table of pending requests does not leak, and when a late response sends
    on a closed channel. *)

From S2P Require Import Prelude.

(** [Message] (src/go/node/message.go); [Payload] is raw JSON. *)
Record Message : Type := mkMessage {
  m_ID : string;
  m_Type : string;
  m_From : string;
  m_To : string;
  m_Timestamp : Z;
  m_Payload : option bytes;
  m_ReplyTo : string
}.

Definition ErrRequestTimeout : error := E "Controller.sendRequest" "request timeout" None.
Definition ErrSend (err : error) : error := E "Controller.sendRequest" "failed to send message" (Some err).

(** A [chan *Message] of capacity one. *)
Record channel : Type := mkChan { ch_buf : option Message; ch_closed : bool }.

(** Where a [sendRequest] is: before the request is registered (connecting to
    the peer included), before [transport.Send], in the [select], and in the
    deferred clean-up, which removes the entry and then closes the channel. *)
Inductive rpc : Type :=
| RStart
| RSend
| RWait
| RCleanup (r : Result Message)
| RClose (r : Result Message)
| RDone (r : Result Message).

(** Where a [handleResponse] is: before the lookup, before the send, done. *)
Inductive hpc : Type :=
| HStart (m : Message)
| HSend (i : nat) (m : Message)
| HDone.

(** Request [i] makes the channel number [i]. *)
Record csys : Type := mkCsys {
  pending : gmap string nat;
  chans : gmap nat channel;
  reqs : list rpc;
  hands : list hpc;
  crashed : option panic
}.

Section Controller.

(** The messages of the [sendRequest] calls, by call. *)
Context (calls : list Message).

Definition with_req i pc (s : csys) : csys :=
  mkCsys (pending s) (chans s) (<[i := pc]> (reqs s)) (hands s) (crashed s).
Definition with_hand k pc (s : csys) : csys :=
  mkCsys (pending s) (chans s) (reqs s) (<[k := pc]> (hands s)) (crashed s).
Definition with_pending f (s : csys) : csys :=
  mkCsys (f (pending s)) (chans s) (reqs s) (hands s) (crashed s).
Definition with_chan i c (s : csys) : csys :=
  mkCsys (pending s) (<[i := c]> (chans s)) (reqs s) (hands s) (crashed s).

Inductive cstep : csys -> csys -> Prop :=
(** The peer is unknown or the connection fails. *)
| r_refuse i e s :
    crashed s = None -> reqs s !! i = Some RStart -> cstep s (with_req i (RDone (Fail e)) s)
| r_register i msg s :
    crashed s = None -> reqs s !! i = Some RStart -> calls !! i = Some msg ->
    cstep s (with_req i RSend (with_pending <[m_ID msg := i]> (with_chan i (mkChan None false) s)))
| r_sent i s :
    crashed s = None -> reqs s !! i = Some RSend -> cstep s (with_req i RWait s)
| r_send_failed i e s :
    crashed s = None -> reqs s !! i = Some RSend -> cstep s (with_req i (RCleanup (Fail (ErrSend e))) s)
| r_receive i m cl s :
    crashed s = None -> reqs s !! i = Some RWait -> chans s !! i = Some (mkChan (Some m) cl) ->
    cstep s (with_req i (RCleanup (Ok m)) (with_chan i (mkChan None cl) s))
| r_timeout i s :
    crashed s = None -> reqs s !! i = Some RWait -> cstep s (with_req i (RCleanup (Fail ErrRequestTimeout)) s)
| r_delete i msg r s :
    crashed s = None -> reqs s !! i = Some (RCleanup r) -> calls !! i = Some msg ->
    cstep s (with_req i (RClose r) (with_pending (delete (m_ID msg)) s))
| r_close i r b s :
    crashed s = None -> reqs s !! i = Some (RClose r) -> chans s !! i = Some (mkChan b false) ->
    cstep s (with_req i (RDone r) (with_chan i (mkChan b true) s))
(** The transport delivers a message on a goroutine of its own. *)
| h_arrive m s :
    crashed s = None -> cstep s (mkCsys (pending s) (chans s) (reqs s) (hands s ++ [HStart m]) None)
| h_not_response k m s :
    crashed s = None -> hands s !! k = Some (HStart m) -> m_ReplyTo m = ""%string -> cstep s (with_hand k HDone s)
| h_unknown k m s :
    crashed s = None -> hands s !! k = Some (HStart m) -> m_ReplyTo m <> ""%string ->
    pending s !! m_ReplyTo m = None -> cstep s (with_hand k HDone s)
| h_take k m i s :
    crashed s = None -> hands s !! k = Some (HStart m) -> m_ReplyTo m <> ""%string ->
    pending s !! m_ReplyTo m = Some i ->
    cstep s (with_hand k (HSend i m) (with_pending (delete (m_ReplyTo m)) s))
(** [select { case ch <- msg: default: }]: a send on a closed channel panics. *)
| h_send k i m s :
    crashed s = None -> hands s !! k = Some (HSend i m) -> chans s !! i = Some (mkChan None false) ->
    cstep s (with_hand k HDone (with_chan i (mkChan (Some m) false) s))
| h_full k i m m' s :
    crashed s = None -> hands s !! k = Some (HSend i m) -> chans s !! i = Some (mkChan (Some m') false) ->
    cstep s (with_hand k HDone s)
| h_panic k i m b s :
    crashed s = None -> hands s !! k = Some (HSend i m) -> chans s !! i = Some (mkChan b true) ->
    cstep s (mkCsys (pending s) (chans s) (reqs s) (hands s) (Some SendOnClosedChannel)).

Definition cinit : csys := mkCsys ∅ ∅ (replicate (length calls) RStart) [] None.

(** ** The invariant

    A request's response passes through four places: the pending table, a
    handler about to send it, the channel, the request's result.  At most one
    of them is occupied. *)
Definition token_pending s i (id : string) : nat := if decide (pending s !! id = Some i) then 1 else 0.
Definition hand_token i (h : hpc) : nat :=
  match h with HSend j _ => if decide (i = j) then 1 else 0 | _ => 0 end.
Definition token_hands s i : nat := sum_list_with (hand_token i) (hands s).
Definition token_chan s i : nat :=
  match chans s !! i with Some (mkChan (Some _) _) => 1 | _ => 0 end.
Definition result_of (pc : rpc) : option (Result Message) :=
  match pc with RCleanup r | RClose r | RDone r => Some r | _ => None end.
Definition token_result pc : nat :=
  match result_of pc with Some (Ok _) => 1 | _ => 0 end.
Definition tokens s i id pc : nat :=
  (token_pending s i id + token_hands s i + token_chan s i + token_result pc)%nat.

(** What the program counter of a request says about its channel and entry. *)
Definition chan_at s i pc : Prop :=
  match pc with
  | RStart => chans s !! i = None /\ token_hands s i = 0%nat
  | RSend | RWait | RCleanup _ | RClose _ => exists b, chans s !! i = Some (mkChan b false)
  | RDone (Ok _) => exists b, chans s !! i = Some (mkChan b true)
  | RDone _ => True
  end.

(** Between registration and the removal of the entry. *)
Definition active (pc : rpc) : bool :=
  match pc with RSend | RWait | RCleanup _ => true | _ => false end.

Definition answers (m : Message) i : Prop := exists msg, calls !! i = Some msg /\ m_ReplyTo m = m_ID msg.

Record cinv (s : csys) : Prop := {
  ci_len : length (reqs s) = length calls;
  ci_pending : forall id i, pending s !! id = Some i ->
    exists msg pc, calls !! i = Some msg /\ m_ID msg = id /\ reqs s !! i = Some pc /\ active pc = true;
  ci_tokens : forall i msg pc, calls !! i = Some msg -> reqs s !! i = Some pc ->
    (tokens s i (m_ID msg) pc <= 1)%nat /\ chan_at s i pc;
  ci_hands : forall k i m, hands s !! k = Some (HSend i m) -> answers m i;
  ci_chans : forall i m cl, chans s !! i = Some (mkChan (Some m) cl) -> answers m i;
  ci_results : forall i pc m, reqs s !! i = Some pc -> result_of pc = Some (Ok m) -> answers m i
}.

Hypothesis ids_unique : NoDup (m_ID <$> calls).

Lemma same_id i j a b : calls !! i = Some a -> calls !! j = Some b -> m_ID a = m_ID b -> i = j.
Proof.
  intros Hi Hj Heq. apply (NoDup_lookup (m_ID <$> calls) i j (m_ID a)); [done| |].
  - by rewrite list_lookup_fmap, Hi.
  - by rewrite list_lookup_fmap, Hj, Heq.
Qed.

Lemma cinit_inv : cinv cinit.
Proof.
  constructor; cbn [cinit pending chans reqs hands].
  - apply length_replicate.
  - done.
  - intros i msg pc Hc Hi. apply lookup_replicate in Hi as [-> _].
    unfold tokens, token_pending, token_chan, token_hands, chan_at. cbn [cinit pending chans hands].
    rewrite !lookup_empty, decide_False by done. cbn. split; [lia|done].
  - done.
  - done.
  - intros i pc m Hi. apply lookup_replicate in Hi as [-> _]. done.
Qed.

(** A request moves on without touching the table or its channel. *)
Lemma cinv_req i pc pc' s :
  reqs s !! i = Some pc -> (chan_at s i pc -> chan_at s i pc') ->
  (token_result pc' <= token_result pc)%nat -> (forall m, result_of pc' = Some (Ok m) -> result_of pc = Some (Ok m)) ->
  (active pc = true -> active pc' = true) -> cinv s -> cinv (with_req i pc' s).
Proof.
  intros Hi Hch Htok Hres Hact [Hl Hp Ht Hh Hc Hr]. pose proof (lookup_lt_Some _ _ _ Hi) as Hlt.
  constructor; cbn [with_req pending chans reqs hands]; try done.
  - by rewrite length_insert.
  - intros id j Hj. destruct (Hp id j Hj) as (msg & q & Hm & Hid & Hq & Ha). exists msg.
    destruct (decide (i = j)) as [<-|].
    + exists pc'. rewrite list_lookup_insert_eq by done. split_and!; try done. apply Hact. congruence.
    + exists q. by rewrite list_lookup_insert_ne.
  - intros j msg q Hm Hq. destruct (decide (i = j)) as [<-|].
    + rewrite list_lookup_insert_eq in Hq by done. injection Hq as <-.
      destruct (Ht i msg pc Hm Hi) as [Hk Ha]. split; [|exact (Hch Ha)].
      change (tokens (with_req i pc' s) i (m_ID msg) pc') with (tokens s i (m_ID msg) pc').
      unfold tokens in *. lia.
    + rewrite list_lookup_insert_ne in Hq by done. exact (Ht j msg q Hm Hq).
  - intros j q m Hq Hm. destruct (decide (i = j)) as [<-|].
    + rewrite list_lookup_insert_eq in Hq by done. injection Hq as <-. eauto.
    + rewrite list_lookup_insert_ne in Hq by done. eauto.
Qed.

(** A handler finishes without delivering. *)
Lemma cinv_hand_done k old s :
  hands s !! k = Some old -> (forall j, (hand_token j HDone <= hand_token j old)%nat) ->
  cinv s -> cinv (with_hand k HDone s).
Proof.
  intros Hk Hle [Hl Hp Ht Hh Hc Hr]. pose proof (lookup_lt_Some _ _ _ Hk) as Hlt.
  constructor; cbn [with_hand pending chans reqs hands]; try done.
  - intros j msg q Hm Hq. destruct (Ht j msg q Hm Hq) as [Hn Ha].
    pose proof (sum_update (hand_token j) (hands s) k HDone old Hk) as Hs. cbn [hand_token] in Hs.
    split.
    + unfold tokens, token_hands in *. cbn [with_hand hands]. change (token_pending (with_hand k HDone s)) with (token_pending s).
      change (token_chan (with_hand k HDone s)) with (token_chan s). lia.
    + unfold chan_at in *. destruct q; try done. destruct Ha as [Ha Hz]. split; [done|].
      unfold token_hands in *. cbn [with_hand hands]. lia.
  - intros k' i m Hk'. destruct (decide (k = k')) as [<-|].
    + rewrite list_lookup_insert_eq in Hk' by done. done.
    + rewrite list_lookup_insert_ne in Hk' by done. eauto.
Qed.

Lemma cinv_register i msg s :
  reqs s !! i = Some RStart -> calls !! i = Some msg -> cinv s ->
  cinv (with_req i RSend (with_pending <[m_ID msg := i]> (with_chan i (mkChan None false) s))).
Proof.
  intros Hi Hmsg [Hl Hp Ht Hh Hc Hr]. pose proof (lookup_lt_Some _ _ _ Hi) as Hlt.
  destruct (Ht i msg RStart Hmsg Hi) as [_ [Hnone Hz]].
  constructor; cbn [with_req with_pending with_chan pending chans reqs hands]; try done.
  - by rewrite length_insert.
  - intros id j. rewrite lookup_insert. case_decide as Hid.
    + intros [= <-]. exists msg, RSend. rewrite list_lookup_insert_eq by done. done.
    + intros Hj. destruct (Hp id j Hj) as (m & q & Hm & Hmid & Hq & Ha). exists m, q.
      rewrite list_lookup_insert_ne by congruence. done.
  - intros j m q Hm Hq. destruct (decide (i = j)) as [<-|Hne].
    + rewrite list_lookup_insert_eq in Hq by done. injection Hq as <-.
      unfold tokens, token_chan, chan_at. cbn [with_req with_pending with_chan chans].
      rewrite lookup_insert_eq. change (token_hands (with_req i RSend _) i) with (token_hands s i).
      rewrite Hz. unfold token_pending. case_decide; cbn; split; eauto; lia.
    + rewrite list_lookup_insert_ne in Hq by done. destruct (Ht j m q Hm Hq) as [Hk Ha].
      unfold tokens, token_chan, token_pending, token_hands, chan_at in *.
      cbn [with_req with_pending with_chan chans pending hands].
      rewrite lookup_insert_ne by (intros Heq; by apply Hne, (same_id i j msg m)).
      by rewrite !(lookup_insert_ne (chans s)).
  - intros j m cl. rewrite lookup_insert. case_decide; [done|]. apply Hc.
  - intros j q m Hq Hm. destruct (decide (i = j)) as [<-|].
    + rewrite list_lookup_insert_eq in Hq by done. by injection Hq as <-.
    + rewrite list_lookup_insert_ne in Hq by done. eauto.
Qed.

Lemma cinv_receive i m cl s :
  reqs s !! i = Some RWait -> chans s !! i = Some (mkChan (Some m) cl) -> cinv s ->
  cinv (with_req i (RCleanup (Ok m)) (with_chan i (mkChan None cl) s)).
Proof.
  intros Hi Hch [Hl Hp Ht Hh Hc Hr]. pose proof (lookup_lt_Some _ _ _ Hi) as Hlt.
  constructor; cbn [with_req with_chan pending chans reqs hands]; try done.
  - by rewrite length_insert.
  - intros id j Hj. destruct (Hp id j Hj) as (msg & q & Hm & Hid & Hq & Ha). exists msg.
    destruct (decide (i = j)) as [<-|].
    + eexists. rewrite list_lookup_insert_eq by done. done.
    + exists q. by rewrite list_lookup_insert_ne.
  - intros j msg q Hm Hq. destruct (decide (i = j)) as [<-|].
    + rewrite list_lookup_insert_eq in Hq by done. injection Hq as <-.
      destruct (Ht i msg RWait Hm Hi) as [Hk [b Hb]]. rewrite Hch in Hb. injection Hb as _ ->.
      unfold tokens, token_chan, token_pending, token_hands, chan_at in *.
      cbn [with_req with_chan chans pending hands]. rewrite lookup_insert_eq. rewrite Hch in Hk.
      cbn in *. split; [lia|eauto].
    + rewrite list_lookup_insert_ne in Hq by done. destruct (Ht j msg q Hm Hq) as [Hk Ha].
      unfold tokens, token_chan, token_pending, token_hands, chan_at in *.
      cbn [with_req with_chan chans pending hands]. by rewrite !lookup_insert_ne.
  - intros j m' cl'. rewrite lookup_insert. case_decide; [done|]. apply Hc.
  - intros j q m' Hq Hm. destruct (decide (i = j)) as [<-|].
    + rewrite list_lookup_insert_eq in Hq by done. injection Hq as <-. injection Hm as <-. eauto.
    + rewrite list_lookup_insert_ne in Hq by done. eauto.
Qed.

Lemma cinv_delete i msg r s :
  reqs s !! i = Some (RCleanup r) -> calls !! i = Some msg -> cinv s ->
  cinv (with_req i (RClose r) (with_pending (delete (m_ID msg)) s)).
Proof.
  intros Hi Hmsg [Hl Hp Ht Hh Hc Hr]. pose proof (lookup_lt_Some _ _ _ Hi) as Hlt.
  assert (Hle : forall j id, (token_pending (with_pending (delete (m_ID msg)) s) j id <= token_pending s j id)%nat).
  { intros j id. unfold token_pending. cbn [with_pending pending]. rewrite lookup_delete.
    repeat case_decide; try lia; try done. all: destruct (decide (m_ID msg = id)); try done; lia. }
  constructor; cbn [with_req with_pending pending chans reqs hands]; try done.
  - by rewrite length_insert.
  - intros id j. rewrite lookup_delete_Some. intros [Hne Hj].
    destruct (Hp id j Hj) as (m & q & Hm & Hid & Hq & Ha). exists m, q.
    rewrite list_lookup_insert_ne; [done|]. intros <-. rewrite Hmsg in Hm. by injection Hm as ->.
  - intros j m q Hm Hq. destruct (decide (i = j)) as [<-|].
    + rewrite list_lookup_insert_eq in Hq by done. injection Hq as <-.
      destruct (Ht i m _ Hm Hi) as [Hk Ha]. split; [|exact Ha]. specialize (Hle i (m_ID m)).
      unfold tokens in *. change (token_result (RClose r)) with (token_result (RCleanup r)).
      change (token_hands (with_req i (RClose r) _) i) with (token_hands s i).
      change (token_chan (with_req i (RClose r) _) i) with (token_chan s i).
      change (token_pending (with_req i (RClose r) _)) with (token_pending (with_pending (delete (m_ID msg)) s)). lia.
    + rewrite list_lookup_insert_ne in Hq by done. destruct (Ht j m q Hm Hq) as [Hk Ha]. split; [|exact Ha].
      specialize (Hle j (m_ID m)). unfold tokens in *.
      change (token_hands (with_req i (RClose r) _) j) with (token_hands s j).
      change (token_chan (with_req i (RClose r) _) j) with (token_chan s j).
      change (token_pending (with_req i (RClose r) _)) with (token_pending (with_pending (delete (m_ID msg)) s)). lia.
  - intros j q m Hq Hm. destruct (decide (i = j)) as [<-|].
    + rewrite list_lookup_insert_eq in Hq by done. injection Hq as <-. by eapply Hr.
    + rewrite list_lookup_insert_ne in Hq by done. eauto.
Qed.

Lemma cinv_close i r b s :
  reqs s !! i = Some (RClose r) -> chans s !! i = Some (mkChan b false) -> cinv s ->
  cinv (with_req i (RDone r) (with_chan i (mkChan b true) s)).
Proof.
  intros Hi Hch [Hl Hp Ht Hh Hc Hr]. pose proof (lookup_lt_Some _ _ _ Hi) as Hlt.
  constructor; cbn [with_req with_chan pending chans reqs hands]; try done.
  - by rewrite length_insert.
  - intros id j Hj. destruct (Hp id j Hj) as (msg & q & Hm & Hid & Hq & Ha). exists msg, q.
    rewrite list_lookup_insert_ne; [done|]. intros <-. rewrite Hi in Hq. by injection Hq as <-.
  - intros j msg q Hm Hq. destruct (decide (i = j)) as [<-|].
    + rewrite list_lookup_insert_eq in Hq by done. injection Hq as <-.
      destruct (Ht i msg _ Hm Hi) as [Hk _].
      unfold tokens, token_chan, token_pending, token_hands, chan_at in *.
      cbn [with_req with_chan chans pending hands]. rewrite lookup_insert_eq. rewrite Hch in Hk.
      split; [by destruct b|destruct r; eauto].
    + rewrite list_lookup_insert_ne in Hq by done. destruct (Ht j msg q Hm Hq) as [Hk Ha].
      unfold tokens, token_chan, token_pending, token_hands, chan_at in *.
      cbn [with_req with_chan chans pending hands]. by rewrite !lookup_insert_ne.
  - intros j m' cl'. rewrite lookup_insert. case_decide as Hij; [|apply Hc].
    intros [= -> _]. subst j. eauto.
  - intros j q m Hq Hm. destruct (decide (i = j)) as [<-|].
    + rewrite list_lookup_insert_eq in Hq by done. injection Hq as <-. by eapply Hr.
    + rewrite list_lookup_insert_ne in Hq by done. eauto.
Qed.

Lemma cinv_arrive m s :
  cinv s -> cinv (mkCsys (pending s) (chans s) (reqs s) (hands s ++ [HStart m]) None).
Proof.
  intros [Hl Hp Ht Hh Hc Hr]. constructor; cbn [pending chans reqs hands]; try done.
  - intros j msg q Hm Hq. destruct (Ht j msg q Hm Hq) as [Hk Ha].
    assert (Hs : token_hands (mkCsys (pending s) (chans s) (reqs s) (hands s ++ [HStart m]) None) j = token_hands s j).
    { unfold token_hands. cbn [hands]. rewrite sum_list_with_app. cbn. lia. }
    unfold tokens, chan_at in *. by rewrite Hs.
  - intros k i m' Hk. apply lookup_app_Some in Hk as [Hk | [_ Hk]]; [eauto|].
    by apply list_lookup_singleton_Some in Hk as [_ ?].
Qed.

Lemma cinv_take k m i s :
  hands s !! k = Some (HStart m) -> pending s !! m_ReplyTo m = Some i -> cinv s ->
  cinv (with_hand k (HSend i m) (with_pending (delete (m_ReplyTo m)) s)).
Proof.
  intros Hk Hpend [Hl Hp Ht Hh Hc Hr]. pose proof (lookup_lt_Some _ _ _ Hk) as Hlt.
  destruct (Hp _ _ Hpend) as (msg & pc & Hmsg & Hid & Hpc & Hact).
  constructor; cbn [with_hand with_pending pending chans reqs hands]; try done.
  - intros id j. rewrite lookup_delete_Some. intros [_ Hj]. eauto.
  - intros j msg' q Hm Hq. destruct (Ht j msg' q Hm Hq) as [Hn Ha].
    pose proof (sum_update (hand_token j) (hands s) k (HSend i m) _ Hk) as Hs. cbn [hand_token] in Hs.
    assert (Hpt : (token_pending (with_hand k (HSend i m) (with_pending (delete (m_ReplyTo m)) s)) j (m_ID msg') +
                   (if decide (j = i) then 1 else 0) <= token_pending s j (m_ID msg'))%nat).
    { unfold token_pending. cbn [with_hand with_pending pending]. destruct (decide (j = i)) as [->|Hne].
      - rewrite Hmsg in Hm. injection Hm as <-. rewrite Hid, lookup_delete_eq.
        rewrite decide_False by done. rewrite decide_True by done. lia.
      - rewrite lookup_delete. repeat case_decide; try lia; try done.
        all: destruct (decide (m_ReplyTo m = m_ID msg')); done || lia. }
    split.
    + unfold tokens, token_hands in *. cbn [with_hand with_pending hands].
      change (token_chan (with_hand k (HSend i m) _) j) with (token_chan s j). lia.
    + unfold chan_at in *. destruct q; try done. destruct Ha as [Ha Hz]. split; [done|].
      unfold token_hands in *. cbn [with_hand with_pending hands].
      destruct (decide (j = i)) as [->|]; [|lia]. rewrite Hpc in Hq. by injection Hq as ->.
  - intros k' i' m' Hk'. destruct (decide (k = k')) as [<-|].
    + rewrite list_lookup_insert_eq in Hk' by done. injection Hk' as <- <-. exists msg. by rewrite Hid.
    + rewrite list_lookup_insert_ne in Hk' by done. eauto.
Qed.

Lemma cinv_send k i m s :
  hands s !! k = Some (HSend i m) -> chans s !! i = Some (mkChan None false) -> cinv s ->
  cinv (with_hand k HDone (with_chan i (mkChan (Some m) false) s)).
Proof.
  intros Hk Hch [Hl Hp Ht Hh Hc Hr]. pose proof (lookup_lt_Some _ _ _ Hk) as Hlt.
  constructor; cbn [with_hand with_chan pending chans reqs hands]; try done.
  - intros j msg q Hm Hq. destruct (Ht j msg q Hm Hq) as [Hn Ha].
    pose proof (sum_update (hand_token j) (hands s) k HDone _ Hk) as Hs. cbn [hand_token] in Hs.
    unfold tokens, token_hands, token_pending, token_chan, chan_at in *.
    cbn [with_hand with_chan hands pending chans]. rewrite lookup_insert.
    destruct (decide (i = j)) as [<-|Hne].
    + rewrite Hch in *. destruct (decide (i = i)); [|done]. split; [lia|].
      destruct q as [| | | | |[]]; naive_solver.
    + rewrite decide_False in Hs by congruence. split; [lia|].
      destruct q; try done. destruct Ha as [Ha Hz]. split; [done|]. unfold token_hands in *. cbn [with_hand with_chan hands]. lia.
  - intros k' i' m' Hk'. destruct (decide (k = k')) as [<-|].
    + by rewrite list_lookup_insert_eq in Hk' by done.
    + rewrite list_lookup_insert_ne in Hk' by done. eauto.
  - intros j m' cl. rewrite lookup_insert. case_decide as Hij; [|apply Hc].
    intros [= -> _]. subst j. eauto.
Qed.

Lemma cinv_step s s' : cstep s s' -> cinv s -> cinv s'.
Proof.
  destruct 1; intros Hinv.
  all: try (by eapply cinv_req; eauto).
  - by apply cinv_register.
  - by apply cinv_receive.
  - by apply cinv_delete.
  - by apply cinv_close.
  - by apply cinv_arrive.
  - by eapply cinv_hand_done; eauto.
  - by eapply cinv_hand_done; eauto.
  - by apply cinv_take.
  - by apply cinv_send.
  - eapply cinv_hand_done; eauto. intros j. cbn. case_decide; lia.
  - destruct Hinv. by constructor.
Qed.

Lemma cinv_reachable s : rtc cstep cinit s -> cinv s.
Proof.
  refine (rtc_ind_r cinv cinit _ _ s); [apply cinit_inv|]. intros. by eapply cinv_step.
Qed.

(** A crash leaves the state that caused it. *)
Definition crash_inv (s : csys) : Prop :=
  forall p, crashed s = Some p -> p = SendOnClosedChannel /\
    exists i r, reqs s !! i = Some (RDone r) /\ (forall m, r <> Ok m).

Lemma token_hand k i m s : hands s !! k = Some (HSend i m) -> (1 <= token_hands s i)%nat.
Proof.
  intros Hk. pose proof (sum_update (hand_token i) (hands s) k HDone _ Hk) as Hs. unfold token_hands.
  cbn [hand_token] in Hs. rewrite decide_True in Hs by done. lia.
Qed.

Lemma crash_step s s' : cstep s s' -> cinv s -> crash_inv s'.
Proof.
  intros Hst Hinv. destruct Hst as [i e s H0 H1|i msg s H0 H1 H2|i s H0 H1|i e s H0 H1|i m cl s H0 H1 H2|i s H0 H1
    |i msg r s H0 H1 H2|i r b s H0 H1 H2|m s H0|k m s H0 H1 H2|k m s H0 H1 H2 H3|k m i s H0 H1 H2 H3
    |k i m s H0 H1 H2|k i m m' s H0 H1 H2|k i m b s H0 H1 H2].
  1-14: intros p; cbn; congruence.
  intros p [= <-]. split; [done|]. destruct Hinv as [Hl _ Ht Hh _ _].
  destruct (Hh k i m H1) as (msg & Hmsg & _).
  destruct (lookup_lt_is_Some_2 (reqs s) i) as [pc Hpc]; [rewrite Hl; by eapply lookup_lt_Some|].
  destruct (Ht i msg pc Hmsg Hpc) as [Htok Hch]. pose proof (token_hand k i m s H1) as Hh1.
  exists i. unfold chan_at in Hch. destruct pc as [| | |r|r|r]; try (rewrite H2 in Hch; naive_solver).
  exists r. split; [done|]. intros m' ->. unfold tokens in Htok. cbn in Htok. lia.
Qed.

(** ** Theorems *)

(** C34 (safety): in every interleaving, a request that returns a message
    returns a reply to its own message, and the table of pending requests only
    holds requests that are still between registration and clean-up: when all
    have returned it is empty. *)
Theorem controller_correlates s :
  rtc cstep cinit s ->
  (forall i m, reqs s !! i = Some (RDone (Ok m)) -> answers m i) /\
  (forall id i, pending s !! id = Some i -> exists pc, reqs s !! i = Some pc /\ active pc = true) /\
  (Forall (fun pc => active pc = false) (reqs s) -> pending s = ∅).
Proof.
  intros Hr. destruct (cinv_reachable s Hr) as [_ Hp _ _ _ Hres].
  assert (Hact : forall id i, pending s !! id = Some i -> exists pc, reqs s !! i = Some pc /\ active pc = true).
  { intros id i Hi. destruct (Hp id i Hi) as (_ & pc & _ & _ & Hpc & Ha). eauto. }
  split_and!; [by intros; eapply Hres|done|].
  intros Hall. apply map_empty. intros id. destruct (pending s !! id) as [i|] eqn:Hi; [|done].
  destruct (Hact id i Hi) as (pc & Hpc & Ha). rewrite Forall_lookup in Hall.
  rewrite (Hall i pc Hpc) in Ha. done.
Qed.

(** C35 (safety): the controller panics in one way only, a send on a closed
    channel, and only once some request has ended without a response: as long
    as every request is answered in time, no interleaving panics. *)
Theorem controller_panic_cause s p :
  rtc cstep cinit s -> crashed s = Some p ->
  p = SendOnClosedChannel /\ exists i r, reqs s !! i = Some (RDone r) /\ (forall m, r <> Ok m).
Proof.
  intros Hr Hc. apply rtc_inv_r in Hr as [<- | (s0 & Hr & Hst)]; [done|].
  by apply (crash_step s0 s Hst (cinv_reachable s0 Hr)).
Qed.

(** That panic is reachable: for every request and every reply to
    it there is a run in which the reply arrives as the request times out, and
    the handler sends on the channel the request has just closed, which the
    [default] case of its [select] does not prevent. *)
Theorem late_response_panics i msg m :
  calls !! i = Some msg -> m_ReplyTo m = m_ID msg -> m_ID msg <> ""%string ->
  exists s, rtc cstep cinit s /\ crashed s = Some SendOnClosedChannel.
Proof.
  intros Hi Hm Hne. pose proof (lookup_lt_Some _ _ _ Hi) as Hlt.
  assert (Hl : (i < length (reqs cinit))%nat) by (cbn; by rewrite length_replicate).
  eexists. split.
  - eapply rtc_l; [eapply (r_register i msg cinit); [done|by apply lookup_replicate_2|done]|].
    eapply rtc_l; [eapply (r_sent i); [done|cbn; by rewrite list_lookup_insert_eq]|].
    eapply rtc_l; [eapply (h_arrive m); done|].
    eapply rtc_l; [eapply (h_take 0 m i); [done|done|by rewrite Hm|cbn; rewrite Hm; by rewrite lookup_insert_eq]|].
    eapply rtc_l; [eapply (r_timeout i); [done|cbn; by rewrite list_lookup_insert_eq by (by rewrite length_insert)]|].
    eapply rtc_l; [eapply (r_delete i msg); [done|cbn; by rewrite list_lookup_insert_eq by (by rewrite !length_insert)|done]|].
    eapply rtc_l; [eapply (r_close i _ None); [done|cbn; by rewrite list_lookup_insert_eq by (by rewrite !length_insert)
                                              |cbn; by rewrite lookup_insert_eq]|].
    apply rtc_once. eapply (h_panic 0 i m None); [done|done|cbn; by rewrite lookup_insert_eq].
  - done.
Qed.

End Controller.

(** A run in which one request is sent and gets its reply. *)
Lemma request_run msg resp :
  m_ID msg <> ""%string -> m_ReplyTo resp = m_ID msg ->
  exists s, rtc (cstep [msg]) (cinit [msg]) s /\ reqs s = [RDone (Ok resp)] /\ pending s = ∅ /\ crashed s = None.
Proof.
  intros Hne Hre. eexists. split.
  - eapply rtc_l; [by eapply (r_register [msg] 0 msg)|]. eapply rtc_l; [by eapply (r_sent _ 0)|].
    eapply rtc_l; [by eapply (h_arrive _ resp)|].
    eapply rtc_l; [eapply (h_take _ 0 resp 0); [done|done|congruence|cbn; rewrite Hre; apply lookup_insert_eq]|].
    eapply rtc_l; [eapply (h_send _ 0 0 resp); [done|done|cbn; apply lookup_insert_eq]|].
    eapply rtc_l; [eapply (r_receive _ 0 resp); [done|done|cbn; apply lookup_insert_eq]|].
    eapply rtc_l; [by eapply (r_delete [msg] 0 msg)|].
    eapply rtc_l; [eapply (r_close _ 0); [done|done|cbn; apply lookup_insert_eq]|]. reflexivity.
  - split; [done|]. split; [|done]. cbn. rewrite Hre. by rewrite !delete_insert_eq, !delete_empty.
Qed.

(** One request, its reply, and a run that ends well. *)
Definition ask : Message := mkMessage "id-1" "get_stats" "a" "b" 0 None "".
Definition answer : Message := mkMessage "id-2" "stats" "b" "a" 0 None "id-1".

Lemma answered_run :
  exists s, rtc (cstep [ask]) (cinit [ask]) s /\ reqs s = [RDone (Ok answer)] /\ crashed s = None.
Proof.
  eexists. split.
  - eapply rtc_l; [by eapply (r_register _ 0 ask (cinit [ask]))|].
    eapply rtc_l; [by eapply (r_sent _ 0)|].
    eapply rtc_l; [by eapply (h_arrive _ answer)|].
    eapply rtc_l; [by eapply (h_take _ 0 answer 0)|].
    eapply rtc_l; [by eapply (h_send _ 0 0 answer)|].
    eapply rtc_l; [by eapply (r_receive _ 0 answer false)|].
    eapply rtc_l; [by eapply (r_delete _ 0 ask)|].
    eapply rtc_l; [by eapply (r_close _ 0 _ None)|]. reflexivity.
  - split; reflexivity.
Qed.

Lemma ask_unique : NoDup (m_ID <$> [ask]).
Proof. apply (bool_decide_unpack _). vm_compute. exact I. Qed.

Lemma controller_correlates_witness : answers [ask] answer 0 /\ exists s, rtc (cstep [ask]) (cinit [ask]) s /\ pending s = ∅.
Proof.
  destruct answered_run as (s & Hr & Hd & _).
  destruct (controller_correlates [ask] ask_unique s Hr) as (Hok & _ & Hempty). split.
  - apply Hok. by rewrite Hd.
  - exists s. split; [exact Hr|]. apply Hempty. rewrite Hd. by repeat constructor.
Defined.

Lemma late_response_panics_witness :
  exists s, rtc (cstep [ask]) (cinit [ask]) s /\ crashed s = Some SendOnClosedChannel.
Proof. apply (late_response_panics [ask] 0 ask answer); [reflexivity|reflexivity|discriminate]. Defined.

Lemma late_run : exists s, rtc (cstep [ask]) (cinit [ask]) s /\ crashed s = Some SendOnClosedChannel.
Proof.
  eexists. split.
  - eapply rtc_l; [by eapply (r_register _ 0 ask (cinit [ask]))|].
    eapply rtc_l; [by eapply (r_sent _ 0)|].
    eapply rtc_l; [by eapply (h_arrive _ answer)|].
    eapply rtc_l; [by eapply (h_take _ 0 answer 0)|].
    eapply rtc_l; [by eapply (r_timeout _ 0)|].
    eapply rtc_l; [by eapply (r_delete _ 0 ask)|].
    eapply rtc_l; [by eapply (r_close _ 0 _ None)|].
    apply rtc_once. by eapply (h_panic _ 0 0 answer None).
  - reflexivity.
Qed.

Lemma controller_panic_cause_witness :
  exists s i r, rtc (cstep [ask]) (cinit [ask]) s /\ reqs s !! i = Some (RDone r) /\ (forall m, r <> Ok m).
Proof.
  destruct late_run as (s & Hr & Hc).
  destruct (controller_panic_cause [ask] ask_unique s SendOnClosedChannel Hr Hc) as (_ & i & r & Hi & Hn).
  by exists s, i, r.
Defined.
