(* ===== verification/ConnRace.v ===== *)
(** * Goroutines on one connection (src/go/node/transport.go: PeerConnection)

    The callers of [Send], [Close] and [GracefulClose] on a connection (request
    handlers, the keepalive, the read loop as it ends, the shutdown), interleaved
    at their locks and socket calls.  A WebSocket allows one writer at a time:
    two goroutines inside its write methods at once crash the process.  The
    theorems say that this does not happen, that the connection is closed and
    dropped exactly once, and that all calls return. *)

From S2P Require Import Prelude Controller.

(** ** The goroutines *)

(** The calls of a goroutine.  [GracefulClose] sends the message it is given,
    unless there is no session or no identity to make one. *)
Inductive conn_call : Type :=
| CallSend (m : Message)
| CallClose
| CallGraceful (m : option Message).

(** Inside [Send]: before each of its steps.  [SWriting] is inside
    [WriteMessage]. *)
Inductive send_pc : Type :=
| SLock
| SEncrypt
| SDeadline
| SWrite
| SWriting
| SReset
| SUnlock.

(** Where a goroutine is: between calls, in [Send] (called from [GracefulClose]
    if the flag is set), before [closeOnce.Do], or in the function it runs. *)
Inductive conn_pc : Type :=
| PIdle
| PSend (graceful : bool) (m : Message) (p : send_pc)
| POnce (m : option Message)
| PDrop
| PClose
| PExit.

(** [sync.Once]: not called, running in a goroutine, done. *)
Inductive once : Type :=
| OnceFresh
| OnceRunning (k : nat)
| OnceDone.

(** The connection: [writeMu], [closeOnce], the goroutine inside
    [WriteMessage], the socket, whether the table has the connection, what was
    written by whom, how often the socket was closed. *)
Record conn_shared : Type := mkShared {
  writeMu : option nat;
  closeOnce : once;
  writing : option nat;
  sock_open : bool;
  listed : bool;
  written : list (nat * Message);
  closes : nat;
  conn_crashed : bool
}.

Definition start_call (c : conn_call) : conn_pc :=
  match c with
  | CallSend m => PSend false m SLock
  | CallClose => POnce None
  | CallGraceful m => POnce m
  end.
Definition once_body (m : option Message) : conn_pc :=
  match m with Some m => PSend true m SLock | None => PDrop end.
Definition after_send (graceful : bool) : conn_pc := if graceful then PDrop else PIdle.

Definition set_lock v (s : conn_shared) : conn_shared :=
  mkShared v (closeOnce s) (writing s) (sock_open s) (listed s) (written s) (closes s) (conn_crashed s).
Definition set_once v (s : conn_shared) : conn_shared :=
  mkShared (writeMu s) v (writing s) (sock_open s) (listed s) (written s) (closes s) (conn_crashed s).
Definition set_writing v (s : conn_shared) : conn_shared :=
  mkShared (writeMu s) (closeOnce s) v (sock_open s) (listed s) (written s) (closes s) (conn_crashed s).
Definition set_written v (s : conn_shared) : conn_shared :=
  mkShared (writeMu s) (closeOnce s) (writing s) (sock_open s) (listed s) v (closes s) (conn_crashed s).
Definition set_dropped (s : conn_shared) : conn_shared :=
  mkShared (writeMu s) (closeOnce s) (writing s) (sock_open s) false (written s) (closes s) (conn_crashed s).
Definition set_shut (s : conn_shared) : conn_shared :=
  mkShared (writeMu s) (closeOnce s) (writing s) false (listed s) (written s) (S (closes s)) (conn_crashed s).
Definition set_crashed (s : conn_shared) : conn_shared :=
  mkShared (writeMu s) (closeOnce s) (writing s) (sock_open s) (listed s) (written s) (closes s) true.

(** A step of goroutine [k].  [SetWriteDeadline] and [WriteMessage] need the
    socket to themselves; each may fail, and a write succeeds only on an open
    socket. *)
Inductive goroutine (k : nat) : conn_shared -> conn_pc -> conn_shared -> conn_pc -> Prop :=
| g_lock s g m :
    writeMu s = None -> goroutine k s (PSend g m SLock) (set_lock (Some k) s) (PSend g m SEncrypt)
| g_encrypt s g m : goroutine k s (PSend g m SEncrypt) s (PSend g m SDeadline)
| g_encrypt_failed s g m : goroutine k s (PSend g m SEncrypt) s (PSend g m SUnlock)
| g_deadline s g m : writing s = None -> goroutine k s (PSend g m SDeadline) s (PSend g m SWrite)
| g_deadline_failed s g m : writing s = None -> goroutine k s (PSend g m SDeadline) s (PSend g m SUnlock)
| g_write s g m :
    writing s = None -> goroutine k s (PSend g m SWrite) (set_writing (Some k) s) (PSend g m SWriting)
| g_written s g m :
    sock_open s = true ->
    goroutine k s (PSend g m SWriting) (set_written (written s ++ [(k, m)]) (set_writing None s)) (PSend g m SReset)
| g_write_failed s g m : goroutine k s (PSend g m SWriting) (set_writing None s) (PSend g m SReset)
| g_reset s g m : writing s = None -> goroutine k s (PSend g m SReset) s (PSend g m SUnlock)
| g_unlock s g m : goroutine k s (PSend g m SUnlock) (set_lock None s) (after_send g)
| g_race s g m p :
    p ∈ [SDeadline; SWrite; SReset] -> writing s <> None ->
    goroutine k s (PSend g m p) (set_crashed s) (PSend g m p)
| g_once s m : closeOnce s = OnceFresh -> goroutine k s (POnce m) (set_once (OnceRunning k) s) (once_body m)
| g_once_done s m : closeOnce s = OnceDone -> goroutine k s (POnce m) s PIdle
| g_drop s : goroutine k s PDrop (set_dropped s) PClose
| g_close s : goroutine k s PClose (set_shut s) PExit
| g_exit s : goroutine k s PExit (set_once OnceDone s) PIdle.

(** The goroutines with the calls they have left. *)
Record conn_sys : Type := mkSys {
  shared : conn_shared;
  goroutines : list (conn_pc * list conn_call)
}.

Inductive conn_step : conn_sys -> conn_sys -> Prop :=
| cs_call k c cs s gs :
    conn_crashed s = false -> gs !! k = Some (PIdle, c :: cs) ->
    conn_step (mkSys s gs) (mkSys s (<[k := (start_call c, cs)]> gs))
| cs_local k pc cs s gs s' pc' :
    conn_crashed s = false -> gs !! k = Some (pc, cs) -> goroutine k s pc s' pc' ->
    conn_step (mkSys s gs) (mkSys s' (<[k := (pc', cs)]> gs)).

Definition conn_init (calls : list (list conn_call)) : conn_sys :=
  mkSys (mkShared None OnceFresh None true true [] 0 false) ((fun cs => (PIdle, cs)) <$> calls).

(** ** The invariant *)

(** Holding [writeMu], inside [WriteMessage], running the once function. *)
Definition holds (pc : conn_pc) : bool :=
  match pc with PSend _ _ SLock => false | PSend _ _ _ => true | _ => false end.
Definition is_writing (pc : conn_pc) : bool := match pc with PSend _ _ SWriting => true | _ => false end.
Definition in_once (pc : conn_pc) : bool :=
  match pc with PSend true _ _ | PDrop | PClose | PExit => true | _ => false end.

(** What the state of the once says of the socket and the table, for the place
    where the goroutine that runs it is. *)
Definition close_state (s : conn_shared) (pc : conn_pc) : Prop :=
  match pc with
  | PExit => sock_open s = false /\ listed s = false /\ closes s = 1%nat
  | PClose => sock_open s = true /\ listed s = false /\ closes s = 0%nat
  | _ => sock_open s = true /\ listed s = true /\ closes s = 0%nat
  end.

(** The messages a goroutine may still write. *)
Definition call_message (c : conn_call) : list Message :=
  match c with CallSend m | CallGraceful (Some m) => [m] | _ => [] end.
Definition pc_message (pc : conn_pc) : list Message :=
  match pc with
  | PSend _ m (SLock | SEncrypt | SDeadline | SWrite | SWriting) | POnce (Some m) => [m]
  | _ => []
  end.
Definition by_goroutine (k : nat) (ws : list (nat * Message)) : list Message :=
  omap (fun e => if decide (e.1 = k) then Some e.2 else None) ws.

Record conn_inv (calls : list (list conn_call)) (s : conn_sys) : Prop := mkConnInv {
  ci_alive : conn_crashed (shared s) = false;
  ci_lock : forall k pc cs, goroutines s !! k = Some (pc, cs) -> (holds pc = true <-> writeMu (shared s) = Some k);
  ci_holder : forall k, writeMu (shared s) = Some k -> is_Some (goroutines s !! k);
  ci_writing : forall k pc cs, goroutines s !! k = Some (pc, cs) -> (is_writing pc = true <-> writing (shared s) = Some k);
  ci_writer : forall k, writing (shared s) = Some k -> writeMu (shared s) = Some k;
  ci_once : forall k pc cs, goroutines s !! k = Some (pc, cs) -> (in_once pc = true <-> closeOnce (shared s) = OnceRunning k);
  ci_runner : forall k, closeOnce (shared s) = OnceRunning k ->
    exists pc cs, goroutines s !! k = Some (pc, cs) /\ close_state (shared s) pc;
  ci_fresh : closeOnce (shared s) = OnceFresh -> close_state (shared s) PIdle;
  ci_done : closeOnce (shared s) = OnceDone -> close_state (shared s) PExit;
  ci_order : forall k pc cs, goroutines s !! k = Some (pc, cs) -> exists all, calls !! k = Some all /\
    sublist (by_goroutine k (written (shared s)) ++ pc_message pc ++ (cs ≫= call_message)) (all ≫= call_message)
}.

Lemma by_goroutine_app k ws ws' : by_goroutine k (ws ++ ws') = by_goroutine k ws ++ by_goroutine k ws'.
Proof. apply omap_app. Qed.

Lemma by_goroutine_own k m ws : by_goroutine k (ws ++ [(k, m)]) = by_goroutine k ws ++ [m].
Proof. rewrite by_goroutine_app. cbn. by rewrite decide_True. Qed.
Lemma by_goroutine_other j k m ws : j <> k -> by_goroutine j (ws ++ [(k, m)]) = by_goroutine j ws.
Proof. intros Hne. rewrite by_goroutine_app. cbn. rewrite decide_False by done. apply app_nil_r. Qed.

(** What a step of goroutine [k] has to respect. *)
Record own_step (k : nat) (s : conn_shared) (pc : conn_pc) (s' : conn_shared) (pc' : conn_pc) : Prop := mkOwn {
  os_alive : conn_crashed s' = false;
  os_lock : forall j, j <> k -> (writeMu s' = Some j <-> writeMu s = Some j);
  os_holds : holds pc' = true <-> writeMu s' = Some k;
  os_writing : forall j, j <> k -> (writing s' = Some j <-> writing s = Some j);
  os_writes : is_writing pc' = true <-> writing s' = Some k;
  os_once : forall j, j <> k -> (closeOnce s' = OnceRunning j <-> closeOnce s = OnceRunning j);
  os_runs : in_once pc' = true <-> closeOnce s' = OnceRunning k;
  os_state : (sock_open s' = sock_open s /\ listed s' = listed s /\ closes s' = closes s) \/ closeOnce s = OnceRunning k;
  os_runner : closeOnce s' = OnceRunning k -> close_state s' pc';
  os_fresh : closeOnce s' = OnceFresh -> close_state s' PIdle;
  os_done : closeOnce s' = OnceDone -> close_state s' PExit;
  os_order : sublist (by_goroutine k (written s') ++ pc_message pc') (by_goroutine k (written s) ++ pc_message pc);
  os_others : forall j, j <> k -> by_goroutine j (written s') = by_goroutine j (written s)
}.

Lemma conn_inv_own calls k s gs pc cs s' pc' :
  conn_inv calls (mkSys s gs) -> gs !! k = Some (pc, cs) -> own_step k s pc s' pc' ->
  conn_inv calls (mkSys s' (<[k := (pc', cs)]> gs)).
Proof.
  intros [_ Hl Hh Hw Hwr Ho Hr _ _ Hord] Hk [Ha Ol Oh Ow Owr Oo Or Os Orn Of Od Oord Ooth].
  cbn [shared goroutines] in *. pose proof (lookup_lt_Some _ _ _ Hk) as Hlt.
  assert (Hcase : forall (P : nat -> conn_pc -> list conn_call -> Prop), P k pc' cs ->
    (forall j q qs, j <> k -> gs !! j = Some (q, qs) -> P j q qs) ->
    forall j q qs, <[k := (pc', cs)]> gs !! j = Some (q, qs) -> P j q qs).
  { intros P Hp Hq j q qs Hj. destruct (decide (j = k)) as [->|Hne].
    - rewrite list_lookup_insert_eq in Hj by done. by injection Hj as <- <-.
    - rewrite list_lookup_insert_ne in Hj by done. by apply Hq. }
  constructor; cbn [shared goroutines]; try done.
  - apply (Hcase (fun j q _ => holds q = true <-> writeMu s' = Some j)); [done|].
    intros j q qs Hne Hj. rewrite (Ol j Hne). by eapply Hl.
  - intros j Hj. destruct (decide (j = k)) as [->|Hne]; [by rewrite list_lookup_insert_eq|].
    rewrite list_lookup_insert_ne by done. by apply Hh, Ol.
  - apply (Hcase (fun j q _ => is_writing q = true <-> writing s' = Some j)); [done|].
    intros j q qs Hne Hj. rewrite (Ow j Hne). by eapply Hw.
  - intros j Hj. destruct (decide (j = k)) as [->|Hne].
    + apply Oh. apply Owr in Hj. by destruct pc' as [|? ? []| | | |].
    + apply (Ol j Hne), Hwr, (Ow j Hne), Hj.
  - apply (Hcase (fun j q _ => in_once q = true <-> closeOnce s' = OnceRunning j)); [done|].
    intros j q qs Hne Hj. rewrite (Oo j Hne). by eapply Ho.
  - intros j Hj. destruct (decide (j = k)) as [->|Hne].
    + exists pc', cs. rewrite list_lookup_insert_eq by done. split; [done|by apply Orn].
    + apply Oo in Hj; [|done]. destruct (Hr j Hj) as (q & qs & Hq & Hst). exists q, qs.
      rewrite list_lookup_insert_ne by done. split; [done|]. destruct Os as [(E1 & E2 & E3)|Hk']; [|congruence].
      unfold close_state in *. by rewrite E1, E2, E3.
  - apply (Hcase (fun j q qs => exists all, calls !! j = Some all /\
      sublist (by_goroutine j (written s') ++ pc_message q ++ (qs ≫= call_message)) (all ≫= call_message))).
    + destruct (Hord k pc cs Hk) as (all & Hall & Hsub). exists all. split; [done|].
      etrans; [|exact Hsub]. rewrite !app_assoc. by apply sublist_app.
    + intros j q qs Hne Hj. rewrite Ooth by done. by apply Hord.
Qed.

(** The parts of [own_step], on a concrete step. *)
Ltac own_tac :=
  constructor;
  cbn [holds is_writing in_once pc_message once_body after_send set_lock set_once set_writing set_written set_dropped set_shut
       writeMu closeOnce writing sock_open listed written closes conn_crashed close_state];
  try done; try (left; done); try (right; done);
  try (intros; split; intros; congruence); try (split; intros; congruence);
  try (apply sublist_app; [done|apply sublist_nil_l]);
  try (by rewrite by_goroutine_own, app_nil_r); try (intros; by apply by_goroutine_other).

Lemma flag_iff (b : bool) (P : Prop) : (b = true <-> P) -> if b then P else ~ P.
Proof. destruct b; naive_solver. Qed.

Lemma goroutine_own calls k s gs pc cs s' pc' :
  conn_inv calls (mkSys s gs) -> gs !! k = Some (pc, cs) -> goroutine k s pc s' pc' -> own_step k s pc s' pc'.
Proof.
  intros [Ha Hl _ Hw Hwr Ho Hr Hf Hd _] Hk Hstep. cbn [shared goroutines] in *.
  pose proof (flag_iff _ _ (Hl k pc cs Hk)) as Hl'. pose proof (flag_iff _ _ (Hw k pc cs Hk)) as Hw'.
  pose proof (flag_iff _ _ (Ho k pc cs Hk)) as Ho'.
  assert (Hst : closeOnce s = OnceRunning k -> close_state s pc).
  { intros Hrun. destruct (Hr k Hrun) as (q & qs & Hq & Hst). rewrite Hk in Hq. by injection Hq as <- <-. }
  clear Hr Hl Hw Ho Hk gs cs.
  assert (Hrace : forall g m p, pc = PSend g m p -> p ∈ [SDeadline; SWrite; SReset] -> writing s = None).
  { intros g m p -> Hp. destruct (writing s) as [j|] eqn:Hj; [|done]. specialize (Hwr j eq_refl).
    assert (holds (PSend g m p) = true /\ is_writing (PSend g m p) = false) as [Hh Hn] by set_solver.
    rewrite Hh in Hl'. rewrite Hn in Hw'. congruence. }
  destruct Hstep as [| | | | | | | | | |s g m p Hp Hbusy| | | | |];
    [..|by destruct Hbusy; apply (Hrace g m p)| | | | |]; try (destruct g); try (destruct m); cbn [holds is_writing in_once] in *.
  all: own_tac.
  all: try (intros _; by apply Hf); try (intros _; destruct (Hst Ho') as (? & ? & Hz); by rewrite ?Hz).
Qed.

Lemma conn_inv_step calls s s' : conn_inv calls s -> conn_step s s' -> conn_inv calls s'.
Proof.
  intros Hinv Hstep. destruct Hstep as [k c cs s gs Hcr Hk|k pc cs s gs s' pc' Hcr Hk Hg].
  2: { eapply conn_inv_own; [exact Hinv|exact Hk|]. by eapply goroutine_own. }
  destruct Hinv as [Ha Hl Hh Hw Hwr Ho Hr Hf Hd Hord]. cbn [shared goroutines] in *. pose proof (lookup_lt_Some _ _ _ Hk) as Hlt.
  assert (Hsame : forall (f : conn_pc -> bool) (P : nat -> Prop), f (start_call c) = f PIdle ->
    (forall j q qs, gs !! j = Some (q, qs) -> (f q = true <-> P j)) ->
    forall j q qs, <[k := (start_call c, cs)]> gs !! j = Some (q, qs) -> (f q = true <-> P j)).
  { intros f P Hfc HP j q qs Hj. destruct (decide (j = k)) as [->|Hne].
    - rewrite list_lookup_insert_eq in Hj by done. injection Hj as <- <-. rewrite Hfc. by eapply HP.
    - rewrite list_lookup_insert_ne in Hj by done. by eapply HP. }
  constructor; cbn [shared goroutines]; try done.
  - apply Hsame; [by destruct c|done].
  - intros j Hj. destruct (Hh j Hj) as [x Hx]. destruct (decide (j = k)) as [->|Hne]; [by rewrite list_lookup_insert_eq|].
    by rewrite list_lookup_insert_ne.
  - apply Hsame; [by destruct c|done].
  - apply Hsame; [by destruct c|done].
  - intros j Hj. destruct (Hr j Hj) as (q & qs & Hq & Hst). exists q, qs. destruct (decide (j = k)) as [->|Hne].
    + rewrite Hk in Hq. injection Hq as <- <-. by pose proof (proj2 (Ho k _ _ Hk) Hj).
    + by rewrite list_lookup_insert_ne.
  - intros j q qs Hj. destruct (decide (j = k)) as [->|Hne].
    + rewrite list_lookup_insert_eq in Hj by done. injection Hj as <- <-. destruct (Hord k PIdle (c :: cs) Hk) as (all & Hall & Hsub).
      exists all. split; [done|]. cbn [pc_message mbind list_bind app] in Hsub. by destruct c as [| |[]].
    + rewrite list_lookup_insert_ne in Hj by done. by apply Hord.
Qed.

Lemma conn_inv_init calls : conn_inv calls (conn_init calls).
Proof.
  assert (Hidle : forall k pc cs, (conn_init calls).(goroutines) !! k = Some (pc, cs) -> pc = PIdle /\ calls !! k = Some cs).
  { intros k pc cs Hk. cbn in Hk. rewrite list_lookup_fmap in Hk. destruct (calls !! k); [|done]. by injection Hk as <- <-. }
  constructor; cbn [conn_init shared writeMu writing closeOnce written closes sock_open listed conn_crashed]; try done.
  1-3: intros k pc cs Hk; by apply Hidle in Hk as [-> _].
  intros k pc cs Hk. apply Hidle in Hk as [-> Hall]. by exists cs.
Qed.

Lemma conn_reachable calls s : rtc conn_step (conn_init calls) s -> conn_inv calls s.
Proof.
  intros Hr. pose proof (conn_inv_init calls) as Hi. induction Hr as [|s1 s2 s3 Hs _ IH]; [done|]. by eapply IH, conn_inv_step.
Qed.

Lemma conn_length calls s : rtc conn_step (conn_init calls) s -> length (goroutines s) = length calls.
Proof.
  intros Hr. cut (length (goroutines s) = length (goroutines (conn_init calls))); [intros ->; apply length_fmap|].
  induction Hr as [|s1 s2 s3 Hs _ IH]; [done|]. rewrite IH. destruct Hs; apply length_insert.
Qed.

(** C15 (safety): whatever the goroutines of a connection call, and however they
    are interleaved, no two of them are inside the write methods of the socket at
    once, deadlines included; the socket is closed at most once, and after that
    the connection is out of the table; and what a goroutine wrote are messages
    it was asked to send, in its order. *)
Theorem conn_writes_exclusive calls s :
  rtc conn_step (conn_init calls) s ->
  conn_crashed (shared s) = false /\
  (forall j k pj pk cj ck, goroutines s !! j = Some (pj, cj) -> goroutines s !! k = Some (pk, ck) ->
    holds pj = true -> holds pk = true -> j = k) /\
  (closes (shared s) <= 1)%nat /\
  (closeOnce (shared s) = OnceDone -> sock_open (shared s) = false /\ listed (shared s) = false /\ closes (shared s) = 1%nat) /\
  (forall k all, calls !! k = Some all -> sublist (by_goroutine k (written (shared s))) (all ≫= call_message)).
Proof.
  intros Hr. destruct (conn_reachable calls s Hr) as [Ha Hl _ _ _ _ Hrun Hf Hd Hord]. split_and!; [done| | |exact Hd|].
  - intros j k pj pk cj ck Hj Hk Hpj Hpk. apply (Hl _ _ _ Hj) in Hpj. apply (Hl _ _ _ Hk) in Hpk. congruence.
  - destruct (closeOnce (shared s)) as [|k|] eqn:Ho.
    + destruct (Hf eq_refl) as (_ & _ & ->). lia.
    + destruct (Hrun k eq_refl) as (pc & cs & _ & Hst). destruct pc; destruct Hst as (_ & _ & ->); lia.
    + destruct (Hd eq_refl) as (_ & _ & ->). lia.
  - intros k all Hall. destruct (lookup_lt_is_Some_2 (goroutines s) k) as [[pc cs] Hk].
    { rewrite (conn_length calls s Hr). by eapply lookup_lt_Some. }
    destruct (Hord k pc cs Hk) as (all' & Hall' & Hsub). rewrite Hall in Hall'. injection Hall' as <-.
    etrans; [|exact Hsub]. by apply sublist_inserts_r.
Qed.

(** ** All calls return *)
Definition send_weight (p : send_pc) : nat :=
  match p with SLock => 7 | SEncrypt => 6 | SDeadline => 5 | SWrite => 4 | SWriting => 3 | SReset => 2 | SUnlock => 1 end.
Definition pc_weight (pc : conn_pc) : nat :=
  match pc with
  | PIdle => 0
  | PSend g _ p => send_weight p + (if g then 3 else 0)
  | POnce _ => 11
  | PDrop => 3
  | PClose => 2
  | PExit => 1
  end.
Definition goroutine_weight (g : conn_pc * list conn_call) : nat := pc_weight g.1 + 12 * length g.2.
Definition conn_weight (s : conn_sys) : nat := sum_list_with goroutine_weight (goroutines s).

Lemma goroutine_weight_decr k s pc s' pc' :
  goroutine k s pc s' pc' -> conn_crashed s' = false -> (pc_weight pc' < pc_weight pc)%nat.
Proof.
  intros Hg Hcr. destruct Hg; cbn [pc_weight send_weight after_send once_body]; try lia; try done.
  - destruct g; cbn; lia.
  - destruct m; cbn; lia.
Qed.

Lemma conn_step_weight calls s s' : conn_inv calls s -> conn_step s s' -> (conn_weight s' < conn_weight s)%nat.
Proof.
  intros Hinv Hstep. pose proof (ci_alive _ _ (conn_inv_step _ _ _ Hinv Hstep)) as Ha.
  destruct Hstep as [k c cs s gs _ Hk|k pc cs s gs s' pc' _ Hk Hg]; unfold conn_weight; cbn [goroutines shared] in *.
  - pose proof (sum_update goroutine_weight gs k (start_call c, cs) _ Hk) as Hs.
    assert (goroutine_weight (start_call c, cs) < goroutine_weight (PIdle, c :: cs))%nat by (destruct c; cbn; lia). lia.
  - pose proof (sum_update goroutine_weight gs k (pc', cs) _ Hk) as Hs. pose proof (goroutine_weight_decr _ _ _ _ _ Hg Ha).
    assert (goroutine_weight (pc', cs) < goroutine_weight (pc, cs))%nat by (unfold goroutine_weight; cbn [fst snd]; lia). lia.
Qed.

(** A goroutine that holds the lock can go on. *)
Lemma holder_steps calls s gs k pc cs :
  conn_inv calls (mkSys s gs) -> gs !! k = Some (pc, cs) -> holds pc = true -> exists s' pc', goroutine k s pc s' pc'.
Proof.
  intros [_ Hl _ Hw Hwr _ _ _ _ _] Hk Hh. cbn [shared goroutines] in *.
  assert (Hfree : is_writing pc = false -> writing s = None).
  { intros Hn. destruct (writing s) as [j|] eqn:Hj; [|done]. pose proof (Hwr j eq_refl) as Hm.
    pose proof (proj1 (Hl k pc cs Hk) Hh) as Hm'. assert (j = k) as -> by congruence. rewrite (proj2 (Hw k pc cs Hk) eq_refl) in Hn. done. }
  destruct pc as [|g m [| | | | | |]| | | |]; try done; eauto using goroutine.
Qed.

(** So can one that runs the once function, or one whose lock it waits for. *)
Lemma runner_steps calls s gs k pc cs :
  conn_inv calls (mkSys s gs) -> gs !! k = Some (pc, cs) -> match pc with PIdle | POnce _ => False | _ => True end ->
  exists s', conn_step (mkSys s gs) s'.
Proof.
  intros Hinv Hk Hpc. pose proof (ci_alive _ _ Hinv) as Hcr. cbn [shared] in Hcr. destruct pc as [|g m p| | | |]; try done; [|eexists; by eapply cs_local; [| |constructor]..].
  destruct (holds (PSend g m p)) eqn:Hh.
  - destruct (holder_steps _ _ _ _ _ _ Hinv Hk Hh) as (s' & pc' & Hg). eexists. by eapply cs_local.
  - destruct p; try done. destruct (writeMu s) as [j|] eqn:Hj; [|eexists; by eapply cs_local; [| |constructor]].
    destruct (ci_holder _ _ Hinv j Hj) as [[q qs] Hq]. cbn [goroutines] in Hq.
    pose proof (proj2 (ci_lock _ _ Hinv j q qs Hq) Hj) as Hhq.
    destruct (holder_steps _ _ _ _ _ _ Hinv Hq Hhq) as (s' & pc' & Hg). eexists. by eapply cs_local.
Qed.

(** Every goroutine has made all its calls. *)
Definition returned (g : conn_pc * list conn_call) : bool := match g with (PIdle, []) => true | _ => false end.
Definition all_returned (s : conn_sys) : Prop := Forall (fun g => returned g = true) (goroutines s).

Lemma conn_progress calls s : conn_inv calls s -> all_returned s \/ exists s', conn_step s s'.
Proof.
  destruct s as [s gs]. intros Hinv. pose proof (ci_alive _ _ Hinv) as Hcr. cbn [shared] in Hcr.
  destruct (decide (Forall (fun g => returned g = true) gs)) as [Hall|Hnot]; [by left|]. right. apply not_Forall_Exists in Hnot; [|apply _]. apply Exists_exists in Hnot as ([pc cs] & Hin & Hpc).
  apply list_elem_of_lookup in Hin as [k Hk]. destruct pc as [|g m p|m| | |].
  - destruct cs as [|c cs]; [by destruct Hpc|]. eexists. by eapply cs_call.
  - by eapply runner_steps.
  - destruct (closeOnce s) as [|j|] eqn:Ho; [eexists; by eapply cs_local; [| |constructor]| |eexists; by eapply cs_local; [| |apply g_once_done]].
    destruct (ci_runner _ _ Hinv j Ho) as (q & qs & Hq & _). cbn [goroutines] in Hq.
    pose proof (proj2 (ci_once _ _ Hinv j q qs Hq) Ho) as Hin. eapply runner_steps; [done|exact Hq|]. by destruct q.
  - by eapply runner_steps.
  - by eapply runner_steps.
  - by eapply runner_steps.
Qed.

(** A goroutine with a call that closes the connection. *)
Definition closing (c : conn_call) : bool := match c with CallSend _ => false | _ => true end.
Definition will_close (g : conn_pc * list conn_call) : bool :=
  match g.1 with POnce _ => true | _ => existsb closing g.2 end.

Lemma goroutine_will_close k s pc s' pc' cs :
  goroutine k s pc s' pc' -> closeOnce s' = OnceFresh -> closeOnce s = OnceFresh /\ (will_close (pc, cs) = true -> will_close (pc', cs) = true).
Proof. intros Hg. destruct Hg; try (destruct g); cbn; intros; try done; split; congruence. Qed.

Lemma once_fresh calls s k all :
  rtc conn_step (conn_init calls) s -> calls !! k = Some all -> existsb closing all = true ->
  closeOnce (shared s) = OnceFresh -> exists g, goroutines s !! k = Some g /\ will_close g = true.
Proof.
  intros Hr Hall Hcl. assert (H0 : exists g, goroutines (conn_init calls) !! k = Some g /\ will_close g = true).
  { exists (PIdle, all). cbn. by rewrite list_lookup_fmap, Hall. }
  cut (forall a b, rtc conn_step a b ->
    (closeOnce (shared a) = OnceFresh -> exists g, goroutines a !! k = Some g /\ will_close g = true) ->
    closeOnce (shared b) = OnceFresh -> exists g, goroutines b !! k = Some g /\ will_close g = true).
  { intros Hcut. apply (Hcut _ _ Hr). by intros _. }
  clear. intros a b Hr. induction Hr as [|s1 s2 s3 Hs _ IH]; [done|]. intros Ha. apply IH. clear IH.
  destruct Hs as [j c cs s gs _ Hj|j pc cs s gs s' pc' _ Hj Hg]; cbn [shared goroutines] in *; intros Hf.
  - destruct (Ha Hf) as (g & Hg & Hw). destruct (decide (k = j)) as [->|Hne]; [|exists g; by rewrite list_lookup_insert_ne].
    rewrite Hj in Hg. injection Hg as <-. exists (start_call c, cs). split; [by rewrite list_lookup_insert_eq by (by eapply lookup_lt_Some)|].
    by destruct c.
  - destruct (goroutine_will_close _ _ _ _ _ cs Hg Hf) as [Hf0 Hw']. destruct (Ha Hf0) as (g & Hgk & Hw).
    destruct (decide (k = j)) as [->|Hne]; [|exists g; by rewrite list_lookup_insert_ne].
    rewrite Hj in Hgk. injection Hgk as <-. exists (pc', cs).
    split; [by rewrite list_lookup_insert_eq by (by eapply lookup_lt_Some)|]. by apply Hw'.
Qed.

Lemma conn_steps_weight calls a b n :
  conn_inv calls a -> nsteps conn_step n a b -> (n + conn_weight b <= conn_weight a)%nat.
Proof.
  intros Ha Hn. induction Hn as [|n a s b Hs _ IH]; [lia|]. pose proof (conn_step_weight _ _ _ Ha Hs).
  specialize (IH (conn_inv_step _ _ _ Ha Hs)). lia.
Qed.
Lemma conn_weight_init calls : conn_weight (conn_init calls) = (12 * length (concat calls))%nat.
Proof.
  unfold conn_weight. cbn [conn_init goroutines]. induction calls as [|cs calls IH]; [done|].
  cbn [fmap list_fmap sum_list_with concat]. rewrite IH, length_app. unfold goroutine_weight. cbn [fst snd pc_weight]. lia.
Qed.

(** C16 (termination): all calls on a connection return, whatever the scheduler
    does: there is no deadlock between [writeMu] and [closeOnce] (closing
    gracefully sends, with the lock, inside the once), and no run is longer than
    twelve steps per call.  When all have returned and one of them closes, the
    socket is closed and the connection out of the table. *)
Theorem conn_calls_return calls n s :
  nsteps conn_step n (conn_init calls) s ->
  (n <= 12 * length (concat calls))%nat /\
  (all_returned s \/ exists s', conn_step s s') /\
  (all_returned s -> existsb closing (concat calls) = true ->
    sock_open (shared s) = false /\ listed (shared s) = false /\ closes (shared s) = 1%nat).
Proof.
  intros Hn. pose proof (conn_steps_weight calls _ _ _ (conn_inv_init calls) Hn) as Hw. rewrite conn_weight_init in Hw.
  assert (Hr : rtc conn_step (conn_init calls) s) by (by eapply rtc_nsteps_2).
  pose proof (conn_reachable calls s Hr) as Hinv. split_and!; [lia|by eapply conn_progress|].
  intros Hall Hcl. apply existsb_exists in Hcl as (c & Hin & Hc). apply in_concat in Hin as (all & Hin & Hc').
  apply list_elem_of_In, list_elem_of_lookup in Hin as [k Hk].
  assert (Hex : existsb closing all = true) by (apply existsb_exists; by exists c).
  unfold all_returned in Hall. rewrite Forall_lookup in Hall. apply (ci_done _ _ Hinv).
  destruct (closeOnce (shared s)) as [|j|] eqn:Ho; [| |done].
  - destruct (once_fresh calls s k all Hr Hk Hex Ho) as (g & Hg & Hwc). specialize (Hall k g Hg). by destruct g as [[] []].
  - destruct (ci_runner _ _ Hinv j Ho) as (q & qs & Hq & _). pose proof (proj2 (ci_once _ _ Hinv j q qs Hq) Ho) as Hin.
    specialize (Hall j _ Hq). by destruct q, qs.
Qed.

(** ** At work *)

(** A handler sends while the server shuts the connection down. *)
Definition two_goroutines : list (list conn_call) :=
  let m := mkMessage "id" "stats" "a" "b" 0 None "" in [[CallSend m]; [CallGraceful (Some m); CallClose]].

Ltac calls k := eapply nsteps_l; [eapply (cs_call k); reflexivity|].
Ltac goes k c := eapply nsteps_l; [eapply (cs_local k); [reflexivity|reflexivity|eapply c; reflexivity]|].

(** The second goroutine says goodbye and closes; the first waits for the lock
    meanwhile, and its write fails on the closed socket. *)
Lemma race_run : exists s, nsteps conn_step 22 (conn_init two_goroutines) s /\
  all_returned s /\ (fst <$> written (shared s)) = [1%nat].
Proof.
  eexists. split; [|split].
  - calls 1%nat. goes 1%nat g_once. goes 1%nat g_lock. calls 0%nat.
    goes 1%nat g_encrypt. goes 1%nat g_deadline. goes 1%nat g_write. goes 1%nat g_written. goes 1%nat g_reset. goes 1%nat g_unlock.
    goes 1%nat g_drop. goes 0%nat g_lock. goes 1%nat g_close. goes 0%nat g_encrypt. goes 1%nat g_exit. calls 1%nat.
    goes 0%nat g_deadline. goes 0%nat g_write. goes 1%nat g_once_done. goes 0%nat g_write_failed. goes 0%nat g_reset. goes 0%nat g_unlock.
    apply nsteps_O.
  - repeat constructor.
  - reflexivity.
Qed.

Lemma conn_writes_exclusive_witness : exists s, rtc conn_step (conn_init two_goroutines) s /\
  conn_crashed (shared s) = false /\ (closes (shared s) <= 1)%nat.
Proof.
  destruct race_run as (s & Hn & _). exists s. assert (Hr : rtc conn_step (conn_init two_goroutines) s) by (by eapply rtc_nsteps_2).
  destruct (conn_writes_exclusive two_goroutines s Hr) as (Hc & _ & Hle & _). split; [exact Hr|]. split; [exact Hc|exact Hle].
Defined.

Lemma conn_calls_return_witness : exists s, nsteps conn_step 22 (conn_init two_goroutines) s /\
  sock_open (shared s) = false /\ listed (shared s) = false.
Proof.
  destruct race_run as (s & Hn & Hall & _). exists s. split; [exact Hn|].
  destruct (conn_calls_return two_goroutines 22 s Hn) as (_ & _ & Hend). destruct (Hend Hall eq_refl) as (Ho & Hli & _).
  split; [exact Ho|exact Hli].
Defined.
