(* ===== verification/Protocol.v ===== *)
(** * Messages and protocol errors (src/go/node/message.go, protocol.go)

    Construction of requests, replies and error replies, and the validation
    and parsing of responses.  The JSON of a payload type is the JSON package's:
    its encoder and decoder are arguments of the functions that call it. *)

From S2P Require Import Prelude Controller.

Definition ProtocolVersion : string := "1.0".
Definition MinProtocolVersion : string := "1.0".
Definition SupportedProtocolVersions : list string := ["1.0"%string].
Definition IsProtocolVersionSupported (version : string) : bool :=
  bool_decide (version ∈ SupportedProtocolVersions).

Definition MsgHandshake : string := "handshake".
Definition MsgHandshakeAck : string := "handshake_ack".
Definition MsgPing : string := "ping".
Definition MsgPong : string := "pong".
Definition MsgDisconnect : string := "disconnect".
Definition MsgGetStats : string := "get_stats".
Definition MsgStats : string := "stats".
Definition MsgStartMiner : string := "start_miner".
Definition MsgStopMiner : string := "stop_miner".
Definition MsgMinerAck : string := "miner_ack".
Definition MsgDeploy : string := "deploy".
Definition MsgDeployAck : string := "deploy_ack".
Definition MsgGetLogs : string := "get_logs".
Definition MsgLogs : string := "logs".
Definition MsgError : string := "error".

Record ErrorPayload : Type := mkErrorPayload {
  ep_Code : Z;
  ep_Message : string;
  ep_Details : string
}.

Definition ErrCodeUnknown : Z := 0.
Definition ErrCodeNotFound : Z := 1.
Definition ErrCodeAlreadyRunning : Z := 2.
Definition ErrCodeNotRunning : Z := 3.
Definition ErrCodeOperationFailed : Z := 4.
Definition ErrCodeInvalidConfig : Z := 5.
Definition ErrCodeAuthFailed : Z := 6.
Definition ErrCodeInvalidMessage : Z := ErrCodeUnknown.
Definition ErrCodeUnauthorized : Z := ErrCodeAuthFailed.
Definition ErrCodeTimeout : Z := ErrCodeOperationFailed.

(** [NewMessage]: [uuid] and [now] are the generated ID and the clock; the
    payload is nil or a value with the encoder of its type. *)
Definition NewMessage {A} (uuid : string) (now : Z) (marshal : A -> error + bytes)
    (msgType from to : string) (payload : option A) : Result Message :=
  match payload with
  | None => Ok (mkMessage uuid msgType from to now None "")
  | Some a =>
      match marshal a with
      | inl err => Fail err
      | inr data => Ok (mkMessage uuid msgType from to now (Some data) "")
      end
  end.

Definition set_ReplyTo (id : string) (m : Message) : Message :=
  mkMessage (m_ID m) (m_Type m) (m_From m) (m_To m) (m_Timestamp m) (m_Payload m) id.

Definition Reply {A} (uuid : string) (now : Z) (marshal : A -> error + bytes)
    (m : Message) (msgType : string) (payload : option A) : Result Message :=
  msg ← NewMessage uuid now marshal msgType (m_To m) (m_From m) payload;
  Ok (set_ReplyTo (m_ID m) msg).

Definition NewErrorMessage (uuid : string) (now : Z) (marshal : ErrorPayload -> error + bytes)
    (from to : string) (code : Z) (message replyTo : string) : Result Message :=
  msg ← NewMessage uuid now marshal MsgError from to (Some (mkErrorPayload code message ""));
  Ok (set_ReplyTo replyTo msg).

(** [ParsePayload] into a target that holds its zero value: a nil payload
    leaves it there. *)
Definition ParsePayload {A} (zero : A) (unmarshal : bytes -> error + A) (m : Message) : Result A :=
  match m_Payload m with
  | None => Ok zero
  | Some data => match unmarshal data with inl err => Fail err | inr a => Ok a end
  end.

Definition zeroErrorPayload : ErrorPayload := mkErrorPayload 0 "" "".

Definition ValidateResponse (unmarshal : bytes -> error + ErrorPayload) (resp : option Message)
    (expectedType : string) : Result unit :=
  match resp with
  | None => Fail (E "ResponseHandler.ValidateResponse" "nil response" None)
  | Some resp =>
      if decide (m_Type resp = MsgError) then
        match ParsePayload zeroErrorPayload unmarshal resp with
        | Ok errPayload => Fail (ProtocolError (ep_Code errPayload) (ep_Message errPayload))
        | _ => Fail (ProtocolError ErrCodeUnknown "unable to parse error response")
        end
      else if decide (m_Type resp <> expectedType) then
        Fail (E "ResponseHandler.ValidateResponse"
          ("unexpected response type: expected " ++ expectedType ++ ", got " ++ m_Type resp) None)
      else Ok tt
  end.

Definition ParseResponse {A} (unmarshal : bytes -> error + ErrorPayload) (zero : A)
    (unmarshalA : bytes -> error + A) (resp : option Message) (expectedType : string) : Result A :=
  _ ← ValidateResponse unmarshal resp expectedType;
  match resp with
  | None => Panic NilDereference
  | Some resp =>
      map_fail (fun err => E "ResponseHandler.ParseResponse" ("failed to parse " ++ expectedType ++ " payload") (Some err))
        (ParsePayload zero unmarshalA resp)
  end.

Definition IsProtocolError (err : error) : bool :=
  match err with ProtocolError _ _ => true | _ => false end.
Definition GetProtocolErrorCode (err : error) : Z :=
  match err with ProtocolError code _ => code | _ => 0 end.

(** ** Theorems *)
Section Exchange.
Context {A : Type} (marshal : A -> error + bytes) (unmarshal : bytes -> error + A) (zero : A).
Context (marshalE : ErrorPayload -> error + bytes) (unmarshalE : bytes -> error + ErrorPayload).

(** The JSON package decodes what it encoded. *)
Hypothesis json_A : forall a d, marshal a = inr d -> unmarshal d = inr a.
Hypothesis json_E : forall p d, marshalE p = inr d -> unmarshalE d = inr p.

(** The reply a node makes to a request is addressed back to
    its sender, answers the request, and is parsed by the requester to the very
    payload when the type is the one it expects; an error reply is turned into
    a [ProtocolError] with the code and the message the node gave, whatever
    type was expected. *)
Theorem response_roundtrip req ty a code msg uuid now r r' :
  ty <> MsgError ->
  Reply uuid now marshal req ty (Some a) = Ok r ->
  NewErrorMessage uuid now marshalE (m_To req) (m_From req) code msg (m_ID req) = Ok r' ->
  (m_ReplyTo r = m_ID req /\ m_To r = m_From req /\ ParseResponse unmarshalE zero unmarshal (Some r) ty = Ok a) /\
  (m_ReplyTo r' = m_ID req /\ m_To r' = m_From req /\
   exists e, ParseResponse unmarshalE zero unmarshal (Some r') ty = Fail e /\
     e = ProtocolError code msg /\ IsProtocolError e = true /\ GetProtocolErrorCode e = code).
Proof.
  intros Hty Hr Hr'. unfold Reply, NewErrorMessage, NewMessage in *.
  destruct (marshal a) as [|d] eqn:Hd; [done|]. destruct (marshalE _) as [|d'] eqn:Hd'; [done|].
  injection Hr as <-. injection Hr' as <-. cbn [set_ReplyTo m_ReplyTo m_To].
  split; (split; [done|]); (split; [done|]).
  - unfold ParseResponse, ValidateResponse. cbn [m_Type set_ReplyTo].
    rewrite decide_False by done. rewrite decide_False by tauto. cbn [mbind Result_bind].
    unfold ParsePayload. cbn [m_Payload set_ReplyTo]. by rewrite (json_A a d Hd).
  - unfold ParseResponse, ValidateResponse. cbn [m_Type set_ReplyTo]. rewrite decide_True by done.
    unfold ParsePayload. cbn [m_Payload set_ReplyTo]. rewrite (json_E _ d' Hd'). by eexists.
Qed.
End Exchange.

(** A payload of bytes sent as it is, an error payload as code and text. *)
Definition raw (b : bytes) : error + bytes := inr b.
Definition marshal_err (p : ErrorPayload) : error + bytes :=
  if decide (ep_Details p = ""%string) then inr (ep_Code p :: bytes_of_string (ep_Message p))
  else inl (NewError "unsupported").
Definition unmarshal_err (b : bytes) : error + ErrorPayload :=
  match b with
  | [] => inl (NewError "unexpected end of JSON input")
  | c :: b => inr (mkErrorPayload c (string_of_bytes b) "")
  end.

Lemma response_roundtrip_witness :
  exists r, Reply "u" 5 raw ask MsgStats (Some [1; 2]) = Ok r /\ m_ReplyTo r = "id-1"%string /\
    ParseResponse unmarshal_err [] raw (Some r) MsgStats = Ok [1; 2].
Proof.
  eexists. split; [reflexivity|].
  destruct (response_roundtrip raw raw [] marshal_err unmarshal_err
    ltac:(intros a d [= <-]; reflexivity)
    ltac:(intros [c m dt] d; unfold marshal_err; case_decide as Hd; [intros [= <-]|discriminate]; cbn in Hd;
          subst dt; unfold unmarshal_err; cbn [ep_Code ep_Message]; rewrite string_of_bytes_of_string; reflexivity)
    ask MsgStats [1; 2] 4 "busy" "u" 5 _ _
    ltac:(discriminate) eq_refl eq_refl) as [(Ha & _ & Hp) _].
  split; [exact Ha|exact Hp].
Defined.
