(* ===== verification/Session.v ===== *)
(** * Messages on the wire (src/go/node/message.go, bufpool.go, envelope.go, transport.go)

    What happens to a message between [PeerConnection.Send] and the handler on
    the other side: JSON with the HTML escapes undone, AEAD encryption under a
    key of the session, and on arrival decryption, the optional signed envelope,
    and JSON again.  The JSON encoder, ChaCha20-Poly1305 and Ed25519 are
    interfaces. *)

From S2P Require Import Prelude Crypto Ueps KeyDeriv Controller Protocol.

(** ** Text *)

(** [core.Replace(text, old, new)]: every occurrence, from the left. *)
Fixpoint replace_from (skip : nat) (old new text : bytes) : bytes :=
  match text with
  | [] => []
  | c :: rest =>
      match skip with
      | S k => replace_from k old new rest
      | O => if decide (take (length old) text = old)
             then new ++ replace_from (pred (length old)) old new rest
             else c :: replace_from 0 old new rest
      end
  end.
Definition Replace (text old new : bytes) : bytes := replace_from 0 old new text.

(** [\u003c], [\u003e] and [\u0026]. *)
Definition escapes : list (bytes * bytes) :=
  [(92 :: bytes_of_string "u003c", bytes_of_string "<");
   (92 :: bytes_of_string "u003e", bytes_of_string ">");
   (92 :: bytes_of_string "u0026", bytes_of_string "&")].

Definition unescape (text : bytes) : bytes := fold_left (fun t e => Replace t e.1 e.2) escapes text.

(** ** Code outside the repository *)
Record messageJSON (any : Type) : Type := mkWire {
  w_ID : string;
  w_Type : string;
  w_From : string;
  w_To : string;
  w_Timestamp : Z;
  w_Payload : option any;
  w_ReplyTo : string
}.
Arguments mkWire {_}.
Arguments w_ID {_} _.
Arguments w_Type {_} _.
Arguments w_From {_} _.
Arguments w_To {_} _.
Arguments w_Timestamp {_} _.
Arguments w_Payload {_} _.
Arguments w_ReplyTo {_} _.

Record Envelope : Type := mkEnvelope {
  PeerPubkey : bytes;
  Body : bytes;
  EnvSignature : bytes
}.

(** [core.JSONMarshal] and [core.JSONUnmarshal] at the types of the message
    layer; a decoded [any] is nil for [null].  The probe is the three raw fields
    of a possible envelope, empty when absent. *)
Class MsgJSON : Type := {
  any : Type;
  unmarshalAny : bytes -> error + option any;
  marshalAny : any -> error + bytes;
  marshalWire : messageJSON any -> error + bytes;
  unmarshalWire : bytes -> error + messageJSON any;
  unmarshalProbe : bytes -> error + (bytes * bytes * bytes);
  unmarshalEnvelope : bytes -> error + Envelope
}.

(** golang.org/x/crypto/chacha20poly1305. *)
Class AEADLib : Type := {
  AEAD : Type;
  chacha_New : bytes -> error + AEAD;
  NonceSize : AEAD -> Z;
  Overhead : AEAD -> Z;
  Seal : AEAD -> bytes -> bytes -> bytes -> bytes;
  Open : AEAD -> bytes -> bytes -> bytes -> error + bytes
}.

Section Messages.
Context `{MsgJSON} `{AEADLib} (ed25519_verify : bytes -> bytes -> bytes -> bool).

(** ** JSON *)

(** [MarshalJSON] of a value that is not a message. *)
Definition MarshalJSON {T} (marshal : T -> error + bytes) (v : T) : Result bytes :=
  match marshal v with
  | inl err => Fail err
  | inr text => Ok (unescape text)
  end.

Definition marshalMessageJSON (m : option Message) : Result bytes :=
  match m with
  | None => Ok (bytes_of_string "null")
  | Some m =>
      payload ← (match m_Payload m with
                 | None => Ok None
                 | Some d => match unmarshalAny d with inl err => Fail err | inr a => Ok a end
                 end : Result (option any));
      MarshalJSON marshalWire
        (mkWire (m_ID m) (m_Type m) (m_From m) (m_To m) (m_Timestamp m) payload (m_ReplyTo m))
  end.

Definition decodeMessageJSON (data : bytes) : Result Message :=
  match unmarshalWire data with
  | inl err => Fail err
  | inr wire =>
      payload ← (match w_Payload wire with
                 | None => Ok None
                 | Some a => encoded ← MarshalJSON marshalAny a; Ok (Some encoded)
                 end : Result (option bytes));
      Ok (mkMessage (w_ID wire) (w_Type wire) (w_From wire) (w_To wire) (w_Timestamp wire) payload (w_ReplyTo wire))
  end.

(** ** Envelopes *)
Definition ErrEnvelopeSignatureInvalid : error := NewError "invalid envelope signature".
Definition ErrEnvelopeBodyEmpty : error := NewError "empty envelope body".

Definition PublicKeySize : Z := 32.
Definition SignatureSize : Z := 64.

(** [ed25519.Verify] panics on a public key of the wrong length. *)
Definition ed25519_Verify (publicKey message sig : bytes) : Result bool :=
  if decide (len publicKey <> PublicKeySize) then Panic BadPublicKeyLength
  else Ok (ed25519_verify publicKey message sig).

Definition VerifySignature (e : Envelope) : Result unit :=
  if decide (len (EnvSignature e) = 0) then Ok tt
  else if decide (len (PeerPubkey e) <> PublicKeySize \/ len (EnvSignature e) <> SignatureSize)
  then Fail ErrEnvelopeSignatureInvalid
  else
    ok ← ed25519_Verify (PeerPubkey e) (Body e) (EnvSignature e);
    if (ok : bool) then Ok tt else Fail ErrEnvelopeSignatureInvalid.

(** [decodeEnvelopeResult]: [None] when its [OK] is false. *)
Definition decodeEnvelope (data : bytes) : Result (option Envelope) :=
  match unmarshalProbe data with
  | inl err => Fail err
  | inr (pk, body, sig) =>
      if decide (len pk = 0 /\ len body = 0 /\ len sig = 0) then Ok None
      else match unmarshalEnvelope data with
           | inl err => Fail err
           | inr wire => Ok (Some (mkEnvelope (PeerPubkey wire) (Body wire) (EnvSignature wire)))
           end
  end.

Definition unwrapEnvelope (data : bytes) : Result bytes :=
  decoded ← decodeEnvelope data;
  match decoded with
  | None => Ok data
  | Some envelope =>
      if decide (len (Body envelope) = 0) then Fail ErrEnvelopeBodyEmpty
      else _ ← VerifySignature envelope; Ok (Body envelope)
  end.

Definition decodeReceivedMessage (data : bytes) : Result Message :=
  body ← unwrapEnvelope data;
  decodeMessageJSON body.

(** ** Encryption *)
Definition transportAEADVersion : Z := 1.
Definition transportAEADAdditionalData : bytes := [transportAEADVersion].

Definition newTransportAEAD (sharedSecret : bytes) : Result AEAD :=
  subKeys ← deriveSubKeys sharedSecret;
  match chacha_New (encKey subKeys) with
  | inl err => Fail err
  | inr aead => Ok aead
  end.

(** [rand_Read n] is what [rand.Read] fills a nonce of [n] bytes with. *)
Definition encryptTransportPayload (rand_Read : Z -> error + bytes) (payload sharedSecret : bytes) : Result bytes :=
  aead ← newTransportAEAD sharedSecret;
  match rand_Read (NonceSize aead) with
  | inl err => Fail (E "encryptTransportPayload" "generate nonce" (Some err))
  | inr nonce =>
      Ok ([transportAEADVersion] ++ nonce ++ Seal aead nonce payload transportAEADAdditionalData)
  end.

Definition encryptMessage (rand_Read : Z -> error + bytes) (msg : Message) (sharedSecret : bytes) : Result bytes :=
  msgData ← marshalMessageJSON (Some msg);
  encryptTransportPayload rand_Read msgData sharedSecret.

Definition decryptTransportPayload (data sharedSecret : bytes) : Result bytes :=
  aead ← newTransportAEAD sharedSecret;
  let headerSize := 1 + NonceSize aead in
  if decide (len data < headerSize + Overhead aead) then Fail (Errorf "transport payload too short" None)
  else
    v ← index data 0;
    if decide (v <> transportAEADVersion) then Fail (Errorf "unsupported transport payload version %d" None)
    else
      nonce ← slice data 1 headerSize;
      ciphertext ← slice_from data headerSize;
      match Open aead nonce ciphertext transportAEADAdditionalData with
      | inl err => Fail err
      | inr plaintext => Ok plaintext
      end.

Definition decryptMessage (data sharedSecret : bytes) : Result Message :=
  plaintext ← decryptTransportPayload data sharedSecret;
  decodeReceivedMessage plaintext.

End Messages.

(** ** What the message layer relies on *)

(** Does [sub] occur in [text]? *)
Fixpoint contains (sub text : bytes) : bool :=
  bool_decide (take (length sub) text = sub) ||
  match text with [] => false | _ :: rest => contains sub rest end.

(** No HTML escape of the text follows a backslash: each one stands for its
    character, inside a string. *)
Definition plain (text : bytes) : bool := forallb (fun e => negb (contains (92 :: e.1) text)) escapes.

(** The encoder is inverted by the decoder on the messages it can represent
    ([wire_safe]: valid UTF-8); going through [any] keeps a payload; a character
    and its escape read the same; a message has no field of an envelope. *)
Class MsgJSONLaws `{MsgJSON} : Type := {
  wire_safe : messageJSON any -> Prop;
  wire_roundtrip w t : wire_safe w -> marshalWire w = inr t -> unmarshalWire t = inr w;
  wire_unescape t w : plain t = true -> unmarshalWire t = inr w -> unmarshalWire (unescape t) = inr w;
  wire_probe w t : plain t = true -> marshalWire w = inr t -> unmarshalProbe (unescape t) = inr ([], [], []);
  any_roundtrip d a t : unmarshalAny d = inr (Some a) -> marshalAny a = inr t -> unmarshalAny t = inr (Some a);
  any_unescape t o : plain t = true -> unmarshalAny t = inr o -> unmarshalAny (unescape t) = inr o
}.

(** ChaCha20-Poly1305: 12-byte nonces, 16-byte tags, and what was sealed is
    opened with the same key, nonce and additional data. *)
Class AEADLaws `{AEADLib} : Prop := {
  aead_New k : len k = 32 -> exists c, chacha_New k = inr c;
  aead_NonceSize c : NonceSize c = 12;
  aead_Overhead c : Overhead c = 16;
  aead_len c n p ad : len n = 12 -> len (Seal c n p ad) = len p + 16;
  aead_open c n p ad : len n = 12 -> Open c n (Seal c n p ad) ad = inr p
}.

Section MessageProofs.
Context `{JL : MsgJSONLaws} `{AL : AEADLaws} (ed25519_verify : bytes -> bytes -> bytes -> bool).

(** ** Encryption *)
Lemma newTransportAEAD_cases s :
  (len s = 32 /\ exists c, newTransportAEAD s = Ok c) \/ (len s <> 32 /\ exists e, newTransportAEAD s = Fail e).
Proof.
  unfold newTransportAEAD, deriveSubKeys, sharedSecretSize. case_decide as Hl; [right; split; [done|by eexists]|].
  left. split; [lia|]. rewrite !deriveSubKey_Ok. cbn [mbind Result_bind encKey].
  destruct (aead_New (subkey s keyInfoEncryptV1)) as [c ->]; [apply len_HMAC|by eexists].
Qed.

Lemma decrypt_encrypt rand p s data :
  (forall n b, rand n = inr b -> len b = n) ->
  encryptTransportPayload rand p s = Ok data -> decryptTransportPayload data s = Ok p.
Proof.
  intros Hrand. unfold encryptTransportPayload, decryptTransportPayload.
  destruct (newTransportAEAD_cases s) as [[_ [c ->]]|[_ [e ->]]]; [|done]. cbn [mbind Result_bind].
  rewrite aead_NonceSize, aead_Overhead. destruct (rand 12) as [e|n] eqn:Hn; [done|]. apply Hrand in Hn.
  set (ct := Seal c n p transportAEADAdditionalData). intros Hdata.
  assert (data = [transportAEADVersion] ++ n ++ ct) as -> by congruence. clear Hdata.
  assert (Hct : len ct = len p + 16) by by apply aead_len. pose proof (len_nonneg p).
  rewrite decide_False by (rewrite !len_app, Hn, Hct, len_cons, len_nil; lia).
  change (index ([transportAEADVersion] ++ n ++ ct) 0) with (Ok transportAEADVersion). cbn [mbind Result_bind].
  rewrite decide_False by tauto. rewrite (slice_mid [transportAEADVersion] n ct); [|done|rewrite Hn; done].
  rewrite app_assoc. rewrite (slice_from_app ([transportAEADVersion] ++ n) ct).
  2: { rewrite len_app, Hn. done. }
  cbn [mbind Result_bind]. unfold ct. by rewrite aead_open.
Qed.

Lemma decrypt_total data s : exists r, (decryptTransportPayload data s = Ok r \/ exists e, decryptTransportPayload data s = Fail e).
Proof.
  exists (default [] (match decryptTransportPayload data s with Ok r => Some r | _ => None end)).
  unfold decryptTransportPayload. destruct (newTransportAEAD_cases s) as [[_ [c ->]]|[_ [e ->]]]; [|right; by eexists].
  cbn [mbind Result_bind]. rewrite aead_NonceSize, aead_Overhead. case_decide as Hl; [right; by eexists|].
  destruct (index_total data 0) as [v ->]; [lia|]. cbn [mbind Result_bind]. case_decide; [right; by eexists|].
  destruct (slice_total data 1 (1 + 12)) as [n ->]; [lia|lia|].
  unfold slice_from. destruct (slice_total data (1 + 12) (len data)) as [ct ->]; [lia|lia|]. cbn [mbind Result_bind].
  destruct (Open c n ct transportAEADAdditionalData); [right; by eexists|by left].
Qed.

(** ** Messages *)

(** The message with its payload decoded. *)
Definition wire_of (m : Message) (p : option any) : messageJSON any :=
  mkWire (m_ID m) (m_Type m) (m_From m) (m_To m) (m_Timestamp m) p (m_ReplyTo m).

(** A payload [p] as raw JSON, not [null], that the encoder writes again. *)
Definition payload_ok (d : option bytes) (p : option any) : Prop :=
  match d, p with
  | None, None => True
  | Some d, Some a => unmarshalAny d = inr (Some a) /\ exists t, marshalAny a = inr t /\ plain t = true
  | _, _ => False
  end.

(** A message whose strings survive JSON and the unescaping. *)
Definition portable (m : Message) : Prop :=
  exists p t, payload_ok (m_Payload m) p /\ wire_safe (wire_of m p) /\
    marshalWire (wire_of m p) = inr t /\ plain t = true.

(** The same message, its payload perhaps formatted differently. *)
Definition same_message (m m' : Message) : Prop :=
  m_ID m' = m_ID m /\ m_Type m' = m_Type m /\ m_From m' = m_From m /\ m_To m' = m_To m /\
  m_Timestamp m' = m_Timestamp m /\ m_ReplyTo m' = m_ReplyTo m /\
  match m_Payload m, m_Payload m' with
  | None, None => True
  | Some d, Some d' => exists a, unmarshalAny d = inr (Some a) /\ unmarshalAny d' = inr (Some a)
  | _, _ => False
  end.

Lemma message_json m : portable m ->
  exists d m', marshalMessageJSON (Some m) = Ok d /\ unmarshalProbe d = inr ([], [], []) /\
    decodeMessageJSON d = Ok m' /\ same_message m m'.
Proof.
  intros (p & t & Hp & Hs & Ht & Hplain). exists (unescape t).
  pose proof (wire_unescape _ _ Hplain (wire_roundtrip _ _ Hs Ht)) as Hu.
  pose proof (wire_probe _ _ Hplain Ht) as Hprobe.
  unfold marshalMessageJSON, decodeMessageJSON, MarshalJSON. rewrite Hu. unfold same_message, payload_ok in *.
  destruct (m_Payload m) as [d|], p as [a|]; try done.
  - destruct Hp as (Ha & t' & Ht' & Hplain'). rewrite Ha. cbn [mbind Result_bind]. fold (wire_of m (Some a)). rewrite Ht.
    cbn [wire_of w_Payload w_ID w_Type w_From w_To w_Timestamp w_ReplyTo]. rewrite Ht'. cbn [mbind Result_bind].
    eexists. split_and!; try done. exists a. split; [done|]. apply any_unescape, (any_roundtrip d); done.
  - cbn [mbind Result_bind]. fold (wire_of m None). rewrite Ht. cbn [wire_of w_Payload mbind Result_bind].
    eexists. split_and!; done.
Qed.

(** A message that one side of a session encrypts is decrypted
    by the other, with the same secret, as the same message, whatever the nonce;
    its payload is the same JSON value. *)
Lemma session_roundtrip rand m s data :
  (forall n b, rand n = inr b -> len b = n) -> portable m ->
  encryptMessage rand m s = Ok data ->
  exists m', decryptMessage ed25519_verify data s = Ok m' /\ same_message m m'.
Proof.
  intros Hrand Hm. destruct (message_json m Hm) as (d & m' & Hd & Hprobe & Hdec & Hsame).
  unfold encryptMessage, decryptMessage. rewrite Hd. cbn [mbind Result_bind]. intros He.
  rewrite (decrypt_encrypt rand d s data Hrand He). cbn [mbind Result_bind].
  unfold decodeReceivedMessage, unwrapEnvelope, decodeEnvelope. rewrite Hprobe. rewrite decide_True by done.
  cbn [mbind Result_bind]. exists m'. done.
Qed.

(** A portable message can be sent in a session. *)
Lemma encryptMessage_ok rand m s :
  portable m -> len s = 32 -> (exists b, rand 12 = inr b) -> exists d, encryptMessage rand m s = Ok d.
Proof.
  intros Hm Hs [b Hb]. destruct (message_json m Hm) as (d & _ & Hd & _).
  unfold encryptMessage, encryptTransportPayload. rewrite Hd. cbn [mbind Result_bind].
  destruct (newTransportAEAD_cases s) as [[_ [c ->]]|[Hne _]]; [|done]. cbn [mbind Result_bind].
  rewrite aead_NonceSize, Hb. by eexists.
Qed.

(** A text that an honest sender with the secret [s] made of a message. *)
Definition sealed (s : bytes) (m : Message) (d : bytes) : Prop :=
  portable m /\ exists rand, (forall n b, rand n = inr b -> len b = n) /\ encryptMessage rand m s = Ok d.

(** The receiver reads the message. *)
Lemma sealed_opens s m d m' : sealed s m d -> decryptMessage ed25519_verify d s = Ok m' -> same_message m m'.
Proof.
  intros (Hm & rand & Hrand & Hd) Hdec. destruct (session_roundtrip rand m s d Hrand Hm Hd) as (m2 & Hdec2 & Hsame).
  rewrite Hdec in Hdec2. by injection Hdec2 as ->.
Qed.

Lemma decodeMessageJSON_returns b : match decodeMessageJSON b with Ok _ | Fail _ => True | _ => False end.
Proof.
  unfold decodeMessageJSON, MarshalJSON. destruct (unmarshalWire b) as [e|w]; [done|].
  destruct (w_Payload w) as [a|]; [destruct (marshalAny a)|]; done.
Qed.

(** A text, or the body of an envelope that is not signed or signed well. *)
Definition checked_body (text body : bytes) : Prop :=
  body = text \/
  exists e, unmarshalEnvelope text = inr e /\ body = Body e /\ body <> [] /\
    (EnvSignature e = [] \/
     len (PeerPubkey e) = PublicKeySize /\ len (EnvSignature e) = SignatureSize /\
     ed25519_verify (PeerPubkey e) body (EnvSignature e) = true).

Lemma unwrapEnvelope_checked text :
  match unwrapEnvelope ed25519_verify text with
  | Ok body => checked_body text body
  | Fail _ => True
  | _ => False
  end.
Proof.
  unfold unwrapEnvelope, decodeEnvelope. destruct (unmarshalProbe text) as [e|[[pk b] sg]]; [done|].
  case_decide; [by left|]. destruct (unmarshalEnvelope text) as [e|e] eqn:Henv; [done|].
  cbn [mbind Result_bind PeerPubkey Body EnvSignature]. case_decide as Hb; [done|].
  assert (Hbody : Body e <> []) by (intros Hb'; rewrite Hb' in Hb; done).
  unfold VerifySignature, ed25519_Verify. cbn [PeerPubkey Body EnvSignature]. case_decide as Hsig.
  { cbn [mbind Result_bind]. right. exists e. split_and!; try done. left.
    destruct (EnvSignature e); [done|]. rewrite len_cons in Hsig. pose proof (len_nonneg l). lia. }
  case_decide as Hsz; [done|]. rewrite decide_False by tauto. cbn [mbind Result_bind].
  destruct (ed25519_verify (PeerPubkey e) (Body e) (EnvSignature e)) eqn:Hv; [|done].
  cbn [mbind Result_bind]. right. exists e. split_and!; try done. right.
  split_and!; [destruct (decide (len (PeerPubkey e) = PublicKeySize)); tauto|
               destruct (decide (len (EnvSignature e) = SignatureSize)); tauto|done].
Qed.

Lemma decryptMessage_returns data s :
  match decryptMessage ed25519_verify data s with Ok _ | Fail _ => True | _ => False end.
Proof.
  unfold decryptMessage. destruct (decrypt_total data s) as [text [Ht|[e He]]]; [|by rewrite He].
  rewrite Ht. cbn [mbind Result_bind]. unfold decodeReceivedMessage. pose proof (unwrapEnvelope_checked text).
  destruct (unwrapEnvelope ed25519_verify text); try done. apply decodeMessageJSON_returns.
Qed.

(** C20 (safety): no bytes a peer sends make the receiver panic; and the text it
    decodes as the message is the plaintext itself or the body of an envelope
    that is unsigned or carries a valid Ed25519 signature of it. *)
Theorem received_message_checked data s :
  match decryptMessage ed25519_verify data s with
  | Ok m => exists text body, decryptTransportPayload data s = Ok text /\ decodeMessageJSON body = Ok m /\
      (body = text \/
       exists e, unmarshalEnvelope text = inr e /\ body = Body e /\ body <> [] /\
         (EnvSignature e = [] \/
          len (PeerPubkey e) = PublicKeySize /\ len (EnvSignature e) = SignatureSize /\
          ed25519_verify (PeerPubkey e) body (EnvSignature e) = true))
  | Fail _ => True
  | _ => False
  end.
Proof.
  pose proof (decryptMessage_returns data s) as Hr. revert Hr. unfold decryptMessage.
  destruct (decryptTransportPayload data s) as [text|e| |]; try done. cbn [mbind Result_bind].
  unfold decodeReceivedMessage. pose proof (unwrapEnvelope_checked text) as Hc.
  destruct (unwrapEnvelope ed25519_verify text) as [body|e| |]; try done. cbn [mbind Result_bind].
  destruct (decodeMessageJSON body) as [m|e| |] eqn:Hm; try done. intros _. by exists text, body.
Qed.
End MessageProofs.
