(* ===== verification/JsonBuffers.v ===== *)
(** * Raw messages and the buffer pool (src/go/node/message.go, bufpool.go)

    [RawMessage], the choice [MarshalJSON] makes by the dynamic type of its
    argument, and the pool of buffers with what it guarantees to who takes one. *)

From S2P Require Import Prelude Crypto Ueps KeyDeriv Controller Protocol Session.

(** ** Raw messages *)

(** A [RawMessage] is a byte slice, nil or not. *)
Definition RawMessage : Type := option bytes.

Definition MarshalRawJSON (m : RawMessage) : Result bytes :=
  match m with None => Ok (bytes_of_string "null") | Some d => Ok d end.

(** The receiver is a pointer; [append] on a nil slice with nothing stays nil. *)
Definition UnmarshalRawJSON (m : option RawMessage) (data : bytes) : Result RawMessage :=
  match m with
  | None => Fail (NewError "node.RawMessage: unmarshal on nil pointer")
  | Some None => Ok (match data with [] => None | _ => Some data end)
  | Some (Some _) => Ok (Some data)
  end.

(** The dynamic types [MarshalJSON] tells apart. *)
Inductive any_value (T : Type) : Type :=
| VRaw (m : RawMessage)
| VRawPtr (m : option RawMessage)
| VMessagePtr (m : option Message)
| VMessage (m : Message)
| VOther (v : T).
Arguments VRaw {_} _.
Arguments VRawPtr {_} _.
Arguments VMessagePtr {_} _.
Arguments VMessage {_} _.
Arguments VOther {_} _.

Section Marshal.
Context `{MsgJSON}.

Definition MarshalJSON_any {T} (marshal : T -> error + bytes) (v : any_value T) : Result bytes :=
  match v with
  | VRaw raw => MarshalRawJSON raw
  | VRawPtr None => Fail (NewError "node.RawMessage: marshal on nil pointer")
  | VRawPtr (Some raw) => MarshalRawJSON raw
  | VMessagePtr msg => marshalMessageJSON msg
  | VMessage msg => marshalMessageJSON (Some msg)
  | VOther v => MarshalJSON marshal v
  end.

(** What a raw message is unmarshalled from it is marshalled to again, byte for
    byte, whatever was in it before. *)
Lemma raw_roundtrip {T} (marshal : T -> error + bytes) old data :
  data <> [] -> exists m, UnmarshalRawJSON (Some old) data = Ok m /\ MarshalJSON_any marshal (VRaw m) = Ok data.
Proof. intros Hd. exists (Some data). by destruct old, data. Qed.
End Marshal.

(** ** The pool *)

(** A buffer: what is in it, and its capacity. *)
Record buffer : Type := mkBuffer { buf_data : bytes; buf_cap : Z }.

(** The pool, the buffers that were taken, and by which goroutine. *)
Record pool : Type := mkPool { pooled : list buffer; taken : gmap nat buffer }.

Definition maxPooled : Z := 65536.
Definition new_buffer : buffer := mkBuffer [] 1024.
Definition Reset (b : buffer) : buffer := mkBuffer [] (buf_cap b).

(** [getBuffer]: [sync.Pool] returns any of its elements, or a new one. *)
Inductive getBuffer (k : nat) : pool -> pool -> Prop :=
| get_pooled l b r t :
    t !! k = None -> getBuffer k (mkPool (l ++ b :: r) t) (mkPool (l ++ r) (<[k := Reset b]> t))
| get_new ps t : t !! k = None -> getBuffer k (mkPool ps t) (mkPool ps (<[k := Reset new_buffer]> t)).

Definition putBuffer (k : nat) (p : pool) : pool :=
  match taken p !! k with
  | Some b => mkPool (if decide (buf_cap b <= maxPooled) then b :: pooled p else pooled p) (delete k (taken p))
  | None => p
  end.

(** Goroutines take a buffer, write to it, and give it back; the garbage
    collector may drop pooled buffers. *)
Inductive pool_step : pool -> pool -> Prop :=
| ps_get k p p' : getBuffer k p p' -> pool_step p p'
| ps_write k b d c p :
    taken p !! k = Some b -> Z.max (buf_cap b) (len (buf_data b ++ d)) <= c ->
    pool_step p (mkPool (pooled p) (<[k := mkBuffer (buf_data b ++ d) c]> (taken p)))
| ps_put k p : pool_step p (putBuffer k p)
| ps_collect l b r t : pool_step (mkPool (l ++ b :: r) t) (mkPool (l ++ r) t).

(** The pool retains no buffer over 64 KiB however large buffers grow, and a
    goroutine that takes a buffer finds it empty, whatever others wrote to it. *)
Lemma pool_bounded p :
  rtc pool_step (mkPool [] ∅) p ->
  Forall (fun b => buf_cap b <= maxPooled) (pooled p) /\
  (forall k p', getBuffer k p p' -> exists b, taken p' !! k = Some b /\ buf_data b = [] /\ buf_cap b <= maxPooled).
Proof.
  intros Hr. assert (Hall : Forall (fun b => buf_cap b <= maxPooled) (pooled p)).
  { remember (mkPool [] ∅) as p0 eqn:Hp0. assert (Hi : Forall (fun b => buf_cap b <= maxPooled) (pooled p0)) by (by subst).
    clear Hp0. induction Hr as [|a b c Hs _ IH]; [done|]. apply IH. clear IH.
    destruct Hs as [k p p' Hg|k b d c' p Hk Hle|k p|l b r t]; cbn [pooled] in *; try done.
    - destruct Hg as [l b r t _|ps t _]; [|done]. cbn [pooled] in *. rewrite Forall_app, Forall_cons in Hi. apply Forall_app. tauto.
    - unfold putBuffer. destruct (taken p !! k); [|done]. cbn [pooled]. case_decide; [by constructor|done].
    - rewrite Forall_app, Forall_cons in Hi. apply Forall_app. tauto. }
  split; [done|]. intros k p' Hg. destruct Hg as [l b r t _|ps t _]; cbn [taken pooled] in *; rewrite lookup_insert_eq.
  - exists (Reset b). rewrite Forall_app, Forall_cons in Hall. split_and!; [done|done|]. apply Hall.
  - exists (Reset new_buffer). by split_and!.
Qed.
