(* ===== verification/SessionInstances.v ===== *)
(** * Implementations of the message layer's interfaces

    A text format of binary digits, and an AEAD that appends a tag; both have
    the laws of [Session], whose theorems are then run on concrete messages. *)

From S2P Require Import Prelude Crypto KeyDeriv Controller Protocol Session.

(** ** Text *)
Fixpoint digits (p : positive) : bytes :=
  match p with
  | xH => []
  | xO p => 48 :: digits p
  | xI p => 49 :: digits p
  end.
Fixpoint undigits (t : bytes) : option positive :=
  match t with
  | [] => Some xH
  | c :: t =>
      p ← undigits t;
      if decide (c = 48) then Some (xO p) else if decide (c = 49) then Some (xI p) else None
  end.

Lemma undigits_digits p : undigits (digits p) = Some p.
Proof. induction p as [p IH|p IH|]; cbn [digits undigits]; [| |done]; by rewrite IH. Qed.

Lemma undigits_plain t p : undigits t = Some p -> Forall (fun c => c = 48 \/ c = 49) t.
Proof.
  revert p. induction t as [|c t IH]; intros p; [constructor|]. cbn [undigits].
  destruct (undigits t) as [q|]; [|done]. cbn [mbind option_bind]. intros Hp. constructor; [|by apply (IH q)].
  repeat case_decide; [by left|by right|done].
Qed.

Lemma Replace_none t c old new : Forall (fun d => d <> c) t -> Replace t (c :: old) new = t.
Proof.
  unfold Replace. induction t as [|d t IH]; intros Ht; [done|]. inversion Ht; subst.
  cbn [replace_from]. rewrite decide_False; [by rewrite IH|]. cbn [length take]. congruence.
Qed.

Lemma undigits_unescape t p : undigits t = Some p -> unescape t = t.
Proof.
  intros Ht. assert (Hne : Forall (fun d => d <> 92) t).
  { apply undigits_plain in Ht. eapply Forall_impl; [exact Ht|]. cbn. lia. }
  unfold unescape, escapes. cbn [fold_left fst snd]. by rewrite !(Replace_none t) by done.
Qed.

(** ** Messages *)
Definition wire_code (w : messageJSON positive) : list positive :=
  [encode (w_ID w); encode (w_Type w); encode (w_From w); encode (w_To w); encode (w_Timestamp w);
   encode (w_Payload w); encode (w_ReplyTo w)].
Definition wire_of_code (l : list positive) : option (messageJSON positive) :=
  match l with
  | [a; b; c; d; e; f; g] =>
      a ← decode a; b ← decode b; c ← decode c; d ← decode d; e ← decode e; f ← decode f; g ← decode g;
      Some (mkWire a b c d e f g)
  | _ => None
  end.
Lemma wire_of_code_code w : wire_of_code (wire_code w) = Some w.
Proof. unfold wire_code, wire_of_code. rewrite !decode_encode. by destruct w. Qed.

Definition syntax_error : error := NewError "invalid character".

(** An envelope is a [#], the key, the signature and the body. *)
#[export] Instance digits_json : MsgJSON := {
  any := positive;
  unmarshalAny t := match undigits t with Some a => inr (Some a) | None => inl syntax_error end;
  marshalAny a := inr (digits a);
  marshalWire w := inr (digits (encode (wire_code w)));
  unmarshalWire t := match p ← undigits t; l ← decode (A := list positive) p; wire_of_code l with Some w => inr w | None => inl syntax_error end;
  unmarshalProbe t := match t with 35 :: _ => inr ([1], [1], [1]) | _ => inr ([], [], []) end;
  unmarshalEnvelope t :=
    match t with
    | 35 :: r => inr (mkEnvelope (take 32 r) (drop 96 r) (take 64 (drop 32 r)))
    | _ => inl syntax_error
    end
}.

#[export] Instance digits_json_laws : MsgJSONLaws.
Proof.
  refine {| wire_safe := fun _ => True |}; cbn [unmarshalAny marshalAny marshalWire unmarshalWire unmarshalProbe digits_json].
  - intros w t _ [= <-]. rewrite undigits_digits. cbn [mbind option_bind]. rewrite decode_encode.
    cbn [mbind option_bind]. by rewrite wire_of_code_code.
  - intros t w _ Ht. destruct (undigits t) as [p|] eqn:Hp; [|done]. by rewrite (undigits_unescape t p), Hp.
  - intros w t _ [= <-]. rewrite (undigits_unescape _ _ (undigits_digits _)).
    by destruct (encode (wire_code w)).
  - intros d a t _ [= <-]. by rewrite undigits_digits.
  - intros t o _ Ht. destruct (undigits t) as [p|] eqn:Hp; [|done]. by rewrite (undigits_unescape t p), Hp.
Defined.

(** ** Encryption *)
Definition tag (k n p ad : bytes) : bytes := take 16 (HMAC k (n ++ ad ++ p)).

#[export] Instance tag_aead : AEADLib := {
  AEAD := bytes;
  chacha_New k := if decide (len k = 32) then inr k else inl (NewError "chacha20poly1305: bad key length");
  NonceSize _ := 12;
  Overhead _ := 16;
  Seal k n p ad := p ++ tag k n p ad;
  Open k n c ad :=
    let p := take (length c - 16) c in
    if decide (drop (length c - 16) c = tag k n p ad) then inr p
    else inl (NewError "chacha20poly1305: message authentication failed")
}.

Lemma length_tag k n p ad : length (tag k n p ad) = 16%nat.
Proof.
  unfold tag. pose proof (len_HMAC k (n ++ ad ++ p)) as Hl. unfold len in Hl. rewrite length_take. lia.
Qed.

#[export] Instance tag_aead_laws : AEADLaws.
Proof.
  split; cbn [chacha_New NonceSize Overhead Seal Open tag_aead].
  - intros k Hk. rewrite decide_True by done. by eexists.
  - done.
  - done.
  - intros c n p ad _. rewrite len_app. unfold len at 2. by rewrite length_tag.
  - intros c n p ad _. rewrite length_app, length_tag. replace (length p + 16 - 16)%nat with (length p) by lia.
    rewrite take_app_length, drop_app_length. by rewrite decide_True.
Defined.

(** ** The theorems *)
Definition counter_rand (n : Z) : error + bytes :=
  if decide (0 <= n) then inr (replicate (Z.to_nat n) 7) else inl (NewError "negative length").
Lemma counter_rand_len n b : counter_rand n = inr b -> len b = n.
Proof.
  unfold counter_rand. case_decide; intros [= <-]. unfold len. rewrite length_replicate. lia.
Qed.
Definition secret32 : bytes := replicate 32 3.
Definition no_signatures (pk m sig : bytes) : bool := false.

Lemma contains_absent c sub t : Forall (fun d => d <> c) t -> contains (c :: sub) t = false.
Proof.
  induction t as [|d t IH]; intros Ht; [done|]. inversion Ht; subst. cbn [contains]. rewrite IH by done.
  rewrite orb_false_r. apply bool_decide_eq_false. cbn [length take]. congruence.
Qed.
Lemma digits_plain p : plain (digits p) = true.
Proof.
  pose proof (undigits_plain _ _ (undigits_digits p)) as Hd.
  assert (Hne : Forall (fun d => d <> 92) (digits p)) by (eapply Forall_impl; [exact Hd|]; cbn; lia).
  unfold plain, escapes. cbn [forallb fst]. by rewrite !(contains_absent 92 _ _ Hne).
Qed.

(** Every message with an encoded payload goes through. *)
Lemma digits_portable m a : m_Payload m = Some (unescape (digits a)) -> portable m.
Proof.
  intros Hp. exists (Some a). eexists. split_and!; [|exact I|reflexivity|apply digits_plain].
  rewrite Hp. rewrite (undigits_unescape _ _ (undigits_digits _)). split.
  - cbn [unmarshalAny digits_json]. by rewrite undigits_digits.
  - eexists. split; [reflexivity|apply digits_plain].
Qed.

Definition stats_reply : Message := mkMessage "id-9" MsgStats "worker" "ctl" 12 (Some (digits 5)) "id-1".
Definition second_reply : Message := mkMessage "id-10" MsgStats "worker" "ctl" 13 (Some (digits 6)) "id-2".

Lemma stats_portable : portable stats_reply.
Proof. apply (digits_portable _ 5). reflexivity. Qed.
Lemma second_portable : portable second_reply.
Proof. apply (digits_portable _ 6). reflexivity. Qed.
Lemma counter_rand_12 : exists b, counter_rand 12 = inr b.
Proof. eexists. reflexivity. Qed.

Lemma session_roundtrip_witness :
  exists data m', encryptMessage counter_rand stats_reply secret32 = Ok data /\
    decryptMessage no_signatures data secret32 = Ok m' /\ m_ReplyTo m' = "id-1"%string.
Proof.
  destruct (encryptMessage_ok counter_rand stats_reply secret32 stats_portable eq_refl counter_rand_12) as [data He].
  destruct (session_roundtrip no_signatures counter_rand stats_reply secret32 data counter_rand_len
    stats_portable He) as (m' & Hd & Hs).
  exists data, m'. split; [exact He|]. split; [exact Hd|]. apply Hs.
Defined.

Lemma received_message_checked_witness :
  match decryptMessage no_signatures [1; 2; 3] secret32 with Ok _ | Fail _ => True | _ => False end.
Proof.
  pose proof (received_message_checked no_signatures [1; 2; 3] secret32) as Hc.
  destruct (decryptMessage no_signatures [1; 2; 3] secret32); [exact I|exact I|exact Hc|exact Hc].
Defined.

(** A text whose string is a backslash followed by [u003c]: its JSON has two
    backslashes, and the unescaping leaves an escape that JSON does not have. *)
Example unescape_literal :
  unescape ([34; 92; 92] ++ bytes_of_string "u003c" ++ [34]) = [34; 92; 60; 34].
Proof. reflexivity. Qed.
