(* ===== verification/Transport.v ===== *)
(** * The WebSocket transport (src/go/node/transport.go)

    The connections of a node: the handshake on both sides, the table of
    connections, sending and broadcasting, the read loop of a connection, and
    closing.  A [PeerConnection] is an object of its own that the table, the
    goroutines and the caller share; its [Peer] is a pointer into the heap of the
    registry's world.  The WebSocket library is modelled by what successive
    calls on a socket return. *)

From S2P Require Import Prelude Crypto Float64 PeerName Peer PeerPersist Identity Ueps KeyDeriv.
From S2P Require Import Controller Protocol Session Duration Limits.

(** ** Data *)
Definition DefaultMaxMessageSize : Z := Z.shiftl 1 20.
Definition DefaultIdleTimeout : Z := 30 * second.

Record TransportConfig : Type := mkConfig {
  ListenAddr : string;
  WSPath : string;
  TLSCertPath : string;
  TLSKeyPath : string;
  MaxConns : Z;
  MaxMessageSize : Z;
  IdleTimeout : Z;
  PingInterval : Z;
  PongTimeout : Z
}.
Definition DefaultTransportConfig : TransportConfig :=
  mkConfig ":9091" "/ws" "" "" 100 DefaultMaxMessageSize DefaultIdleTimeout (30 * second) (10 * second).

Definition idleTimeout (config : TransportConfig) : Z :=
  if decide (IdleTimeout config > 0) then IdleTimeout config else DefaultIdleTimeout.

Record HandshakePayload : Type := mkHandshake {
  hs_Identity : NodeIdentity;
  hs_Challenge : bytes;
  hs_Version : string
}.
Record HandshakeAckPayload : Type := mkAck {
  ack_Identity : NodeIdentity;
  ack_ChallengeResponse : bytes;
  ack_Accepted : bool;
  ack_Reason : string
}.
Record DisconnectPayload : Type := mkDisconnect {
  dc_Reason : string;
  dc_Code : Z
}.
Definition DisconnectNormal : Z := 1000.
Definition DisconnectGoingAway : Z := 1001.
Definition DisconnectProtocolErr : Z := 1002.
Definition DisconnectTimeout : Z := 1003.
Definition DisconnectShutdown : Z := 1004.

Record PingPayload : Type := mkPing {
  SentAt : Z
}.

(** [t.UnixMilli()]: the zero time is 62135596800 s before the Unix epoch. *)
Definition UnixMilli (t : Z) : Z := t / 1000000 - 62135596800000.

(** A WebSocket connection (github.com/gorilla/websocket): what a call returns
    and the connection after it.  A deadline of [None] is the zero time. *)
Inductive FrameType : Type := TextMessage | BinaryMessage.
Class WebSocket (W : Type) : Type := {
  ws_ReadMessage : W -> (error + bytes) * W;
  ws_WriteMessage : FrameType -> bytes -> W -> option error * W;
  ws_SetReadLimit : Z -> W -> W;
  ws_SetReadDeadline : option Z -> W -> option error * W;
  ws_SetWriteDeadline : option Z -> W -> option error * W;
  ws_Close : W -> option error * W
}.

(** [core.JSONMarshal] and [core.JSONUnmarshal] of the payloads. *)
Class HandshakeJSON : Type := {
  marshalHandshake : HandshakePayload -> error + bytes;
  unmarshalHandshake : bytes -> error + HandshakePayload;
  marshalAck : HandshakeAckPayload -> error + bytes;
  unmarshalAck : bytes -> error + HandshakeAckPayload;
  marshalDisconnect : DisconnectPayload -> error + bytes;
  marshalPing : PingPayload -> error + bytes
}.
Definition zeroIdentity : NodeIdentity := mkIdentity "" "" "" 0 "".
Definition zeroHandshake : HandshakePayload := mkHandshake zeroIdentity [] "".
Definition zeroAck : HandshakeAckPayload := mkAck zeroIdentity [] false "".

(** What a call takes from its surroundings: the clock and the orders of the
    maps ([env]), a fresh message ID, the random source. *)
Record Input : Type := mkInput {
  env : Choice;
  uuid : string;
  rand : Z -> error + bytes
}.
Definition clock (i : Input) : Z := now (env i).

(** [MarshalJSON] of a payload, as [NewMessage] calls it. *)
Definition payload_json {T} (marshal : T -> error + bytes) (v : T) : error + bytes :=
  match marshal v with inl err => inl err | inr text => inr (unescape text) end.

Section Transport.
Context {W : Type} `{WebSocket W}.

(** [closed] is the state of [closeOnce]; [SharedSecret] is nil before the
    handshake. *)
Record PeerConnection : Type := mkConn {
  pc_Peer : positive;
  pc_Conn : W;
  SharedSecret : option bytes;
  LastActivity : Z;
  closed : bool;
  rateLimiter : PeerRateLimiter
}.

Context `{KDLib} `{JSON} {FS : Type} `{FileSystem FS} `{KeyLib} `{MsgJSON} `{AEADLib} `{HandshakeJSON}.
Context (ed25519_verify : bytes -> bytes -> bytes -> bool) (config : TransportConfig).

(** The transport with what it points to: the connections by the ID of their
    peer, the connection objects, the node's identity, the registry, whether the
    context was cancelled, whether there is a handler, and the log of what it was
    called with. *)
Record Transport : Type := mkTransport {
  conns : gmap string positive;
  objs : gmap positive PeerConnection;
  pendingConns : Z;
  node : NodeManager;
  world : World FS;
  dedup : MessageDeduplicator;
  cancelled : bool;
  handler : bool;
  handled : list (positive * Message)
}.

Definition NewTransport (n : NodeManager) (w : World FS) : Transport :=
  mkTransport ∅ ∅ 0 n w (NewMessageDeduplicator (5 * 60 * second)) false false [].

(** [CheckOrigin] of the upgrader: [hostname] is [url.Parse] with [Hostname]. *)
Definition CheckOrigin (hostname : string -> error + string) (origin : string) : bool :=
  if decide (origin = EmptyString) then true
  else match hostname origin with
       | inl _ => false
       | inr host => bool_decide (host = "localhost" \/ host = "127.0.0.1" \/ host = "::1")
       end.

Definition set_conns v (t : Transport) : Transport :=
  mkTransport v (objs t) (pendingConns t) (node t) (world t) (dedup t) (cancelled t) (handler t) (handled t).
Definition set_objs v (t : Transport) : Transport :=
  mkTransport (conns t) v (pendingConns t) (node t) (world t) (dedup t) (cancelled t) (handler t) (handled t).
Definition set_pending v (t : Transport) : Transport :=
  mkTransport (conns t) (objs t) v (node t) (world t) (dedup t) (cancelled t) (handler t) (handled t).
Definition set_world v (t : Transport) : Transport :=
  mkTransport (conns t) (objs t) (pendingConns t) (node t) v (dedup t) (cancelled t) (handler t) (handled t).
Definition set_dedup v (t : Transport) : Transport :=
  mkTransport (conns t) (objs t) (pendingConns t) (node t) (world t) v (cancelled t) (handler t) (handled t).
Definition set_cancelled v (t : Transport) : Transport :=
  mkTransport (conns t) (objs t) (pendingConns t) (node t) (world t) (dedup t) v (handler t) (handled t).
Definition set_handler v (t : Transport) : Transport :=
  mkTransport (conns t) (objs t) (pendingConns t) (node t) (world t) (dedup t) (cancelled t) v (handled t).
Definition set_handled v (t : Transport) : Transport :=
  mkTransport (conns t) (objs t) (pendingConns t) (node t) (world t) (dedup t) (cancelled t) (handler t) v.

(** A call on the registry, and one whose result the code ignores. *)
Definition on_world {A} (m : SR (World FS) A) : SR Transport A := fun t =>
  let '(r, w) := m (world t) in (r, set_world w t).
Definition ignoring (m : SR (World FS) unit) : SR Transport unit := on_world (best_effort m).

(** Access to a connection object. *)
Definition get_conn (c : positive) : SR Transport PeerConnection := fun t =>
  match objs t !! c with Some pc => (Ok pc, t) | None => (Panic NilDereference, t) end.
Definition upd_conn (c : positive) (f : PeerConnection -> PeerConnection) : SR Transport unit :=
  modify (fun t => set_objs (alter f c (objs t)) t).
Definition set_ws v (pc : PeerConnection) : PeerConnection :=
  mkConn (pc_Peer pc) v (SharedSecret pc) (LastActivity pc) (closed pc) (rateLimiter pc).
Definition set_secret v (pc : PeerConnection) : PeerConnection :=
  mkConn (pc_Peer pc) (pc_Conn pc) v (LastActivity pc) (closed pc) (rateLimiter pc).
Definition set_activity v (pc : PeerConnection) : PeerConnection :=
  mkConn (pc_Peer pc) (pc_Conn pc) (SharedSecret pc) v (closed pc) (rateLimiter pc).
Definition set_closed v (pc : PeerConnection) : PeerConnection :=
  mkConn (pc_Peer pc) (pc_Conn pc) (SharedSecret pc) (LastActivity pc) v (rateLimiter pc).
Definition set_limiter v (pc : PeerConnection) : PeerConnection :=
  mkConn (pc_Peer pc) (pc_Conn pc) (SharedSecret pc) (LastActivity pc) (closed pc) v.

(** [&Peer{...}]: a new object. *)
Definition new_peer (p : Peer) : SR Transport positive := fun t =>
  let l := fresh (dom (heap (world t))) in
  (Ok l, set_world (on_heap <[l := p]> (world t)) t).
Definition new_conn (pc : PeerConnection) : SR Transport positive := fun t =>
  let c := fresh (dom (objs t)) in (Ok c, set_objs (<[c := pc]> (objs t)) t).

(** An operation of the node manager. *)
Definition on_node {A} (m : Node FS -> Result A * Node FS) : SR Transport A := fun t =>
  let '(r, n) := m (mkNode (node t) (fs (world t))) in
  (r, mkTransport (conns t) (objs t) (pendingConns t) (nm n)
        (mkWorld (heap (world t)) (reg (world t)) (nfs n)) (dedup t) (cancelled t) (handler t) (handled t)).

Definition get_identity (t : Transport) : option NodeIdentity := GetIdentity (mkNode (node t) (fs (world t))).
Definition derive_secret (pub : string) (t : Transport) : Result bytes :=
  DeriveSharedSecret pub (mkNode (node t) (fs (world t))).

(** ** The server's side of the handshake *)

Definition limit_of_config : Z :=
  if decide (MaxMessageSize config <= 0) then DefaultMaxMessageSize else MaxMessageSize config.

(** [conn.Close()] whose result is ignored. *)
Definition shut (c : W) : W := snd (ws_Close c).

(** The rejection sent before closing, when the node has an identity. *)
Definition reject (i : Input) (t : Transport) (to reason : string) (c : W) : W :=
  match get_identity t with
  | None => c
  | Some identity =>
      match NewMessage (uuid i) (clock i) (payload_json marshalAck) MsgHandshakeAck (ni_ID identity) to
              (Some (mkAck identity [] false reason)) with
      | Ok m => match marshalMessageJSON (Some m) with
                | Ok data => snd (ws_WriteMessage TextMessage data c)
                | _ => c
                end
      | _ => c
      end
  end.

(** The deadline of the handshake. *)
Definition handshakeTimeout : Z := 10 * second.
Definition deadline_in (i : Input) (d : Z) : option Z := Some (clock i + d).

(** The new socket, with the limit of its messages and its deadline. *)
Definition handshake_socket (i : Input) (c : W) : W :=
  snd (ws_SetReadDeadline (deadline_in i handshakeTimeout) (ws_SetReadLimit limit_of_config c)).

(** The handshake message, up to the point where its sender is accepted: the
    payload and the shared secret, or the closed socket. *)
Definition receive_handshake (i : Input) (c : W) (t : Transport) : (HandshakePayload * bytes * W) + W :=
  match ws_ReadMessage (handshake_socket i c) with
  | (inl _, c) => inr (shut c)
  | (inr data, c) =>
      match decodeMessageJSON data with
      | Ok msg =>
          if decide (m_Type msg <> MsgHandshake) then inr (shut c)
          else
            match ParsePayload zeroHandshake unmarshalHandshake msg with
            | Ok payload =>
                if negb (IsProtocolVersionSupported (hs_Version payload)) then
                  inr (shut (reject i t (ni_ID (hs_Identity payload))
                    ("incompatible protocol version " ++ hs_Version payload ++ ", supported: [1.0]") c))
                else
                  match derive_secret (ni_PublicKey (hs_Identity payload)) t with
                  | Ok sharedSecret =>
                      if negb (IsPeerAllowed (ni_ID (hs_Identity payload)) (ni_PublicKey (hs_Identity payload)) (world t))
                      then inr (shut (reject i t (ni_ID (hs_Identity payload)) "peer not authorized" c))
                      else inl (payload, sharedSecret, c)
                  | _ => inr (shut c)
                  end
            | _ => inr (shut c)
            end
      | _ => inr (shut c)
      end
  end.

(** [peer := t.registry.GetPeer(...)], or a new one, registered as far as the
    registry lets it. *)
Definition peer_of_identity (i : Input) (id : NodeIdentity) : SR Transport positive := fun t =>
  match GetPeer (ni_ID id) (world t) with
  | Some p => new_peer p t
  | None =>
      (l ← new_peer (mkPeer (ni_ID id) (ni_Name id) (ni_PublicKey id) "" (ni_Role id) (clock i) 0
                       (float_of_int 0) (float_of_int 0) (float_of_int 0) 0 (float_of_int 0)
                       (float_of_int 50) false);
       _ ← ignoring (AddPeer (env i) (Some l));
       mret l) t
  end.

(** [conn.Close()] on the socket of a connection object. *)
Definition close_socket (c : positive) : SR Transport unit :=
  upd_conn c (fun pc => set_ws (shut (pc_Conn pc)) pc).

(** The answer to the challenge: nil without one. *)
Definition challenge_response (payload : HandshakePayload) (sharedSecret : bytes) : Result bytes :=
  if decide (len (hs_Challenge payload) > 0) then
    subKeys ← deriveSubKeys sharedSecret;
    Ok (SignChallenge (hs_Challenge payload) (chlKey subKeys))
  else Ok [].

(** The acknowledgment to [to], and its text. *)
Definition ack_message (i : Input) (identity : NodeIdentity) (to : string) (response : bytes) : Result Message :=
  NewMessage (uuid i) (clock i) (payload_json marshalAck) MsgHandshakeAck (ni_ID identity) to
    (Some (mkAck identity response true "")).
Definition ack_text (i : Input) (identity : NodeIdentity) (to : string) (response : bytes) : Result bytes :=
  ackMsg ← ack_message i identity to response;
  marshalMessageJSON (Some ackMsg).

(** Entering a connection in the table and marking its peer connected. *)
Definition store_connection (i : Input) (c : positive) : SR Transport unit :=
  pc ← get_conn c;
  peer ← on_world (deref (Some (pc_Peer pc)));
  _ ← modify (fun t => set_conns (<[ID peer := c]> (conns t)) t);
  on_world (SetConnected (env i) (ID peer) true).

(** The rest of the handler, after the sender was accepted. *)
Definition accept_handshake (i : Input) (payload : HandshakePayload) (sharedSecret : bytes) (sock : W) : SR Transport unit :=
  l ← peer_of_identity i (hs_Identity payload);
  c ← new_conn (mkConn l sock (Some sharedSecret) (clock i) false (NewPeerRateLimiter (clock i) 100 50));
  identity ← gets get_identity;
  match identity with
  | None => close_socket c
  | Some identity =>
      match challenge_response payload sharedSecret with
      | Ok response =>
          peer ← on_world (deref (Some l));
          match ack_text i identity (ID peer) response with
          | Ok ackData =>
              pc ← get_conn c;
              let '(err, sock) := ws_WriteMessage TextMessage ackData (pc_Conn pc) in
              _ ← upd_conn c (set_ws sock);
              match err with
              | Some _ => close_socket c
              | None => store_connection i c
              end
          | _ => close_socket c
          end
      | _ => close_socket c
      end
  end.

(** [handleWSUpgrade]: [upgraded] is the socket the upgrader returns.  A handler
    counts as pending from its admission to its end. *)
Definition handleWSUpgrade (i : Input) (upgraded : error + W) : SR Transport unit := fun t =>
  let totalConns := Z.of_nat (size (conns t)) + pendingConns t in
  if decide (totalConns >= MaxConns config) then (Ok tt, t)
  else
    let t := set_pending (pendingConns t + 1) t in
    let '(r, t) :=
      match upgraded with
      | inl _ => (Ok tt, t)
      | inr sock =>
          match receive_handshake i sock t with
          | inr _ => (Ok tt, t)
          | inl (payload, sharedSecret, sock) => accept_handshake i payload sharedSecret sock t
          end
      end in
    (r, set_pending (pendingConns t - 1) t).

(** ** The client's side *)

Definition hs_error (msg : string) (err : error) : error := E "Transport.performHandshake" msg (Some err).

(** The client's first message to [to], and its text. *)
Definition hello_message (i : Input) (identity : NodeIdentity) (to : string) (challenge : bytes) : Result Message :=
  NewMessage (uuid i) (clock i) (payload_json marshalHandshake) MsgHandshake (ni_ID identity) to
    (Some (mkHandshake identity challenge ProtocolVersion)).
Definition hello_text (i : Input) (identity : NodeIdentity) (to : string) (challenge : bytes) : Result bytes :=
  msg ← map_fail (hs_error "create handshake message") (hello_message i identity to challenge);
  map_fail (hs_error "marshal handshake message") (marshalMessageJSON (Some msg)).

(** The acknowledgment, if it accepts. *)
Definition parse_ack (ackData : bytes) : Result HandshakeAckPayload :=
  ackMsg ← map_fail (hs_error "unmarshal handshake ack") (decodeMessageJSON ackData);
  if decide (m_Type ackMsg <> MsgHandshakeAck) then
    Fail (E "Transport.performHandshake" ("expected handshake_ack, got " ++ m_Type ackMsg) None)
  else
    ackPayload ← map_fail (hs_error "parse handshake ack payload") (ParsePayload zeroAck unmarshalAck ackMsg);
    if negb (ack_Accepted ackPayload) then
      Fail (E "Transport.performHandshake" ("handshake rejected: " ++ ack_Reason ackPayload) None)
    else Ok ackPayload.

(** The secret of the session, once the server has proved that it has it too. *)
Definition verify_ack (challenge : bytes) (ack : HandshakeAckPayload) (t : Transport) : Result bytes :=
  sharedSecret ← map_fail (hs_error "derive shared secret for challenge verification")
                   (derive_secret (ni_PublicKey (ack_Identity ack)) t);
  subKeys ← map_fail (hs_error "derive handshake subkeys") (deriveSubKeys sharedSecret);
  if decide (len (ack_ChallengeResponse ack) = 0) then
    Fail (E "Transport.performHandshake" "server did not provide challenge response" None)
  else if negb (VerifyChallenge challenge (ack_ChallengeResponse ack) (chlKey subKeys)) then
    Fail (E "Transport.performHandshake"
            "challenge response verification failed: server may not have matching private key" None)
  else Ok sharedSecret.

(** [pc.Peer.ID = ...] and the three other assignments. *)
Definition set_peer_identity (id : NodeIdentity) (p : Peer) : Peer :=
  mkPeer (ni_ID id) (ni_Name id) (ni_PublicKey id) (Address p) (ni_Role id) (AddedAt p) (LastSeen p)
    (Latitude p) (Longitude p) (PingMS p) (Hops p) (GeoKM p) (Score p) (Connected p).

(** [performHandshake] between the two settings of the deadlines. *)
Definition handshake_body (i : Input) (c : positive) : SR Transport unit :=
  identity ← gets get_identity;
  match identity with
  | None => fail ErrIdentityNotInitialized
  | Some identity =>
      challenge ← lift (map_fail (hs_error "generate challenge") (GenerateChallenge (rand i)));
      pc ← get_conn c;
      peer ← on_world (deref (Some (pc_Peer pc)));
      data ← lift (hello_text i identity (ID peer) challenge);
      let '(err, sock) := ws_WriteMessage TextMessage data (pc_Conn pc) in
      _ ← upd_conn c (set_ws sock);
      match err with
      | Some err => fail (hs_error "send handshake" err)
      | None =>
          let '(answer, sock) := ws_ReadMessage sock in
          _ ← upd_conn c (set_ws sock);
          match answer with
          | inl err => fail (hs_error "read handshake ack" err)
          | inr ackData =>
              ack ← lift (parse_ack ackData);
              _ ← on_world (assign (pc_Peer pc) (set_peer_identity (ack_Identity ack)));
              t ← gets id;
              sharedSecret ← lift (verify_ack challenge ack t);
              _ ← upd_conn c (set_secret (Some sharedSecret));
              ignoring (on_result (UpdatePeer (env i) (Some (pc_Peer pc))) (fun _ => mret tt)
                          (fun _ => AddPeer (env i) (Some (pc_Peer pc))))
          end
      end
  end.

(** Both deadlines of a socket; the results are ignored. *)
Definition set_deadlines (d : option Z) (sock : W) : W :=
  snd (ws_SetReadDeadline d (snd (ws_SetWriteDeadline d sock))).
Definition upd_deadlines (d : option Z) (c : positive) : SR Transport unit :=
  upd_conn c (fun pc => set_ws (set_deadlines d (pc_Conn pc)) pc).

(** [defer d()] before [m]. *)
Definition deferring {A} (d : SR Transport unit) (m : SR Transport A) : SR Transport A := fun t =>
  let '(r, t) := m t in (r, snd (d t)).

Definition performHandshake (i : Input) (c : positive) : SR Transport unit :=
  _ ← upd_deadlines (deadline_in i handshakeTimeout) c;
  deferring (upd_deadlines None c) (handshake_body i c).

(** [Connect(peer)]: [dialed] is what the dialer returns; the new connection. *)
Definition Connect (i : Input) (peer : positive) (dialed : error + W) : SR Transport positive :=
  match dialed with
  | inl err => fail (E "Transport.Connect" "failed to connect to peer" (Some err))
  | inr sock =>
      c ← new_conn (mkConn peer sock None (clock i) false (NewPeerRateLimiter (clock i) 100 50));
      on_result (performHandshake i c)
        (fun _ => _ ← store_connection i c; mret c)
        (fun err => _ ← close_socket c; fail (E "Transport.Connect" "handshake failed" (Some err)))
  end.

(** ** Sending *)

(** [pc.Send(msg)], the lock held. *)
Definition SendOn (i : Input) (c : positive) (msg : Message) : SR Transport unit :=
  pc ← get_conn c;
  data ← lift (encryptMessage (rand i) msg (default [] (SharedSecret pc)));
  let '(err, sock) := ws_SetWriteDeadline (deadline_in i (10 * second)) (pc_Conn pc) in
  _ ← upd_conn c (set_ws sock);
  match err with
  | Some err => fail (E "PeerConnection.Send" "failed to set write deadline" (Some err))
  | None =>
      let '(err, sock) := ws_WriteMessage BinaryMessage data sock in
      _ ← upd_conn c (set_ws (snd (ws_SetWriteDeadline None sock)));
      match err with
      | Some err => fail err
      | None => upd_conn c (set_activity (clock i))
      end
  end.

Definition Send (i : Input) (peerID : string) (msg : Message) : SR Transport unit := fun t =>
  match conns t !! peerID with
  | None => (Fail (E "Transport.Send" ("peer " ++ peerID ++ " not connected") None), t)
  | Some c => SendOn i c msg t
  end.

Definition GetConnection (peerID : string) (t : Transport) : option positive := conns t !! peerID.
Definition ConnectedPeers (t : Transport) : Z := Z.of_nat (size (conns t)).
Definition Connections (i : Input) (t : Transport) : list positive := snd <$> order (env i) (conns t).

(** [Broadcast]: the last error is returned. *)
Fixpoint broadcast_loop (i : Input) (msg : Message) (cs : list positive) (lastErr : option error) : SR Transport unit :=
  match cs with
  | [] => match lastErr with Some err => fail err | None => mret tt end
  | c :: cs =>
      pc ← get_conn c;
      peer ← on_world (deref (Some (pc_Peer pc)));
      if decide (ID peer = m_From msg) then broadcast_loop i msg cs lastErr
      else on_result (SendOn i c msg)
             (fun _ => broadcast_loop i msg cs lastErr)
             (fun err => broadcast_loop i msg cs (Some err))
  end.
Definition Broadcast (i : Input) (msg : Message) : SR Transport unit := fun t =>
  broadcast_loop i msg (Connections i t) None t.

(** ** Closing *)

(** [dropConnection]: only the entry of this very connection is deleted. *)
Definition dropConnection (i : Input) (c : positive) : SR Transport unit :=
  pc ← get_conn c;
  peer ← on_world (deref (Some (pc_Peer pc)));
  _ ← modify (fun t => if decide (conns t !! ID peer = Some c)
                       then set_conns (delete (ID peer) (conns t)) t else t);
  on_world (SetConnected (env i) (ID peer) false).

(** [err = pc.Conn.Close()], returned. *)
Definition close_result (c : positive) : SR Transport unit :=
  pc ← get_conn c;
  let '(err, sock) := ws_Close (pc_Conn pc) in
  _ ← upd_conn c (set_ws sock);
  match err with Some err => fail err | None => mret tt end.

(** [pc.Close()], once. *)
Definition CloseConn (i : Input) (c : positive) : SR Transport unit :=
  pc ← get_conn c;
  if closed pc then mret tt
  else
    _ ← upd_conn c (set_closed true);
    _ ← dropConnection i c;
    close_result c.

Definition removeConnection (i : Input) (c : positive) : SR Transport unit :=
  on_result (CloseConn i c) mret (fun _ => mret tt).

Definition GracefulClose (i : Input) (c : positive) (reason : string) (code : Z) : SR Transport unit :=
  pc ← get_conn c;
  if closed pc then mret tt
  else
    _ ← upd_conn c (set_closed true);
    identity ← gets get_identity;
    _ ← match SharedSecret pc, identity with
        | Some _, Some identity =>
            peer ← on_world (deref (Some (pc_Peer pc)));
            match NewMessage (uuid i) (clock i) (payload_json marshalDisconnect) MsgDisconnect (ni_ID identity)
                    (ID peer) (Some (mkDisconnect reason code)) with
            | Ok m => on_result (SendOn i c m) mret (fun _ => mret tt)
            | _ => mret tt
            end
        | _, _ => mret tt
        end;
    _ ← dropConnection i c;
    close_result c.

(** [Stop] up to [wg.Wait]: [shutdown] is what the HTTP server's [Shutdown]
    returns, if there is a server. *)
Fixpoint stop_loop (i : Input) (cs : list positive) : SR Transport unit :=
  match cs with
  | [] => mret tt
  | c :: cs =>
      _ ← on_result (GracefulClose i c "server shutdown" DisconnectShutdown) mret (fun _ => mret tt);
      stop_loop i cs
  end.
Definition Stop (i : Input) (shutdown : option (option error)) : SR Transport unit :=
  _ ← modify (set_cancelled true);
  conns ← gets (Connections i);
  _ ← stop_loop i conns;
  match shutdown with
  | Some (Some err) => fail (E "Transport.Stop" "server shutdown error" (Some err))
  | _ => mret tt
  end.

(** ** Receiving *)
Definition OnMessage : SR Transport unit := modify (set_handler true).

Definition on_dedup {A} (m : SR MessageDeduplicator A) : SR Transport A := fun t =>
  let '(r, d) := m (dedup t) in (r, set_dedup d t).

(** What is done with the bytes of a message; the handler is recorded, not run. *)
Definition receive_data (t2 t3 t4 : Z) (c : positive) (data : bytes) : SR Transport unit :=
  pc ← get_conn c;
  let '(allow, limiter) := Allow t2 (rateLimiter pc) in
  _ ← upd_conn c (set_limiter limiter);
  ok ← lift allow;
  if negb (ok : bool) then mret tt
  else
    match decryptMessage ed25519_verify data (default [] (SharedSecret pc)) with
    | Ok msg =>
        new ← on_dedup (receive t3 t4 (m_ID msg));
        if (new : bool) then
          modify (fun t => if handler t then set_handled (handled t ++ [(c, msg)]) t else t)
        else mret tt
    | Fail _ => mret tt
    | Panic p => lift (Panic p)
    | OutOfFuel => lift OutOfFuel
    end.

(** One iteration of [readLoop]: [Ok true] to go on, [Ok false] to return.  The
    times are those of its successive clock reads. *)
Definition readStep (t0 t1 t2 t3 t4 : Z) (c : positive) : SR Transport bool :=
  done ← gets cancelled;
  if (done : bool) then mret false
  else
    pc ← get_conn c;
    let '(err, sock) := ws_SetReadDeadline (Some (t0 + idleTimeout config)) (pc_Conn pc) in
    _ ← upd_conn c (set_ws sock);
    match err with
    | Some _ => mret false
    | None =>
        let '(m, sock) := ws_ReadMessage sock in
        _ ← upd_conn c (set_ws sock);
        match m with
        | inl _ => mret false
        | inr data =>
            _ ← upd_conn c (set_activity t1);
            _ ← receive_data t2 t3 t4 c data;
            mret true
        end
    end.

(** The clock reads of iteration [k] are [clk (5 * k)] to [clk (5 * k + 4)]. *)
Fixpoint read_iterations (fuel k : nat) (clk : nat -> Z) (c : positive) : SR Transport unit :=
  match fuel with
  | O => lift OutOfFuel
  | S fuel =>
      more ← readStep (clk (5 * k)%nat) (clk (5 * k + 1)%nat) (clk (5 * k + 2)%nat) (clk (5 * k + 3)%nat)
               (clk (5 * k + 4)%nat) c;
      if (more : bool) then read_iterations fuel (S k) clk c else mret tt
  end.
Definition readLoop (fuel : nat) (i : Input) (clk : nat -> Z) (c : positive) : SR Transport unit :=
  deferring (removeConnection i c)
    (_ ← upd_conn c (fun pc => set_ws (ws_SetReadLimit limit_of_config (pc_Conn pc)) pc);
     read_iterations fuel 0 clk c).

(** One tick of [keepalive] at time [t1]; [t2] is the time of the ping. *)
Definition keepaliveStep (i : Input) (t1 t2 : Z) (c : positive) : SR Transport bool :=
  pc ← get_conn c;
  if decide (Sub t1 (LastActivity pc) > i64 (PingInterval config + PongTimeout config)) then
    _ ← removeConnection i c;
    mret false
  else
    identity ← gets get_identity;
    match identity with
    | None => lift (Panic NilDereference)
    | Some identity =>
        peer ← on_world (deref (Some (pc_Peer pc)));
        match NewMessage (uuid i) (clock i) (payload_json marshalPing) MsgPing (ni_ID identity) (ID peer)
                (Some (mkPing (UnixMilli t2))) with
        | Ok m =>
            on_result (SendOn i c m) (fun _ => mret true)
              (fun _ => _ ← removeConnection i c; mret false)
        | Fail _ => mret true
        | Panic p => lift (Panic p)
        | OutOfFuel => lift OutOfFuel
        end
    end.

End Transport.
