(* ===== verification/Admission.v ===== *)
(** * Admission of connections (src/go/node/transport.go: handleWSUpgrade, Connect)

    The limit on connections is checked against two counters that are read one
    after the other, and the upgrade is counted as pending after the check.  The
    HTTP server runs a goroutine per request; here any number of them is
    interleaved with each other, with dials of the node itself, which [Connect]
    enters into the same table without a check, and with connections that close.
    The theorem says by how much the limit can be exceeded. *)

From S2P Require Import Prelude.

(** The end that opened a connection of the table. *)
Inductive opener : Type := Accepted | Dialled.
#[export] Instance opener_eq_dec : EqDecision opener.
Proof. solve_decision. Defined.

(** Where a request is: before it, the number of connections read, admitted by
    the check, counted as pending (in the handshake), and with its connection
    stored. *)
Inductive upgrade : Type :=
| UIdle
| URead (currentConns : Z)
| UAdmitted
| UPending
| UStored.

(** [t.conns] by peer ID, the pending counter, the requests. *)
Record admission : Type := mkAdmission {
  a_conns : gmap string opener;
  a_pending : Z;
  a_upgrades : list upgrade
}.

(** The connections of the table that one end opened. *)
Definition opened_by (o : opener) (c : gmap string opener) : nat := size (filter (fun e => e.2 = o) c).

Section Admission.
Context (MaxConns : Z) (n : nat).

Inductive astep : admission -> admission -> Prop :=
| a_read k c p us :
    us !! k = Some UIdle -> astep (mkAdmission c p us) (mkAdmission c p (<[k := URead (Z.of_nat (size c))]> us))
| a_refuse k r c p us :
    us !! k = Some (URead r) -> r + p >= MaxConns -> astep (mkAdmission c p us) (mkAdmission c p (<[k := UIdle]> us))
| a_admit k r c p us :
    us !! k = Some (URead r) -> r + p < MaxConns -> astep (mkAdmission c p us) (mkAdmission c p (<[k := UAdmitted]> us))
| a_pend k c p us :
    us !! k = Some UAdmitted -> astep (mkAdmission c p us) (mkAdmission c (p + 1) (<[k := UPending]> us))
(** The handshake fails: the deferred decrement is all that is left. *)
| a_fail k c p us :
    us !! k = Some UPending -> astep (mkAdmission c p us) (mkAdmission c (p - 1) (<[k := UIdle]> us))
(** An entry of the same peer, accepted or dialled, is replaced. *)
| a_store k id c p us :
    us !! k = Some UPending -> astep (mkAdmission c p us) (mkAdmission (<[id := Accepted]> c) p (<[k := UStored]> us))
| a_leave k c p us :
    us !! k = Some UStored -> astep (mkAdmission c p us) (mkAdmission c (p - 1) (<[k := UIdle]> us))
(** [Connect] after its handshake. *)
| a_dial id c p us : astep (mkAdmission c p us) (mkAdmission (<[id := Dialled]> c) p us)
| a_drop id c p us : astep (mkAdmission c p us) (mkAdmission (delete id c) p us).

Definition admission_init : admission := mkAdmission ∅ 0 (replicate n UIdle).

(** ** The bound *)

(** A request that may still store a connection. *)
Definition permit (u : upgrade) : nat :=
  match u with
  | URead r => if decide (r < MaxConns) then 1 else 0
  | UAdmitted | UPending => 1
  | UIdle | UStored => 0
  end.
Definition permits (us : list upgrade) : nat := sum_list_with permit us.
Definition counted (u : upgrade) : nat := match u with UPending | UStored => 1 | _ => 0 end.

Record admission_ok (s : admission) : Prop := mkAdmissionOk {
  ao_len : length (a_upgrades s) = n;
  ao_pending : a_pending s = Z.of_nat (sum_list_with counted (a_upgrades s));
  ao_bound : Z.of_nat (opened_by Accepted (a_conns s)) + Z.of_nat (permits (a_upgrades s)) <= MaxConns - 1 + Z.of_nat n
}.

Lemma permit_le u : (permit u <= 1)%nat.
Proof. destruct u; cbn; try case_decide; lia. Qed.

(** What the table's changes do to the numbers. *)
Lemma opened_empty o : opened_by o ∅ = 0%nat.
Proof. done. Qed.
Lemma opened_sum c : (opened_by Accepted c + opened_by Dialled c)%nat = size c.
Proof.
  induction c as [|id o c Hid IH] using map_ind; [done|]. unfold opened_by in *.
  rewrite map_size_insert_None by done. destruct o.
  - rewrite map_filter_insert_True, map_size_insert_None by (done || by apply map_lookup_filter_None; left).
    rewrite map_filter_insert_False, delete_id by done. lia.
  - rewrite (map_filter_insert_True (fun e => e.2 = Dialled)), map_size_insert_None by (done || by apply map_lookup_filter_None; left).
    rewrite map_filter_insert_False, delete_id by done. lia.
Qed.
Lemma opened_delete o id c : (opened_by o (delete id c) <= opened_by o c)%nat.
Proof. unfold opened_by. rewrite map_filter_delete. apply map_subseteq_size, delete_subseteq. Qed.
Lemma opened_dial id c : (opened_by Accepted (<[id := Dialled]> c) <= opened_by Accepted c)%nat.
Proof. unfold opened_by. rewrite map_filter_insert_False by done. apply opened_delete. Qed.
Lemma opened_store id c : (opened_by Accepted (<[id := Accepted]> c) <= S (opened_by Accepted c))%nat.
Proof. unfold opened_by. rewrite map_filter_insert_True by done. rewrite map_size_insert. destruct (_ !! id); cbn; lia. Qed.

(** A request moves from [u] to [v]; the counters follow. *)
Lemma admission_move s k u v c p :
  admission_ok s -> a_upgrades s !! k = Some u ->
  p + Z.of_nat (counted u) = a_pending s + Z.of_nat (counted v) ->
  (Z.of_nat (opened_by Accepted c) < MaxConns \/
   (opened_by Accepted c + permit v <= opened_by Accepted (a_conns s) + permit u)%nat) ->
  admission_ok (mkAdmission c p (<[k := v]> (a_upgrades s))).
Proof.
  intros [Hl Hp Hb] Hk Hpe Hpm. pose proof (sum_update counted _ k v u Hk) as Hs1. pose proof (sum_update permit _ k v u Hk) as Hs2.
  unfold permits in *. constructor; cbn [a_upgrades a_pending a_conns]; [by rewrite length_insert|lia|].
  destruct Hpm as [Hlt|Hle]; [|unfold permits; lia].
  pose proof (sum_le_length permit (<[k := v]> (a_upgrades s)) permit_le) as Hle. rewrite length_insert in Hle. unfold permits. lia.
Qed.

(** The table changes without a request, and no accepted connection is added. *)
Lemma admission_table c c' p us :
  (opened_by Accepted c' <= opened_by Accepted c)%nat -> admission_ok (mkAdmission c p us) -> admission_ok (mkAdmission c' p us).
Proof. intros Hle [Hl Hp Hb]. constructor; cbn in *; [done|done|lia]. Qed.

Lemma admission_step s s' : admission_ok s -> astep s s' -> admission_ok s'.
Proof.
  intros Hok Hstep. destruct Hstep as [k c p us Hk|k r c p us Hk Hr|k r c p us Hk Hr|k c p us Hk|k c p us Hk|k id c p us Hk|k c p us Hk|id c p us|id c p us];
    try (eapply (admission_move _ _ _ _ _ _ Hok Hk); cbn [counted permit a_pending a_conns]; [lia|]).
  - pose proof (opened_sum c). case_decide; lia.
  - right. case_decide; lia.
  - destruct Hok as [_ Hp _]. cbn in Hp. right. rewrite decide_True by lia. lia.
  - lia.
  - lia.
  - pose proof (opened_store id c). lia.
  - lia.
  - exact (admission_table _ _ _ _ (opened_dial id c) Hok).
  - exact (admission_table _ _ _ _ (opened_delete Accepted id c) Hok).
Qed.

Lemma admission_reachable s : 1 <= MaxConns -> rtc astep admission_init s -> admission_ok s.
Proof.
  intros HM Hr. assert (Hi : admission_ok admission_init).
  { constructor; cbn [admission_init a_upgrades a_pending a_conns]; [apply length_replicate| |]; unfold permits;
      rewrite sum_replicate, ?opened_empty; cbn; lia. }
  induction Hr as [|s1 s2 s3 Hs _ IH]; [done|]. by eapply IH, admission_step.
Qed.

(** ** The bound is reached *)

(** One more connection, of a peer that has none. *)
Definition one_more (o : opener) (c : gmap string opener) : gmap string opener := <[fresh (dom c) := o]> c.
Lemma one_more_opened o m c : opened_by o (Nat.iter m (one_more o) c) = (m + opened_by o c)%nat.
Proof.
  induction m as [|m IH]; [done|]. change (Nat.iter (S m) (one_more o) c) with (one_more o (Nat.iter m (one_more o) c)).
  cbn [Nat.add]. rewrite <- IH. set (c' := Nat.iter m (one_more o) c). unfold one_more, opened_by.
  assert (Hf : c' !! fresh (dom c') = None) by (apply not_elem_of_dom, is_fresh).
  rewrite map_filter_insert_True, map_size_insert_None by (done || by apply map_lookup_filter_None; left). done.
Qed.
Lemma one_more_size o m c : size (Nat.iter m (one_more o) c) = (m + size c)%nat.
Proof.
  induction m as [|m IH]; [done|]. change (Nat.iter (S m) (one_more o) c) with (one_more o (Nat.iter m (one_more o) c)).
  cbn [Nat.add]. rewrite <- IH. set (c' := Nat.iter m (one_more o) c). unfold one_more.
  rewrite map_size_insert_None by (apply not_elem_of_dom, is_fresh). done.
Qed.

Lemma one_upgrade c : (0 < n)%nat -> Z.of_nat (size c) < MaxConns ->
  rtc astep (mkAdmission c 0 (replicate n UIdle)) (mkAdmission (one_more Accepted c) 0 (replicate n UIdle)).
Proof.
  intros Hn Hc. destruct n as [|m]; [lia|]. cbn [replicate].
  eapply rtc_l; [by eapply (a_read 0)|]. eapply rtc_l; [eapply (a_admit 0); [reflexivity|lia]|].
  eapply rtc_l; [by eapply (a_pend 0)|]. eapply rtc_l; [by eapply (a_store 0 (fresh (dom c)))|].
  eapply rtc_l; [by eapply (a_leave 0)|]. reflexivity.
Qed.

Lemma fill (m : nat) : (0 < n)%nat -> Z.of_nat m <= MaxConns ->
  rtc astep admission_init (mkAdmission (Nat.iter m (one_more Accepted) ∅) 0 (replicate n UIdle)).
Proof.
  intros Hn. induction m as [|m IH]; intros Hm; [done|]. etrans; [apply IH; lia|].
  change (Nat.iter (S m) ?f ∅) with (f (Nat.iter m f ∅)). apply one_upgrade; [done|]. rewrite one_more_size, map_size_empty. lia.
Qed.

(** All requests pass the check before the first of them counts as pending. *)
Lemma all_upgrade c : Z.of_nat (size c) < MaxConns ->
  rtc astep (mkAdmission c 0 (replicate n UIdle)) (mkAdmission (Nat.iter n (one_more Accepted) c) (Z.of_nat n) (replicate n UStored)).
Proof.
  intros Hc. etrans; [|etrans; [|etrans]].
  - refine (sweep astep (fun _ us => mkAdmission c 0 us) UIdle (URead (Z.of_nat (size c))) n _). intros j us Hj. by apply a_read.
  - refine (sweep astep (fun _ us => mkAdmission c 0 us) (URead (Z.of_nat (size c))) UAdmitted n _).
    intros j us Hj. apply (a_admit j (Z.of_nat (size c))); [done|lia].
  - refine (sweep astep (fun j us => mkAdmission c (Z.of_nat j) us) UAdmitted UPending n _).
    intros j us Hj. rewrite Nat2Z.inj_succ, <- Z.add_1_r. by apply a_pend.
  - refine (sweep astep (fun j us => mkAdmission (Nat.iter j (one_more Accepted) c) (Z.of_nat n) us) UPending UStored n _).
    intros j us Hj. by apply a_store.
Qed.

Lemma all_dial m c p us : rtc astep (mkAdmission c p us) (mkAdmission (Nat.iter m (one_more Dialled) c) p us).
Proof. induction m as [|m IH]; [done|]. eapply rtc_r; [exact IH|]. apply a_dial. Qed.

(** C17 (bounds): with [n] requests handled at a time, however many come, fail,
    replace a connection of their peer or are followed by disconnections, and
    whatever the node dials meanwhile, there are never more than [MaxConns - 1 + n]
    accepted connections; and there can be that many: the counters are read and
    compared before the request is counted, so the limit holds only for requests
    that do not overlap.  Dials are not limited at all: together with [m] of them,
    for any [m], the table can hold [MaxConns - 1 + n + m] connections. *)
Theorem admission_bound :
  1 <= MaxConns -> (0 < n)%nat ->
  (forall s, rtc astep admission_init s ->
     Z.of_nat (opened_by Accepted (a_conns s)) <= MaxConns - 1 + Z.of_nat n /\
     size (a_conns s) = (opened_by Accepted (a_conns s) + opened_by Dialled (a_conns s))%nat /\
     0 <= a_pending s <= Z.of_nat n) /\
  forall m, exists s, rtc astep admission_init s /\
    Z.of_nat (opened_by Accepted (a_conns s)) = MaxConns - 1 + Z.of_nat n /\
    Z.of_nat (size (a_conns s)) = MaxConns - 1 + Z.of_nat n + Z.of_nat m.
Proof.
  intros HM Hn. split.
  - intros s Hr. destruct (admission_reachable s HM Hr) as [Hl Hp Hb].
    pose proof (sum_le_length counted (a_upgrades s) ltac:(intros []; cbn; lia)). pose proof (opened_sum (a_conns s)). lia.
  - intros m. set (c := Nat.iter n (one_more Accepted) (Nat.iter (Z.to_nat (MaxConns - 1)) (one_more Accepted) ∅)).
    assert (Hc : size c = (n + Z.to_nat (MaxConns - 1))%nat) by (unfold c; rewrite !one_more_size, map_size_empty; lia).
    assert (Ho : opened_by Accepted c = (n + Z.to_nat (MaxConns - 1))%nat) by (unfold c; rewrite !one_more_opened, opened_empty; lia).
    exists (mkAdmission (Nat.iter m (one_more Dialled) c) (Z.of_nat n) (replicate n UStored)). cbn [a_conns]. split_and!.
    + etrans; [apply (fill (Z.to_nat (MaxConns - 1))); [done|lia]|]. etrans; [apply all_upgrade; rewrite one_more_size, map_size_empty; lia|apply all_dial].
    + pose proof (opened_sum c). pose proof (opened_sum (Nat.iter m (one_more Dialled) c)) as Hs.
      rewrite one_more_size, one_more_opened in Hs. lia.
    + rewrite one_more_size, Hc. lia.
Qed.
End Admission.

(** Two requests at a time, and a limit of one; the node dials three peers. *)
Lemma admission_bound_witness :
  exists s, rtc (astep 1) (admission_init 2) s /\ Z.of_nat (opened_by Accepted (a_conns s)) = 2 /\ Z.of_nat (size (a_conns s)) = 5.
Proof. exact (proj2 (admission_bound 1 2 ltac:(lia) ltac:(lia)) 3%nat). Defined.
