(* ===== verification/TransportProofs.v ===== *)
(** * The transport: handshake and table of connections

    What the two sides of the handshake guarantee to each other, who gets into
    the table of connections and who does not, and what closing does to it, for
    the definitions of [Transport]. *)

From S2P Require Import Prelude Crypto Float64 PeerName Peer PeerProofs PeerPersist Identity Ueps.
From S2P Require Import KeyDeriv Controller Protocol Session Duration Limits Transport.

Section Registry.
Context `{KDLib} `{JSON} {FS : Type} `{FileSystem FS}.
Implicit Types (w : World FS) (ch : Choice).

(** ** What the transport needs to know of the registry *)

(** Objects stay and keep their IDs. *)
Definition keeps_ids w w' : Prop :=
  forall l p, heap w !! l = Some p -> exists p', heap w' !! l = Some p' /\ ID p' = ID p.

Lemma keeps_ids_refl w : keeps_ids w w.
Proof. intros l p Hp. by exists p. Qed.
Lemma keeps_ids_trans w1 w2 w3 : keeps_ids w1 w2 -> keeps_ids w2 w3 -> keeps_ids w1 w3.
Proof. intros H12 H23 l p Hp. destruct (H12 l p Hp) as (p2 & Hp2 & <-). by apply H23. Qed.
Lemma keeps_ids_heap w w' : heap w' = heap w -> keeps_ids w w'.
Proof. intros He l p Hp. exists p. by rewrite He. Qed.
Lemma keeps_ids_alter f l w : (forall p, ID (f p) = ID p) -> keeps_ids w (on_heap (alter f l) w).
Proof.
  intros Hf l' p Hp. cbn [heap on_heap]. destruct (decide (l' = l)) as [->|Hne].
  - rewrite lookup_alter_eq, Hp. eexists. split; [reflexivity|apply Hf].
  - rewrite lookup_alter_ne by done. by exists p.
Qed.
Lemma keeps_ids_insert l q w : heap w !! l = None -> keeps_ids w (on_heap <[l := q]> w).
Proof.
  intros Hl l' p Hp. cbn [heap on_heap]. exists p. split; [|done].
  rewrite lookup_insert_ne; [done|]. intros ->. congruence.
Qed.

Lemma validate_cases name : validatePeerName name = Ok tt \/ exists e, validatePeerName name = Fail e.
Proof.
  unfold validatePeerName. repeat case_decide; try (by left); try (right; by eexists).
  destruct (negb _); [right; by eexists|by left].
Qed.

Lemma keyed_object l p w : keyed w -> heap w !! l = None -> keyed (on_heap <[l := p]> w).
Proof.
  intros Hk Hl id l' Hl'. cbn [heap on_heap reg] in *. rewrite lookup_insert_ne; [by apply Hk|].
  intros ->. destruct (Hk id l' Hl') as (q & Hq & _). congruence.
Qed.

(** [AddPeer] of an existing object does not panic and keeps all IDs. *)
Lemma AddPeer_keeps ch l p w :
  heap w !! l = Some p ->
  exists r w', AddPeer ch (Some l) w = (r, w') /\ (r = Ok tt \/ exists e, r = Fail e) /\
    keeps_ids w w' /\ (keyed w -> keyed w').
Proof.
  intros Hp. pose proof (keyed_op (OpAdd ch l) w) as Hk. cbn [run_op] in Hk.
  destruct (AddPeer ch (Some l) w) as [r w'] eqn:Ha. exists r, w'. split; [done|]. cbn [snd] in Hk.
  enough (Hg : (r = Ok tt \/ exists e, r = Fail e) /\ keeps_ids w w') by tauto. clear Hk.
  revert Ha. unfold AddPeer. rewrite (SR_bind_Ok _ _ w p w) by (unfold deref; by rewrite Hp).
  case_decide; [intros [= <- <-]; split; [right; by eexists|apply keeps_ids_refl]|].
  destruct (validate_cases (Name p)) as [Hv|[e Hv]]; rewrite Hv.
  2: { intros [= <- <-]. split; [right; by eexists|apply keeps_ids_refl]. }
  do 2 reg_step. case_decide; [intros [= <- <-]; split; [right; by eexists|apply keeps_ids_refl]|].
  assert (Hm : forall (b : bool) f w1, (forall p, ID (f p) = ID p) ->
    exists w2, (if b then assign l f else mret tt) w1 = (Ok tt, w2) /\ keeps_ids w1 w2).
  { intros b f w1 Hf. destruct b; [|exists w1; split; [done|apply keeps_ids_refl]].
    exists (on_heap (alter f l) w1). split; [done|by apply keeps_ids_alter]. }
  destruct (Hm (IsZero (AddedAt p)) (set_AddedAt (now ch)) w) as (w1 & Hs1 & Hk1); [done|].
  destruct (Hm (feq (Score p) (float_of_int 0)) (set_Score (float_of_int 50)) w1) as (w2 & Hs2 & Hk2); [done|].
  sr_step Hs1. sr_step Hs2. reg_step. rewrite finish_eq. intros [= <- <-].
  split; [by left|]. eapply keeps_ids_trans; [exact Hk1|]. eapply keeps_ids_trans; [exact Hk2|].
  by apply keeps_ids_heap.
Qed.

(** The client registers the peer it has shaken hands with, one way or the
    other. *)
Lemma register_peer_keeps ch l p w :
  heap w !! l = Some p ->
  exists w', best_effort (on_result (UpdatePeer ch (Some l)) (fun _ => mret tt) (fun _ => AddPeer ch (Some l))) w = (Ok tt, w') /\
    keeps_ids w w' /\ (keyed w -> keyed w').
Proof.
  intros Hp. pose proof (keyed_op (OpUpdate ch l) w) as Hk. cbn [run_op] in Hk.
  cbv [best_effort on_result]. destruct (UpdatePeer ch (Some l) w) as [r w'] eqn:Hu. cbn [snd] in Hk.
  revert Hu. unfold UpdatePeer. rewrite (SR_bind_Ok _ _ w p w) by (unfold deref; by rewrite Hp).
  reg_step. case_decide.
  - reg_step. rewrite finish_eq. intros [= <- <-]. eexists. split_and!; [reflexivity|by apply keeps_ids_heap|done].
  - intros [= <- <-]. destruct (AddPeer_keeps ch l p w Hp) as (r & w' & Ha & Hr & Hids & Hk').
    rewrite Ha. exists w'. destruct Hr as [->|[e ->]]; done.
Qed.

Lemma SetConnected_keeps ch id c w : keyed w ->
  exists w', SetConnected ch id c w = (Ok tt, w') /\ keyed w' /\ keeps_ids w w' /\
    peers (reg w') = peers (reg w) /\ (forall p, GetPeer id w' = Some p -> Connected p = c).
Proof.
  intros Hk. pose proof (keyed_op (OpConnected ch id c) w Hk) as Hk'. cbn [run_op] in Hk'.
  destruct (SetConnected ch id c w) as [r w'] eqn:Ha. cbn [snd] in Hk'. revert Ha. unfold SetConnected. reg_step.
  destruct (peers (reg w) !! id) as [l|] eqn:Hl.
  2: { intros [= <- <-]. exists w. split_and!; try done; [apply keeps_ids_refl|].
       intros p. unfold GetPeer. by rewrite Hl. }
  destruct (Hk id l Hl) as (q & Hq & Hid). reg_step. destruct c.
  - reg_step. rewrite save_eq. intros [= <- <-]. eexists. split_and!; try done.
    + eapply keeps_ids_trans; [by apply (keeps_ids_alter (set_Connected true) l)|].
      by apply (keeps_ids_alter (set_LastSeen (now ch)) l).
    + intros p. unfold GetPeer. cbn [reg on_reg on_heap heap peers set_save]. rewrite Hl. cbn [mbind option_bind].
      rewrite !lookup_alter_eq, Hq. cbn. by intros [= <-].
  - reg_step. intros [= <- <-]. eexists. split_and!; try done.
    + by apply (keeps_ids_alter (set_Connected false) l).
    + intros p. unfold GetPeer. cbn [reg on_reg on_heap heap peers]. rewrite Hl. cbn [mbind option_bind].
      rewrite lookup_alter_eq, Hq. cbn. by intros [= <-].
Qed.
End Registry.

Section Handshake.
Context {W : Type} `{WebSocket W}.
Context `{KDLib} `{JSON} {FS : Type} `{FileSystem FS} `{KeyLib} `{MsgJSON} `{AEADLib} `{HandshakeJSON}.
Context (config : TransportConfig).
Implicit Types (t : Transport (W := W) (FS := FS)) (i : Input).

Lemma fresh_heap (h : gmap positive Peer) : h !! fresh (dom h) = None.
Proof. apply not_elem_of_dom, is_fresh. Qed.
Lemma fresh_objs (h : gmap positive (PeerConnection (W := W))) : h !! fresh (dom h) = None.
Proof. apply not_elem_of_dom, is_fresh. Qed.

(** ** The server *)
Lemma peer_of_identity_spec i id t : keyed (world t) ->
  exists l w' p, peer_of_identity i id t = (Ok l, set_world w' t) /\ keyed w' /\
    keeps_ids (world t) w' /\ heap w' !! l = Some p /\ ID p = ni_ID id.
Proof.
  intros Hk. unfold peer_of_identity. set (l := fresh (dom (heap (world t)))).
  assert (Hl : heap (world t) !! l = None) by apply fresh_heap.
  destruct (GetPeer (ni_ID id) (world t)) as [p|] eqn:Hg.
  - exists l, (on_heap <[l := p]> (world t)), p. split_and!; [done|by apply keyed_object|by apply keeps_ids_insert|apply lookup_insert_eq|].
    unfold GetPeer in Hg. destruct (peers (reg (world t)) !! ni_ID id) as [l'|] eqn:Hl'; [|done].
    cbn in Hg. destruct (Hk _ _ Hl') as (q & Hq & Hid). congruence.
  - reg_step. cbv [ignoring on_world]. fold l. set (p := mkPeer _ _ _ _ _ _ _ _ _ _ _ _ _ _).
    set (w1 := on_heap <[l := p]> (world t)).
    assert (Hp : heap w1 !! l = Some p) by apply lookup_insert_eq.
    destruct (AddPeer_keeps (env i) l p w1 Hp) as (r & w2 & Ha & Hr & Hids & Hk2).
    specialize (Hk2 ltac:(by apply keyed_object)).
    destruct (Hids l p Hp) as (p' & Hp' & Hid').
    exists l, w2, p'. cbv [mbind SR_bind best_effort]. cbn [world set_world]. fold w1. rewrite Ha.
    assert (Hids' : keeps_ids (world t) w2) by (eapply keeps_ids_trans; [by apply (keeps_ids_insert l p)|exact Hids]).
    destruct Hr as [->|[e ->]]; (split_and!; [done|done|done|done|by rewrite Hid']).
Qed.

(** The socket after the acknowledgment, if it could be sent. *)
Definition ack_sent i (payload : HandshakePayload) (secret : bytes) (sock : W) t : option W :=
  match get_identity t with
  | None => None
  | Some identity =>
      match challenge_response payload secret with
      | Ok response =>
          match ack_text i identity (ni_ID (hs_Identity payload)) response with
          | Ok d => match ws_WriteMessage TextMessage d sock with (None, sock') => Some sock' | _ => None end
          | _ => None
          end
      | _ => None
      end
  end.

Lemma store_connection_spec i c t pc p :
  keyed (world t) -> objs t !! c = Some pc -> heap (world t) !! pc_Peer pc = Some p ->
  exists w', store_connection i c t = (Ok tt, set_conns (<[ID p := c]> (conns t)) (set_world w' t)) /\
    keyed w' /\ keeps_ids (world t) w' /\ forall q, GetPeer (ID p) w' = Some q -> Connected q = true.
Proof.
  intros Hk Hc Hp. unfold store_connection. cbv [mbind SR_bind get_conn on_world deref modify].
  rewrite Hc, Hp. cbn [world set_world set_conns].
  destruct (SetConnected_keeps (env i) (ID p) true (world t) Hk) as (w' & Hs & Hk' & Hids & _ & Hconn).
  rewrite Hs. exists w'. done.
Qed.

(** A new connection object [c] of a peer with the given ID, and otherwise the
    transport as it was, up to the registry's bookkeeping. *)
Definition opened t t' (c : positive) (id : string) : Prop :=
  node t' = node t /\ pendingConns t' = pendingConns t /\ dedup t' = dedup t /\ handled t' = handled t /\
  keyed (world t') /\ keeps_ids (world t) (world t') /\ objs t !! c = None /\
  (forall c', c' <> c -> objs t' !! c' = objs t !! c') /\
  exists pc p, objs t' !! c = Some pc /\ heap (world t') !! pc_Peer pc = Some p /\ ID p = id.

Lemma accept_handshake_spec i payload s sock t : keyed (world t) ->
  exists t' c, accept_handshake i payload s sock t = (Ok tt, t') /\
    opened t t' c (ni_ID (hs_Identity payload)) /\
    match ack_sent i payload s sock t with
    | None => conns t' = conns t
    | Some sock' =>
        conns t' = <[ni_ID (hs_Identity payload) := c]> (conns t) /\
        (exists pc, objs t' !! c = Some pc /\ pc_Conn pc = sock' /\ SharedSecret pc = Some s /\ closed pc = false) /\
        forall p, GetPeer (ni_ID (hs_Identity payload)) (world t') = Some p -> Connected p = true
    end.
Proof.
  intros Hk. destruct (peer_of_identity_spec i (hs_Identity payload) t Hk) as (l & w1 & p & Hpeer & Hk1 & Hi1 & Hp & Hid).
  unfold accept_handshake. sr_step Hpeer. set (c := fresh (dom (objs t))).
  assert (Hc : objs t !! c = None) by apply fresh_objs.
  set (pc := mkConn l sock (Some s) (clock i) false (NewPeerRateLimiter (clock i) 100 50)).
  set (t1 := set_objs (<[c := pc]> (objs t)) (set_world w1 t)).
  rewrite (SR_bind_Ok _ _ _ c t1) by done. reg_step.
  change (get_identity t1) with (get_identity t). unfold ack_sent.
  assert (Hopen : forall cs w' o pcx, o !! c = Some pcx -> pc_Peer pcx = l ->
    (forall c', c' <> c -> o !! c' = objs t !! c') -> keyed w' -> keeps_ids w1 w' ->
    opened t (set_conns cs (set_world w' (set_objs o t1))) c (ni_ID (hs_Identity payload))).
  { intros cs w' o pcx Ho Hpl Hoth Hk' Hids. destruct (Hids l p Hp) as (p' & Hp' & Hid'). split_and!; try done.
    - by eapply keeps_ids_trans.
    - exists pcx, p'. cbn. rewrite Hpl. by split_and!; [| |rewrite Hid']. }
  assert (Hat : forall f, alter f c (objs t1) !! c = Some (f pc)).
  { intros f. cbn. by rewrite lookup_alter_eq, lookup_insert_eq. }
  assert (Hoth : forall f c', c' <> c -> alter f c (objs t1) !! c' = objs t !! c').
  { intros f c' Hne. cbn. by rewrite lookup_alter_ne, lookup_insert_ne by done. }
  assert (Hclose : exists t' c0, close_socket c t1 = (Ok tt, t') /\
    opened t t' c0 (ni_ID (hs_Identity payload)) /\ conns t' = conns t).
  { eexists _, c. split_and!; [reflexivity| |done].
    exact (Hopen (conns t) w1 _ _ (Hat (fun pc => set_ws (shut (pc_Conn pc)) pc)) eq_refl (Hoth _) Hk1 (keeps_ids_refl _)). }
  destruct (get_identity t) as [identity|]; [|exact Hclose].
  destruct (challenge_response payload s) as [response| | |]; [|exact Hclose..].
  rewrite (SR_bind_Ok _ _ t1 p t1) by (cbv [on_world deref]; cbn [t1 world set_world set_objs]; by rewrite Hp).
  rewrite Hid. destruct (ack_text i identity (ni_ID (hs_Identity payload)) response) as [d| | |]; [|exact Hclose..].
  rewrite (SR_bind_Ok _ _ t1 pc t1).
  2: { unfold get_conn. cbn [t1 objs set_objs]. by rewrite lookup_insert_eq. }
  cbn [pc pc_Conn]. destruct (ws_WriteMessage TextMessage d sock) as [[e|] sock'] eqn:Hw; reg_step; set (t2 := set_objs _ t1).
  { eexists _, c. split_and!; [reflexivity| |done].
    apply (Hopen (conns t) w1
      (alter (fun pc => set_ws (shut (pc_Conn pc)) pc) c (alter (set_ws sock') c (objs t1)))
      (set_ws (shut sock') (set_ws sock' pc))); [by rewrite lookup_alter_eq, Hat|done| |done|apply keeps_ids_refl].
    intros c' Hne. rewrite lookup_alter_ne by done. by apply Hoth. }
  set (pc' := set_ws sock' pc).
  assert (Hpc' : objs t2 !! c = Some pc').
  { cbn [t2 t1 objs set_objs]. by rewrite lookup_alter_eq, lookup_insert_eq. }
  destruct (store_connection_spec i c t2 pc' p Hk1 Hpc' Hp) as (w' & Hs & Hk' & Hi2 & Hconn).
  rewrite Hid in *. exists (set_conns (<[ni_ID (hs_Identity payload) := c]> (conns t2)) (set_world w' t2)), c.
  split_and!; try done; [exact (Hopen _ w' _ _ (Hat (set_ws sock')) eq_refl (Hoth _) Hk' Hi2)|]. by exists pc'.
Qed.

(** C11 (safety): whatever arrives on an upgraded connection, the handler does not
    panic, gives its slot back, and changes the table only when the first message
    read from the socket is a handshake, to enter, below the connection limit, one
    new connection under the ID announced in that message, whose protocol version
    is supported, whose ID and public key the registry allows, and with the secret
    derived from the public key it announced. *)
Theorem handshake_server_gate i upgraded t :
  keyed (world t) ->
  exists t', handleWSUpgrade config i upgraded t = (Ok tt, t') /\
    pendingConns t' = pendingConns t /\ keyed (world t') /\
    (conns t' = conns t \/
     exists sock data sock' msg payload s c pc,
       upgraded = inr sock /\ ws_ReadMessage (handshake_socket config i sock) = (inr data, sock') /\
       decodeMessageJSON data = Ok msg /\ m_Type msg = MsgHandshake /\
       ParsePayload zeroHandshake unmarshalHandshake msg = Ok payload /\
       conns t' = <[ni_ID (hs_Identity payload) := c]> (conns t) /\ objs t !! c = None /\
       objs t' !! c = Some pc /\ SharedSecret pc = Some s /\
       Z.of_nat (size (conns t)) + pendingConns t < MaxConns config /\
       hs_Version payload ∈ SupportedProtocolVersions /\
       IsPeerAllowed (ni_ID (hs_Identity payload)) (ni_PublicKey (hs_Identity payload)) (world t) = true /\
       derive_secret (ni_PublicKey (hs_Identity payload)) t = Ok s).
Proof.
  intros Hk. unfold handleWSUpgrade. case_decide as Hmax; [eexists; split_and!; try done; by left|].
  set (t0 := set_pending (pendingConns t + 1) t).
  assert (Hsame : forall P, conns (set_pending (pendingConns t0 - 1) t0) = conns t \/ P) by (by left).
  assert (Hp0 : pendingConns (set_pending (pendingConns t0 - 1) t0) = pendingConns t) by (cbn; lia).
  destruct upgraded as [e|sock]; [eexists; split_and!; [reflexivity|exact Hp0|exact Hk|apply Hsame]|].
  destruct (receive_handshake config i sock t0) as [[[payload s] sock']|sock'] eqn:Hr.
  2: { eexists. split_and!; [reflexivity|exact Hp0|exact Hk|apply Hsame]. }
  destruct (accept_handshake_spec i payload s sock' t0 Hk) as (t' & c & Ha & (_ & Hpend & _ & _ & Hk' & _ & Hc & _) & Hsent).
  rewrite Ha. eexists. split_and!; [reflexivity|cbn [set_pending pendingConns]; rewrite Hpend; cbn; lia|done|].
  destruct (ack_sent i payload s sock' t0) as [sk|]; [|by left]. right.
  destruct Hsent as (Hconns & (pc & Hpc & _ & Hsec & _) & _).
  revert Hr. unfold receive_handshake. destruct (ws_ReadMessage _) as [[e|data] sk'] eqn:Hread; [done|].
  destruct (decodeMessageJSON data) as [msg| | |] eqn:Hmsg; try done. case_decide as Hty; [done|].
  destruct (ParsePayload _ _ msg) as [payload'| | |] eqn:Hpay; try done.
  destruct (IsProtocolVersionSupported (hs_Version payload')) eqn:Hv; [|done]. cbn [negb].
  destruct (derive_secret _ t0) as [s'| | |] eqn:Hs; try done.
  destruct (IsPeerAllowed _ _ _) eqn:Hal; [|done]. cbn [negb]. intros [= <- <- <-].
  unfold IsProtocolVersionSupported in Hv. apply bool_decide_eq_true in Hv.
  exists sock, data, sk', msg, payload', s', c, pc. split_and!; try done. lia.
Qed.

(** ** The client *)

(** What a handshake that succeeds has done. *)
Lemma handshake_body_ok i c t t' pc :
  objs t !! c = Some pc -> handshake_body i c t = (Ok tt, t') ->
  exists p identity challenge hello sock1 ackData sock ack s,
    heap (world t) !! pc_Peer pc = Some p /\ get_identity t = Some identity /\
    rand i ChallengeSize = inr challenge /\ hello_text i identity (ID p) challenge = Ok hello /\
    ws_WriteMessage TextMessage hello (pc_Conn pc) = (None, sock1) /\
    ws_ReadMessage sock1 = (inr ackData, sock) /\
    parse_ack ackData = Ok ack /\ verify_ack challenge ack t = Ok s /\
    exists w', t' = set_world w' (set_objs (<[c := set_secret (Some s) (set_ws sock pc)]> (objs t)) t) /\
      keeps_ids (on_heap (alter (set_peer_identity (ack_Identity ack)) (pc_Peer pc)) (world t)) w' /\
      (keyed (on_heap (alter (set_peer_identity (ack_Identity ack)) (pc_Peer pc)) (world t)) -> keyed w').
Proof.
  intros Hc. unfold handshake_body. reg_step. destruct (get_identity t) as [identity|] eqn:Hi; [|done].
  unfold GenerateChallenge. destruct (rand i ChallengeSize) as [e|challenge] eqn:Hr; [done|]. reg_step.
  rewrite (SR_bind_Ok _ _ t pc t) by (unfold get_conn; by rewrite Hc).
  destruct (heap (world t) !! pc_Peer pc) as [p|] eqn:Hp.
  2: { cbv [mbind SR_bind on_world deref]. by rewrite Hp. }
  rewrite (SR_bind_Ok _ _ t p t) by (cbv [on_world deref]; rewrite Hp; by destruct t).
  destruct (hello_text i identity (ID p) challenge) as [hello| | |] eqn:Hh; [|done..]. reg_step.
  destruct (ws_WriteMessage TextMessage hello (pc_Conn pc)) as [[e|] sock1] eqn:Hw; reg_step; [done|].
  destruct (ws_ReadMessage sock1) as [[e|ackData] sock] eqn:Hread; reg_step; [done|].
  destruct (parse_ack ackData) as [ack| | |] eqn:Hack; [|done..]. do 3 reg_step.
  set (t2 := set_world _ _). change (id t2) with t2.
  assert (Hv : verify_ack challenge ack t2 = verify_ack challenge ack t) by done. rewrite Hv.
  destruct (verify_ack challenge ack t) as [s| | |] eqn:Hver; [|done..]. do 2 reg_step.
  cbv [ignoring on_world].
  set (w1 := on_heap (alter (set_peer_identity (ack_Identity ack)) (pc_Peer pc)) (world t)).
  assert (Hp1 : heap w1 !! pc_Peer pc = Some (set_peer_identity (ack_Identity ack) p)).
  { cbn [w1 heap on_heap]. by rewrite lookup_alter_eq, Hp. }
  destruct (register_peer_keeps (env i) (pc_Peer pc) _ w1 Hp1) as (w' & Hreg & Hids & Hk).
  match goal with |- (let '(r, w) := best_effort _ ?w0 in _) = _ -> _ => change w0 with w1 end. rewrite Hreg.
  intros [= <-]. exists p, identity, challenge, hello, sock1, ackData, sock, ack, s. split_and!; try done.
  exists w'. split_and!; try done. unfold t2, set_world, set_objs. cbn. f_equal.
  apply map_eq. intros c'. destruct (decide (c' = c)) as [->|Hne].
  - rewrite !lookup_alter_eq, lookup_insert_eq, Hc. done.
  - by rewrite !lookup_alter_ne, lookup_insert_ne by done.
Qed.

(** The deadlines set before the handshake, on the socket of its connection. *)
Definition timed i pc : PeerConnection :=
  set_ws (set_deadlines (deadline_in i handshakeTimeout) (pc_Conn pc)) pc.

(** [performHandshake] is its body, on a socket with deadlines, which are reset. *)
Lemma performHandshake_body i c t pc :
  objs t !! c = Some pc ->
  exists t1, objs t1 !! c = Some (timed i pc) /\ (forall c', c' <> c -> objs t1 !! c' = objs t !! c') /\
    world t1 = world t /\ node t1 = node t /\ conns t1 = conns t /\
    performHandshake i c t = (fst (handshake_body i c t1), snd (upd_deadlines None c (snd (handshake_body i c t1)))).
Proof.
  intros Hc. exists (set_objs (alter (timed i) c (objs t)) t). split_and!; try done.
  - cbn. by rewrite lookup_alter_eq, Hc.
  - intros c' Hne. cbn. by rewrite lookup_alter_ne.
  - unfold performHandshake. reg_step. unfold deferring. by destruct (handshake_body _ _ _).
Qed.

Lemma parse_ack_ok ackData ack :
  parse_ack ackData = Ok ack ->
  exists msg, decodeMessageJSON ackData = Ok msg /\ m_Type msg = MsgHandshakeAck /\
    ParsePayload zeroAck unmarshalAck msg = Ok ack /\ ack_Accepted ack = true.
Proof.
  unfold parse_ack. destruct (decodeMessageJSON ackData) as [m| | |]; try done.
  cbn [map_fail mbind Result_bind]. case_decide as Hty; [done|].
  destruct (ParsePayload zeroAck unmarshalAck m) as [a| | |] eqn:Hp; try done.
  cbn [map_fail mbind Result_bind]. destruct (ack_Accepted a) eqn:Ha; [|done]. intros [= <-]. by exists m.
Qed.

(** C12 (safety): a client that completes the handshake has sent its fresh
    challenge and then read from the socket a message that is an accepting
    acknowledgement and carries the HMAC of that challenge under the challenge key
    of the session, whose secret is the one the client derives from the public
    key in that acknowledgement: only who can derive that secret can have
    answered.  The connection keeps that secret, under the ID acknowledged. *)
Theorem handshake_client_authenticates i c t t' pc :
  objs t !! c = Some pc -> performHandshake i c t = (Ok tt, t') ->
  exists p identity challenge hello sock1 ackData sock2 msg ack s k pc' p',
    heap (world t) !! pc_Peer pc = Some p /\ get_identity t = Some identity /\
    rand i ChallengeSize = inr challenge /\ hello_text i identity (ID p) challenge = Ok hello /\
    ws_WriteMessage TextMessage hello (pc_Conn (timed i pc)) = (None, sock1) /\
    ws_ReadMessage sock1 = (inr ackData, sock2) /\
    decodeMessageJSON ackData = Ok msg /\ m_Type msg = MsgHandshakeAck /\
    ParsePayload zeroAck unmarshalAck msg = Ok ack /\ ack_Accepted ack = true /\
    derive_secret (ni_PublicKey (ack_Identity ack)) t = Ok s /\ deriveSubKeys s = Ok k /\
    ack_ChallengeResponse ack = HMAC (chlKey k) challenge /\
    objs t' !! c = Some pc' /\ SharedSecret pc' = Some s /\
    heap (world t') !! pc_Peer pc' = Some p' /\ ID p' = ni_ID (ack_Identity ack).
Proof.
  intros Hc Hok. destruct (performHandshake_body i c t pc Hc) as (t1 & Hc1 & _ & Hw1 & Hn1 & _ & Hrun).
  rewrite Hrun in Hok. injection Hok as Hr1 <-. destruct (handshake_body i c t1) as [r t2] eqn:Hb. cbn [fst snd] in *. subst r.
  destruct (handshake_body_ok i c t1 t2 (timed i pc) Hc1 Hb)
    as (p & identity & challenge & hello & sock1 & ackData & sock & ack & s & Hp & Hi & Hr & Hh & Hwr & Hrd & Hack & Hv & w' & -> & Hids & _).
  destruct (parse_ack_ok _ _ Hack) as (msg & Hmsg & Hty & Hpay & Hacc). rewrite Hw1 in Hp. unfold get_identity in Hi. rewrite Hn1 in Hi.
  assert (Hsec : derive_secret (ni_PublicKey (ack_Identity ack)) t1 = derive_secret (ni_PublicKey (ack_Identity ack)) t)
    by (unfold derive_secret; by rewrite Hw1, Hn1).
  revert Hv. unfold verify_ack. rewrite Hsec. destruct (derive_secret (ni_PublicKey (ack_Identity ack)) t) as [s'| | |] eqn:Hs; try done.
  cbn [map_fail mbind Result_bind]. destruct (deriveSubKeys s') as [k| | |] eqn:Hk; try done.
  cbn [map_fail mbind Result_bind]. case_decide; [done|].
  destruct (VerifyChallenge challenge (ack_ChallengeResponse ack) (chlKey k)) eqn:Hver; [|done].
  cbn [negb]. intros [= <-]. unfold VerifyChallenge, hmac_Equal, SignChallenge in Hver. apply bool_decide_eq_true in Hver.
  destruct (Hids (pc_Peer pc) (set_peer_identity (ack_Identity ack) p)) as (p' & Hp' & Hid).
  { cbn [heap on_heap]. by rewrite Hw1, lookup_alter_eq, Hp. }
  set (pc1 := set_secret (Some s') (set_ws sock (timed i pc))).
  exists p, identity, challenge, hello, sock1, ackData, sock, msg, ack, s', k, (set_ws (set_deadlines None (pc_Conn pc1)) pc1), p'. split_and!; try done.
  cbn [snd upd_deadlines upd_conn modify objs set_world set_objs]. by rewrite lookup_alter_eq, lookup_insert_eq.
Qed.
End Handshake.

(** ** Both sides together *)

(** A text with the JSON value of an encoded payload is decoded to it, when the
    encoder can represent it. *)
Class HandshakeJSONLaws `{MsgJSON} `{HandshakeJSON} : Type := {
  hello_safe : HandshakePayload -> Prop;
  ack_safe : HandshakeAckPayload -> Prop;
  hello_value p d d' a :
    hello_safe p -> marshalHandshake p = inr d -> unmarshalAny (unescape d) = inr (Some a) ->
    unmarshalAny d' = inr (Some a) -> unmarshalHandshake d' = inr p;
  ack_value p d d' a :
    ack_safe p -> marshalAck p = inr d -> unmarshalAny (unescape d) = inr (Some a) ->
    unmarshalAny d' = inr (Some a) -> unmarshalAck d' = inr p
}.

Section Agreement.
Context {W : Type} `{WebSocket W}.
Context `{KDLib} `{JSON} {FS : Type} `{FileSystem FS} `{KL : KeyLaws} `{JL : MsgJSONLaws}
  `{HJ : HandshakeJSON} `{HL : !HandshakeJSONLaws}.
Context (config : TransportConfig).
Implicit Types (t : Transport (W := W) (FS := FS)) (i : Input).

Lemma hello_received i identity to ch m :
  hello_message i identity to ch = Ok m -> portable m -> hello_safe (mkHandshake identity ch ProtocolVersion) ->
  exists hello m', hello_text i identity to ch = Ok hello /\ decodeMessageJSON hello = Ok m' /\
    m_Type m' = MsgHandshake /\
    ParsePayload zeroHandshake unmarshalHandshake m' = Ok (mkHandshake identity ch ProtocolVersion).
Proof.
  intros Hm Hport Hsafe. destruct (message_json m Hport) as (hello & m' & Hmar & _ & Hdec & Hsame).
  exists hello, m'. unfold hello_text. rewrite Hm. cbn [map_fail mbind Result_bind]. rewrite Hmar.
  revert Hm. unfold hello_message, NewMessage, payload_json.
  destruct (marshalHandshake _) as [e|d] eqn:Hd; [done|]. intros [= <-].
  destruct Hsame as (_ & Hty & _ & _ & _ & _ & Hpay). cbn [m_Type m_Payload] in *.
  split_and!; try done. unfold ParsePayload. destruct (m_Payload m') as [d'|]; [|done].
  destruct Hpay as (a & Ha & Ha'). by rewrite (hello_value _ d d' a Hsafe Hd Ha Ha').
Qed.

Lemma ack_received i identity to resp m :
  ack_message i identity to resp = Ok m -> portable m -> ack_safe (mkAck identity resp true "") ->
  exists ack, ack_text i identity to resp = Ok ack /\ parse_ack ack = Ok (mkAck identity resp true "").
Proof.
  intros Hm Hport Hsafe. destruct (message_json m Hport) as (ack & m' & Hmar & _ & Hdec & Hsame).
  exists ack. unfold ack_text. rewrite Hm. cbn [mbind Result_bind]. split; [done|].
  revert Hm. unfold ack_message, NewMessage, payload_json.
  destruct (marshalAck _) as [e|d] eqn:Hd; [done|]. intros [= <-].
  destruct Hsame as (_ & Hty & _ & _ & _ & _ & Hpay). cbn [m_Type m_Payload] in *.
  unfold parse_ack. rewrite Hdec. cbn [map_fail mbind Result_bind]. rewrite decide_False by tauto.
  unfold ParsePayload. destruct (m_Payload m') as [d'|]; [|done].
  destruct Hpay as (a & Ha & Ha'). by rewrite (ack_value _ d d' a Hsafe Hd Ha Ha').
Qed.

(** A node with an identity and the key pair it announces. *)
Definition node_of t (identity : NodeIdentity) (kp : KeyPair) : Prop :=
  Identity.identity (node t) = Some identity /\ privateKey (node t) = Some (kp_PrivateKey kp) /\
  ni_PublicKey identity = kp_PublicKeyBase64 kp.

(** The server accepts a hello it admits, and answers its challenge. *)
Lemma server_accepts i t identity kp sock hello sock1 m payload s :
  node_of t identity kp -> keyed (world t) ->
  Z.of_nat (size (conns t)) + pendingConns t < MaxConns config ->
  ws_ReadMessage (handshake_socket config i sock) = (inr hello, sock1) ->
  decodeMessageJSON hello = Ok m -> m_Type m = MsgHandshake ->
  ParsePayload zeroHandshake unmarshalHandshake m = Ok payload -> hs_Version payload = ProtocolVersion ->
  derive_secret (ni_PublicKey (hs_Identity payload)) t = Ok s ->
  IsPeerAllowed (ni_ID (hs_Identity payload)) (ni_PublicKey (hs_Identity payload)) (world t) = true ->
  forall resp ack sock2, challenge_response payload s = Ok resp ->
  ack_text i identity (ni_ID (hs_Identity payload)) resp = Ok ack ->
  ws_WriteMessage TextMessage ack sock1 = (None, sock2) ->
  exists t' c pc, handleWSUpgrade config i (inr sock) t = (Ok tt, t') /\
    conns t' = <[ni_ID (hs_Identity payload) := c]> (conns t) /\ objs t !! c = None /\
    objs t' !! c = Some pc /\ pc_Conn pc = sock2 /\ SharedSecret pc = Some s /\
    forall p, GetPeer (ni_ID (hs_Identity payload)) (world t') = Some p -> Connected p = true.
Proof.
  intros (Hid & _) Hk Hmax Hread Hdec Hty Hpay Hver Hs Hal resp ack sock2 Hresp Hack Hwrite.
  unfold handleWSUpgrade. rewrite decide_False by lia. set (t0 := set_pending (pendingConns t + 1) t).
  assert (Hrecv : receive_handshake config i sock t0 = inl (payload, s, sock1)).
  { unfold receive_handshake. rewrite Hread, Hdec, decide_False by tauto. rewrite Hpay.
    unfold IsProtocolVersionSupported. rewrite Hver, bool_decide_true by (by left). cbn [negb].
    change (derive_secret ?a t0) with (derive_secret a t). rewrite Hs.
    change (world t0) with (world t). rewrite Hal. done. }
  rewrite Hrecv. destruct (accept_handshake_spec i payload s sock1 t0 Hk) as (t' & c & Ha & (_ & _ & _ & _ & _ & _ & Hnew & _) & Hsent).
  assert (Has : ack_sent i payload s sock1 t0 = Some sock2).
  { unfold ack_sent. change (get_identity t0) with (Identity.identity (node t)). by rewrite Hid, Hresp, Hack, Hwrite. }
  rewrite Has in Hsent. destruct Hsent as (Hconns & (pc & Hpc & Hsock & Hsec & _) & Hconn).
  rewrite Ha. eexists _, c, pc. split_and!; [reflexivity|exact Hconns|exact Hnew|exact Hpc|exact Hsock|exact Hsec|exact Hconn].
Qed.

(** The handshake of the client, when every step goes well. *)
Lemma handshake_body_runs i c t pc p identity ch hello sock1 ackData sock2 ack s :
  objs t !! c = Some pc -> heap (world t) !! pc_Peer pc = Some p -> get_identity t = Some identity ->
  rand i ChallengeSize = inr ch -> hello_text i identity (ID p) ch = Ok hello ->
  ws_WriteMessage TextMessage hello (pc_Conn pc) = (None, sock1) -> ws_ReadMessage sock1 = (inr ackData, sock2) ->
  parse_ack ackData = Ok ack -> verify_ack ch ack t = Ok s ->
  exists t' w', handshake_body i c t = (Ok tt, t') /\ conns t' = conns t /\ world t' = w' /\
    objs t' !! c = Some (set_secret (Some s) (set_ws sock2 pc)) /\
    keeps_ids (on_heap (alter (set_peer_identity (ack_Identity ack)) (pc_Peer pc)) (world t)) w' /\
    (keyed (on_heap (alter (set_peer_identity (ack_Identity ack)) (pc_Peer pc)) (world t)) -> keyed w').
Proof.
  intros Hc Hp Hi Hr Hh Hwrite Hread Hack Hver.
  unfold handshake_body. reg_step. rewrite Hi. unfold GenerateChallenge. rewrite Hr. reg_step.
  rewrite (SR_bind_Ok _ _ t pc t) by (unfold get_conn; by rewrite Hc).
  rewrite (SR_bind_Ok _ _ t p t) by (cbv [on_world deref]; rewrite Hp; by destruct t).
  rewrite Hh. reg_step. rewrite Hwrite. reg_step. rewrite Hread. reg_step.
  rewrite Hack. do 3 reg_step. set (t2 := set_world _ _). change (id t2) with t2.
  change (verify_ack ch ack t2) with (verify_ack ch ack t). rewrite Hver. do 2 reg_step. cbv [ignoring on_world].
  set (w1 := on_heap (alter (set_peer_identity (ack_Identity ack)) (pc_Peer pc)) (world t)).
  assert (Hp1 : heap w1 !! pc_Peer pc = Some (set_peer_identity (ack_Identity ack) p)).
  { cbn [w1 heap on_heap]. by rewrite lookup_alter_eq, Hp. }
  destruct (register_peer_keeps (env i) (pc_Peer pc) _ w1 Hp1) as (w' & Hreg & Hids & Hk).
  match goal with |- exists t' w'', (let '(r, w) := best_effort _ ?w0 in _) = _ /\ _ => change w0 with w1 end.
  rewrite Hreg. eexists _, w'. split_and!; [reflexivity|done|done| |done|done].
  cbn. by rewrite !lookup_alter_eq, Hc.
Qed.

(** A socket that takes the client's hello and then returns the answer, with the
    deadlines of the handshake. *)
Definition converses i (sock : W) (hello answer : bytes) (sock2 : W) : Prop :=
  exists sock1, ws_WriteMessage TextMessage hello (set_deadlines (deadline_in i handshakeTimeout) sock) = (None, sock1) /\
    ws_ReadMessage sock1 = (inr answer, sock2).

Lemma client_connects i t identity l p ch sock hello ackData sock2 ack s :
  get_identity t = Some identity -> heap (world t) !! l = Some p -> keyed (world t) ->
  (forall id, peers (reg (world t)) !! id <> Some l) ->
  rand i ChallengeSize = inr ch -> hello_text i identity (ID p) ch = Ok hello ->
  converses i sock hello ackData sock2 ->
  parse_ack ackData = Ok ack -> verify_ack ch ack t = Ok s ->
  exists t' c pc, Connect i l (inr sock) t = (Ok c, t') /\
    conns t' = <[ni_ID (ack_Identity ack) := c]> (conns t) /\ objs t' !! c = Some pc /\
    pc_Conn pc = set_deadlines None sock2 /\ SharedSecret pc = Some s /\
    forall q, GetPeer (ni_ID (ack_Identity ack)) (world t') = Some q -> Connected q = true.
Proof.
  intros Hi Hp Hk Hl Hr Hh (sock1 & Hwrite & Hread) Hack Hver. unfold Connect. set (c := fresh (dom (objs t))).
  set (pc := mkConn l sock None (clock i) false (NewPeerRateLimiter (clock i) 100 50)).
  set (t0 := set_objs (<[c := pc]> (objs t)) t). rewrite (SR_bind_Ok _ _ t c t0) by done.
  assert (Hc0 : objs t0 !! c = Some pc) by apply lookup_insert_eq.
  destruct (performHandshake_body i c t0 pc Hc0) as (t1 & Hc1 & _ & Hw1 & Hn1 & Hcs1 & Hbody).
  assert (Hi1 : get_identity t1 = Some identity) by (unfold get_identity; by rewrite Hw1, Hn1).
  assert (Hv1 : verify_ack ch ack t1 = Ok s) by (revert Hver; unfold verify_ack, derive_secret; by rewrite Hw1, Hn1).
  assert (Hp1 : heap (world t1) !! pc_Peer (timed i pc) = Some p) by (by rewrite Hw1).
  destruct (handshake_body_runs i c t1 _ p identity ch hello sock1 ackData sock2 ack s Hc1 Hp1 Hi1 Hr Hh Hwrite Hread Hack Hv1)
    as (t2 & w2 & Hrun & Hconns & Hw2 & Hc2 & Hids & Hk2).
  rewrite Hw1 in Hids, Hk2. change (pc_Peer (timed i pc)) with l in *. change (world t0) with (world t) in *.
  assert (Hkw : keyed w2).
  { apply Hk2. intros id l' Hl'. cbn [heap on_heap reg] in *. rewrite lookup_alter_ne; [by apply Hk|].
    intros <-. by apply (Hl id). }
  destruct (Hids l (set_peer_identity (ack_Identity ack) p)) as (p2 & Hp2 & Hid2).
  { cbn [heap on_heap]. by rewrite lookup_alter_eq, Hp. }
  set (pc2 := set_secret (Some s) (set_ws sock2 (timed i pc))) in *.
  set (t3 := snd (upd_deadlines None c t2)). set (pc3 := set_ws (set_deadlines None (pc_Conn pc2)) pc2).
  assert (Hc3 : objs t3 !! c = Some pc3) by (cbn; by rewrite lookup_alter_eq, Hc2).
  rewrite <- Hw2 in Hkw, Hp2.
  destruct (store_connection_spec i c t3 pc3 p2 Hkw Hc3 Hp2) as (w3 & Hst & _ & _ & Hconn).
  cbv [on_result]. rewrite Hbody, Hrun. fold t3. cbn [fst snd]. sr_step Hst. rewrite Hid2 in *. cbn [ID set_peer_identity] in *.
  eexists _, c, pc3. split_and!; [reflexivity| |exact Hc3|done|done|exact Hconn].
  cbn [conns set_conns set_world]. change (conns t3) with (conns t2). by rewrite Hconns, Hcs1.
Qed.

(** The two ends of a handshake: the server answers the hello of a client it
    admits, and the client accepts the answer. *)
Lemma honest_handshake iS iC tS tC idS idC kS kC to ch hello sock sock1 :
  node_of tS idS kS -> node_of tC idC kC -> keyed (world tS) ->
  Z.of_nat (size (conns tS)) + pendingConns tS < MaxConns config ->
  IsPeerAllowed (ni_ID idC) (ni_PublicKey idC) (world tS) = true -> ch <> [] ->
  (exists m, hello_message iC idC to ch = Ok m /\ portable m) -> hello_safe (mkHandshake idC ch ProtocolVersion) ->
  (forall resp, (exists m, ack_message iS idS (ni_ID idC) resp = Ok m /\ portable m) /\ ack_safe (mkAck idS resp true "")) ->
  hello_text iC idC to ch = Ok hello ->
  ws_ReadMessage (handshake_socket config iS sock) = (inr hello, sock1) ->
  (forall d, fst (ws_WriteMessage TextMessage d sock1) = None) ->
  exists ack s resp tS' cS pcS,
    handleWSUpgrade config iS (inr sock) tS = (Ok tt, tS') /\
    conns tS' !! ni_ID idC = Some cS /\ objs tS' !! cS = Some pcS /\ SharedSecret pcS = Some s /\ len s = 32 /\
    ws_WriteMessage TextMessage ack sock1 = (None, pc_Conn pcS) /\
    parse_ack ack = Ok (mkAck idS resp true "") /\ verify_ack ch (mkAck idS resp true "") tC = Ok s.
Proof.
  intros HS HC HkS Hmax Hal Hch (m & Hm & Hport) Hsafe Hacks Hhello Hread Hwrites.
  pose proof HS as (HidS & HprivS & HpubS). pose proof HC as (HidC & HprivC & HpubC).
  destruct (hello_received iC idC to ch m Hm Hport Hsafe) as (hello' & m' & Hh & Hdec & Hty & Hpay).
  rewrite Hhello in Hh. injection Hh as <-.
  destruct (shared_secret_agree kC kS (mkNode (node tC) (fs (world tC))) (mkNode (node tS) (fs (world tS))))
    as (s & HsC & HsS & Hs32); [done|done|].
  rewrite <- HpubC in HsS. rewrite <- HpubS in HsC.
  assert (Hk : exists k, deriveSubKeys s = Ok k).
  { unfold deriveSubKeys, sharedSecretSize. rewrite decide_False by lia. rewrite !deriveSubKey_Ok. by eexists. }
  destruct Hk as [k Hk]. set (resp := SignChallenge ch (chlKey k)).
  destruct (Hacks resp) as [(am & Ham & Haport) Hasafe].
  destruct (ack_received iS idS (ni_ID idC) resp am Ham Haport Hasafe) as (ack & Hack & Hparse).
  assert (Hresp : challenge_response (mkHandshake idC ch ProtocolVersion) s = Ok resp).
  { unfold challenge_response. cbn [hs_Challenge]. rewrite decide_True; [by rewrite Hk|].
    destruct ch as [|b ch]; [done|]. rewrite len_cons. pose proof (len_nonneg ch). lia. }
  specialize (Hwrites ack). destruct (ws_WriteMessage TextMessage ack sock1) as [err sock2] eqn:Hwrite. cbn in Hwrites. subst err.
  destruct (server_accepts iS tS idS kS sock hello sock1 m' (mkHandshake idC ch ProtocolVersion) s HS HkS Hmax Hread Hdec Hty Hpay
    eq_refl HsS Hal resp ack sock2 Hresp Hack Hwrite) as (tS' & cS & pcS & HrunS & HconnsS & _ & HobjS & HoutS & HsecS & _).
  exists ack, s, resp, tS', cS, pcS. split_and!; try done; [rewrite HconnsS; apply lookup_insert_eq|by rewrite HoutS|].
  unfold verify_ack. cbn [ack_Identity ack_ChallengeResponse]. unfold derive_secret. rewrite HsC.
  cbn [map_fail mbind Result_bind]. rewrite Hk. cbn [map_fail mbind Result_bind].
  rewrite decide_False by (unfold resp, SignChallenge; rewrite len_HMAC; lia).
  unfold VerifyChallenge, hmac_Equal. fold resp. by rewrite bool_decide_true.
Qed.

(** C8 (functional): two honest nodes that can talk to each other, the client
    dialling with a peer object of its own, complete the handshake: the server
    reads the client's hello and writes one answer; a client that reads this
    answer enters the server's ID in its table as the server entered the
    client's, and both have the same 32-byte secret. *)
Theorem handshake_agreement iS iC tS tC idS idC kS kC l p ch hello sock sock1 :
  node_of tS idS kS -> node_of tC idC kC -> keyed (world tS) -> keyed (world tC) ->
  heap (world tC) !! l = Some p -> (forall id, peers (reg (world tC)) !! id <> Some l) ->
  Z.of_nat (size (conns tS)) + pendingConns tS < MaxConns config ->
  IsPeerAllowed (ni_ID idC) (ni_PublicKey idC) (world tS) = true ->
  rand iC ChallengeSize = inr ch -> ch <> [] ->
  (exists m, hello_message iC idC (ID p) ch = Ok m /\ portable m) -> hello_safe (mkHandshake idC ch ProtocolVersion) ->
  (forall resp, (exists m, ack_message iS idS (ni_ID idC) resp = Ok m /\ portable m) /\ ack_safe (mkAck idS resp true "")) ->
  hello_text iC idC (ID p) ch = Ok hello ->
  ws_ReadMessage (handshake_socket config iS sock) = (inr hello, sock1) ->
  (forall d, fst (ws_WriteMessage TextMessage d sock1) = None) ->
  exists ack s tS' cS pcS,
    handleWSUpgrade config iS (inr sock) tS = (Ok tt, tS') /\
    conns tS' !! ni_ID idC = Some cS /\ objs tS' !! cS = Some pcS /\ SharedSecret pcS = Some s /\ len s = 32 /\
    ws_WriteMessage TextMessage ack sock1 = (None, pc_Conn pcS) /\
    forall sockC sockC', converses iC sockC hello ack sockC' ->
      exists tC' cC pcC, Connect iC l (inr sockC) tC = (Ok cC, tC') /\
        conns tC' !! ni_ID idS = Some cC /\ objs tC' !! cC = Some pcC /\ SharedSecret pcC = Some s.
Proof.
  intros HS HC HkS HkC Hp Hl Hmax Hal Hr Hch Hm Hsafe Hacks Hhello Hread Hwrites.
  destruct (honest_handshake iS iC tS tC idS idC kS kC (ID p) ch hello sock sock1)
    as (ack & s & resp & tS' & cS & pcS & HrunS & HconnS & HobjS & HsecS & Hs32 & Hwrite & Hparse & Hver); try done.
  exists ack, s, tS', cS, pcS. split_and!; try done. intros sockC sockC' Hconv.
  destruct (client_connects iC tC idC l p ch sockC hello ack sockC' (mkAck idS resp true "") s (proj1 HC) Hp HkC Hl Hr Hhello Hconv Hparse Hver)
    as (tC' & cC & pcC & HrunC & HconnsC & HobjC & _ & HsecC & _).
  exists tC', cC, pcC. split_and!; try done. rewrite HconnsC. apply lookup_insert_eq.
Qed.

(** The server does not check that the announced ID belongs to the
    announced key, nor that the client has the private key: in allowlist mode,
    anyone who announces the ID of a registered peer with a key pair of his own
    is let in under that ID, and the peer's own connection leaves the table. *)
Theorem handshake_allowlist_bypass i t identity kp attacker victim sock hello sock1 m payload :
  node_of t identity kp -> keyed (world t) -> authMode (reg (world t)) = PeerAuthAllowlist ->
  is_Some (GetPeer victim (world t)) ->
  Z.of_nat (size (conns t)) + pendingConns t < MaxConns config ->
  ws_ReadMessage (handshake_socket config i sock) = (inr hello, sock1) ->
  decodeMessageJSON hello = Ok m -> m_Type m = MsgHandshake ->
  ParsePayload zeroHandshake unmarshalHandshake m = Ok payload -> hs_Version payload = ProtocolVersion ->
  ni_ID (hs_Identity payload) = victim -> ni_PublicKey (hs_Identity payload) = kp_PublicKeyBase64 attacker ->
  (forall resp, exists ack, ack_text i identity victim resp = Ok ack) ->
  (forall d, fst (ws_WriteMessage TextMessage d sock1) = None) ->
  exists t' c pc s, handleWSUpgrade config i (inr sock) t = (Ok tt, t') /\
    conns t' !! victim = Some c /\ objs t !! c = None /\ objs t' !! c = Some pc /\ SharedSecret pc = Some s /\
    forall tA : Node FS, privateKey (nm tA) = Some (kp_PrivateKey attacker) ->
      DeriveSharedSecret (kp_PublicKeyBase64 kp) tA = Ok s.
Proof.
  intros Ht Hk Hmode [q Hq] Hmax Hread Hdec Hty Hpay Hver Hvic Hpub Hacks Hwrites. pose proof Ht as (Hid & Hpriv & _).
  destruct (shared_secret_agree attacker kp
    (mkNode (mkManager None (Some (kp_PrivateKey attacker)) None "" "") (fs (world t))) (mkNode (node t) (fs (world t))))
    as (s & HsA & Hs & Hs32); [done|done|].
  assert (Hal : IsPeerAllowed victim (kp_PublicKeyBase64 attacker) (world t) = true).
  { unfold IsPeerAllowed. rewrite Hmode, decide_False by done. rewrite decide_True; [done|].
    unfold GetPeer in Hq. destruct (peers (reg (world t)) !! victim); [by eexists|done]. }
  assert (Hresp : exists resp, challenge_response payload s = Ok resp).
  { unfold challenge_response. case_decide; [|by eexists]. unfold deriveSubKeys, sharedSecretSize.
    rewrite decide_False by lia. rewrite !deriveSubKey_Ok. by eexists. }
  destruct Hresp as [resp Hresp]. destruct (Hacks resp) as [ack Hack].
  specialize (Hwrites ack). destruct (ws_WriteMessage TextMessage ack sock1) as [err sock2] eqn:Hwrite. cbn in Hwrites. subst err.
  rewrite <- Hvic in Hal, Hack. rewrite <- Hpub in Hal, Hs.
  destruct (server_accepts i t identity kp sock hello sock1 m payload s Ht Hk Hmax Hread Hdec Hty Hpay Hver Hs Hal resp ack sock2
    Hresp Hack Hwrite)
    as (t' & c & pc & Hrun & Hconns & Hnew & Hobj & _ & Hsec & _).
  rewrite Hvic in *. exists t', c, pc, s. split_and!; try done.
  - rewrite Hconns. apply lookup_insert_eq.
  - intros tA HA. revert HsA. unfold DeriveSharedSecret. by rewrite HA.
Qed.
End Agreement.
