(* ===== verification/ConnTable.v ===== *)
(** * The table of connections (src/go/node/transport.go)

    The life of connections under any sequence of upgrades, dials, sends, reads,
    closes and registry operations: what the table holds, what the read loop
    delivers, and how the table and the registry can disagree. *)

From S2P Require Import Prelude Crypto Float64 PeerName Peer PeerProofs PeerPersist Identity Ueps.
From S2P Require Import KeyDeriv Controller Protocol Session Duration Limits Transport TransportProofs.

Section Table.
Context {W : Type} `{WebSocket W}.
Context `{KDLib} `{JSON} {FS : Type} `{FileSystem FS} `{KeyLib} `{MsgJSON} `{AEADLib} `{HandshakeJSON}.
Context (ed25519_verify : bytes -> bytes -> bytes -> bool) (config : TransportConfig).
Implicit Types (t : Transport (W := W) (FS := FS)) (i : Input) (w : World FS).

Lemma keeps_ids_then f l w w' :
  keeps_ids w w' -> (forall p, ID (f p) = ID p) -> keeps_ids w (on_heap (alter f l) w').
Proof. intros Hw Hf. eapply keeps_ids_trans; [exact Hw|]. by apply keeps_ids_alter. Qed.

(** Every operation of the registry leaves the objects and their IDs. *)
Lemma op_keeps_ids op w : keeps_ids w (snd (run_op op w)).
Proof.
  destruct op; cbn [run_op].
  1: { destruct (heap w !! l) as [p|] eqn:Hp.
       - destruct (AddPeer_keeps ch l p w Hp) as (r & w' & -> & _ & Hids & _). exact Hids.
       - unfold AddPeer. cbv [mbind SR_bind deref]. rewrite Hp. apply keeps_ids_refl. }
  1: { unfold UpdatePeer. cbv [mbind SR_bind deref]. destruct (heap w !! l) as [p|]; [|apply keeps_ids_refl].
       cbv [gets]. case_decide; [|apply keeps_ids_refl]. cbv [modify]. rewrite rebuild_eq. by apply keeps_ids_heap. }
  1: { unfold RemovePeer. reg_step. case_decide; [|apply keeps_ids_refl]. reg_step. rewrite finish_eq. by apply keeps_ids_heap. }
  all: unfold UpdateMetrics, UpdateScore, SetConnected, MarkSeen, RecordSuccess, RecordFailure, RecordTimeout;
    try (reg_step; destruct (peers (reg w) !! id) as [l|]; [|apply keeps_ids_refl]).
  all: try (repeat reg_step; rewrite finish_eq; repeat (apply keeps_ids_then; [|done]); by apply keeps_ids_refl).
  - destruct c; do 2 reg_step; [rewrite save_eq|]; repeat (apply keeps_ids_then; [|done]); apply keeps_ids_refl.
  - reg_step. rewrite save_eq. apply keeps_ids_then; [|done]. apply keeps_ids_refl.
  - by apply keeps_ids_heap.
  - unfold AllowPublicKey. cbn [snd]. match goal with |- context [saveAllowedPublicKeys _ ?w1] =>
      destruct (saveKeys_only ch w1) as [Hh _] end. by apply keeps_ids_heap.
  - unfold RevokePublicKey. cbn [snd]. match goal with |- context [saveAllowedPublicKeys _ ?w1] =>
      destruct (saveKeys_only ch w1) as [Hh _] end. by apply keeps_ids_heap.
  - unfold timerFire. reg_step. unfold timerSave. destruct (dirty (reg w)); [|by apply keeps_ids_heap].
    destruct (saveNow_only ch (on_reg (set_save false false) w)) as [[Hh _] _]. by apply keeps_ids_heap.
  - unfold Close. do 2 reg_step. cbn [reg on_reg dirty set_stopped]. destruct (dirty (reg w)); [|by apply keeps_ids_heap].
    match goal with |- keeps_ids _ (snd (saveNow _ ?w1)) => destruct (saveNow_only ch w1) as [[Hh _] _] end.
    by apply keeps_ids_heap.
Qed.

(** ** Computations that leave the table and the registry alone *)

Definition same_conn (o o' : option (PeerConnection (W := W))) : Prop :=
  match o, o' with
  | Some pc, Some pc' => pc_Peer pc' = pc_Peer pc /\ closed pc' = closed pc
  | None, None => True
  | _, _ => False
  end.

Definition silent t t' : Prop :=
  conns t' = conns t /\ world t' = world t /\ node t' = node t /\ forall c, same_conn (objs t !! c) (objs t' !! c).

Definition silently {A} (m : SR (Transport (W := W) (FS := FS)) A) : Prop := forall t, silent t (snd (m t)).

Lemma silent_refl t : silent t t.
Proof. split_and!; try done. intros c. by destruct (objs t !! c). Qed.
Lemma silent_trans t1 t2 t3 : silent t1 t2 -> silent t2 t3 -> silent t1 t3.
Proof.
  intros (Hc1 & Hw1 & Hn1 & Ho1) (Hc2 & Hw2 & Hn2 & Ho2). split_and!; try congruence.
  intros c. specialize (Ho1 c). specialize (Ho2 c).
  destruct (objs t1 !! c), (objs t2 !! c), (objs t3 !! c); cbn in *; try done. intuition congruence.
Qed.

Lemma silently_bind {A B} (m : SR Transport A) (f : A -> SR Transport B) :
  silently m -> (forall a, silently (f a)) -> silently (m ≫= f).
Proof.
  intros Hm Hf t. specialize (Hm t). cbv [mbind SR_bind].
  destruct (m t) as [[a|e|p|] t1]; cbn [snd] in *; try done. eapply silent_trans; [exact Hm|apply Hf].
Qed.
Lemma silently_result {A B} (m : SR Transport A) (ok : A -> SR Transport B) ko :
  silently m -> (forall a, silently (ok a)) -> (forall e, silently (ko e)) -> silently (on_result m ok ko).
Proof.
  intros Hm Hok Hko t. specialize (Hm t). unfold on_result.
  destruct (m t) as [[a|e|p|] t1]; cbn [snd] in *; try done; (eapply silent_trans; [exact Hm|]); [apply Hok|apply Hko].
Qed.
Lemma silently_lift {A} (r : Result A) : silently (lift r).
Proof. intros t. apply silent_refl. Qed.
Lemma silently_ret {A} (a : A) : silently (mret a).
Proof. intros t. apply silent_refl. Qed.
Lemma silently_get c : silently (get_conn c).
Proof. intros t. unfold get_conn. destruct (objs t !! c); apply silent_refl. Qed.
Lemma silently_deref l : silently (on_world (deref l)).
Proof.
  intros t. unfold on_world, deref. destruct l as [l|]; [destruct (heap (world t) !! l)|]; split_and!; try done;
    intros c; cbn; by destruct (objs t !! c).
Qed.
Lemma silently_upd c f :
  (forall pc, pc_Peer (f pc) = pc_Peer pc /\ closed (f pc) = closed pc) -> silently (upd_conn c f).
Proof.
  intros Hf t. unfold upd_conn, modify. split_and!; try done. intros c'. cbn. destruct (decide (c' = c)) as [->|Hne].
  - rewrite lookup_alter_eq. destruct (objs t !! c); cbn; [apply Hf|done].
  - rewrite lookup_alter_ne by done. by destruct (objs t !! c').
Qed.
Lemma silently_modify f : (forall t, silent t (f t)) -> silently (modify f).
Proof. intros Hf t. apply Hf. Qed.
Lemma silently_dedup {A} (m : SR MessageDeduplicator A) : silently (on_dedup m).
Proof.
  intros t. unfold on_dedup. destruct (m (dedup t)). split_and!; try done. intros c. cbn. by destruct (objs t !! c).
Qed.

Create HintDb silent.
#[local] Hint Resolve @silently_lift @silently_ret @silently_get @silently_deref @silently_dedup : silent.
Ltac silent_step :=
  first [ solve [eauto with silent]
        | apply silently_bind; [|intros]
        | apply silently_result; [|intros|intros]
        | apply silently_upd; done
        | apply silently_lift ].

Lemma SendOn_silent i c m : silently (SendOn i c m).
Proof.
  unfold SendOn. repeat silent_step. destruct (ws_SetWriteDeadline _ _) as [[e|] s]; repeat silent_step.
  destruct (ws_WriteMessage _ _ _) as [[e|] s']; repeat silent_step.
Qed.

Lemma close_socket_silent c : silently (close_socket c).
Proof. unfold close_socket. repeat silent_step. Qed.

Lemma Broadcast_silent i m : silently (Broadcast i m).
Proof.
  intros t. unfold Broadcast. generalize (Connections i t) (@None error). intros cs. revert t.
  induction cs as [|c cs IH]; intros t le.
  { destruct le; apply silent_refl. }
  enough (Hs : silently (broadcast_loop i m (c :: cs) le)) by apply Hs.
  cbn [broadcast_loop]. apply silently_bind; [apply silently_get|]. intros pc.
  apply silently_bind; [apply silently_deref|]. intros p. case_decide; [intros t'; apply IH|].
  apply silently_result; [apply SendOn_silent|intros _ t'; apply IH|intros e t'; apply IH].
Qed.

Lemma close_result_silent c : silently (close_result c).
Proof. unfold close_result. repeat silent_step. destruct (ws_Close _) as [[e|] s]; repeat silent_step. Qed.

Lemma receive_data_silent u2 u3 u4 c data : silently (receive_data ed25519_verify u2 u3 u4 c data).
Proof.
  unfold receive_data. apply silently_bind; [apply silently_get|]. intros pc. destruct (Allow u2 (rateLimiter pc)) as [al lim].
  apply silently_bind; [by apply silently_upd|]. intros _. apply silently_bind; [apply silently_lift|]. intros ok.
  destruct (negb ok); [apply silently_ret|]. destruct (decryptMessage _ _ _) as [msg| | |]; try (apply silently_lift || apply silently_ret).
  apply silently_bind; [apply silently_dedup|]. intros new. destruct new; [|apply silently_ret].
  apply silently_modify. intros t. destruct (handler t); [|apply silent_refl]. split_and!; try done.
  intros c'. cbn. by destruct (objs t !! c').
Qed.

Lemma readStep_silent u0 u1 u2 u3 u4 c : silently (readStep ed25519_verify config u0 u1 u2 u3 u4 c).
Proof.
  unfold readStep. apply silently_bind; [intros t; apply silent_refl|]. intros stop. destruct stop; [apply silently_ret|].
  apply silently_bind; [apply silently_get|]. intros pc. destruct (ws_SetReadDeadline _ _) as [err s].
  apply silently_bind; [by apply silently_upd|]. intros _. destruct err; [apply silently_ret|].
  destruct (ws_ReadMessage s) as [[e|data] s']; apply silently_bind; try (by apply silently_upd); intros _; [apply silently_ret|].
  apply silently_bind; [by apply silently_upd|]. intros _. apply silently_bind; [apply receive_data_silent|].
  intros _. apply silently_ret.
Qed.

Lemma read_iterations_silent fuel k clk c : silently (read_iterations ed25519_verify config fuel k clk c).
Proof.
  revert k. induction fuel as [|fuel IH]; intros k; cbn [read_iterations]; [apply silently_lift|].
  apply silently_bind; [apply readStep_silent|]. intros more. destruct more; [apply IH|apply silently_ret].
Qed.

(** ** The invariant *)

(** Every entry of the table is an open connection whose peer has the entry's
    ID; [but] exempts one connection that is being closed. *)
Definition table_but (but : option positive) t : Prop :=
  keyed (world t) /\
  (forall c pc, objs t !! c = Some pc -> is_Some (heap (world t) !! pc_Peer pc)) /\
  forall id c, conns t !! id = Some c -> exists pc p, objs t !! c = Some pc /\
    (Some c <> but -> closed pc = false) /\ heap (world t) !! pc_Peer pc = Some p /\ ID p = id.
Definition table_ok t : Prop := table_but None t.

(** The registry does its part and the objects stay. *)
Lemma table_world but t w' :
  keeps_ids (world t) w' -> keyed w' -> table_but but t -> table_but but (set_world w' t).
Proof.
  intros Hids Hk (_ & Ho & Hc). split_and!; [done| |].
  - intros c pc Hpc. destruct (Ho c pc Hpc) as [p Hp]. destruct (Hids _ _ Hp) as (p' & Hp' & _). by eexists.
  - intros id c Hid. destruct (Hc id c Hid) as (pc & p & Hpc & Hcl & Hp & <-).
    destruct (Hids _ _ Hp) as (p' & Hp' & Hid'). by exists pc, p'.
Qed.

Lemma table_silent but t t' : silent t t' -> table_but but t -> table_but but t'.
Proof.
  intros (Hcs & Hw & _ & Hs) (Hk & Ho & Hc). unfold table_but. rewrite Hcs, Hw. split_and!; [done| |].
  - intros c pc Hpc. specialize (Hs c). rewrite Hpc in Hs. destruct (objs t !! c) as [pc0|] eqn:Hpc0; [|done].
    destruct Hs as [-> _]. by apply (Ho c).
  - intros id c Hid. destruct (Hc id c Hid) as (pc & p & Hpc & Hcl & Hp & Hpid). specialize (Hs c).
    rewrite Hpc in Hs. destruct (objs t' !! c) as [pc'|]; [|done]. destruct Hs as [Hpp Hcc].
    exists pc', p. rewrite Hpp, Hcc. done.
Qed.

Lemma dropConnection_spec i c t pc p :
  keyed (world t) -> objs t !! c = Some pc -> heap (world t) !! pc_Peer pc = Some p ->
  exists w', dropConnection i c t =
      (Ok tt, set_world w' (set_conns (if decide (conns t !! ID p = Some c) then delete (ID p) (conns t) else conns t) t)) /\
    keyed w' /\ keeps_ids (world t) w' /\ peers (reg w') = peers (reg (world t)) /\
    forall q, GetPeer (ID p) w' = Some q -> Connected q = false.
Proof.
  intros Hk Hc Hp. unfold dropConnection. cbv [mbind SR_bind get_conn on_world deref modify]. rewrite Hc, Hp.
  cbn [world set_world]. destruct (SetConnected_keeps (env i) (ID p) false (world t) Hk) as (w' & Hs & Hk' & Hids & Hpe & Hq).
  exists w'. split; [|done]. destruct t as [cs os pe no wo de ha]. cbn in *.
  case_decide; cbn; rewrite Hs; done.
Qed.

(** Closing: marked closed, perhaps a last message, dropped, socket closed. *)
Lemma closing_ok i c t pc :
  objs t !! c = Some pc -> table_but (Some c) t ->
  table_ok (snd ((_ ← dropConnection i c; close_result c) t)).
Proof.
  intros Hc (Hk & Ho & Hcs). destruct (Ho c pc Hc) as [p Hp].
  destruct (dropConnection_spec i c t pc p Hk Hc Hp) as (w' & Hd & Hk' & Hids & _). sr_step Hd.
  eapply table_silent; [apply close_result_silent|]. apply table_world; [done|done|].
  split_and!; [done|done|]. intros id c' Hid. cbn [conns set_conns] in Hid.
  assert (Hne : c' <> c /\ conns t !! id = Some c').
  { case_decide as Hd'.
    - apply lookup_delete_Some in Hid as [Hne Hid]. split; [|done]. intros ->.
      destruct (Hcs id c Hid) as (pc' & p' & Hpc' & _ & Hp' & Hpid). congruence.
    - split; [|done]. intros ->. destruct (Hcs id c Hid) as (pc' & p' & Hpc' & _ & Hp' & Hpid). congruence. }
  destruct Hne as [Hne Hid']. destruct (Hcs id c' Hid') as (pc' & p' & Hpc' & Hcl & Hp' & Hpid).
  exists pc', p'. split_and!; try done. intros _. apply Hcl. congruence.
Qed.

Lemma set_closed_but c t : table_ok t -> table_but (Some c) (snd (upd_conn c (set_closed true) t)).
Proof.
  intros (Hk & Ho & Hcs). split_and!; [done| |].
  - intros c' pc'. cbn. destruct (decide (c' = c)) as [->|Hne].
    + rewrite lookup_alter_eq. destruct (objs t !! c) as [pc0|] eqn:Hpc0; [|done]. cbn. intros [= <-]. exact (Ho c pc0 Hpc0).
    + rewrite lookup_alter_ne by done. apply Ho.
  - intros id c' Hid. destruct (Hcs id c' Hid) as (pc' & p' & Hpc' & Hcl & Hp' & Hpid). cbn.
    destruct (decide (c' = c)) as [->|Hne].
    + rewrite lookup_alter_eq, Hpc'. eexists _, p'. split_and!; [reflexivity|done|done|done].
    + rewrite lookup_alter_ne by done. exists pc', p'. split_and!; try done. intros _. by apply Hcl.
Qed.

Lemma CloseConn_ok i c t : table_ok t -> table_ok (snd (CloseConn i c t)).
Proof.
  intros Ht. unfold CloseConn. destruct (objs t !! c) as [pc|] eqn:Hc.
  2: { cbv [mbind SR_bind get_conn]. by rewrite Hc. }
  rewrite (SR_bind_Ok _ _ t pc t) by (unfold get_conn; by rewrite Hc). destruct (closed pc); [done|].
  reg_step. eapply closing_ok; [|by apply (set_closed_but c t)]. cbn. by rewrite lookup_alter_eq, Hc.
Qed.

(** A result that is not a panic. *)
Definition returns {A} (r : Result A) : Prop := match r with Ok _ | Fail _ => True | _ => False end.

Lemma encryptMessage_returns rand m s : returns (encryptMessage rand m s).
Proof.
  unfold encryptMessage, marshalMessageJSON, MarshalJSON, encryptTransportPayload, newTransportAEAD, deriveSubKeys.
  destruct (m_Payload m) as [d|]; [destruct (unmarshalAny d); [done|]|]; cbn [mbind Result_bind];
    (destruct (marshalWire _); [done|]); cbn [mbind Result_bind]; (case_decide; [done|]); rewrite !deriveSubKey_Ok;
    cbn [mbind Result_bind]; (destruct (chacha_New _) as [|a]; [done|]); cbn [mbind Result_bind];
    by destruct (rand (NonceSize a)).
Qed.

Lemma SendOn_returns i c m t pc : objs t !! c = Some pc -> returns (fst (SendOn i c m t)).
Proof.
  intros Hc. unfold SendOn. rewrite (SR_bind_Ok _ _ t pc t) by (unfold get_conn; by rewrite Hc).
  pose proof (encryptMessage_returns (rand i) m (default [] (SharedSecret pc))) as He.
  destruct (encryptMessage _ _ _) as [d|e| |]; try done. reg_step.
  destruct (ws_SetWriteDeadline _ _) as [[e|] s]; reg_step; [done|].
  destruct (ws_WriteMessage BinaryMessage d s) as [[e|] s']; by reg_step.
Qed.

Lemma GracefulClose_ok i c reason code t : table_ok t -> table_ok (snd (GracefulClose i c reason code t)).
Proof.
  intros Ht. unfold GracefulClose. destruct (objs t !! c) as [pc|] eqn:Hc.
  2: { cbv [mbind SR_bind get_conn]. by rewrite Hc. }
  rewrite (SR_bind_Ok _ _ t pc t) by (unfold get_conn; by rewrite Hc). destruct (closed pc); [done|].
  reg_step. set (t1 := set_objs _ t). pose proof (set_closed_but c t Ht) as Hbut. change (table_but (Some c) t1) in Hbut.
  assert (Hc1 : objs t1 !! c = Some (set_closed true pc)) by (cbn; by rewrite lookup_alter_eq, Hc).
  reg_step. match goal with |- table_ok (snd ((?m ≫= _) t1)) => set (mid := m) end.
  assert (Hmid : fst (mid t1) = Ok tt /\ silent t1 (snd (mid t1))).
  { unfold mid. destruct (SharedSecret pc); [|split; [done|apply silent_refl]].
    destruct (get_identity t1) as [identity|]; [|split; [done|apply silent_refl]].
    destruct Hbut as (_ & Ho & _). destruct (Ho c _ Hc1) as [p Hp]. change (pc_Peer (set_closed true pc)) with (pc_Peer pc) in Hp.
    rewrite (SR_bind_Ok _ _ t1 p t1) by (cbv [on_world deref]; rewrite Hp; by destruct t1).
    destruct (NewMessage _ _ _ _ _ _ _) as [m| | |]; try (split; [done|apply silent_refl]).
    unfold on_result. pose proof (SendOn_silent i c m t1) as Hs. pose proof (SendOn_returns i c m t1 _ Hc1) as Hr.
    destruct (SendOn i c m t1) as [[[]|e| |] t2]; done. }
  destruct Hmid as [Hok Hsil]. destruct (mid t1) as [r t2] eqn:Hm. cbn [fst snd] in *. subst r. sr_step Hm.
  assert (Hc2 : exists pc2, objs t2 !! c = Some pc2).
  { destruct Hsil as (_ & _ & _ & Hs). specialize (Hs c). rewrite Hc1 in Hs. destruct (objs t2 !! c); [by eexists|done]. }
  destruct Hc2 as [pc2 Hc2]. eapply closing_ok; [exact Hc2|]. by eapply table_silent.
Qed.

(** ** New connections *)
Lemma opened_ok t t' c id :
  opened t t' c id -> table_ok t ->
  (conns t' = conns t \/
   conns t' = <[id := c]> (conns t) /\ exists pc, objs t' !! c = Some pc /\ closed pc = false) ->
  table_ok t'.
Proof.
  intros (_ & _ & _ & _ & Hk' & Hids & Hnew & Hoth & pc & p & Hpc & Hp & Hpid) (Hk & Ho & Hcs) Hconns.
  assert (Hold : forall id' c', conns t !! id' = Some c' -> exists pc' p', objs t' !! c' = Some pc' /\
    (Some c' <> None -> closed pc' = false) /\ heap (world t') !! pc_Peer pc' = Some p' /\ ID p' = id').
  { intros id' c' Hid'. destruct (Hcs id' c' Hid') as (pc' & p' & Hpc' & Hcl & Hp' & <-).
    destruct (Hids _ _ Hp') as (p2 & Hp2 & Hid2). exists pc', p2. rewrite Hoth by congruence. done. }
  split_and!; [done| |].
  - intros c' pc' Hpc'. destruct (decide (c' = c)) as [->|Hne].
    + rewrite Hpc in Hpc'. injection Hpc' as <-. by eexists.
    + rewrite Hoth in Hpc' by done. destruct (Ho c' pc' Hpc') as [q Hq]. destruct (Hids _ _ Hq) as (q' & Hq' & _). by eexists.
  - destruct Hconns as [->|[-> (pc1 & Hpc1 & Hcl1)]]; [exact Hold|]. intros id' c' Hid'.
    rewrite Hpc in Hpc1. injection Hpc1 as <-.
    apply lookup_insert_Some in Hid' as [[<- <-]|[_ Hid']]; [|by apply Hold]. by exists pc, p.
Qed.

Lemma handleWSUpgrade_ok i upgraded t : table_ok t -> table_ok (snd (handleWSUpgrade config i upgraded t)).
Proof.
  intros Ht. unfold handleWSUpgrade. case_decide; [done|]. set (t0 := set_pending _ t).
  assert (Ht0 : table_ok t0) by exact Ht. destruct upgraded as [e|sock]; [exact Ht|].
  destruct (receive_handshake config i sock t0) as [[[payload s] sock']|sock']; [|exact Ht].
  destruct (accept_handshake_spec i payload s sock' t0 (proj1 Ht0)) as (t' & c & -> & Hopen & Hsent).
  assert (Ht' : table_ok t'); [|exact Ht'].
  eapply opened_ok; [exact Hopen|exact Ht0|]. destruct (ack_sent i payload s sock' t0); [|by left].
  right. destruct Hsent as (? & (pc & Hpc & _ & _ & Hcl) & _). split; [done|]. by exists pc.
Qed.

(** The object [l] belongs to the caller: neither the registry nor a connection
    points to it. *)
Definition own (l : positive) t : Prop :=
  is_Some (heap (world t) !! l) /\ (forall id, peers (reg (world t)) !! id <> Some l) /\
  forall c pc, objs t !! c = Some pc -> pc_Peer pc <> l.

(** What the client's handshake preserves on the new connection [c]. *)
Definition shaking t t' (c : positive) (pc : PeerConnection (W := W)) : Prop :=
  table_ok t' /\ conns t' = conns t /\
  exists pc', objs t' !! c = Some pc' /\ closed pc' = closed pc /\ pc_Peer pc' = pc_Peer pc.

Lemma shaking_silent t t1 t' c pc : shaking t t1 c pc -> silent t1 t' -> shaking t t' c pc.
Proof.
  intros (Hok & Hcs & pc1 & Hpc1 & Hcl & Hpe) Hs. split_and!; [by eapply table_silent| |].
  - destruct Hs as (-> & _). done.
  - destruct Hs as (_ & _ & _ & Hs). specialize (Hs c). rewrite Hpc1 in Hs.
    destruct (objs t' !! c) as [pc'|]; [|done]. destruct Hs as [Hp' Hc']. exists pc'. split_and!; congruence.
Qed.

(** Renaming a peer that only the new connection points to. *)
Lemma rename_ok t c pc f :
  table_ok t -> objs t !! c = Some pc -> (forall id, conns t !! id <> Some c) ->
  (forall id, peers (reg (world t)) !! id <> Some (pc_Peer pc)) ->
  (forall c' pc', c' <> c -> objs t !! c' = Some pc' -> pc_Peer pc' <> pc_Peer pc) ->
  table_ok (set_world (on_heap (alter f (pc_Peer pc)) (world t)) t).
Proof.
  intros (Hk & Ho & Hcs) Hc Hnot Hreg Hoth. split_and!.
  - intros id l Hl. cbn [heap on_heap reg world set_world] in *. rewrite lookup_alter_ne; [by apply Hk|].
    intros <-. by apply (Hreg id).
  - intros c' pc' Hpc'. cbn. destruct (decide (pc_Peer pc' = pc_Peer pc)) as [->|Hne].
    + rewrite lookup_alter_eq. destruct (Ho c pc Hc) as [p ->]. by eexists.
    + rewrite lookup_alter_ne by done. by apply (Ho c').
  - intros id c' Hid. cbn in Hid. destruct (Hcs id c' Hid) as (pc' & p' & Hpc' & Hcl & Hp' & Hpid).
    assert (c' <> c) by (intros ->; by apply (Hnot id)). exists pc', p'. cbn. rewrite lookup_alter_ne; [done|].
    symmetry. by eapply Hoth.
Qed.

(** Writing the announced identity over a peer that has its ID already. *)
Lemma same_id_ok t l p f :
  table_ok t -> heap (world t) !! l = Some p -> ID (f p) = ID p ->
  table_ok (set_world (on_heap (alter f l) (world t)) t).
Proof.
  intros Hok Hp Hid. assert (Hids : keeps_ids (world t) (on_heap (alter f l) (world t))).
  { intros k q Hq. cbn [heap on_heap]. destruct (decide (k = l)) as [->|Hne].
    - rewrite lookup_alter_eq, Hq. exists (f q). split; [done|]. congruence.
    - rewrite lookup_alter_ne by done. by exists q. }
  apply table_world; [done| |done]. intros id k Hk. destruct (proj1 Hok id k Hk) as (q & Hq & <-).
  destruct (Hids k q Hq) as (q' & Hq' & Hid'). by exists q'.
Qed.

(** The client's handshake changes nothing but its connection, or it has written
    the announced identity over the peer, and the registry has done its part. *)
Lemma handshake_body_shape i c t pc p :
  objs t !! c = Some pc -> heap (world t) !! pc_Peer pc = Some p ->
  silent t (snd (handshake_body i c t)) \/
  exists identity t1 w',
    let w := on_heap (alter (set_peer_identity identity) (pc_Peer pc)) (world t) in
    silent t t1 /\ snd (handshake_body i c t) = set_world w' t1 /\ keeps_ids w w' /\ (keyed w -> keyed w').
Proof.
  intros Hc Hp. unfold handshake_body. reg_step. destruct (get_identity t) as [identity|]; [|left; apply silent_refl].
  destruct (map_fail _ _) as [challenge| | |]; try (left; apply silent_refl). reg_step.
  rewrite (SR_bind_Ok _ _ t pc t) by (unfold get_conn; by rewrite Hc).
  rewrite (SR_bind_Ok _ _ t p t) by (cbv [on_world deref]; rewrite Hp; by destruct t).
  destruct (hello_text i identity (ID p) challenge) as [hello| | |]; try (left; apply silent_refl). reg_step.
  destruct (ws_WriteMessage TextMessage hello (pc_Conn pc)) as [err sock1]. reg_step. set (t1 := set_objs _ t).
  assert (Hs1 : silent t t1) by (apply (silently_upd c (set_ws sock1)); done). destruct err as [e|]; [by left|].
  destruct (ws_ReadMessage sock1) as [answer sock]. reg_step. set (t2 := set_objs _ t1).
  assert (Hs2 : silent t t2) by (eapply silent_trans; [exact Hs1|apply (silently_upd c (set_ws sock)); done]).
  destruct answer as [e|ackData]; [by left|]. destruct (parse_ack ackData) as [ack| | |]; try by left. do 3 reg_step.
  set (w := on_heap (alter (set_peer_identity (ack_Identity ack)) (pc_Peer pc)) (world t)). right. exists (ack_Identity ack).
  change (id (set_world ?x t2)) with (set_world x t2). destruct (verify_ack challenge ack _) as [s| | |];
    try (exists t2, w; split_and!; [done|done|apply keeps_ids_refl|done]). do 2 reg_step.
  assert (Hs3 : silent t2 (set_objs (alter (set_secret (Some s)) c (objs t2)) t2)) by (apply (silently_upd c (set_secret (Some s))); done).
  cbv [ignoring on_world]. destruct (register_peer_keeps (env i) (pc_Peer pc) (set_peer_identity (ack_Identity ack) p) w) as (w' & Hw & Hids & Hk').
  { cbn. by rewrite lookup_alter_eq, Hp. }
  exists (set_objs (alter (set_secret (Some s)) c (objs t2)) t2), w'.
  match goal with |- context [best_effort ?m ?x] => change x with w end. rewrite Hw.
  split_and!; [by eapply silent_trans|done|done|done].
Qed.

(** The object [l] belongs to the caller alone, but for the connection [c]. *)
Definition spare (l : positive) (c : positive) t : Prop :=
  (forall id, peers (reg (world t)) !! id <> Some l) /\
  forall c' pc', c' <> c -> objs t !! c' = Some pc' -> pc_Peer pc' <> l.
(** The object [l] has the ID it had. *)
Definition kept_id (l : positive) t t' : Prop :=
  forall p p', heap (world t) !! l = Some p -> heap (world t') !! l = Some p' -> ID p' = ID p.

Lemma handshake_body_table i c t pc :
  table_ok t -> objs t !! c = Some pc -> (forall id, conns t !! id <> Some c) ->
  spare (pc_Peer pc) c t \/ kept_id (pc_Peer pc) t (snd (handshake_body i c t)) ->
  shaking t (snd (handshake_body i c t)) c pc.
Proof.
  intros Hok Hc Hnot Hwhy. assert (Hbase : shaking t t c pc) by (split_and!; [done|done|by exists pc]).
  pose proof Hok as (Hk & Ho & Hcs). destruct (Ho c pc Hc) as [p Hp].
  destruct (handshake_body_shape i c t pc p Hc Hp) as [Hs|(identity & t1 & w' & Hs & Heq & Hids & Hkw)].
  { by eapply shaking_silent. }
  rewrite Heq in *. set (f := set_peer_identity identity) in *.
  destruct (shaking_silent t t t1 c pc Hbase Hs) as (Hok1 & Hcs1 & pc1 & Hpc1 & Hcl1 & Hpe1).
  assert (Hw1 : world t1 = world t) by apply Hs.
  assert (Hok2 : table_ok (set_world (on_heap (alter f (pc_Peer pc)) (world t1)) t1)).
  { destruct Hwhy as [[Hreg Hoth]|Hkept].
    - rewrite <- Hpe1 in *. apply (rename_ok t1 c pc1 f Hok1 Hpc1); [by rewrite Hcs1|by rewrite Hw1|].
      intros c' pc' Hne Hpc'. destruct Hs as (_ & _ & _ & Hs). specialize (Hs c'). rewrite Hpc' in Hs.
      destruct (objs t !! c') as [pc0|] eqn:Hpc0; [|done]. destruct Hs as [-> _]. by eapply Hoth.
    - apply (same_id_ok t1 (pc_Peer pc) p f Hok1); [by rewrite Hw1|].
      destruct (Hids (pc_Peer pc) (f p)) as (p' & Hp' & Hid'); [cbn; by rewrite lookup_alter_eq, Hp|].
      rewrite <- Hid'. by apply Hkept. }
  rewrite Hw1 in Hok2. split_and!; [|by rewrite <- Hcs1|by exists pc1].
  exact (table_world None (set_world (on_heap (alter f (pc_Peer pc)) (world t)) t1) w' Hids (Hkw (proj1 Hok2)) Hok2).
Qed.

Lemma performHandshake_table i c t pc :
  table_ok t -> objs t !! c = Some pc -> (forall id, conns t !! id <> Some c) ->
  spare (pc_Peer pc) c t \/ kept_id (pc_Peer pc) t (snd (performHandshake i c t)) ->
  shaking t (snd (performHandshake i c t)) c pc.
Proof.
  intros Hok Hc Hnot. destruct (performHandshake_body i c t pc Hc) as (t1 & Hc1 & Hoth1 & Hw1 & Hn1 & Hcs1 & ->).
  intros Hwhy. cbn [snd] in *. assert (Hs1 : silent t t1).
  { split_and!; try done. intros c'. destruct (decide (c' = c)) as [->|Hne].
    - rewrite Hc, Hc1. done.
    - rewrite Hoth1 by done. by destruct (objs t !! c'). }
  assert (Hsh : shaking t1 (snd (handshake_body i c t1)) c (timed i pc)).
  { apply handshake_body_table; [by eapply table_silent|done|by rewrite Hcs1|].
    destruct Hwhy as [[Hreg Hoth]|Hkept]; [left; split; [by rewrite Hw1|]|right].
    - intros c' pc' Hne. rewrite Hoth1 by done. by apply Hoth.
    - intros p p'. rewrite Hw1. apply Hkept. }
  destruct Hsh as (Hok' & Hcs' & Hpc'). eapply (shaking_silent t (snd (handshake_body i c t1))).
  - split_and!; [done|by rewrite Hcs'|exact Hpc'].
  - by apply silently_upd.
Qed.

(** What follows the handshake leaves the IDs. *)
Lemma store_keeps_ids i c t : keeps_ids (world t) (world (snd (store_connection i c t))).
Proof.
  unfold store_connection. destruct (objs t !! c) as [pc|] eqn:Hc.
  2: { cbv [mbind SR_bind get_conn]. rewrite Hc. apply keeps_ids_refl. }
  rewrite (SR_bind_Ok _ _ t pc t) by (unfold get_conn; by rewrite Hc). destruct (heap (world t) !! pc_Peer pc) as [p|] eqn:Hp.
  2: { cbv [mbind SR_bind on_world deref]. rewrite Hp. apply keeps_ids_refl. }
  rewrite (SR_bind_Ok _ _ t p t) by (cbv [on_world deref]; rewrite Hp; by destruct t). reg_step.
  pose proof (op_keeps_ids (OpConnected (env i) (ID p) true) (world t)) as Hids. cbn [run_op] in Hids. cbv [on_world].
  cbn [world set_conns]. by destruct (SetConnected (env i) (ID p) true (world t)) as [res w].
Qed.

Lemma Connect_after i c t (res : Result unit) t2 :
  keeps_ids (world t2) (world (snd (on_result (fun _ : Transport => (res, t2))
    (fun _ => _ ← store_connection i c; mret c)
    (fun err => _ ← close_socket c; fail (E "Transport.Connect" "handshake failed" (Some err))) t))).
Proof.
  unfold on_result. destruct res as [[]|e|pa|]; [|apply keeps_ids_refl..].
  pose proof (store_keeps_ids i c t2) as Hs. cbv [mbind SR_bind]. by destruct (store_connection i c t2) as [[]].
Qed.

Lemma Connect_ok i l dialed t :
  is_Some (heap (world t) !! l) -> own l t \/ kept_id l t (snd (Connect i l dialed t)) ->
  table_ok t -> table_ok (snd (Connect i l dialed t)).
Proof.
  intros Hl Hwhy Hok. unfold Connect in *. destruct dialed as [e|sock]; [done|].
  set (c := fresh (dom (objs t))) in *. assert (Hnew : objs t !! c = None) by apply fresh_objs.
  set (pc := mkConn l sock None (clock i) false (NewPeerRateLimiter (clock i) 100 50)) in *.
  set (t1 := set_objs (<[c := pc]> (objs t)) t) in *. rewrite (SR_bind_Ok _ _ t c t1) in * by done.
  assert (Hc1 : objs t1 !! c = Some pc) by apply lookup_insert_eq.
  pose proof Hok as (Hk & Ho & Hcs). assert (Hnot : forall id, conns t1 !! id <> Some c).
  { intros id Hid. destruct (Hcs id c Hid) as (pc' & _ & Hpc' & _). congruence. }
  assert (Hok1 : table_ok t1).
  { split_and!; [done| |].
    - intros c' pc'. cbn. intros [[<- <-]|[_ Hc']]%lookup_insert_Some; [done|by apply (Ho c')].
    - intros id c' Hid. destruct (Hcs id c' Hid) as (pc' & p' & Hpc' & Hrest). exists pc', p'. cbn.
      rewrite lookup_insert_ne by congruence. done. }
  pose proof (performHandshake_table i c t1 pc Hok1 Hc1 Hnot) as Hsh.
  pose proof (Connect_after i c t1 (fst (performHandshake i c t1)) (snd (performHandshake i c t1))) as Haft.
  unfold on_result in *. destruct (performHandshake i c t1) as [res t2]. cbn [fst snd] in Hsh, Haft.
  assert (Hsh' : shaking t1 t2 c pc).
  { apply Hsh. destruct Hwhy as [(_ & Hreg & Hobj)|Hkept]; [left; split; [exact Hreg|]|right].
    { intros c' pc' Hne. cbn. rewrite lookup_insert_ne by done. by apply Hobj. }
    intros p p' Hp Hp'. destruct (Haft l p' Hp') as (p3 & Hp3 & <-). by apply Hkept. }
  clear Hsh Hwhy Haft. destruct res as [[]|e|pa|]; cbn [snd] in *; try by destruct Hsh'.
  - destruct Hsh' as (Hok2 & Hcs2 & pc2 & Hpc2 & Hcl2 & Hpe2). pose proof Hok2 as (Hk2 & Ho2 & Hcs2').
    destruct (Ho2 c pc2 Hpc2) as [p2 Hp2].
    destruct (store_connection_spec i c t2 pc2 p2 Hk2 Hpc2 Hp2) as (w3 & Hst & Hk3 & Hids & _). sr_step Hst. cbn [snd].
    apply (table_world _ (set_conns (<[ID p2 := c]> (conns t2)) t2)); [done|done|]. split_and!; [done|done|].
    intros id c'. cbn. intros [[<- <-]|[_ Hid]]%lookup_insert_Some; [|by apply Hcs2']. by exists pc2, p2.
  - destruct Hsh' as (Hok2 & _). reg_step. eapply table_silent; [apply (close_socket_silent c t2)|done].
Qed.

(** ** Sequences of calls *)

(** The calls on a transport and on what it points to, each as one step; a
    connection's goroutines make the steps [CRead], [CRemove] and [CKeepalive]. *)
Inductive Call : Type :=
| CUpgrade (i : Input) (upgraded : error + W)
| CConnect (i : Input) (l : positive) (dialed : error + W)
| CSend (i : Input) (peerID : string) (m : Message)
| CSendOn (i : Input) (c : positive) (m : Message)
| CBroadcast (i : Input) (m : Message)
| CRead (t0 t1 t2 t3 t4 : Z) (c : positive)
| CRemove (i : Input) (c : positive)
| CKeepalive (i : Input) (t1 t2 : Z) (c : positive)
| CClose (i : Input) (c : positive)
| CGraceful (i : Input) (c : positive) (reason : string) (code : Z)
| CStop (i : Input) (shutdown : option (option error))
| COnMessage
| CCleanup (now : Z)
| CRegistry (op : reg_op)
| CNode (m : Node FS -> Result unit * Node FS)
| CObject (p : Peer).

Definition run_call (call : Call) : SR Transport unit :=
  match call with
  | CUpgrade i upgraded => handleWSUpgrade config i upgraded
  | CConnect i l dialed => _ ← Connect i l dialed; mret tt
  | CSend i id m => Send i id m
  | CSendOn i c m => SendOn i c m
  | CBroadcast i m => Broadcast i m
  | CRead t0 t1 t2 t3 t4 c => _ ← readStep ed25519_verify config t0 t1 t2 t3 t4 c; mret tt
  | CRemove i c => removeConnection i c
  | CKeepalive i t1 t2 c => _ ← keepaliveStep config i t1 t2 c; mret tt
  | CClose i c => CloseConn i c
  | CGraceful i c reason code => GracefulClose i c reason code
  | CStop i shutdown => Stop i shutdown
  | COnMessage => OnMessage
  | CCleanup now => on_dedup (Cleanup now)
  | CRegistry op => on_world (run_op op)
  | CNode m => on_node m
  | CObject p => _ ← new_peer p; mret tt
  end.

(** A caller dials with a peer object of its own (a copy, as [GetPeer] returns), or
    with one that the registry or a connection holds too, and then the handshake
    leaves it the ID it had.  Without this a dial can rename the entry of another
    connection: [dial_renames_entry]. *)
Definition permitted (call : Call) t : Prop :=
  match call with
  | CConnect i l dialed => is_Some (heap (world t) !! l) /\ (own l t \/ kept_id l t (snd (Connect i l dialed t)))
  | _ => True
  end.

Inductive tstep : Transport -> Transport -> Prop :=
| tstep_call call t : permitted call t -> tstep t (snd (run_call call t)).

Lemma snd_bind_ret {A} (m : SR (Transport (W := W) (FS := FS)) A) t : snd ((_ ← m; mret tt) t) = snd (m t).
Proof. cbv [mbind SR_bind]. by destruct (m t) as [[]]. Qed.

Lemma snd_removeConnection i c t : snd (removeConnection i c t) = snd (CloseConn i c t).
Proof. unfold removeConnection, on_result. by destruct (CloseConn i c t) as [[]]. Qed.

Lemma stop_loop_ok i cs t : table_ok t -> table_ok (snd (stop_loop i cs t)).
Proof.
  revert t. induction cs as [|c cs IH]; intros t Ht; [done|]. cbn [stop_loop]. cbv [mbind SR_bind on_result].
  pose proof (GracefulClose_ok i c "server shutdown" DisconnectShutdown t Ht) as Hg.
  destruct (GracefulClose i c _ _ t) as [[[]|e|p|] t']; cbn in *; auto.
Qed.

Lemma Stop_ok i shutdown t : table_ok t -> table_ok (snd (Stop i shutdown t)).
Proof.
  intros Ht. unfold Stop. do 2 reg_step. set (t1 := set_cancelled true t). assert (Ht1 : table_ok t1) by exact Ht.
  pose proof (stop_loop_ok i (Connections i t1) t1 Ht1) as Hs. cbv [mbind SR_bind].
  destruct (stop_loop i _ t1) as [[[]|e|p|] t2]; cbn in *; try done. by destruct shutdown as [[e|]|].
Qed.

Lemma keepaliveStep_ok i (z1 z2 : Z) c t : table_ok t -> table_ok (snd (keepaliveStep config i z1 z2 c t)).
Proof.
  intros Ht. assert (Hrm : forall u, table_ok u -> table_ok (snd ((_ ← removeConnection i c; mret false) u))).
  { intros u Hu. cbv [mbind SR_bind]. pose proof (CloseConn_ok i c u Hu) as Hc. rewrite <- snd_removeConnection in Hc.
    by destruct (removeConnection i c u) as [[]]. }
  unfold keepaliveStep. destruct (objs t !! c) as [pc|] eqn:Hc.
  2: { cbv [mbind SR_bind get_conn]. by rewrite Hc. }
  rewrite (SR_bind_Ok _ _ t pc t) by (unfold get_conn; by rewrite Hc). case_decide; [by apply Hrm|].
  reg_step. destruct (get_identity t) as [identity|]; [|done].
  destruct (proj1 (proj2 Ht) c pc Hc) as [p Hp].
  rewrite (SR_bind_Ok _ _ t p t) by (cbv [on_world deref]; rewrite Hp; by destruct t).
  destruct (NewMessage _ _ _ _ _ _ _) as [m| | |]; try done.
  unfold on_result. pose proof (SendOn_silent i c m t) as Hs. destruct (SendOn i c m t) as [[[]|e|q|] t']; cbn [snd] in *.
  2: apply Hrm. all: by eapply table_silent.
Qed.

Lemma on_node_ok {A} (m : Node FS -> Result A * Node FS) t : table_ok t -> table_ok (snd (on_node m t)).
Proof. intros Ht. unfold on_node. by destruct (m _). Qed.

Lemma new_peer_ok p t : table_ok t -> table_ok (snd (new_peer p t)).
Proof.
  intros Ht. unfold new_peer. cbn [snd]. apply table_world; [|apply keyed_object; [apply Ht|]|done].
  - apply keeps_ids_insert, fresh_heap.
  - apply fresh_heap.
Qed.

Lemma table_step call t : permitted call t -> table_ok t -> table_ok (snd (run_call call t)).
Proof.
  intros Hp Ht. destruct call; cbn [run_call permitted] in *; rewrite ?snd_bind_ret.
  - by apply handleWSUpgrade_ok.
  - by apply Connect_ok; destruct Hp.
  - unfold Send. destruct (conns t !! peerID); [|done]. eapply table_silent; [apply SendOn_silent|done].
  - eapply table_silent; [apply SendOn_silent|done].
  - eapply table_silent; [apply Broadcast_silent|done].
  - eapply table_silent; [apply readStep_silent|done].
  - rewrite snd_removeConnection. by apply CloseConn_ok.
  - by apply keepaliveStep_ok.
  - by apply CloseConn_ok.
  - by apply GracefulClose_ok.
  - by apply Stop_ok.
  - exact Ht.
  - eapply table_silent; [apply silently_dedup|done].
  - unfold on_world. pose proof (op_keeps_ids op (world t)) as Hids. pose proof (keyed_op op (world t) (proj1 Ht)) as Hk.
    destruct (run_op op (world t)) as [r w']. by apply table_world.
  - by apply on_node_ok.
  - by apply new_peer_ok.
Qed.

Lemma table_reachable t0 t :
  conns t0 = ∅ -> objs t0 = ∅ -> keyed (world t0) -> rtc tstep t0 t -> table_ok t.
Proof.
  intros Hc Ho Hk Hsteps. assert (Hstart : table_ok t0) by (split_and!; [done|by rewrite Ho|by rewrite Hc]). clear Hc Ho Hk.
  induction Hsteps as [u|u u' v Hstep _ IH]; [done|]. apply IH. destruct Hstep. by apply table_step.
Qed.

(** C9 (invariant): after any sequence of calls from a transport without
    connections, upgrades, dials, sends, reads, keepalives, closes, shutdown and
    operations of the registry and the node among them, the connection found
    under an ID is open and belongs to a peer with that ID; a closed connection
    is in the table under no ID, and no connection under two.  The dials are those
    with a [Peer] object that neither the registry nor a connection holds, such as
    the copies of [GetPeer] that the controller dials, whatever ID the other end
    announces, and those with a shared object whose ID the handshake leaves as it
    was; a dial that renames a shared object breaks the property
    ([dial_renames_entry]). *)
Theorem conn_table_invariant t0 t :
  conns t0 = ∅ -> objs t0 = ∅ -> keyed (world t0) -> rtc tstep t0 t ->
  (forall id c, GetConnection id t = Some c ->
    exists pc p, objs t !! c = Some pc /\ closed pc = false /\ heap (world t) !! pc_Peer pc = Some p /\ ID p = id) /\
  (forall c pc id, objs t !! c = Some pc -> closed pc = true -> GetConnection id t <> Some c) /\
  (forall c id id', GetConnection id t = Some c -> GetConnection id' t = Some c -> id = id').
Proof.
  intros Hc Ho Hk Hsteps. pose proof (table_reachable t0 t Hc Ho Hk Hsteps) as Ht.
  destruct Ht as (_ & _ & Hcs). split_and!.
  - intros id c Hid. destruct (Hcs id c Hid) as (pc & p & Hpc & Hcl & Hp & Hpid). exists pc, p. split_and!; try done. by apply Hcl.
  - intros c pc id Hpc Hcl Hid. destruct (Hcs id c Hid) as (pc' & p & Hpc' & Hcl' & _).
    specialize (Hcl' ltac:(done)). congruence.
  - intros c id id' Hid Hid'. destruct (Hcs id c Hid) as (pc & p & Hpc & _ & Hp & <-).
    destruct (Hcs id' c Hid') as (pc' & p' & Hpc' & _ & Hp' & <-). congruence.
Qed.

(** A peer reconnects and its older connection is closed later
    (by its read loop or keepalive): the newer connection stays in the table and
    open, but the registry now says that the peer is not connected. *)
Theorem stale_close_disconnects i t id c1 pc1 p1 c2 q :
  table_ok t -> conns t !! id = Some c2 -> c1 <> c2 ->
  objs t !! c1 = Some pc1 -> closed pc1 = false -> heap (world t) !! pc_Peer pc1 = Some p1 -> ID p1 = id ->
  GetPeer id (world t) = Some q ->
  exists q', GetConnection id (snd (CloseConn i c1 t)) = Some c2 /\
    GetPeer id (world (snd (CloseConn i c1 t))) = Some q' /\ Connected q' = false.
Proof.
  intros Ht Hid Hne Hc1 Hcl Hp1 <- Hq. pose proof Ht as (Hk & _ & _). unfold CloseConn.
  rewrite (SR_bind_Ok _ _ t pc1 t) by (unfold get_conn; by rewrite Hc1). rewrite Hcl. reg_step.
  set (t1 := set_objs _ t).
  assert (Hc1' : objs t1 !! c1 = Some (set_closed true pc1)) by (cbn; by rewrite lookup_alter_eq, Hc1).
  destruct (dropConnection_spec i c1 t1 _ p1 Hk Hc1' Hp1) as (w' & Hd & _ & Hids & Hpe & Hconn). sr_step Hd.
  rewrite decide_False by (change (conns t1) with (conns t); congruence).
  match goal with |- context [close_result c1 ?u] => destruct (close_result_silent c1 u) as (Hcs & Hw & _) end.
  unfold GetConnection. rewrite Hcs, Hw. cbn [world set_world conns set_conns] in *. revert Hq. unfold GetPeer in *.
  rewrite Hpe in *. change (world t1) with (world t) in *. destruct (peers (reg (world t)) !! ID p1) as [l|] eqn:Hl; [|done].
  cbn [mbind option_bind] in *. destruct (heap (world t) !! l) as [q0|] eqn:Hq0; [|done]. intros _.
  destruct (Hids l q0 Hq0) as (q' & Hq' & _). exists q'. split_and!; try done. by apply Hconn.
Qed.
End Table.
