(* ===== verification/ReadLoop.v ===== *)
(** * The read loop of a connection (src/go/node/transport.go, readLoop)

    What the loop hands to the handler out of what arrives on a socket, that it
    ends with the connection closed and out of the table, and that messages sent
    by the other end of a session are delivered. *)

From S2P Require Import Prelude Crypto Float64 PeerName Peer PeerProofs PeerPersist Identity Ueps.
From S2P Require Import KeyDeriv Controller Protocol Session Duration Limits Transport TransportProofs.
From S2P Require Import ConnTable.

Section ReadLoop.
Context {W : Type} `{WebSocket W}.
Context `{KDLib} `{JSON} {FS : Type} `{FileSystem FS} `{KeyLib} `{JL : MsgJSONLaws} `{AL : AEADLaws} `{HandshakeJSON}.
Context (ed25519_verify : bytes -> bytes -> bytes -> bool) (config : TransportConfig) (clk : nat -> Z).
Implicit Types (t : Transport (W := W) (FS := FS)) (i : Input) (sock : W) (pc : PeerConnection (W := W)).

(** ** What arrives *)

(** From iteration [k] on, the socket returns the messages [ds], and then an
    error, which leaves it as the last argument. *)
Inductive arrives : nat -> W -> list bytes -> W -> Prop :=
| arrives_deadline k sock err sock1 :
    ws_SetReadDeadline (Some (clk (5 * k)%nat + idleTimeout config)) sock = (Some err, sock1) ->
    arrives k sock [] sock1
| arrives_error k sock sock1 err sock2 :
    ws_SetReadDeadline (Some (clk (5 * k)%nat + idleTimeout config)) sock = (None, sock1) ->
    ws_ReadMessage sock1 = (inl err, sock2) -> arrives k sock [] sock2
| arrives_message k sock sock1 d sock2 ds last :
    ws_SetReadDeadline (Some (clk (5 * k)%nat + idleTimeout config)) sock = (None, sock1) ->
    ws_ReadMessage sock1 = (inr d, sock2) -> arrives (S k) sock2 ds last -> arrives k sock (d :: ds) last.

(** ** What is passed on *)

(** The messages that get through the limiter, the decryption under the secret of
    the session, and the deduplication, in this order. *)
Fixpoint passed (secret : bytes) (k : nat) (ds : list bytes) (lim : PeerRateLimiter) (dd : MessageDeduplicator) : list Message :=
  match ds with
  | [] => []
  | d :: ds =>
      match Allow (clk (5 * k + 2)%nat) lim with
      | (Ok true, lim) =>
          match decryptMessage ed25519_verify d secret with
          | Ok m =>
              match receive (clk (5 * k + 3)%nat) (clk (5 * k + 4)%nat) (m_ID m) dd with
              | (Ok true, dd) => m :: passed secret (S k) ds lim dd
              | (_, dd) => passed secret (S k) ds lim dd
              end
          | _ => passed secret (S k) ds lim dd
          end
      | (_, lim) => passed secret (S k) ds lim dd
      end
  end.

Lemma Allow_Ok now r : exists b r', Allow now r = (Ok b, r').
Proof. unfold Allow. cbv zeta. repeat case_decide; by eexists _, _. Qed.
Lemma receive_Ok u v id d : exists b d', receive u v id d = (Ok b, d').
Proof.
  unfold receive, IsDuplicate. cbv [mbind SR_bind]. destruct (seen d !! id); [case_decide|]; by eexists _, _.
Qed.

(** The state after one more message: what one step of [passed] says. *)
Definition passed1 (secret d : bytes) (k : nat) (lim : PeerRateLimiter) (dd : MessageDeduplicator) :
    list Message * PeerRateLimiter * MessageDeduplicator :=
  match Allow (clk (5 * k + 2)%nat) lim with
  | (Ok true, lim) =>
      match decryptMessage ed25519_verify d secret with
      | Ok m =>
          match receive (clk (5 * k + 3)%nat) (clk (5 * k + 4)%nat) (m_ID m) dd with
          | (Ok true, dd) => ([m], lim, dd)
          | (_, dd) => ([], lim, dd)
          end
      | _ => ([], lim, dd)
      end
  | (_, lim) => ([], lim, dd)
  end.

Lemma passed_cons secret k d ds lim dd :
  passed secret k (d :: ds) lim dd =
  let '(ms, lim, dd) := passed1 secret d k lim dd in ms ++ passed secret (S k) ds lim dd.
Proof.
  cbn [passed]. unfold passed1. destruct (Allow _ lim) as [[[]| | |] lim']; try done.
  destruct (decryptMessage _ d secret) as [m| | |]; try done. by destruct (receive _ _ _ dd) as [[[]| | |] dd'].
Qed.

Lemma receive_data_spec t c pc k d :
  objs t !! c = Some pc -> handler t = true ->
  let '(ms, lim, dd) := passed1 (default [] (SharedSecret pc)) d k (rateLimiter pc) (dedup t) in
  exists t', receive_data ed25519_verify (clk (5 * k + 2)%nat) (clk (5 * k + 3)%nat) (clk (5 * k + 4)%nat) c d t = (Ok tt, t') /\
    objs t' !! c = Some (set_limiter lim pc) /\ dedup t' = dd /\ cancelled t' = cancelled t /\ handler t' = true /\
    handled t' = handled t ++ ((fun m => (c, m)) <$> ms).
Proof.
  intros Hc Hh. unfold passed1, receive_data. rewrite (SR_bind_Ok _ _ t pc t) by (unfold get_conn; by rewrite Hc).
  destruct (Allow_Ok (clk (5 * k + 2)%nat) (rateLimiter pc)) as (b & lim & ->). reg_step.
  rewrite (SR_bind_Ok _ _ _ b (set_objs (alter (set_limiter lim) c (objs t)) t)) by done.
  set (t1 := set_objs _ t). assert (Hc1 : objs t1 !! c = Some (set_limiter lim pc)) by (cbn; by rewrite lookup_alter_eq, Hc).
  assert (Hnil : exists t', (mret tt : SR Transport unit) t1 = (Ok tt, t') /\
    objs t' !! c = Some (set_limiter lim pc) /\ dedup t' = dedup t /\ cancelled t' = cancelled t /\ handler t' = true /\
    handled t' = handled t ++ ((fun m => (c, m)) <$> [])).
  { exists t1. split_and!; try done. cbn. by rewrite app_nil_r. }
  destruct b; [|exact Hnil]. cbn [negb]. pose proof (decryptMessage_returns ed25519_verify d (default [] (SharedSecret pc))) as Hr.
  destruct (decryptMessage _ d _) as [m|e| |]; try done.
  destruct (receive_Ok (clk (5 * k + 3)%nat) (clk (5 * k + 4)%nat) (m_ID m) (dedup t)) as (new & dd & Hrec).
  rewrite Hrec. rewrite (SR_bind_Ok _ _ t1 new (set_dedup dd t1)) by (unfold on_dedup; change (dedup t1) with (dedup t); by rewrite Hrec).
  destruct new.
  - eexists. split; [reflexivity|]. change (handler (set_dedup dd t1)) with (handler t). rewrite Hh. done.
  - exists (set_dedup dd t1). split_and!; try done. cbn. by rewrite app_nil_r.
Qed.

(** One iteration on a message. *)
Lemma readStep_message t c pc k sock1 d sock2 :
  objs t !! c = Some pc -> cancelled t = false -> handler t = true ->
  ws_SetReadDeadline (Some (clk (5 * k)%nat + idleTimeout config)) (pc_Conn pc) = (None, sock1) ->
  ws_ReadMessage sock1 = (inr d, sock2) ->
  let '(ms, lim, dd) := passed1 (default [] (SharedSecret pc)) d k (rateLimiter pc) (dedup t) in
  exists t' pc', readStep ed25519_verify config (clk (5 * k)%nat) (clk (5 * k + 1)%nat) (clk (5 * k + 2)%nat)
      (clk (5 * k + 3)%nat) (clk (5 * k + 4)%nat) c t = (Ok true, t') /\
    objs t' !! c = Some pc' /\ pc_Conn pc' = sock2 /\ closed pc' = closed pc /\
    SharedSecret pc' = SharedSecret pc /\ rateLimiter pc' = lim /\
    dedup t' = dd /\ cancelled t' = false /\ handler t' = true /\
    handled t' = handled t ++ ((fun m => (c, m)) <$> ms).
Proof.
  intros Hc Hcan Hh Hdl Hread. unfold readStep. reg_step. rewrite Hcan.
  rewrite (SR_bind_Ok _ _ t pc t) by (unfold get_conn; by rewrite Hc). rewrite Hdl. reg_step. rewrite Hread. do 2 reg_step.
  set (t1 := set_objs _ _). set (pc1 := set_activity (clk (5 * k + 1)%nat) (set_ws sock2 (set_ws sock1 pc))).
  assert (Hc1 : objs t1 !! c = Some pc1) by (cbn; by rewrite !lookup_alter_eq, Hc).
  pose proof (receive_data_spec t1 c pc1 k d Hc1 Hh) as Hspec. change (SharedSecret pc1) with (SharedSecret pc) in Hspec.
  change (rateLimiter pc1) with (rateLimiter pc) in Hspec. change (dedup t1) with (dedup t) in Hspec.
  destruct (passed1 _ d k _ _) as [[ms lim] dd]. destruct Hspec as (t' & Hrun & Hpc' & Hd & Hca & Hha & Hlog).
  sr_step Hrun. exists t', (set_limiter lim pc1). split_and!; try done. by rewrite Hca.
Qed.

Lemma readStep_end t c pc k last :
  objs t !! c = Some pc -> cancelled t = false -> arrives k (pc_Conn pc) [] last ->
  exists t' pc', readStep ed25519_verify config (clk (5 * k)%nat) (clk (5 * k + 1)%nat) (clk (5 * k + 2)%nat)
      (clk (5 * k + 3)%nat) (clk (5 * k + 4)%nat) c t = (Ok false, t') /\ handled t' = handled t /\
    objs t' !! c = Some pc' /\ pc_Conn pc' = last /\ closed pc' = closed pc.
Proof.
  intros Hc Hcan Harr. unfold readStep. reg_step. rewrite Hcan.
  rewrite (SR_bind_Ok _ _ t pc t) by (unfold get_conn; by rewrite Hc).
  inversion Harr as [k' sk err sk1 Hdl|k' sk sk1 err sk2 Hdl Hread|]; subst; rewrite Hdl; reg_step.
  - eexists _, _. split_and!; [reflexivity|done|cbn; by rewrite lookup_alter_eq, Hc|done|done].
  - rewrite Hread. reg_step. eexists _, _. split_and!; [reflexivity|done|cbn; by rewrite !lookup_alter_eq, Hc|done|done].
Qed.

Lemma read_iterations_run fuel k ds t c pc last :
  (length ds < fuel)%nat -> objs t !! c = Some pc -> cancelled t = false -> handler t = true ->
  arrives k (pc_Conn pc) ds last ->
  exists t' pc', read_iterations ed25519_verify config fuel k clk c t = (Ok tt, t') /\
    handled t' = handled t ++ ((fun m => (c, m)) <$> passed (default [] (SharedSecret pc)) k ds (rateLimiter pc) (dedup t)) /\
    objs t' !! c = Some pc' /\ pc_Conn pc' = last /\ closed pc' = closed pc.
Proof.
  revert k ds t pc. induction fuel as [|fuel IH]; intros k ds t pc Hf Hc Hcan Hh Harr; [lia|]. cbn [read_iterations].
  destruct ds as [|d ds].
  - destruct (readStep_end t c pc k last Hc Hcan Harr) as (t' & pc' & Hrun & Hlog & Hend). sr_step Hrun. exists t', pc'. split; [done|].
    split; [cbn; by rewrite app_nil_r|done].
  - inversion Harr as [| |k' sk sk1 d' sk2 ds' last' Hdl Hread Hrest]; subst. rewrite passed_cons.
    pose proof (readStep_message t c pc k sk1 d sk2 Hc Hcan Hh Hdl Hread) as Hstep.
    destruct (passed1 _ d k _ _) as [[ms lim] dd].
    destruct Hstep as (t1 & pc1 & Hrun & Hc1 & Hsk & Hcl & Hsec & Hlim & Hdd & Hcan1 & Hh1 & Hlog). sr_step Hrun.
    rewrite <- Hsk in Hrest. destruct (IH (S k) ds t1 pc1) as (t' & pc' & Hrun' & Hlog' & Hc' & Hsk' & Hcl'); try done; [cbn in Hf; lia|].
    exists t', pc'. split; [done|]. split; [|split_and!; [done|done|congruence]].
    rewrite Hlog', Hlog, Hsec, Hlim, Hdd. by rewrite fmap_app, app_assoc.
Qed.

(** Computations that call no handler. *)
Definition quiet {A} (m : SR (Transport (W := W) (FS := FS)) A) : Prop := forall t, handled (snd (m t)) = handled t.

Lemma quiet_bind {A B} (m : SR Transport A) (f : A -> SR Transport B) : quiet m -> (forall a, quiet (f a)) -> quiet (m ≫= f).
Proof.
  intros Hm Hf t. specialize (Hm t). cbv [mbind SR_bind].
  destruct (m t) as [[a|e|p|] t1]; cbn [snd] in *; try done. by rewrite Hf.
Qed.
Lemma quiet_get c : quiet (get_conn c).
Proof. intros t. unfold get_conn. by destruct (objs t !! c). Qed.
Lemma quiet_world {A} (m : SR (World FS) A) : quiet (on_world m).
Proof. intros t. unfold on_world. by destruct (m (world t)). Qed.
Lemma quiet_modify f : (forall t, handled (f t) = handled t) -> quiet (modify f).
Proof. intros Hf t. apply Hf. Qed.

Lemma CloseConn_handled i c : quiet (CloseConn i c).
Proof.
  unfold CloseConn. apply quiet_bind; [apply quiet_get|]. intros pc. destruct (closed pc); [done|].
  apply quiet_bind; [by apply quiet_modify|]. intros _. apply quiet_bind.
  - unfold dropConnection. repeat (apply quiet_bind; [apply quiet_get || apply quiet_world|]; intros).
    apply quiet_bind; [apply quiet_modify; intros; by case_decide|]. intros _. apply quiet_world.
  - intros _. unfold close_result. apply quiet_bind; [apply quiet_get|]. intros pc'. destruct (ws_Close _) as [err s].
    apply quiet_bind; [by apply quiet_modify|]. by destruct err.
Qed.

(** The connection after it was closed: the flag set, and the socket closed
    unless it was before. *)
Definition after_close (pc pc' : PeerConnection (W := W)) : Prop :=
  closed pc' = true /\ pc_Conn pc' = if closed pc then pc_Conn pc else snd (ws_Close (pc_Conn pc)).

(** Closing leaves the connection closed. *)
Lemma CloseConn_closed i t c pc :
  table_ok t -> objs t !! c = Some pc ->
  exists pc', objs (snd (CloseConn i c t)) !! c = Some pc' /\ after_close pc pc'.
Proof.
  intros (Hk & Ho & _) Hc. unfold CloseConn, after_close. rewrite (SR_bind_Ok _ _ t pc t) by (unfold get_conn; by rewrite Hc).
  destruct (closed pc) eqn:Hcl; [by exists pc|]. reg_step. set (t1 := set_objs _ t).
  assert (Hc1 : objs t1 !! c = Some (set_closed true pc)) by (cbn; by rewrite lookup_alter_eq, Hc).
  destruct (Ho c pc Hc) as [p Hp].
  destruct (dropConnection_spec i c t1 _ p Hk Hc1 Hp) as (w' & Hd & _). sr_step Hd. set (t2 := set_world _ _).
  unfold close_result. rewrite (SR_bind_Ok _ _ t2 (set_closed true pc) t2)
    by (unfold get_conn; change (objs t2) with (objs t1); by rewrite Hc1).
  change (pc_Conn (set_closed true pc)) with (pc_Conn pc). destruct (ws_Close (pc_Conn pc)) as [err sk]. reg_step.
  exists (set_ws sk (set_closed true pc)). split; [|done].
  assert (Hc2 : alter (set_ws sk) c (objs t2) !! c = Some (set_ws sk (set_closed true pc)))
    by (change (objs t2) with (objs t1); by rewrite lookup_alter_eq, Hc1).
  by destruct err.
Qed.

(** A connection that was closed is not in the table any more. *)
Lemma CloseConn_gone i t c pc :
  table_ok t -> objs t !! c = Some pc -> forall id, GetConnection id (snd (CloseConn i c t)) <> Some c.
Proof.
  intros Ht Hc id Hid. destruct (CloseConn_closed i t c pc Ht Hc) as (pc1 & Hc1 & Hcl1 & _).
  destruct (CloseConn_ok i c t Ht) as (_ & _ & Hcs). destruct (Hcs id c Hid) as (pc2 & _ & Hpc2 & Hcl2 & _).
  specialize (Hcl2 ltac:(done)). congruence.
Qed.

Lemma passed_authentic secret k ds lim dd :
  exists ds', sublist ds' ds /\ Forall2 (fun d m => decryptMessage ed25519_verify d secret = Ok m) ds' (passed secret k ds lim dd).
Proof.
  revert k lim dd. induction ds as [|d ds IH]; intros k lim dd; [by exists []|]. rewrite passed_cons.
  destruct (passed1 secret d k lim dd) as [[ms lim'] dd'] eqn:Hp. destruct (IH (S k) lim' dd') as (ds' & Hsub & Hall).
  revert Hp. unfold passed1. destruct (Allow _ lim) as [[[]| | |] l1]; try (intros [= <- <- <-]; exists ds'; split; [by constructor|done]).
  destruct (decryptMessage _ d secret) as [m| | |] eqn:Hm; try (intros [= <- <- <-]; exists ds'; split; [by constructor|done]).
  destruct (receive _ _ _ dd) as [[[]| | |] d1]; intros [= <- <- <-]; try (exists ds'; split; [by constructor|done]).
  exists (d :: ds'). split; by constructor.
Qed.

(** The connection at the end of its loop: closed, its socket closed after the
    last read (unless [Close] had been called before), and in no entry of the
    table. *)
Definition shut_down (c : positive) pc (last : W) t : Prop :=
  (exists pc', objs t !! c = Some pc' /\ closed pc' = true /\
     pc_Conn pc' = if closed pc then last else snd (ws_Close last)) /\
  forall id, GetConnection id t <> Some c.

(** The loop runs to its end, and closes the connection. *)
Lemma readLoop_runs fuel i t c pc ds last :
  table_ok t -> objs t !! c = Some pc -> cancelled t = false -> handler t = true ->
  arrives 0 (ws_SetReadLimit (limit_of_config config) (pc_Conn pc)) ds last -> (length ds < fuel)%nat ->
  exists t', readLoop ed25519_verify config fuel i clk c t = (Ok tt, t') /\
    handled t' = handled t ++ ((fun m => (c, m)) <$> passed (default [] (SharedSecret pc)) 0 ds (rateLimiter pc) (dedup t)) /\
    shut_down c pc last t'.
Proof.
  intros Ht Hc Hcan Hh Harr Hf. unfold readLoop, deferring. reg_step.
  set (f := fun pc : PeerConnection => set_ws (ws_SetReadLimit (limit_of_config config) (pc_Conn pc)) pc).
  set (t1 := set_objs (alter f c (objs t)) t).
  assert (Hs1 : silent t t1) by (apply (silently_upd c f); done).
  assert (Hc1 : objs t1 !! c = Some (f pc)) by (cbn; by rewrite lookup_alter_eq, Hc).
  destruct (read_iterations_run fuel 0 ds t1 c (f pc) last Hf Hc1 Hcan Hh Harr) as (t2 & pc2 & Hrun & Hlog & Hc2 & Hsk & Hcl).
  pose proof (read_iterations_silent ed25519_verify config fuel 0 clk c t1) as Hs2. rewrite Hrun in *. cbn [snd] in *.
  assert (Ht2 : table_ok t2) by (by eapply table_silent, table_silent).
  eexists. split; [reflexivity|]. rewrite snd_removeConnection. unfold shut_down. split_and!.
  - rewrite CloseConn_handled. exact Hlog.
  - destruct (CloseConn_closed i t2 c pc2 Ht2 Hc2) as (pc3 & Hc3 & Hcl3 & Hsk3). exists pc3. split_and!; [done|done|].
    rewrite Hsk3, Hsk, Hcl. done.
  - by apply (CloseConn_gone i t2 c pc2).
Qed.

(** C13 (safety): whatever arrives on a connection, once the socket returns an
    error the loop has returned, with the connection marked closed, its socket
    closed after the last read (if [Close] was not called before) and no entry of
    the table left for it;
    what the handler was called with are decryptions, under the secret of the
    session, of messages that arrived, in their order: those that the rate limiter
    and then the deduplication let through. *)
Theorem readLoop_delivers fuel i t c pc ds last :
  table_ok t -> objs t !! c = Some pc -> cancelled t = false -> handler t = true ->
  arrives 0 (ws_SetReadLimit (limit_of_config config) (pc_Conn pc)) ds last -> (length ds < fuel)%nat ->
  let ms := passed (default [] (SharedSecret pc)) 0 ds (rateLimiter pc) (dedup t) in
  exists t' ds', readLoop ed25519_verify config fuel i clk c t = (Ok tt, t') /\
    handled t' = handled t ++ ((fun m => (c, m)) <$> ms) /\ sublist ds' ds /\
    Forall2 (fun d m => decryptMessage ed25519_verify d (default [] (SharedSecret pc)) = Ok m) ds' ms /\
    shut_down c pc last t'.
Proof.
  intros Ht Hc Hcan Hh Harr Hf. destruct (readLoop_runs fuel i t c pc ds last Ht Hc Hcan Hh Harr Hf) as (t' & Hrun & Hlog & Hshut).
  destruct (passed_authentic (default [] (SharedSecret pc)) 0 ds (rateLimiter pc) (dedup t)) as (ds' & Hsub & Hall).
  by exists t', ds'.
Qed.

(** ** Delivery *)

(** The clock does not go back, within the 2^23 seconds from [T] in which the
    arithmetic of the limiter is exact. *)
Definition steady (T : Z) : Prop :=
  (forall a b, (a <= b)%nat -> clk a <= clk b) /\ forall a, T <= clk a < T + 2 ^ 23 * second.

Lemma receive_new u v id d : seen d !! id = None -> receive u v id d = (Ok true, mkDedup (<[id := v]> (seen d)) (ttl d)).
Proof. intros Hn. unfold receive, IsDuplicate. cbv [mbind SR_bind]. by rewrite Hn. Qed.

Lemma passed_all T s ms ds k lim dd :
  steady T -> Forall2 (sealed s) ms ds -> limiter_wf lim -> Z.of_nat (length ds) <= tokens lim ->
  T <= lastRefill lim <= clk (5 * k)%nat -> NoDup (m_ID <$> ms) -> (forall m, m ∈ ms -> seen dd !! m_ID m = None) ->
  Forall2 same_message ms (passed s k ds lim dd).
Proof.
  intros [Hmono Hwin] Hall. revert k lim dd. induction Hall as [|m d ms ds Hm _ IH]; intros k lim dd Hwf Htok Hlast Hnd Hnew; [constructor|].
  cbn [length] in Htok. assert (Hle : clk (5 * k)%nat <= clk (5 * k + 2)%nat) by (apply Hmono; lia).
  pose proof (Hwin (5 * k + 2)%nat) as Hw2.
  destruct (Allow_spec (clk (5 * k + 2)%nat) lim Hwf) as (b & lim' & HA & Hwf' & _ & _ & Hl' & Ht' & Hb); [lia|].
  set (kk := (clk (5 * k + 2)%nat - lastRefill lim) / second) in *.
  assert (Hkk : 0 <= kk) by (apply Z.div_pos; [lia|done]). destruct Hwf as (Hw & _ & Hr).
  assert (b = true) as -> by (destruct b; [done|]; destruct Hb as [Hb _]; specialize (Hb eq_refl); lia).
  destruct Hm as (Hport & rand & Hrand & Henc).
  destruct (session_roundtrip ed25519_verify rand m s d Hrand Hport Henc) as (m' & Hdec & Hsame).
  cbn [passed]. rewrite HA, Hdec. assert (Hid : m_ID m' = m_ID m) by apply Hsame. cbn [fmap list_fmap] in Hnd.
  apply NoDup_cons in Hnd as [Hnin Hnd]. rewrite receive_new by (rewrite Hid; apply Hnew; by left).
  constructor; [done|]. apply IH; [done| | |done|].
  - assert (0 <= kk * refillRate lim) by nia. lia.
  - pose proof (Hmono (5 * k + 2)%nat (5 * S k)%nat ltac:(lia)). case_decide; lia.
  - intros m2 Hm2. cbn [seen]. rewrite lookup_insert_ne; [apply Hnew; by right|]. rewrite Hid. intros Heq.
    apply Hnin. rewrite Heq. apply list_elem_of_fmap. by exists m2.
Qed.

(** C4 (functional): messages that the other end of a session sends, with IDs of
    their own and no more of them than the limiter has tokens, and that all arrive
    before the socket fails, all reach the handler, in the order they were sent,
    each the same message with the same JSON value as its payload; then the
    connection is marked closed, its socket closed (if [Close] was not called
    before), and no entry of the table is left for it. *)
Theorem end_to_end_delivery T fuel i t c pc s ms ds last :
  table_ok t -> objs t !! c = Some pc -> SharedSecret pc = Some s -> cancelled t = false -> handler t = true ->
  steady T -> limiter_wf (rateLimiter pc) -> T <= lastRefill (rateLimiter pc) <= clk 0%nat ->
  Z.of_nat (length ds) <= tokens (rateLimiter pc) ->
  NoDup (m_ID <$> ms) -> (forall m, m ∈ ms -> seen (dedup t) !! m_ID m = None) ->
  Forall2 (sealed s) ms ds ->
  arrives 0 (ws_SetReadLimit (limit_of_config config) (pc_Conn pc)) ds last -> (length ds < fuel)%nat ->
  exists t' ms', readLoop ed25519_verify config fuel i clk c t = (Ok tt, t') /\
    handled t' = handled t ++ ((fun m => (c, m)) <$> ms') /\ Forall2 same_message ms ms' /\
    shut_down c pc last t'.
Proof.
  intros Ht Hc Hs Hcan Hh Hst Hwf Hl Htok Hnd Hnew Hsealed Harr Hf.
  destruct (readLoop_runs fuel i t c pc ds last Ht Hc Hcan Hh Harr Hf) as (t' & Hrun & Hlog & Hshut).
  rewrite Hs in Hlog. eexists t', _. split_and!; [done|exact Hlog| |done]. by eapply passed_all.
Qed.
End ReadLoop.
