(* ===== verification/Lifecycle.v ===== *)
(** * Starting the transport, and its background loops (src/go/node/transport.go)

    [Start] with the server it configures, the loop that cleans the deduplicator
    up, and the keepalive loop of a connection: when it closes the connection, and
    that its own pings keep it from noticing a silent peer. *)

From S2P Require Import Prelude Crypto Float64 PeerName Peer PeerProofs PeerPersist Identity Ueps.
From S2P Require Import KeyDeriv Controller Protocol Session Duration Limits Transport TransportProofs.
From S2P Require Import ConnTable ReadLoop.

(** ** The server *)

(** [crypto/tls]: the identifiers [Start] uses. *)
Definition VersionTLS12 : Z := 0x0303.
Definition TLS_AES_128_GCM_SHA256 : Z := 0x1301.
Definition TLS_AES_256_GCM_SHA384 : Z := 0x1302.
Definition TLS_CHACHA20_POLY1305_SHA256 : Z := 0x1303.
Definition TLS_ECDHE_ECDSA_WITH_AES_128_GCM_SHA256 : Z := 0xc02b.
Definition TLS_ECDHE_ECDSA_WITH_AES_256_GCM_SHA384 : Z := 0xc02c.
Definition TLS_ECDHE_RSA_WITH_AES_128_GCM_SHA256 : Z := 0xc02f.
Definition TLS_ECDHE_RSA_WITH_AES_256_GCM_SHA384 : Z := 0xc030.
Definition TLS_ECDHE_RSA_WITH_CHACHA20_POLY1305 : Z := 0xcca8.
Definition TLS_ECDHE_ECDSA_WITH_CHACHA20_POLY1305 : Z := 0xcca9.
Definition CurveP256 : Z := 23.
Definition CurveX25519 : Z := 29.

Record tls_Config : Type := mkTLS {
  MinVersion : Z;
  CipherSuites : list Z;
  CurvePreferences : list Z
}.

(** The one route of the mux is to [handleWSUpgrade]. *)
Record http_Server : Type := mkServer {
  Addr : string;
  upgradePath : string;
  ReadTimeout : Z;
  WriteTimeout : Z;
  srv_IdleTimeout : Z;
  ReadHeaderTimeout : Z;
  TLSConfig : option tls_Config
}.

(** How the goroutine of the server listens. *)
Inductive listener : Type :=
| ListenAndServe
| ListenAndServeTLS (certFile keyFile : string).

Definition hardened : tls_Config :=
  mkTLS VersionTLS12
    [TLS_AES_128_GCM_SHA256; TLS_AES_256_GCM_SHA384; TLS_CHACHA20_POLY1305_SHA256;
     TLS_ECDHE_RSA_WITH_AES_128_GCM_SHA256; TLS_ECDHE_RSA_WITH_AES_256_GCM_SHA384;
     TLS_ECDHE_ECDSA_WITH_AES_128_GCM_SHA256; TLS_ECDHE_ECDSA_WITH_AES_256_GCM_SHA384;
     TLS_ECDHE_RSA_WITH_CHACHA20_POLY1305; TLS_ECDHE_ECDSA_WITH_CHACHA20_POLY1305]
    [CurveX25519; CurveP256].

Definition tls_enabled (config : TransportConfig) : bool :=
  bool_decide (TLSCertPath config <> EmptyString /\ TLSKeyPath config <> EmptyString).

(** [Start]: the server it stores in the transport, and what the goroutine it
    starts does with it. *)
Definition Start (config : TransportConfig) : Result (http_Server * listener) :=
  Ok (mkServer (ListenAddr config) (WSPath config) (30 * second) (30 * second) (60 * second) (10 * second)
        (if tls_enabled config then Some hardened else None),
      if tls_enabled config then ListenAndServeTLS (TLSCertPath config) (TLSKeyPath config) else ListenAndServe).

(** The clean-up goroutine, by what its [select] picks: a tick of the minute, or
    [None] when the context is done. *)
Fixpoint cleanup_loop (evs : list (option Z)) : SR MessageDeduplicator unit :=
  match evs with
  | Some t :: evs => _ ← Cleanup t; cleanup_loop evs
  | None :: _ | [] => mret tt
  end.

(** ** Keepalive *)
Section Keepalive.
Context {W : Type} `{WebSocket W}.
Context `{KDLib} `{JSON} {FS : Type} `{FileSystem FS} `{KeyLib} `{JL : MsgJSONLaws} `{AL : AEADLaws} `{HandshakeJSON}.
Context (config : TransportConfig).
Abbreviation Transport := (Transport (W := W) (FS := FS)).
Implicit Types (t : Transport) (i : Input) (c : positive).

(** What the [select] of [keepalive] picks. *)
Inductive kevent : Type :=
| KDone
| KTick (i : Input) (t1 t2 : Z).

Fixpoint keepalive c (evs : list kevent) : SR Transport unit :=
  match evs with
  | KTick i t1 t2 :: evs =>
      go ← keepaliveStep config i t1 t2 c;
      if (go : bool) then keepalive c evs else mret tt
  | KDone :: _ | [] => mret tt
  end.

(** A tick that ends the loop has closed the connection; one after which the loop
    goes on leaves the table and the registry alone. *)
Definition tick_effect c t (r : Result bool * Transport) : Prop :=
  match r with
  | (Ok false, t') => forall id, GetConnection id t' <> Some c
  | (Ok true, t') => silent t t'
  | _ => True
  end.

Lemma keepaliveStep_cases i (z1 z2 : Z) c t pc :
  table_ok t -> objs t !! c = Some pc -> tick_effect c t (keepaliveStep config i z1 z2 c t).
Proof.
  intros Ht Hc. unfold keepaliveStep. rewrite (SR_bind_Ok _ _ t pc t) by (unfold get_conn; by rewrite Hc).
  assert (Hrm : forall u pc', table_ok u -> objs u !! c = Some pc' -> tick_effect c t ((_ ← removeConnection i c; mret false) u)).
  { intros u pc' Hu Hc'. cbv [mbind SR_bind]. pose proof (CloseConn_gone i u c pc' Hu Hc') as Hg. rewrite <- snd_removeConnection in Hg.
    by destruct (removeConnection i c u) as [[]]. }
  case_decide; [by eapply Hrm|]. reg_step. destruct (get_identity t) as [identity|]; [|done].
  destruct Ht as (Hk & Ho & Hcs) eqn:HT. destruct (Ho c pc Hc) as [p Hp].
  rewrite (SR_bind_Ok _ _ t p t) by (unfold on_world, deref; rewrite Hp; by destruct t).
  destruct (NewMessage _ _ _ _ _ _ _) as [m| | |]; [|apply silent_refl|done..].
  pose proof (SendOn_silent i c m t) as Hs. unfold on_result. destruct (SendOn i c m t) as [[[]|e|q|] t']; cbn [snd] in Hs; try done.
  destruct Hs as (Hs1 & Hs2 & Hs3 & Hs4). pose proof (Hs4 c) as Hsc. rewrite Hc in Hsc. destruct (objs t' !! c) as [pc'|] eqn:Hc'; [|done].
  apply (Hrm t' pc'); [|done]. by eapply table_silent.
Qed.

(** The loop closes the connection or leaves everything as it is. *)
Lemma keepalive_effect c evs t pc :
  table_ok t -> objs t !! c = Some pc ->
  match keepalive c evs t with
  | (Ok _, t') => silent t t' \/ forall id, GetConnection id t' <> Some c
  | _ => True
  end.
Proof.
  revert t pc. induction evs as [|[|i z1 z2] evs IH]; intros t pc Ht Hc; cbn [keepalive]; [left; apply silent_refl..|].
  cbv [mbind SR_bind]. pose proof (keepaliveStep_cases i z1 z2 c t pc Ht Hc) as Hs.
  destruct (keepaliveStep config i z1 z2 c t) as [[[]|e|q|] t']; try done; [|by right]. cbn [tick_effect] in Hs.
  pose proof Hs as (_ & _ & _ & Ho). specialize (Ho c). rewrite Hc in Ho. destruct (objs t' !! c) as [pc'|] eqn:Hc'; [|done].
  specialize (IH t' pc' (table_silent _ _ _ Hs Ht) Hc'). destruct (keepalive c evs t') as [[u|e|q|] t'']; try done.
  destruct IH as [IH|IH]; [left; by eapply silent_trans|by right].
Qed.

(** ** A silent peer *)

(** A socket that accepts what is written, in the states [open]. *)
Context (open : W -> Prop).
Context (open_deadline : forall d s, open s -> exists s', ws_SetWriteDeadline d s = (None, s') /\ open s').
Context (open_write : forall d s, open s -> exists s', ws_WriteMessage BinaryMessage d s = (None, s') /\ open s').

(** A connection of a session, on which messages can be sent. *)
Definition sendable c t pc : Prop :=
  objs t !! c = Some pc /\ open (pc_Conn pc) /\ exists s, SharedSecret pc = Some s /\ len s = 32.

Lemma SendOn_open i c m t pc :
  sendable c t pc -> portable m -> (exists b, rand i 12 = inr b) ->
  exists t' pc', SendOn i c m t = (Ok tt, t') /\ silent t t' /\ sendable c t' pc' /\ LastActivity pc' = clock i.
Proof.
  intros (Hc & Hopen & s & Hs & Hlen) Hm Hrand. pose proof (SendOn_silent i c m t) as Hsil. unfold SendOn in *.
  rewrite (SR_bind_Ok _ _ t pc t) in * by (unfold get_conn; by rewrite Hc). rewrite Hs in *. change (default [] (Some s)) with s in *.
  destruct (encryptMessage_ok (rand i) m s Hm Hlen Hrand) as [d Hd]. rewrite Hd in *.
  erewrite SR_bind_Ok in * by reflexivity. destruct (open_deadline (deadline_in i (10 * second)) _ Hopen) as (s1 & Hs1 & Ho1). rewrite Hs1 in *.
  erewrite SR_bind_Ok in * by reflexivity. destruct (open_write d s1 Ho1) as (s2 & Hs2 & Ho2). rewrite Hs2 in *.
  erewrite SR_bind_Ok in * by reflexivity. destruct (open_deadline None s2 Ho2) as (s3 & Hs3 & Ho3). rewrite Hs3 in *.
  eexists _, (set_activity (clock i) (set_ws s3 (set_ws s1 pc))). split; [reflexivity|]. split; [exact Hsil|]. split; [|done].
  split; [|split; [exact Ho3|by exists s]]. cbn [snd set_objs objs]. by rewrite !lookup_alter_eq, Hc.
Qed.

(** Pings can be encoded. *)
Context (pings : forall i from to z, exists m,
  NewMessage (uuid i) (clock i) (payload_json marshalPing) MsgPing from to (Some (mkPing z)) = Ok m /\ portable m).

(** The ticks come in time: none is later after the ping before it than the two
    limits allow, as the ticks of a [time.Ticker] with the ping interval are. *)
Fixpoint in_time (last : Z) (evs : list kevent) : Prop :=
  match evs with
  | KTick i z1 z2 :: evs =>
      0 <= z1 - last <= PingInterval config + PongTimeout config /\ (exists b, rand i 12 = inr b) /\ in_time (clock i) evs
  | KDone :: _ | [] => True
  end.

(** A tick in time sends a ping, which counts as activity of the connection. *)
Lemma keepaliveStep_pings i (z1 z2 : Z) c t pc p id :
  sendable c t pc -> heap (world t) !! pc_Peer pc = Some p -> get_identity t = Some id ->
  PingInterval config + PongTimeout config < 2 ^ 63 -> 0 <= z1 - LastActivity pc <= PingInterval config + PongTimeout config ->
  (exists b, rand i 12 = inr b) ->
  exists t' pc', keepaliveStep config i z1 z2 c t = (Ok true, t') /\ silent t t' /\ sendable c t' pc' /\ LastActivity pc' = clock i.
Proof.
  intros Hs Hp Hid Hlim Hz Hrand. pose proof Hs as (Hc & _). unfold keepaliveStep.
  rewrite (SR_bind_Ok _ _ t pc t) by (unfold get_conn; by rewrite Hc).
  rewrite i64_small, Sub_small by lia. rewrite decide_False by lia. reg_step. rewrite Hid.
  rewrite (SR_bind_Ok _ _ t p t) by (unfold on_world, deref; rewrite Hp; by destruct t).
  destruct (pings i (ni_ID id) (ID p) (UnixMilli z2)) as (m & -> & Hm).
  destruct (SendOn_open i c m t pc Hs Hm Hrand) as (t' & pc' & Hrun & Hsil & Hs' & Hla).
  exists t', pc'. unfold on_result. rewrite Hrun. by split_and!.
Qed.

(** As long as the socket takes what is written, [keepalive] never
    closes a connection, however long the peer has been silent: sending a ping
    counts as activity, so that the time since the last activity never exceeds
    the limit, and [PongTimeout] has no effect. *)
Theorem keepalive_blind c evs t pc p id :
  sendable c t pc -> heap (world t) !! pc_Peer pc = Some p -> get_identity t = Some id ->
  PingInterval config + PongTimeout config < 2 ^ 63 -> in_time (LastActivity pc) evs ->
  exists t', keepalive c evs t = (Ok tt, t') /\ silent t t'.
Proof.
  intros Hs Hp Hid Hlim. revert t pc Hs Hp Hid. induction evs as [|[|i z1 z2] evs IH]; intros t pc Hs Hp Hid Htime; cbn [keepalive].
  1,2: exists t; split; [done|apply silent_refl].
  destruct Htime as (Hz & Hrand & Htime).
  destruct (keepaliveStep_pings i z1 z2 c t pc p id Hs Hp Hid Hlim Hz Hrand) as (t1 & pc1 & Hrun & Hsil & Hs1 & Hla).
  rewrite <- Hla in Htime. pose proof Hsil as (_ & Hw & Hn & Ho). specialize (Ho c). rewrite (proj1 Hs), (proj1 Hs1) in Ho.
  destruct (IH t1 pc1) as (t2 & Hrun2 & Hsil2); [done| | |done|].
  - rewrite Hw. by replace (pc_Peer pc1) with (pc_Peer pc) by (symmetry; apply Ho).
  - unfold get_identity in *. by rewrite Hn, Hw.
  - exists t2. sr_step Hrun. split; [done|]. by eapply silent_trans.
Qed.
End Keepalive.
