(* ===== verification/Shutdown.v ===== *)
(** * Shutdown of a transport (src/go/node/transport.go: Stop)

    [Stop] cancels the context, closes the connections it finds in the table,
    shuts the HTTP server down and waits for the goroutines of the transport:
    the server, the clean-up, and the read loop and the keepalive of every
    connection.  Requests and dials may be in the middle of their handshake, and
    a connection that was replaced by a newer one of its peer is not in the table
    any more.  Here all of them are interleaved; closing a connection is one step
    ([ConnRace] has its parts).  The theorem says that the shutdown comes to an
    end and what it leaves behind: nothing. *)

From S2P Require Import Prelude.

(** ** The goroutines *)

(** The handshake of a connection, in [handleWSUpgrade] or [Connect]: not begun,
    running, failed; then stored in the table, its read loop started, and its
    keepalive. *)
Inductive setup_pc : Type :=
| UpIdle
| UpShake
| UpFailed
| UpStored
| UpReading
| UpDone.

(** The read loop: before the test of the context, before [SetReadDeadline], in
    [ReadMessage], handling a message, before the deferred [removeConnection] and
    the deferred [wg.Done]. *)
Inductive read_pc : Type :=
| RNone
| RTop
| RDeadline
| RRead
| RHandle
| RRemove
| RExit
| REnd.

(** The keepalive: in its [select], handling a tick, before [removeConnection] and
    before [wg.Done]. *)
Inductive keep_pc : Type :=
| KNone
| KWait
| KTick
| KRemove
| KExit
| KEnd.

Record link : Type := mkLink {
  k_peer : string;
  k_incoming : bool;
  k_setup : setup_pc;
  k_read : read_pc;
  k_keep : keep_pc;
  k_open : bool;
  k_closed : bool
}.

(** [Stop]: not called, before it copies the table, closing the connections it
    copied, before the shutdown of the server, before [wg.Wait], returned. *)
Inductive stop_pc : Type :=
| StopIdle
| StopCollect
| StopClose (rest : list nat)
| StopServer
| StopWait
| StopDone
| StopFailed.

(** The context, the table of connections (by peer ID), the wait group, whether
    the server was started, accepts requests, and its goroutine and that of the
    clean-up still run.  [s_ticks] counts ticks, which the code does not. *)
Record closing : Type := mkClosing {
  s_done : bool;
  s_table : gmap string nat;
  s_wg : nat;
  s_started : bool;
  s_accepting : bool;
  s_serve : bool;
  s_clean : bool;
  s_stop : stop_pc;
  s_links : list link;
  s_ticks : nat
}.

Definition set_setup v (l : link) : link := mkLink (k_peer l) (k_incoming l) v (k_read l) (k_keep l) (k_open l) (k_closed l).
Definition set_read v (l : link) : link := mkLink (k_peer l) (k_incoming l) (k_setup l) v (k_keep l) (k_open l) (k_closed l).
Definition set_keep v (l : link) : link := mkLink (k_peer l) (k_incoming l) (k_setup l) (k_read l) v (k_open l) (k_closed l).
Definition set_open v (l : link) : link := mkLink (k_peer l) (k_incoming l) (k_setup l) (k_read l) (k_keep l) v (k_closed l).
Definition set_closed (l : link) : link := mkLink (k_peer l) (k_incoming l) (k_setup l) (k_read l) (k_keep l) false true.

(** [Close] and [GracefulClose]: once, the entry of the table if it is of this
    connection, and the socket. *)
Definition drop_link (k : nat) (l : link) (table : gmap string nat) : gmap string nat :=
  if k_closed l then table
  else if decide (table !! k_peer l = Some k) then delete (k_peer l) table else table.
Definition shut_link (l : link) : link := if k_closed l then l else set_closed l.

Definition stored (l : link) : bool := match k_setup l with UpStored | UpReading | UpDone => true | _ => false end.

(** A step of a goroutine of connection [k]: on the connection, the table and the
    wait group. *)
Inductive link_step (done accepting : bool) (k : nat) :
    link -> gmap string nat -> nat -> link -> gmap string nat -> nat -> Prop :=
| l_accept l m wg :
    k_setup l = UpIdle -> (k_incoming l = true -> accepting = true) ->
    link_step done accepting k l m wg (set_open true (set_setup UpShake l)) m wg
| l_reject l m wg :
    k_setup l = UpShake -> link_step done accepting k l m wg (set_open false (set_setup UpFailed l)) m wg
| l_store l m wg :
    k_setup l = UpShake -> link_step done accepting k l m wg (set_setup UpStored l) (<[k_peer l := k]> m) wg
| l_start_read l m wg :
    k_setup l = UpStored -> link_step done accepting k l m wg (set_read RTop (set_setup UpReading l)) m (S wg)
| l_start_keep l m wg :
    k_setup l = UpReading -> link_step done accepting k l m wg (set_keep KWait (set_setup UpDone l)) m (S wg)
| l_cancelled l m wg :
    k_read l = RTop -> done = true -> link_step done accepting k l m wg (set_read RRemove l) m wg
| l_go_on l m wg :
    k_read l = RTop -> done = false -> link_step done accepting k l m wg (set_read RDeadline l) m wg
| l_deadline l m wg :
    k_read l = RDeadline -> k_open l = true -> link_step done accepting k l m wg (set_read RRead l) m wg
| l_deadline_failed l m wg :
    k_read l = RDeadline -> link_step done accepting k l m wg (set_read RRemove l) m wg
| l_message l m wg :
    k_read l = RRead -> k_open l = true -> link_step done accepting k l m wg (set_read RHandle l) m wg
(** The socket was closed, failed, or the deadline has passed. *)
| l_read_failed l m wg :
    k_read l = RRead -> link_step done accepting k l m wg (set_read RRemove l) m wg
| l_handled l m wg :
    k_read l = RHandle -> link_step done accepting k l m wg (set_read RTop l) m wg
| l_remove l m wg :
    k_read l = RRemove -> link_step done accepting k l m wg (set_read RExit (shut_link l)) (drop_link k l m) wg
| l_read_ends l m wg :
    k_read l = RExit -> link_step done accepting k l m wg (set_read REnd l) m (pred wg)
| l_keep_cancelled l m wg :
    k_keep l = KWait -> done = true -> link_step done accepting k l m wg (set_keep KExit l) m wg
| l_pinged l m wg :
    k_keep l = KTick -> link_step done accepting k l m wg (set_keep KWait l) m wg
| l_ping_failed l m wg :
    k_keep l = KTick -> link_step done accepting k l m wg (set_keep KRemove l) m wg
| l_keep_remove l m wg :
    k_keep l = KRemove -> link_step done accepting k l m wg (set_keep KExit (shut_link l)) (drop_link k l m) wg
| l_keep_ends l m wg :
    k_keep l = KExit -> link_step done accepting k l m wg (set_keep KEnd l) m (pred wg)
(** A caller of [Close] or [GracefulClose], such as [DisconnectFromPeer]. *)
| l_close l m wg :
    stored l = true -> k_closed l = false -> link_step done accepting k l m wg (shut_link l) (drop_link k l m) wg.

Inductive shut_step : closing -> closing -> Prop :=
| ss_link k l l' d m m' wg wg' b a sv c st ls n :
    ls !! k = Some l -> link_step d a k l m wg l' m' wg' ->
    shut_step (mkClosing d m wg b a sv c st ls n) (mkClosing d m' wg' b a sv c st (<[k := l']> ls) n)
| ss_tick k l d m wg b a sv c st ls n :
    ls !! k = Some l -> k_keep l = KWait ->
    shut_step (mkClosing d m wg b a sv c st ls n) (mkClosing d m wg b a sv c st (<[k := set_keep KTick l]> ls) (S n))
(** [ListenAndServe] returns once the server is shut down or cannot listen. *)
| ss_listen_failed d m wg b sv c st ls n :
    shut_step (mkClosing d m wg b true sv c st ls n) (mkClosing d m wg b false sv c st ls n)
| ss_served d m wg b c st ls n :
    shut_step (mkClosing d m wg b false true c st ls n) (mkClosing d m (pred wg) b false false c st ls n)
| ss_cleaned m wg b a sv st ls n :
    shut_step (mkClosing true m wg b a sv true st ls n) (mkClosing true m (pred wg) b a sv false st ls n)
| ss_cancel d m wg b a sv c ls n :
    shut_step (mkClosing d m wg b a sv c StopIdle ls n) (mkClosing true m wg b a sv c StopCollect ls n)
| ss_collect d m wg b a sv c ls n :
    shut_step (mkClosing d m wg b a sv c StopCollect ls n) (mkClosing d m wg b a sv c (StopClose (map_to_list m).*2) ls n)
| ss_close k l rest d m wg b a sv c ls n :
    ls !! k = Some l ->
    shut_step (mkClosing d m wg b a sv c (StopClose (k :: rest)) ls n)
              (mkClosing d (drop_link k l m) wg b a sv c (StopClose rest) (<[k := shut_link l]> ls) n)
| ss_closed d m wg b a sv c ls n :
    shut_step (mkClosing d m wg b a sv c (StopClose []) ls n) (mkClosing d m wg b a sv c StopServer ls n)
| ss_not_started d m wg a sv c ls n :
    shut_step (mkClosing d m wg false a sv c StopServer ls n) (mkClosing d m wg false a sv c StopWait ls n)
| ss_shutdown d m wg a sv c ls n :
    shut_step (mkClosing d m wg true a sv c StopServer ls n) (mkClosing d m wg true false sv c StopWait ls n)
(** The handlers that still run outlast the five seconds. *)
| ss_shutdown_failed d m wg a sv c ls n :
    shut_step (mkClosing d m wg true a sv c StopServer ls n) (mkClosing d m wg true false sv c StopFailed ls n)
| ss_waited d m b a sv c ls n :
    shut_step (mkClosing d m 0 b a sv c StopWait ls n) (mkClosing d m 0 b a sv c StopDone ls n).

(** A connection to come: whose, and whether it is accepted or dialled. *)
Definition new_link (c : string * bool) : link := mkLink c.1 c.2 UpIdle RNone KNone false false.
Definition shut_init (started : bool) (cs : list (string * bool)) : closing :=
  mkClosing false ∅ (if started then 2 else 0) started started started started StopIdle (new_link <$> cs) 0.

(** ** The invariant *)

Definition reading (r : read_pc) : nat := match r with RNone | REnd => 0 | _ => 1 end.
Definition keeping (k : keep_pc) : nat := match k with KNone | KEnd => 0 | _ => 1 end.
Definition loops (l : link) : nat := reading (k_read l) + keeping (k_keep l).
Definition bit (b : bool) : nat := if b then 1 else 0.

(** What the goroutines of a connection have in common: the read loop does not
    end before the connection is closed. *)
Definition read_ok (l : link) : Prop :=
  k_read l <> RNone /\ k_open l = negb (k_closed l) /\ (k_read l = RExit \/ k_read l = REnd -> k_closed l = true).
Definition link_ok (l : link) : Prop :=
  match k_setup l with
  | UpIdle | UpFailed => k_read l = RNone /\ k_keep l = KNone /\ k_open l = false /\ k_closed l = false
  | UpShake => k_read l = RNone /\ k_keep l = KNone /\ k_open l = true /\ k_closed l = false
  | UpStored => k_read l = RNone /\ k_keep l = KNone /\ k_open l = negb (k_closed l)
  | UpReading => read_ok l /\ k_keep l = KNone
  | UpDone => read_ok l /\ k_keep l <> KNone
  end.

(** The table has connections that are not closed. *)
Definition listed_ok (m : gmap string nat) (ls : list link) : Prop :=
  forall id k, m !! id = Some k -> exists l, ls !! k = Some l /\ k_peer l = id /\ k_closed l = false /\ stored l = true.

Lemma listed_same m ls k l l' :
  ls !! k = Some l -> k_peer l' = k_peer l -> (k_closed l = false -> stored l = true -> k_closed l' = false /\ stored l' = true) ->
  listed_ok m ls -> listed_ok m (<[k := l']> ls).
Proof.
  intros Hk Hp Hc Hm id j Hj. destruct (Hm id j Hj) as (q & Hq & Hqp & Hqc & Hqs). destruct (decide (j = k)) as [->|Hne].
  - exists l'. rewrite list_lookup_insert_eq by (by eapply lookup_lt_Some). rewrite Hk in Hq. injection Hq as <-.
    split; [done|]. split; [congruence|]. by apply Hc.
  - exists q. by rewrite list_lookup_insert_ne.
Qed.
Lemma listed_store m ls k l l' :
  ls !! k = Some l -> k_peer l' = k_peer l -> k_closed l' = false -> stored l' = true -> stored l = false ->
  listed_ok m ls -> listed_ok (<[k_peer l := k]> m) (<[k := l']> ls).
Proof.
  intros Hk Hp Hc Hs Hn Hm id j. destruct (decide (id = k_peer l)) as [->|Hne].
  - rewrite lookup_insert_eq. intros [= <-]. exists l'. by rewrite list_lookup_insert_eq by (by eapply lookup_lt_Some).
  - rewrite lookup_insert_ne by done. intros Hj. destruct (Hm id j Hj) as (q & Hq & Hqp & Hqc & Hqs).
    assert (j <> k) by (intros ->; congruence). exists q. by rewrite list_lookup_insert_ne.
Qed.
Lemma listed_shut m ls k l l' :
  ls !! k = Some l -> k_peer l' = k_peer l -> k_closed l' = true ->
  listed_ok m ls -> listed_ok (drop_link k l m) (<[k := l']> ls).
Proof.
  intros Hk Hp Hc Hm id j Hj.
  assert (Hin : m !! id = Some j /\ j <> k).
  { unfold drop_link in Hj. destruct (k_closed l) eqn:Hcl; [|case_decide as Hd].
    - split; [done|]. intros ->. destruct (Hm _ _ Hj) as (q & Hq & _ & Hqc & _). congruence.
    - apply lookup_delete_Some in Hj as [Hne Hj]. split; [done|]. intros ->. destruct (Hm _ _ Hj) as (q & Hq & Hqp & _). congruence.
    - split; [done|]. intros ->. destruct (Hm _ _ Hj) as (q & Hq & Hqp & _). congruence. }
  destruct Hin as [Hin Hne]. rewrite list_lookup_insert_ne by done. by apply Hm.
Qed.

(** One step of a connection's goroutines. *)
Lemma link_step_ok d a k l m wg l' m' wg' ls :
  link_step d a k l m wg l' m' wg' -> ls !! k = Some l -> link_ok l -> listed_ok m ls ->
  link_ok l' /\ listed_ok m' (<[k := l']> ls) /\ ((loops l <= wg)%nat -> (wg' + loops l = wg + loops l')%nat).
Proof.
  intros Hs Hk Hok Hm.
  assert (Hgoal : link_ok l' /\ k_peer l' = k_peer l /\ ((loops l <= wg)%nat -> (wg' + loops l = wg + loops l')%nat) /\
    (m' = m /\ (k_closed l = false -> stored l = true -> k_closed l' = false /\ stored l' = true) \/
     m' = <[k_peer l := k]> m /\ k_closed l' = false /\ stored l' = true /\ stored l = false \/
     m' = drop_link k l m /\ k_closed l' = true)).
  { destruct Hs; destruct l as [p i su r kp o c]; cbn in *; subst; unfold link_ok, read_ok, shut_link in *; cbn in *.
    all: try (destruct c; cbn).
    all: try (destruct su; cbn in * ).
    all: unfold loops; cbn; intuition (subst; cbn in *; congruence || lia || auto). }
  destruct Hgoal as (Hok' & Hp & Hwg & Hcases). split_and!; [done| |done].
  destruct Hcases as [(-> & Hsame)|[(-> & Hc & Hst & Hn)|(-> & Hc)]];
    [by eapply listed_same|by eapply listed_store|by eapply listed_shut].
Qed.

Definition past_server (st : stop_pc) : bool := match st with StopWait | StopDone | StopFailed => true | _ => false end.
Definition is_stored (ls : list link) (k : nat) : Prop := exists l, ls !! k = Some l /\ stored l = true.

Lemma link_step_stored d a k l m wg l' m' wg' : link_step d a k l m wg l' m' wg' -> stored l = true -> stored l' = true.
Proof.
  intros Hs Hst. destruct Hs; destruct l as [p i su r kp o c]; cbn in *; subst; unfold shut_link; cbn; try done.
  all: by destruct c.
Qed.
Lemma stored_insert ls k l l' j :
  ls !! k = Some l -> (stored l = true -> stored l' = true) -> is_stored ls j -> is_stored (<[k := l']> ls) j.
Proof.
  intros Hk Hst (q & Hq & Hs). destruct (decide (j = k)) as [->|Hne]; [|exists q; by rewrite list_lookup_insert_ne].
  exists l'. rewrite list_lookup_insert_eq by (by eapply lookup_lt_Some). rewrite Hk in Hq. injection Hq as <-. auto.
Qed.

Record shut_inv (n : nat) (s : closing) : Prop := mkShutInv {
  si_length : length (s_links s) = n;
  si_links : Forall link_ok (s_links s);
  si_table : listed_ok (s_table s) (s_links s);
  si_wg : s_wg s = (sum_list_with loops (s_links s) + bit (s_serve s) + bit (s_clean s))%nat;
  si_done : s_done s = true <-> s_stop s <> StopIdle;
  si_accepting : past_server (s_stop s) = true -> s_accepting s = false;
  si_started : s_started s = false -> s_accepting s = false;
  si_rest : forall rest, s_stop s = StopClose rest -> Forall (is_stored (s_links s)) rest
}.

Lemma shut_link_ok l : link_ok l -> stored l = true -> link_ok (shut_link l).
Proof.
  destruct l as [p i su r kp o []]; unfold link_ok, read_ok, shut_link, stored; cbn; [done|]. destruct su; cbn; intuition congruence.
Qed.
Lemma loops_le ls k l : ls !! k = Some l -> (loops l <= sum_list_with loops ls)%nat.
Proof. intros Hk. pose proof (sum_update loops ls k (new_link (EmptyString, false)) l Hk). cbn in *. lia. Qed.

(** A step of [Stop] that touches no connection. *)
Ltac shut_moves Hd := split; cbn; [done|done|done|done|by rewrite Hd|try done; by auto|try done; by auto|done].

Lemma shut_inv_step n s s' : shut_inv n s -> shut_step s s' -> shut_inv n s'.
Proof.
  intros [Hn Hl Ht Hw Hd Ha Hb Hr] Hs. destruct Hs as [k l l' d m m' wg wg' b a sv c st ls i Hk Hst|k l d m wg b a sv c st ls i Hk Hkw
    |d m wg b sv c st ls i|d m wg b c st ls i|m wg b a sv st ls i|d m wg b a sv c ls i|d m wg b a sv c ls i
    |k l rest d m wg b a sv c ls i Hk|d m wg b a sv c ls i|d m wg a sv c ls i|d m wg a sv c ls i|d m wg a sv c ls i|d m b a sv c ls i]; cbn in *.
  - pose proof (proj1 (Forall_lookup _ _) Hl k l Hk) as Hok.
    destruct (link_step_ok _ _ _ _ _ _ _ _ _ _ Hst Hk Hok Ht) as (Hok' & Ht' & Hwg). pose proof (sum_update loops ls k l' l Hk).
    pose proof (loops_le ls k l Hk). split; cbn; [by rewrite length_insert|by apply Forall_insert|done|lia|done..|].
    intros rest Hrest. eapply Forall_impl; [by apply Hr|]. intros j. eapply stored_insert; [done|]. by eapply link_step_stored.
  - pose proof (proj1 (Forall_lookup _ _) Hl k l Hk) as Hok. pose proof (sum_update loops ls k (set_keep KTick l) l Hk) as Hu.
    assert (loops (set_keep KTick l) = loops l) by (unfold loops; cbn; by rewrite Hkw).
    split; cbn; [by rewrite length_insert| |by eapply listed_same|lia|done..|].
    + apply Forall_insert; [done|]. destruct l as [p ic su r kp o cl]. cbn in Hkw. subst. unfold link_ok, read_ok in *; cbn in *.
      destruct su; cbn; intuition congruence.
    + intros rest Hrest. eapply Forall_impl; [by apply Hr|]. intros j. by eapply stored_insert.
  - by split.
  - split; cbn in *; [done|done|done|lia|done..].
  - split; cbn in *; [done|done|done|lia|done..].
  - by split.
  - split; cbn; [done..|by rewrite Hd|done|done|]. intros rest [= <-]. apply Forall_forall. intros k Hin.
    apply list_elem_of_fmap in Hin as ([id j] & -> & Hin). apply elem_of_map_to_list in Hin.
    destruct (Ht id j Hin) as (l & Hl' & _ & _ & Hst). by exists l.
  - destruct (proj1 (Forall_cons _ _ _) (Hr _ eq_refl)) as [(l0 & Hl0 & Hst) Hrest]. rewrite Hk in Hl0. injection Hl0 as <-.
    pose proof (sum_update loops ls k (shut_link l) l Hk) as Hu.
    assert (loops (shut_link l) = loops l /\ k_peer (shut_link l) = k_peer l /\ k_closed (shut_link l) = true /\ stored (shut_link l) = true)
      as (Hlo & Hpe & Hcl & Hst').
    { destruct l as [p ic su r kp o []]; cbn in *; auto. }
    split; cbn; [by rewrite length_insert| |by apply listed_shut|lia|by rewrite Hd|done|done|].
    + apply Forall_insert; [done|]. apply shut_link_ok; [|done]. exact (proj1 (Forall_lookup _ _) Hl k l Hk).
    + intros rest' [= <-]. eapply Forall_impl; [done|]. intros j. by eapply stored_insert.
  - shut_moves Hd.
  - shut_moves Hd.
  - shut_moves Hd.
  - shut_moves Hd.
  - shut_moves Hd.
Qed.

Lemma shut_inv_init started cs : shut_inv (length cs) (shut_init started cs).
Proof.
  split; cbn; [by rewrite length_fmap| |done| |done|done|by destruct started|done].
  - apply Forall_fmap, Forall_true. by intros [id i].
  - assert (Hz : sum_list_with loops (new_link <$> cs) = 0%nat) by (by induction cs as [|[] cs IH]). rewrite Hz. by destruct started.
Qed.
Lemma shut_reachable started cs s : rtc shut_step (shut_init started cs) s -> shut_inv (length cs) s.
Proof.
  intros Hr. apply (rtc_ind_r (fun s => shut_inv (length cs) s) _ (shut_inv_init started cs)) in Hr; [done|].
  intros a b _ Hs Ha. by eapply shut_inv_step.
Qed.

(** ** Termination *)

Definition setup_weight (p : setup_pc) : nat :=
  match p with UpIdle => 10 | UpShake => 9 | UpStored => 7 | UpReading => 3 | UpFailed | UpDone => 0 end.
Definition read_weight (r : read_pc) : nat :=
  match r with RDeadline => 6 | RRead => 5 | RHandle => 4 | RTop => 3 | RRemove => 2 | RExit => 1 | RNone | REnd => 0 end.
Definition keep_weight (k : keep_pc) : nat :=
  match k with KTick => 3 | KWait | KRemove => 2 | KExit => 1 | KNone | KEnd => 0 end.
Definition link_weight (l : link) : nat :=
  setup_weight (k_setup l) + read_weight (k_read l) + keep_weight (k_keep l) + bit (negb (k_closed l)).
Definition stop_weight (m : gmap string nat) (st : stop_pc) : nat :=
  match st with
  | StopIdle | StopDone | StopFailed => 0
  | StopCollect => size m + 4
  | StopClose rest => length rest + 3
  | StopServer => 2
  | StopWait => 1
  end.
Definition shut_weight (s : closing) : nat :=
  sum_list_with link_weight (s_links s) + stop_weight (s_table s) (s_stop s) + bit (s_accepting s) + bit (s_serve s) + bit (s_clean s).

Lemma drop_link_size k l m : (size (drop_link k l m) <= size m)%nat.
Proof.
  unfold drop_link. destruct (k_closed l); [done|]. case_decide as Hd; [|done]. rewrite map_size_delete, Hd. lia.
Qed.
Lemma link_step_weight a k l m wg l' m' wg' :
  link_step true a k l m wg l' m' wg' -> link_ok l ->
  (link_weight l' < link_weight l /\ link_weight l' + size m' < link_weight l + size m)%nat.
Proof.
  intros Hs Hok. pose proof (drop_link_size k l m) as Hsz.
  assert (Hins : (size (<[k_peer l := k]> m) <= S (size m))%nat) by (rewrite map_size_insert; destruct (m !! k_peer l); cbn; lia).
  unfold link_weight. destruct Hs; destruct l as [p i su r kp o c]; cbn in *; subst; unfold link_ok, read_ok, shut_link in *; cbn in *.
  all: try done; try (destruct c; cbn; try done); try lia.
  all: destruct_and?; subst; cbn in *; lia.
Qed.

Lemma shut_step_weight n s s' :
  shut_inv n s -> s_done s = true -> shut_step s s' ->
  (S (shut_weight s') + 2 * s_ticks s <= shut_weight s + 2 * s_ticks s')%nat /\ s_done s' = true.
Proof.
  intros Hinv Hdone Hs. pose proof (si_links _ _ Hinv) as Hl. pose proof (proj1 (si_done _ _ Hinv) Hdone) as Hst. clear Hinv.
  unfold shut_weight. destruct Hs as [k l l' d m m' wg wg' b a sv c st ls i Hk Hstep|k l d m wg b a sv c st ls i Hk Hkw
    | | | | | |k l rest d m wg b a sv c ls i Hk| | | | | ]; cbn in *; subst.
  - pose proof (link_step_weight _ _ _ _ _ _ _ _ Hstep (proj1 (Forall_lookup _ _) Hl k l Hk)) as [H1 H2].
    pose proof (sum_update link_weight ls k l' l Hk). destruct st; cbn; lia.
  - pose proof (sum_update link_weight ls k (set_keep KTick l) l Hk) as Hu. unfold link_weight in Hu at 2 4. cbn in Hu. rewrite Hkw in Hu. cbn in Hu. lia.
  - lia.
  - lia.
  - lia.
  - done.
  - rewrite length_fmap, length_map_to_list. lia.
  - pose proof (sum_update link_weight ls k (shut_link l) l Hk) as Hu.
    assert (link_weight (shut_link l) <= link_weight l)%nat by (destruct l as [p ic su r kp o []]; unfold link_weight; cbn; lia). lia.
  - lia.
  - lia.
  - destruct a; cbn; lia.
  - destruct a; cbn; lia.
  - lia.
Qed.

Lemma listed_size m ls : listed_ok m ls -> (size m <= length ls)%nat.
Proof.
  intros Hm. rewrite <- length_map_to_list, <- (length_fmap snd). rewrite <- (length_seq (length ls) 0).
  apply submseteq_length, NoDup_submseteq.
  - apply NoDup_fmap_2_strong; [|apply NoDup_map_to_list]. intros [id k] [id' k'] Hin Hin' Heq. cbn in Heq. subst k'.
    apply elem_of_map_to_list, Hm in Hin as (l & Hl & <- & _). apply elem_of_map_to_list, Hm in Hin' as (l' & Hl' & <- & _). congruence.
  - intros k ([id j] & -> & Hin)%list_elem_of_fmap. apply elem_of_map_to_list, Hm in Hin as (l & Hl & _). apply elem_of_seq.
    apply lookup_lt_Some in Hl. cbn. lia.
Qed.
Lemma link_weight_le l : link_ok l -> (link_weight l <= 11)%nat.
Proof. destruct l as [p i [] [] [] o []]; unfold link_ok, read_ok, link_weight; cbn; intuition (discriminate || lia). Qed.
Lemma links_weight_le ls : Forall link_ok ls -> (sum_list_with link_weight ls <= 11 * length ls)%nat.
Proof.
  induction 1 as [|l ls Hok _ IH]; [done|]. cbn [sum_list_with length]. pose proof (link_weight_le l Hok). lia.
Qed.
Lemma cancelled_weight n s : shut_inv n s -> s_stop s = StopCollect -> (shut_weight s <= 12 * n + 7)%nat.
Proof.
  intros Hinv Hst. pose proof (listed_size _ _ (si_table _ _ Hinv)) as Hsz. pose proof (si_length _ _ Hinv) as Hn.
  pose proof (links_weight_le _ (si_links _ _ Hinv)) as Hsum.
  assert (forall b, (bit b <= 1)%nat) as Hbit by (intros []; cbn; lia).
  pose proof (Hbit (s_accepting s)). pose proof (Hbit (s_serve s)). pose proof (Hbit (s_clean s)).
  unfold shut_weight. rewrite Hst. cbn. lia.
Qed.
Lemma shut_steps_weight n s m s' :
  shut_inv n s -> s_done s = true -> nsteps shut_step m s s' ->
  shut_inv n s' /\ (m + shut_weight s' + 2 * s_ticks s <= shut_weight s + 2 * s_ticks s')%nat.
Proof.
  intros Hinv Hd Hn. induction Hn as [|m a b c Hs _ IH]; [split; [done|lia]|].
  destruct (shut_step_weight _ _ _ Hinv Hd Hs) as [Hw Hd']. destruct (IH (shut_inv_step _ _ _ Hinv Hs) Hd'). split; [done|lia].
Qed.

(** Nothing is left to do: [Stop] has returned, no handshake and no goroutine
    runs. *)
Definition link_settled (l : link) : bool :=
  match k_setup l with UpIdle | UpFailed | UpDone => true | _ => false end && bool_decide (loops l = 0%nat).
Definition stopped (st : stop_pc) : bool := match st with StopDone | StopFailed => true | _ => false end.
Definition settled (s : closing) : Prop :=
  stopped (s_stop s) = true /\ s_serve s = false /\ s_clean s = false /\ Forall (fun l => link_settled l = true) (s_links s).

Lemma loops_zero ls : sum_list_with loops ls = 0%nat <-> Forall (fun l => loops l = 0%nat) ls.
Proof.
  induction ls as [|l ls IH]; cbn [sum_list_with]; [by split|]. rewrite Forall_cons, <- IH. lia.
Qed.
Lemma loop_progress a k l m wg :
  loops l <> 0%nat -> exists l' m' wg', link_step true a k l m wg l' m' wg'.
Proof.
  unfold loops. intros Hs. destruct (k_read l) eqn:Hr; cbn in Hs.
  2: by do 3 eexists; apply l_cancelled.
  2: by do 3 eexists; apply l_deadline_failed.
  2: by do 3 eexists; apply l_read_failed.
  2: by do 3 eexists; apply l_handled.
  2: by do 3 eexists; apply l_remove.
  2: by do 3 eexists; apply l_read_ends.
  all: destruct (k_keep l) eqn:Hk; cbn in Hs; [done| | | | |done];
    do 3 eexists; [by apply l_keep_cancelled|by apply l_ping_failed|by apply l_keep_remove|by apply l_keep_ends].
Qed.
Lemma link_progress a k l m wg :
  link_settled l = false -> exists l' m' wg', link_step true a k l m wg l' m' wg'.
Proof.
  unfold link_settled. intros Hs.
  destruct (k_setup l) eqn:Hsu; cbn in Hs; [|by do 3 eexists; apply l_reject| |by do 3 eexists; apply l_start_read|by do 3 eexists; apply l_start_keep|].
  all: apply bool_decide_eq_false in Hs; by apply loop_progress.
Qed.

Lemma shut_progress n s :
  shut_inv n s -> s_done s = true -> settled s \/ exists s', shut_step s s' /\ s_ticks s' = s_ticks s.
Proof.
  intros Hinv Hd. destruct (decide (Forall (fun l => link_settled l = true) (s_links s))) as [Hall|Hnot].
  2: { right. apply not_Forall_Exists in Hnot; [|apply _]. apply Exists_exists in Hnot as (l & Hin & Hl). apply not_true_is_false in Hl.
       apply list_elem_of_lookup in Hin as [k Hk]. destruct s as [d m wg b a sv c st ls i]. cbn in *. subst d.
       destruct (link_progress a k l m wg Hl) as (l' & m' & wg' & Hstep). eexists. split; [by eapply ss_link|done]. }
  pose proof (si_accepting _ _ Hinv) as Ha. pose proof (si_wg _ _ Hinv) as Hwg. pose proof (si_rest _ _ Hinv) as Hrest.
  pose proof (proj1 (si_done _ _ Hinv) Hd) as Hst.
  assert (Hz : sum_list_with loops (s_links s) = 0%nat).
  { apply loops_zero. eapply Forall_impl; [exact Hall|]. intros l Hl. unfold link_settled in Hl.
    by apply andb_prop in Hl as [_ Hl%bool_decide_eq_true]. }
  destruct s as [d m wg b a sv c st ls i]. cbn in *. subst d.
  destruct c; [right; eexists; split; [apply ss_cleaned|done]|].
  destruct st as [| |[|k rest]| | | |]; [done|right; eexists; split; [apply ss_collect|done]|right; eexists; split; [apply ss_closed|done]| | | | |].
  - right. destruct (proj1 (Forall_cons _ _ _) (Hrest _ eq_refl)) as [(l & Hl & _) _]. eexists. split; [by eapply ss_close|done].
  - right. destruct b; eexists; (split; [first [apply ss_shutdown|apply ss_not_started]|done]).
  - right. rewrite Ha by done. destruct sv; [eexists; split; [apply ss_served|done]|].
    assert (wg = 0%nat) as -> by (cbn in Hwg; lia). eexists. split; [apply ss_waited|done].
  - destruct sv; [right; rewrite Ha by done; eexists; split; [apply ss_served|done]|by left].
  - destruct sv; [right; rewrite Ha by done; eexists; split; [apply ss_served|done]|by left].
Qed.

(** Nothing is left behind. *)
Lemma settled_clean n s :
  shut_inv n s -> settled s ->
  s_table s = ∅ /\ s_wg s = 0%nat /\ Forall (fun l => k_open l = false) (s_links s).
Proof.
  intros Hinv (_ & Hsv & Hc & Hall).
  assert (Hcl : forall k l, s_links s !! k = Some l -> k_open l = false /\ loops l = 0%nat /\ (stored l = true -> k_closed l = true)).
  { intros k l Hk. pose proof (proj1 (Forall_lookup _ _) Hall k l Hk) as Hs. pose proof (proj1 (Forall_lookup _ _) (si_links _ _ Hinv) k l Hk) as Hok.
    unfold link_settled in Hs. apply andb_prop in Hs as [Hs Hz%bool_decide_eq_true]. split_and!; [|done|].
    all: destruct l as [p i [] [] [] o []]; unfold link_ok, read_ok, loops, stored in *; cbn in *; intuition (congruence || lia). }
  split_and!.
  - apply map_eq. intros id. rewrite lookup_empty. destruct (s_table s !! id) as [k|] eqn:Hk; [|done].
    destruct (si_table _ _ Hinv id k Hk) as (l & Hl & _ & Hno & Hst). destruct (Hcl k l Hl) as (_ & _ & Hyes). specialize (Hyes Hst). congruence.
  - rewrite (si_wg _ _ Hinv), Hsv, Hc. rewrite (proj2 (loops_zero _)); [done|].
    apply Forall_lookup; intros k l Hk; by apply (Hcl k l).
  - apply Forall_lookup. intros k l Hk. by apply (Hcl k l).
Qed.

(** C10 (liveness): once [Stop] has cancelled the context, the shutdown comes to an
    end whatever the scheduler does: among any connections, accepted, dialled,
    in the middle of their handshake, replaced or closed by others, no run has
    more than twelve steps per connection and seven more, not counting two for
    every tick of a keepalive that a [select] still takes, and there is always a
    step to make until [Stop] has returned and every goroutine has ended.  Then
    the table is empty and every socket closed.  When [Stop] returns from
    [wg.Wait], no read loop and no keepalive runs. *)
Theorem stop_completes started cs s n s' :
  rtc shut_step (shut_init started cs) s -> s_stop s = StopCollect -> nsteps shut_step n s s' ->
  (n + 2 * s_ticks s <= 12 * length cs + 7 + 2 * s_ticks s')%nat /\
  (settled s' \/ exists s'', shut_step s' s'' /\ s_ticks s'' = s_ticks s') /\
  (settled s' -> s_table s' = ∅ /\ s_wg s' = 0%nat /\ Forall (fun l => k_open l = false) (s_links s')) /\
  (forall s'', shut_step s' s'' -> s_stop s' = StopWait -> s_stop s'' = StopDone ->
    Forall (fun l => loops l = 0%nat) (s_links s'')).
Proof.
  intros Hr Hst Hn. pose proof (shut_reachable _ _ _ Hr) as Hinv.
  assert (Hd : s_done s = true) by (apply (si_done _ _ Hinv); by rewrite Hst).
  destruct (shut_steps_weight _ _ _ _ Hinv Hd Hn) as [Hinv' Hw]. pose proof (cancelled_weight _ _ Hinv Hst) as Hc.
  assert (Hd' : s_done s' = true) by (clear -Hinv Hd Hn; induction Hn as [|m a b c Hs _ IH]; [done|];
    apply IH; [by eapply shut_inv_step|by eapply shut_step_weight]).
  split_and!; [lia|by eapply shut_progress|by eapply settled_clean|].
  intros s'' Hs Hw' Hdone. pose proof (si_wg _ _ (shut_inv_step _ _ _ Hinv' Hs)) as Hwg.
  destruct Hs; cbn in *; try congruence. apply loops_zero. lia.
Qed.

(** ** At work *)

(** A request in the middle of its handshake: [Stop] returns before it is stored.
    Its own read loop closes it. *)
Definition one_request : list (string * bool) := [("alice"%string, true)].
Definition accepted : closing := mkClosing true ∅ 2 true true true true StopCollect [mkLink "alice" true UpShake RNone KNone true false] 0.

Lemma accepted_reached : rtc shut_step (shut_init true one_request) accepted.
Proof.
  eapply rtc_l; [eapply (ss_link 0); [reflexivity|by apply l_accept]|]. eapply rtc_l; [apply ss_cancel|]. apply rtc_refl.
Qed.

(** [Stop] has returned without an error, and there is a connection in the table. *)
Definition late : closing :=
  mkClosing true {[ "alice"%string := 0%nat ]} 0 true false false false StopDone [mkLink "alice" true UpStored RNone KNone true false] 0.
Lemma handshake_run : nsteps shut_step 7 accepted late.
Proof.
  eapply nsteps_l; [apply ss_collect|]. eapply nsteps_l; [apply ss_closed|]. eapply nsteps_l; [apply ss_shutdown|].
  eapply nsteps_l; [apply ss_served|]. eapply nsteps_l; [apply ss_cleaned|]. eapply nsteps_l; [apply ss_waited|].
  eapply nsteps_l; [eapply (ss_link 0); [reflexivity|by apply l_store]|]. apply nsteps_O.
Qed.
Lemma handshake_ends : exists s, nsteps shut_step 7 late s /\ settled s.
Proof.
  eexists. split.
  - eapply nsteps_l; [eapply (ss_link 0); [reflexivity|by apply l_start_read]|].
    eapply nsteps_l; [eapply (ss_link 0); [reflexivity|by apply l_start_keep]|].
    eapply nsteps_l; [eapply (ss_link 0); [reflexivity|by apply l_cancelled]|].
    eapply nsteps_l; [eapply (ss_link 0); [reflexivity|by apply l_remove]|].
    eapply nsteps_l; [eapply (ss_link 0); [reflexivity|by apply l_read_ends]|].
    eapply nsteps_l; [eapply (ss_link 0); [reflexivity|by apply l_keep_cancelled]|].
    eapply nsteps_l; [eapply (ss_link 0); [reflexivity|by apply l_keep_ends]|]. apply nsteps_O.
  - split_and!; [reflexivity..|]. repeat constructor.
Qed.

(** [Stop] does not wait for handshakes: it can return, with success, before a
    connection is added to the table and its goroutines to the wait group. *)
Theorem stop_misses_handshake :
  exists s, rtc shut_step (shut_init true one_request) s /\ s_stop s = StopDone /\ s_table s <> ∅.
Proof.
  exists late. split; [|split; [done|]].
  - etrans; [exact accepted_reached|]. by eapply rtc_nsteps_2, handshake_run.
  - cbn. intros Heq. by apply (f_equal (lookup "alice"%string)) in Heq.
Qed.

Lemma stop_completes_witness : exists s, nsteps shut_step 14 accepted s /\ settled s /\ s_table s = ∅.
Proof.
  destruct handshake_ends as (s & Hn & Hs). exists s. pose proof (nsteps_trans _ _ _ _ _ handshake_run Hn) as Hrun. split; [exact Hrun|].
  destruct (stop_completes true one_request accepted 14 s accepted_reached eq_refl Hrun) as (_ & _ & Hend & _).
  split; [exact Hs|exact (proj1 (Hend Hs))].
Defined.
