(* ===== verification/TransportInstances.v ===== *)
(** * A socket in memory, and the theorems of the transport at work

    A WebSocket that replays a script, an encoder of the handshake's payloads on
    top of the text format of [SessionInstances], and the theorems of
    [TransportProofs], [ConnTable], [ReadLoop] and [Lifecycle] on concrete nodes. *)

From S2P Require Import Prelude Crypto Float64 PeerName Peer PeerProofs PeerPersist PeerInstances Identity.
From S2P Require Import NodeInstances Ueps KeyDeriv Controller Protocol Session SessionInstances.
From S2P Require Import Duration Limits Transport TransportProofs ConnTable ReadLoop Lifecycle.

(** A computed option that is not [None]. *)
Lemma some_of {A} (o : option A) : bool_decide (is_Some o) = true -> exists x, o = Some x.
Proof. intros Ho%bool_decide_eq_true. exact Ho. Qed.

(** ** Sockets *)

(** The messages that will be read, what was written, whether the socket is
    closed.  No message is over a limit. *)
Record mem_ws : Type := mkWs {
  ws_in : list bytes;
  ws_out : list bytes;
  ws_closed : bool
}.
Definition ErrWsClosed : error := NewError "use of closed network connection".
Definition ErrWsTimeout : error := NewError "i/o timeout".

#[export] Instance mem_socket : WebSocket mem_ws := {
  ws_ReadMessage s :=
    if ws_closed s then (inl ErrWsClosed, s)
    else match ws_in s with
         | [] => (inl ErrWsTimeout, s)
         | data :: rest => (inr data, mkWs rest (ws_out s) (ws_closed s))
         end;
  ws_WriteMessage _ data s :=
    if ws_closed s then (Some ErrWsClosed, s) else (None, mkWs (ws_in s) (ws_out s ++ [data]) (ws_closed s));
  ws_SetReadLimit _ s := s;
  ws_SetReadDeadline _ s := (if ws_closed s then Some ErrWsClosed else None, s);
  ws_SetWriteDeadline _ s := (if ws_closed s then Some ErrWsClosed else None, s);
  ws_Close s := (if ws_closed s then Some ErrWsClosed else None, mkWs (ws_in s) (ws_out s) true)
}.

(** A socket on which the given messages wait. *)
Definition ws_with (ds : list bytes) : mem_ws := mkWs ds [] false.

(** ** Payloads *)
Definition hello_code (p : HandshakePayload) : list positive :=
  [encode (identity_code (hs_Identity p)); encode (hs_Challenge p); encode (hs_Version p)].
Definition hello_of_code (l : list positive) : option HandshakePayload :=
  match l with
  | [a; b; c] => a ← decode a; a ← identity_of_code a; b ← decode b; c ← decode c; Some (mkHandshake a b c)
  | _ => None
  end.
Definition ack_code (p : HandshakeAckPayload) : list positive :=
  [encode (identity_code (ack_Identity p)); encode (ack_ChallengeResponse p); encode (ack_Accepted p); encode (ack_Reason p)].
Definition ack_of_code (l : list positive) : option HandshakeAckPayload :=
  match l with
  | [a; b; c; d] =>
      a ← decode a; a ← identity_of_code a; b ← decode b; c ← decode c; d ← decode d; Some (mkAck a b c d)
  | _ => None
  end.
Definition text_of_code (l : list positive) : bytes := digits (encode l).
Definition code_of_text (t : bytes) : option (list positive) :=
  p ← undigits t; decode (A := list positive) p.

Lemma hello_of_code_code p : hello_of_code (hello_code p) = Some p.
Proof.
  unfold hello_code, hello_of_code. rewrite !decode_encode. cbn [mbind option_bind]. rewrite identity_of_code_code. by destruct p.
Qed.
Lemma ack_of_code_code p : ack_of_code (ack_code p) = Some p.
Proof.
  unfold ack_code, ack_of_code. rewrite !decode_encode. cbn [mbind option_bind]. rewrite identity_of_code_code. by destruct p.
Qed.

#[export] Instance digits_handshake : HandshakeJSON := {
  marshalHandshake p := inr (text_of_code (hello_code p));
  unmarshalHandshake t := match code_of_text t ≫= hello_of_code with Some p => inr p | None => inl syntax_error end;
  marshalAck p := inr (text_of_code (ack_code p));
  unmarshalAck t := match code_of_text t ≫= ack_of_code with Some p => inr p | None => inl syntax_error end;
  marshalDisconnect p := inr (text_of_code [encode (dc_Reason p); encode (dc_Code p)]);
  marshalPing p := inr (text_of_code [encode (SentAt p)])
}.

(** A text that stands for the value of another one. *)
Lemma same_value l d' a :
  unmarshalAny (unescape (text_of_code l)) = inr (Some a) -> unmarshalAny d' = inr (Some a) -> code_of_text d' = Some l.
Proof.
  unfold text_of_code. rewrite (undigits_unescape _ _ (undigits_digits _)). cbn [unmarshalAny digits_json].
  rewrite undigits_digits. intros [= <-]. unfold code_of_text.
  destruct (undigits d') as [p|]; [|done]. intros [= ->]. cbn [mbind option_bind]. by rewrite decode_encode.
Qed.

#[export] Instance digits_handshake_laws : HandshakeJSONLaws.
Proof.
  refine {| hello_safe := fun _ => True; ack_safe := fun _ => True |}.
  - intros p d d' a _ [= <-] Ha Ha'. cbn [unmarshalHandshake digits_handshake]. rewrite (same_value _ d' a Ha Ha').
    cbn [mbind option_bind]. by rewrite hello_of_code_code.
  - intros p d d' a _ [= <-] Ha Ha'. cbn [unmarshalAck digits_handshake]. rewrite (same_value _ d' a Ha Ha').
    cbn [mbind option_bind]. by rewrite ack_of_code_code.
Defined.

(** ** Two nodes *)
Definition id_of (kp : KeyPair) (name : string) : NodeIdentity := mkIdentity name name (kp_PublicKeyBase64 kp) 5 RoleWorker.
Definition manager_of (kp : KeyPair) (name : string) : NodeManager :=
  mkManager (Some (id_of kp name)) (Some (kp_PrivateKey kp)) (Some kp) "private.key" "node.json".
Definition node_at (kp : KeyPair) (name : string) (w : World memfs) : Transport (W := mem_ws) :=
  mkTransport ∅ ∅ 0 (manager_of kp name) w (NewMessageDeduplicator (300 * second)) false true [].
Definition input_at (t : Z) : Input := mkInput (at_time t) "id-1" counter_rand.
Definition config0 : TransportConfig := DefaultTransportConfig.

Definition server : Transport := node_at kp1 "srv" w_empty.
Definition client : Transport := node_at kp2 "cli" w_empty.
Definition challenge0 : bytes := replicate 32 7.
Definition hello0 : bytes :=
  match hello_text (input_at 20) (id_of kp2 "cli") "bob" challenge0 with Ok d => d | _ => [] end.

Lemma w_empty_keyed : keyed w_empty.
Proof. apply reachable_good, w_empty_reachable. Qed.
Lemma w_empty_no_peers : peers (reg w_empty) = ∅.
Proof. apply map_eq. intros id. vm_compute. reflexivity. Qed.

Lemma hello_portable i identity to ch : exists m, hello_message i identity to ch = Ok m /\ portable m.
Proof. eexists. split; [reflexivity|]. by eapply digits_portable. Qed.
Lemma ack_portable i identity to resp : exists m, ack_message i identity to resp = Ok m /\ portable m.
Proof. eexists. split; [reflexivity|]. by eapply digits_portable. Qed.
Lemma hello0_text : hello_text (input_at 20) (id_of kp2 "cli") "bob" challenge0 = Ok hello0.
Proof. vm_compute. reflexivity. Qed.

(** The handshake of the two. *)
Definition waiting : mem_ws := ws_with [hello0].
Lemma shaken :
  exists ack s resp tS' cS pcS,
    handleWSUpgrade config0 (input_at 20) (inr waiting) server = (Ok tt, tS') /\
    conns tS' !! "cli"%string = Some cS /\ objs tS' !! cS = Some pcS /\ SharedSecret pcS = Some s /\ len s = 32 /\
    ws_WriteMessage TextMessage ack (mkWs [] [] false) = (None, pc_Conn pcS) /\
    parse_ack ack = Ok (mkAck (id_of kp1 "srv") resp true "") /\
    verify_ack challenge0 (mkAck (id_of kp1 "srv") resp true "") client = Ok s.
Proof.
  apply (honest_handshake config0 (input_at 20) (input_at 20) server client (id_of kp1 "srv") (id_of kp2 "cli")
    kp1 kp2 "bob" challenge0 hello0 waiting (mkWs [] [] false) ltac:(done) ltac:(done) w_empty_keyed eq_refl eq_refl ltac:(done)
    (hello_portable _ _ _ _) I (fun resp => conj (ack_portable _ _ _ resp) I) hello0_text eq_refl ltac:(done)).
Qed.

(** The client sends [hello0] to the server and reads the answer. *)
Lemma handshake_agreement_witness :
  exists ack s tS' tC' cS pcS cC pcC,
    handleWSUpgrade config0 (input_at 20) (inr waiting) server = (Ok tt, tS') /\
    conns tS' !! "cli"%string = Some cS /\ objs tS' !! cS = Some pcS /\ SharedSecret pcS = Some s /\
    ws_out (pc_Conn pcS) = [ack] /\
    Connect (input_at 20) 2%positive (inr (ws_with [ack])) client = (Ok cC, tC') /\
    conns tC' !! "srv"%string = Some cC /\ objs tC' !! cC = Some pcC /\ SharedSecret pcC = Some s.
Proof.
  destruct (handshake_agreement config0 (input_at 20) (input_at 20) server client (id_of kp1 "srv") (id_of kp2 "cli")
    kp1 kp2 2%positive bob challenge0 hello0 waiting (mkWs [] [] false))
    as (ack & s & tS' & cS & pcS & Hrun & Hcs & Hobj & Hsec & _ & Hw & Hclient).
  - done.
  - done.
  - exact w_empty_keyed.
  - exact w_empty_keyed.
  - vm_compute. reflexivity.
  - intros id. change (world client) with w_empty. rewrite w_empty_no_peers. done.
  - vm_compute. reflexivity.
  - vm_compute. reflexivity.
  - vm_compute. reflexivity.
  - discriminate.
  - apply hello_portable.
  - exact I.
  - intros resp. split; [apply ack_portable|exact I].
  - exact hello0_text.
  - reflexivity.
  - done.
  - destruct (Hclient (ws_with [ack]) (mkWs [] [hello0] false)) as (tC' & cC & pcC & HrunC & HcC & HoC & HsC).
    { exists (mkWs [ack] [hello0] false). split; reflexivity. }
    exists ack, s, tS', tC', cS, pcS, cC, pcC.
    split_and!; [exact Hrun|exact Hcs|exact Hobj|exact Hsec| |exact HrunC|exact HcC|exact HoC|exact HsC].
    exact (eq_sym (f_equal (fun x => ws_out (snd x)) Hw)).
Defined.

(** The hello of the client enters one connection, under the client's ID; a
    message that is no handshake enters none. *)
Lemma handshake_server_gate_witness :
  (exists t' msg payload c, handleWSUpgrade config0 (input_at 20) (inr waiting) server = (Ok tt, t') /\
     decodeMessageJSON hello0 = Ok msg /\ m_Type msg = MsgHandshake /\
     ParsePayload zeroHandshake unmarshalHandshake msg = Ok payload /\
     hs_Version payload ∈ SupportedProtocolVersions /\ conns t' = <[ni_ID (hs_Identity payload) := c]> ∅) /\
  exists t', handleWSUpgrade config0 (input_at 20) (inr (ws_with [[1; 2; 3]])) server = (Ok tt, t') /\ conns t' = ∅.
Proof.
  split.
  - destruct (handshake_server_gate config0 (input_at 20) (inr waiting) server w_empty_keyed)
      as (t' & Hrun & _ & _ & [Hsame|(sk & data & sk' & msg & payload & s & c & pc & Hsk & Hread & Hdec & Hty & Hpay & Hconns & _ & _ & _ & _ & Hv & _)]).
    + exfalso. destruct shaken as (ack & s & resp & tS & cS & pcS & Hrun' & Hc & _).
      rewrite Hrun' in Hrun. injection Hrun as Ht. subst tS. rewrite Hsame in Hc. discriminate Hc.
    + injection Hsk as Hsk. subst sk. assert (Hd : hello0 = data) by exact (f_equal (fun x => match fst x with inr d => d | inl _ => [] end) Hread).
      subst data. exists t', msg, payload, c. split_and!; [exact Hrun|exact Hdec|exact Hty|exact Hpay|exact Hv|exact Hconns].
  - destruct (handshake_server_gate config0 (input_at 20) (inr (ws_with [[1; 2; 3]])) server w_empty_keyed)
      as (t' & Hrun & _ & _ & [Hsame|(sk & data & sk' & msg & payload & s & c & pc & Hsk & Hread & Hdec & _)]).
    + exists t'. split; [exact Hrun|exact Hsame].
    + exfalso. injection Hsk as Hsk. subst sk. assert (Hd : [1; 2; 3] = data) by exact (f_equal (fun x => match fst x with inr d => d | inl _ => [] end) Hread).
      subst data. vm_compute in Hdec. discriminate Hdec.
Defined.

(** The client reads the server's answer to [hello0]. *)
Definition conn_with (ds : list bytes) (s : option bytes) : PeerConnection :=
  mkConn 2%positive (ws_with ds) s 20 false (NewPeerRateLimiter 20 100 50).
Definition dialling (ack : bytes) : Transport := set_objs {[ 1%positive := conn_with [ack] None ]} client.

Lemma dialling_ok : exists ack t', performHandshake (input_at 20) 1%positive (dialling ack) = (Ok tt, t').
Proof.
  destruct shaken as (ack & s & resp & _ & _ & _ & _ & _ & _ & _ & _ & _ & Hparse & Hver). exists ack.
  destruct (performHandshake_body (input_at 20) 1%positive (dialling ack) (conn_with [ack] None))
    as (t1 & Hc1 & _ & Hw1 & Hn1 & _ & ->); [reflexivity|].
  destruct (handshake_body_runs (input_at 20) 1%positive t1 (timed (input_at 20) (conn_with [ack] None)) bob (id_of kp2 "cli")
    challenge0 hello0 (mkWs [ack] [hello0] false) ack (mkWs [] [hello0] false) (mkAck (id_of kp1 "srv") resp true "") s Hc1)
    as (t' & w' & Hrun & _).
  - rewrite Hw1. vm_compute. reflexivity.
  - unfold get_identity. rewrite Hn1. done.
  - vm_compute. reflexivity.
  - exact hello0_text.
  - reflexivity.
  - reflexivity.
  - exact Hparse.
  - revert Hver. unfold verify_ack, derive_secret. by rewrite Hw1, Hn1.
  - rewrite Hrun. by eexists.
Qed.

Lemma handshake_client_authenticates_witness :
  exists ack0 t' challenge msg ack s k, performHandshake (input_at 20) 1%positive (dialling ack0) = (Ok tt, t') /\
    rand (input_at 20) ChallengeSize = inr challenge /\ decodeMessageJSON ack0 = Ok msg /\
    ParsePayload zeroAck unmarshalAck msg = Ok ack /\ deriveSubKeys s = Ok k /\
    ack_ChallengeResponse ack = HMAC (chlKey k) challenge.
Proof.
  destruct dialling_ok as (ack0 & t' & Hrun).
  destruct (handshake_client_authenticates (input_at 20) 1%positive (dialling ack0) t' (conn_with [ack0] None) eq_refl Hrun)
    as (p & identity & challenge & hello & sock1 & ackData & sock2 & msg & ack & s & k & pc' & p' & _ & _ & Hr & _ & Hw & Hrd & Hdec & _ & Hpay & _ & _ & Hk & Hresp & _).
  assert (Hs1 : mkWs [ack0] [hello] false = sock1) by exact (f_equal snd Hw). subst sock1.
  assert (Hd : ack0 = ackData) by exact (f_equal (fun x => match fst x with inr d => d | inl _ => [] end) Hrd). subst ackData.
  exists ack0, t', challenge, msg, ack, s, k. split_and!; [exact Hrun|exact Hr|exact Hdec|exact Hpay|exact Hk|exact Hresp].
Defined.

(** In allowlist mode, with "alice" registered, a stranger calls himself "alice". *)
Definition guarded : Transport := node_at kp1 "srv" (snd (SetAuthMode PeerAuthAllowlist w_alice)).
Definition lie : HandshakePayload := mkHandshake (id_of kp2 "alice") challenge0 ProtocolVersion.
Definition lie_text : bytes :=
  match hello_text (input_at 20) (id_of kp2 "alice") "srv" challenge0 with Ok d => d | _ => [] end.
Definition lie_message : Message := match decodeMessageJSON lie_text with Ok m => m | _ => stats_reply end.

Lemma guarded_keyed : keyed (world guarded).
Proof. apply reachable_good. apply (reach_op (OpAuthMode PeerAuthAllowlist)), w_alice_reachable. Qed.

Lemma handshake_allowlist_bypass_witness :
  exists t' c, handleWSUpgrade config0 (input_at 20) (inr (ws_with [lie_text])) guarded = (Ok tt, t') /\
    conns t' !! "alice"%string = Some c /\ PublicKey alice <> kp_PublicKeyBase64 kp2.
Proof.
  destruct (handshake_allowlist_bypass config0 (input_at 20) guarded (id_of kp1 "srv") kp1 kp2 "alice" (ws_with [lie_text])
    lie_text (mkWs [] [] false) lie_message lie) as (t' & c & pc & s & Hrun & Hc & _).
  - split_and!; reflexivity.
  - exact guarded_keyed.
  - reflexivity.
  - destruct (GetPeer "alice" (world guarded)) as [q|] eqn:Hq; [by exists q|]. exfalso. vm_compute in Hq. discriminate Hq.
  - vm_compute. reflexivity.
  - vm_compute. reflexivity.
  - vm_compute. reflexivity.
  - vm_compute. reflexivity.
  - vm_compute. reflexivity.
  - reflexivity.
  - reflexivity.
  - reflexivity.
  - intros resp. destruct (ack_portable (input_at 20) (id_of kp1 "srv") "alice" resp) as (m & Hm & Hp).
    destruct (message_json m Hp) as (d & _ & Hd & _). exists d. unfold ack_text. rewrite Hm. exact Hd.
  - done.
  - exists t', c. split_and!; [exact Hrun|exact Hc|vm_compute; discriminate].
Defined.

(** ** The table *)

(** The client has connected to the server, and its socket times out. *)
Definition shake : Call (W := mem_ws) (FS := memfs) := CUpgrade (input_at 20) (inr waiting).
Definition shaken_server : Transport := snd (run_call no_signatures config0 shake server).

Lemma conn_table_invariant_witness :
  exists c pc p, GetConnection "cli" shaken_server = Some c /\ objs shaken_server !! c = Some pc /\ closed pc = false /\
    heap (world shaken_server) !! pc_Peer pc = Some p /\ ID p = "cli"%string.
Proof.
  destruct (conn_table_invariant no_signatures config0 server shaken_server) as (Hopen & _);
    [reflexivity|reflexivity|exact w_empty_keyed|apply rtc_once; exact (tstep_call no_signatures config0 shake server I)|].
  destruct shaken as (ack & s & resp & tS' & cS & pcS & Hrun & Hcs & _).
  assert (Hs : shaken_server = tS') by exact (f_equal snd Hrun).
  assert (Hc : GetConnection "cli" shaken_server = Some cS) by (rewrite Hs; exact Hcs).
  destruct (Hopen "cli"%string cS Hc) as (pc & p & H1 & H2 & H3 & H4).
  exists cS, pc, p. split_and!; [exact Hc|exact H1|exact H2|exact H3|exact H4].
Defined.

(** Alice has connected twice: the older connection is 1, the newer one 2. *)
Definition alice_conn : PeerConnection (W := mem_ws) := mkConn 1%positive (ws_with []) (Some secret32) 20 false (NewPeerRateLimiter 20 100 50).
Definition twice : Transport :=
  set_conns {[ "alice"%string := 2%positive ]}
    (set_objs {[ 1%positive := alice_conn; 2%positive := alice_conn ]} (node_at kp1 "srv" w_alice)).
Definition alice_peer : Peer := default alice (heap w_alice !! 1%positive).

Lemma alice_object : heap w_alice !! 1%positive = Some alice_peer.
Proof. reflexivity. Qed.
Lemma alice_registered : GetPeer "alice" w_alice = Some alice_peer.
Proof. reflexivity. Qed.
Lemma w_alice_keyed : keyed w_alice.
Proof. apply reachable_good, w_alice_reachable. Qed.

Lemma twice_ok : table_ok twice.
Proof.
  split_and!; [exact w_alice_keyed| |].
  - intros c pc. cbn [twice objs set_conns set_objs]. intros Hc. exists alice_peer.
    apply lookup_insert_Some in Hc as [[_ <-]|[_ Hc]]; [exact alice_object|].
    apply lookup_singleton_Some in Hc as [_ <-]. exact alice_object.
  - intros id c. cbn [twice conns set_conns]. intros [<- <-]%lookup_singleton_Some.
    exists alice_conn, alice_peer. split_and!; [reflexivity|done|exact alice_object|reflexivity].
Qed.

Lemma stale_close_disconnects_witness :
  exists q', GetConnection "alice" (snd (CloseConn (input_at 30) 1%positive twice)) = Some 2%positive /\
    GetPeer "alice" (world (snd (CloseConn (input_at 30) 1%positive twice))) = Some q' /\ Connected q' = false.
Proof.
  destruct (stale_close_disconnects (input_at 30) twice "alice" 1%positive alice_conn alice_peer 2%positive alice_peer twice_ok)
    as (q' & H1 & H2 & H3); [reflexivity|discriminate|reflexivity|reflexivity|exact alice_object|reflexivity|exact alice_registered|].
  exists q'. split_and!; [exact H1|exact H2|exact H3].
Defined.

(** ** Reading *)
Definition clk0 (n : nat) : Z := 20.
Definition sent (m : Message) : bytes := match encryptMessage counter_rand m secret32 with Ok d => d | _ => [] end.
Lemma sent_sealed m : portable m -> sealed secret32 m (sent m).
Proof.
  intros Hm. split; [done|]. exists counter_rand. split; [exact counter_rand_len|].
  destruct (encryptMessage_ok counter_rand m secret32 Hm eq_refl counter_rand_12) as [d Hd]. unfold sent. by rewrite Hd.
Qed.
Definition reading (ds : list bytes) : Transport :=
  set_conns {[ "bob"%string := 1%positive ]} (set_objs {[ 1%positive := conn_with ds (Some secret32) ]} client).

Lemma reading_ok ds : table_ok (reading ds).
Proof.
  split_and!; [exact w_empty_keyed| |].
  - intros c pc. cbn [reading objs set_conns set_objs]. intros [<- <-]%lookup_singleton_Some. exists bob. vm_compute. reflexivity.
  - intros id c. cbn [reading conns set_conns]. intros [<- <-]%lookup_singleton_Some. exists (conn_with ds (Some secret32)), bob.
    split_and!; [reflexivity|done|vm_compute; reflexivity|reflexivity].
Qed.

Lemma socket_arrives k ds out : arrives config0 clk0 k (mkWs ds out false) ds (mkWs [] out false).
Proof.
  revert k. induction ds as [|d ds IH]; intros k; [by eapply arrives_error|].
  eapply arrives_message; [reflexivity|reflexivity|apply IH].
Qed.

(** A message, a copy of it, and noise. *)
Definition noisy : list bytes := [sent stats_reply; sent stats_reply; [1; 2]].
Lemma readLoop_delivers_witness :
  exists t' ms, readLoop no_signatures config0 4 (input_at 30) clk0 1%positive (reading noisy) = (Ok tt, t') /\
    handled t' = handled (reading noisy) ++ ((fun m => (1%positive, m)) <$> ms) /\ GetConnection "bob" t' <> Some 1%positive /\
    exists pc, objs t' !! 1%positive = Some pc /\ closed pc = true /\ ws_closed (pc_Conn pc) = true.
Proof.
  destruct (readLoop_delivers no_signatures config0 clk0 4 (input_at 30) (reading noisy) 1%positive
    (conn_with noisy (Some secret32)) noisy _ (reading_ok noisy) eq_refl eq_refl eq_refl (socket_arrives 0 noisy [])
    ltac:(repeat constructor)) as (t' & ds' & Hrun & Hlog & _ & _ & (pc' & Hc & Hcl & Hsk) & Hgone).
  eexists t', _. split; [exact Hrun|]. split; [exact Hlog|]. split; [exact (Hgone "bob"%string)|].
  exists pc'. split; [exact Hc|]. split; [exact Hcl|]. rewrite Hsk. reflexivity.
Defined.

Definition incoming : list bytes := [sent stats_reply; sent second_reply].
Lemma end_to_end_delivery_witness :
  exists t' ms', readLoop no_signatures config0 3 (input_at 30) clk0 1%positive (reading incoming) = (Ok tt, t') /\
    handled t' = handled (reading incoming) ++ ((fun m => (1%positive, m)) <$> ms') /\
    Forall2 same_message [stats_reply; second_reply] ms' /\
    exists pc, objs t' !! 1%positive = Some pc /\ closed pc = true /\ ws_closed (pc_Conn pc) = true.
Proof.
  destruct (end_to_end_delivery no_signatures config0 clk0 20 3 (input_at 30) (reading incoming) 1%positive
    (conn_with incoming (Some secret32)) secret32 [stats_reply; second_reply] incoming (mkWs [] [] false) (reading_ok incoming)
    eq_refl eq_refl eq_refl eq_refl) as (t' & ms' & Hrun & Hlog & Hall & (pc' & Hc & Hcl & Hsk) & _).
  - split; [reflexivity|]. intros a. unfold clk0, second. lia.
  - unfold limiter_wf. cbn. lia.
  - cbn. unfold clk0. lia.
  - cbn. lia.
  - repeat constructor; vm_compute; set_solver.
  - intros m _. reflexivity.
  - constructor; [apply sent_sealed, stats_portable|constructor; [apply sent_sealed, second_portable|constructor]].
  - exact (socket_arrives 0 incoming []).
  - repeat constructor.
  - exists t', ms'. split_and!; [exact Hrun|exact Hlog|exact Hall|]. exists pc'. split_and!; [exact Hc|exact Hcl|].
    rewrite Hsk. reflexivity.
Defined.

(** ** Dialling a shared object

    The object of "bob" is registered and belongs to an open connection.  It is
    dialled again, and the other end calls itself "srv": the identity is written
    over the object before the answer to the challenge is checked, so that the
    dial fails and the entries of "bob", in the registry and in the table, belong
    to a peer with another ID. *)
Definition sharing : Transport := set_world w_both (reading []).
Definition wrong_ack : bytes := match ack_text (input_at 20) (id_of kp1 "srv") "cli" [] with Ok d => d | _ => [] end.

Lemma sharing_ok : table_ok sharing.
Proof.
  split_and!; [apply reachable_good, w_both_reachable| |].
  - intros c pc. cbn [sharing reading objs set_conns set_objs set_world]. intros [<- <-]%lookup_singleton_Some. exists bob. vm_compute. reflexivity.
  - intros id c. cbn [sharing reading conns set_conns set_world]. intros [<- <-]%lookup_singleton_Some. exists (conn_with [] (Some secret32)), bob.
    split_and!; [reflexivity|done|vm_compute; reflexivity|reflexivity].
Qed.

Theorem dial_renames_entry :
  table_ok sharing /\
  let t := snd (Connect (input_at 20) 2%positive (inr (ws_with [wrong_ack])) sharing) in
  exists q pc, GetPeer "bob" (world t) = Some q /\ ID q = "srv"%string /\
    GetConnection "bob" t = Some 1%positive /\ objs t !! 1%positive = Some pc /\ heap (world t) !! pc_Peer pc = Some q.
Proof.
  split; [exact sharing_ok|]. eexists _, _. split_and!; vm_compute; reflexivity.
Qed.

(** ** Keepalive *)

(** Three ticks of the default interval, in which the peer sends nothing. *)
Definition at_second (n : Z) : kevent := KTick (input_at (20 + n * second)) (20 + n * second) (20 + n * second).

Lemma keepalive_blind_witness :
  exists t', keepalive config0 1%positive [at_second 30; at_second 60; at_second 90] (reading []) = (Ok tt, t') /\
    GetConnection "bob" t' = Some 1%positive.
Proof.
  destruct (keepalive_blind (FS := memfs) config0 (fun s => ws_closed s = false)) with (c := 1%positive)
    (evs := [at_second 30; at_second 60; at_second 90]) (t := reading []) (pc := conn_with [] (Some secret32))
    (p := bob) (id := id_of kp2 "cli") as (t' & Hrun & Hs).
  - intros d s Hs. exists s. cbn [ws_SetWriteDeadline mem_socket]. by rewrite Hs.
  - intros d s Hs. cbn [ws_WriteMessage mem_socket]. rewrite Hs. eexists. split; reflexivity.
  - intros i from to z. eexists. split; [reflexivity|]. by eapply digits_portable.
  - split; [reflexivity|]. split; [reflexivity|]. exists secret32. by split.
  - reflexivity.
  - reflexivity.
  - vm_compute. reflexivity.
  - cbn [in_time at_second]. split_and!; try apply counter_rand_12; try exact I; vm_compute; discriminate.
  - exists t'. split; [exact Hrun|]. unfold GetConnection. by rewrite (proj1 Hs).
Defined.
