(* ===== verification/Paths.v ===== *)
(** * Paths (dappco.re/go: core.CleanPath, core.PathJoin, ...)

    The path functions of the core library as an interface, what the extraction
    of bundles relies on, and an implementation by the rules of Go's
    path/filepath on which concrete paths are computed. *)

From Stdlib Require Import Ascii.
From S2P Require Import Prelude.

(** ** Strings *)

(** [core.HasPrefix(s, prefix)]. *)
Definition HasPrefix (s prefix : string) : bool := String.prefix prefix s.

Lemma app_assoc_string (a b c : string) : (a +:+ b) +:+ c = a +:+ (b +:+ c).
Proof. induction a as [|x a IH]; [done|]. exact (f_equal (String.String x) IH). Qed.

Lemma app_nil_string (a : string) : a +:+ EmptyString = a.
Proof. induction a as [|x a IH]; [done|]. exact (f_equal (String.String x) IH). Qed.

Lemma HasPrefix_app s p : HasPrefix s p = true <-> exists r, s = p +:+ r.
Proof.
  unfold HasPrefix. revert s. induction p as [|c p IH]; intros s.
  - split; [intros _; by exists s|]. intros _. by destruct s.
  - destruct s as [|d s]; cbn [String.prefix].
    + split; [done|]. by intros [r Hr].
    + destruct (ascii_dec c d) as [->|Hne].
      * rewrite IH. split; intros [r Hr]; exists r; [by rewrite Hr|]. by injection Hr.
      * split; [done|]. intros [r Hr]. by injection Hr.
Qed.

Definition slash : ascii := "/".
Definition PathSeparator : string := "/".

(** The pieces of a path between its slashes. *)
Fixpoint segments (p : string) : list string :=
  match p with
  | EmptyString => [EmptyString]
  | String.String c p =>
      if decide (c = slash) then EmptyString :: segments p
      else match segments p with
           | [] => [String.String c EmptyString]
           | s :: ss => String.String c s :: ss
           end
  end.

Lemma segments_ne p : segments p <> [].
Proof. destruct p as [|c p]; [done|]. cbn. case_decide; [done|]. by destruct (segments p). Qed.

Lemma segments_app p q : segments (p +:+ String.String slash q) = segments p ++ segments q.
Proof.
  induction p as [|c p IH]; [done|].
  change (String.String c p +:+ String.String slash q) with (String.String c (p +:+ String.String slash q)).
  cbn [segments]. case_decide; [by rewrite IH|]. rewrite IH.
  pose proof (segments_ne p). by destruct (segments p).
Qed.

(** A piece has no slash. *)
Definition no_slash (s : string) : Prop := segments s = [s].

Fixpoint join (ss : list string) : string :=
  match ss with
  | [] => EmptyString
  | [s] => s
  | s :: ss => s +:+ String.String slash (join ss)
  end.

Lemma segments_join ss : Forall no_slash ss -> ss <> [] -> segments (join ss) = ss.
Proof.
  induction ss as [|s ss IH]; intros Hall Hne; [done|]. inversion Hall as [|? ? Hs Hss]; subst.
  destruct ss as [|s' ss]; [exact Hs|]. change (join (s :: s' :: ss)) with (s +:+ String.String slash (join (s' :: ss))).
  rewrite segments_app, Hs, IH by done. done.
Qed.

Lemma segments_no_slash p s : s ∈ segments p -> no_slash s.
Proof.
  revert s. induction p as [|c p IH]; intros s; cbn.
  - intros ->%list_elem_of_singleton. done.
  - case_decide as Hc.
    + intros [->|Hs]%elem_of_cons; [done|by apply IH].
    + pose proof (segments_ne p). destruct (segments p) as [|s0 ss] eqn:Hp; [done|].
      intros [->|Hs]%elem_of_cons; [|apply IH; by right].
      assert (H0 : no_slash s0) by (apply IH; by left). unfold no_slash in *. cbn. rewrite decide_False by done. by rewrite H0.
Qed.

(** ** The interface *)
Class CorePath : Type := {
  CleanPath : string -> string;
  PathJoin : list string -> string;
  PathIsAbs : string -> bool;
  PathParent : string -> string;
  PathBase : string -> string;
  PathAbs : string -> error + string
}.

(** Documented behaviour: an absolute path has an absolute continuation,
    [PathAbs] gives an absolute path, and a clean absolute path has no [..]. *)
Class CorePathLaws `{CorePath} : Prop := {
  absolute_app p q : PathIsAbs p = true -> PathIsAbs (p +:+ q) = true;
  abs_absolute p q : PathAbs p = inr q -> PathIsAbs (CleanPath q) = true;
  clean_absolute p : PathIsAbs (CleanPath p) = true -> ".."%string ∉ segments (CleanPath p)
}.

(** [p] is [root] or below it. *)
Definition inside (root p : string) : Prop :=
  p = root \/ exists rest, p = root +:+ PathSeparator +:+ rest /\ ".."%string ∉ segments p.

(** ** Lexical paths *)

(** Go's [filepath.Clean] on the pieces of a path, the result in reverse. *)
Fixpoint clean_pieces (rooted : bool) (ss acc : list string) : list string :=
  match ss with
  | [] => acc
  | s :: ss =>
      if decide (s = EmptyString \/ s = "."%string) then clean_pieces rooted ss acc
      else if decide (s = ".."%string) then
        match acc with
        | [] => clean_pieces rooted ss (if rooted then [] else [".."%string])
        | a :: acc' => if decide (a = ".."%string) then clean_pieces rooted ss (".."%string :: acc)
                       else clean_pieces rooted ss acc'
        end
      else clean_pieces rooted ss (s :: acc)
  end.
Definition lex_rooted (p : string) : bool := HasPrefix p PathSeparator.
Definition lex_clean (p : string) : string :=
  let ss := reverse (clean_pieces (lex_rooted p) (segments p) []) in
  if lex_rooted p then String.String slash (join ss)
  else match ss with [] => "."%string | _ => join ss end.

(** The working directory is the root. *)
#[export] Instance lex_paths : CorePath := {
  CleanPath := lex_clean;
  PathJoin ss := match filter (fun s => s <> EmptyString) ss with [] => EmptyString | ss => lex_clean (join ss) end;
  PathIsAbs := lex_rooted;
  PathParent p := lex_clean (join (reverse (tail (reverse (segments p)))));
  PathBase p := default "."%string (last (filter (fun s => s <> EmptyString) (segments p)));
  PathAbs p := inr (lex_clean (if lex_rooted p then p else String.String slash p))
}.

(** A piece that a clean path may have. *)
Definition piece (s : string) : Prop := s <> EmptyString /\ no_slash s.

Lemma clean_pieces_ok rooted ss acc :
  Forall no_slash ss -> Forall piece acc ->
  Forall piece (clean_pieces rooted ss acc) /\
  (rooted = true -> ".."%string ∉ acc -> ".."%string ∉ clean_pieces rooted ss acc).
Proof.
  revert acc. induction ss as [|s ss IH]; intros acc Hss Hacc; [done|]. inversion Hss; subst. cbn [clean_pieces].
  assert (Hdots : piece "..") by done.
  case_decide as Hs; [by apply IH|]. case_decide as Hd.
  - destruct acc as [|a acc].
    + destruct (IH (if rooted then [] else [".."%string])) as [Hi1 Hi2]; [done|destruct rooted; by repeat constructor|].
      split; [done|]. intros -> Hin. by apply Hi2.
    + inversion Hacc; subst. case_decide.
      * destruct (IH (".."%string :: a :: acc)) as [Hi1 Hi2]; [done|by constructor|]. split; [done|].
        intros Hr Hin. apply not_elem_of_cons in Hin as [Hin _]. congruence.
      * destruct (IH acc) as [Hi1 Hi2]; [done|done|]. split; [done|]. intros Hr Hin.
        apply Hi2; [done|]. by apply not_elem_of_cons in Hin as [_ Hin].
  - destruct (IH (s :: acc)) as [Hi1 Hi2]; [done|constructor; [split; [tauto|done]|done]|]. split; [done|].
    intros Hr Hin. apply Hi2; [done|]. by apply not_elem_of_cons.
Qed.

Lemma segments_pieces p : Forall no_slash (segments p).
Proof. apply Forall_forall. intros s. apply segments_no_slash. Qed.

Lemma piece_rooted s t : piece s -> lex_rooted (s +:+ t) = false.
Proof.
  intros [Hne Hs]. destruct s as [|c s]; [done|]. unfold no_slash in Hs. cbn [segments] in Hs.
  case_decide as Hc; [by injection Hs|]. change (String.String c s +:+ t) with (String.String c (s +:+ t)).
  unfold lex_rooted, HasPrefix, PathSeparator. cbn [String.prefix].
  destruct (ascii_dec "/" c) as [<-|]; [by destruct Hc|done].
Qed.

Lemma lex_rooted_clean p : lex_rooted (lex_clean p) = lex_rooted p.
Proof.
  unfold lex_clean. destruct (lex_rooted p) eqn:Hp.
  - unfold lex_rooted, HasPrefix, PathSeparator, slash. cbn [String.prefix]. destruct (ascii_dec "/" "/"); [|done].
    by destruct (join _).
  - destruct (clean_pieces_ok false (segments p) []) as [Hall _]; [apply segments_pieces|done|].
    apply Forall_reverse in Hall. destruct (reverse _) as [|s ss]; [done|]. inversion Hall; subst.
    destruct ss as [|s' ss]; [|by apply piece_rooted]. cbn [join].
    pose proof (piece_rooted s EmptyString) as Hr. rewrite app_nil_string in Hr. by apply Hr.
Qed.

#[export] Instance lex_paths_laws : CorePathLaws.
Proof.
  split; cbn [PathIsAbs CleanPath PathAbs lex_paths].
  - intros p q Hp. unfold lex_rooted in *. apply HasPrefix_app in Hp as [r ->]. apply HasPrefix_app.
    exists (r +:+ q). apply app_assoc_string.
  - intros p q [= <-]. rewrite !lex_rooted_clean. destruct (lex_rooted p) eqn:Hp; [done|].
    unfold lex_rooted, HasPrefix, PathSeparator, slash. cbn [String.prefix]. destruct (ascii_dec "/" "/"); [|done]. by destruct p.
  - intros p Hp. rewrite lex_rooted_clean in Hp. unfold lex_clean. rewrite Hp.
    destruct (clean_pieces_ok true (segments p) []) as [Hall Hno]; [apply segments_pieces|done|].
    specialize (Hno eq_refl (not_elem_of_nil _)). set (ss := clean_pieces _ _ _) in *.
    cbn [segments]. rewrite decide_True by done. intros [Hin|Hin]%elem_of_cons; [done|].
    destruct ss as [|s ss'] eqn:Hss; [cbn in Hin; by apply list_elem_of_singleton in Hin|].
    rewrite segments_join in Hin.
    + apply Hno. exact (proj1 (elem_of_reverse _ _) Hin).
    + apply Forall_reverse. eapply Forall_impl; [exact Hall|]. by intros ? [_ ?].
    + intros Hnil. apply (f_equal length) in Hnil. rewrite length_reverse in Hnil. done.
Qed.

Example clean_example : lex_clean "/srv/miners/../../etc//passwd" = "/etc/passwd"%string.
Proof. reflexivity. Qed.
Example join_example : PathJoin ["/data"; "miners"; "../../x"]%string = "/x"%string.
Proof. reflexivity. Qed.
