(* ===== verification/Bundle.v ===== *)
(** * Deployment bundles (src/go/node/bundle.go)

    Bundles with their checksums, the archives inside them, and the extraction
    of an archive into a directory, operation by operation on the file system.
    The TIM containers (github.com/Snider/Borg) and the tar format (archive/tar)
    are interfaces. *)

From S2P Require Import Prelude Crypto Peer Paths Session.

(** ** Data *)
Definition BundleProfile : string := "profile".
Definition BundleMiner : string := "miner".
Definition BundleFull : string := "full".

Record Bundle : Type := mkBundle {
  b_Type : string;
  b_Name : string;
  b_Data : bytes;
  b_Checksum : string
}.

Record BundleManifest : Type := mkManifest {
  bm_Type : string;
  bm_Name : string;
  bm_Version : string;
  bm_MinerType : string;
  bm_ProfileIDs : list string;
  bm_CreatedAt : string
}.

Record extractedMinerBundleResult : Type := mkExtracted {
  ex_Path : string;
  ex_Profile : bytes
}.

(** ** Checksums *)

(** [hex.EncodeToString]. *)
Definition hex_digit (n : Z) : Z := if decide (n < 10) then 48 + n else 87 + n.
Definition EncodeToString (b : bytes) : string :=
  string_of_bytes (flat_map (fun x => [hex_digit (x / 16); hex_digit (x mod 16)]) b).

Definition calculateChecksum (data : bytes) : string := EncodeToString (Sum256 data).
Definition VerifyBundle (bundle : Bundle) : bool := bool_decide (calculateChecksum (b_Data bundle) = b_Checksum bundle).

(** ** Code outside the repository *)

(** [core.Trim]: it takes the white space off both ends of a text; blank texts are
    the ones of which nothing is left. *)
Class CoreText : Type := { Trim : string -> string }.
Definition blank `{CoreText} (s : string) : Prop := Trim s = EmptyString.
(** A printable character of ASCII that is not a space. *)
Definition printable (c : Ascii.ascii) : Prop := (33 <= Ascii.N_of_ascii c <= 126)%N.
Class CoreTextLaws `{CoreText} : Prop := {
  trim_ends s : exists pre post, s = pre +:+ Trim s +:+ post /\ blank pre /\ blank post;
  trim_starts pre c rest : blank pre -> printable c -> exists rest', Trim (pre +:+ String c rest) = String c rest'
}.

(** A container with its configuration and its root file system. *)
Class TimLib : Type := {
  DataNode : Type;
  emptyNode : error + DataNode;
  ToSigil : bytes -> DataNode -> string -> error + bytes;
  FromSigil : bytes -> string -> error + (bytes * DataNode);
  ToTar : DataNode -> error + bytes;
  FromTar : bytes -> error + DataNode;
  FromDataNode : DataNode -> error + (bytes * DataNode)
}.

(** archive/tar: the headers and contents of the entries of an archive.  Reading
    ends with an error, or with none at the end of the archive; the contents of
    an entry may end in an error too. *)
Inductive TarType : Type := TypeDir | TypeReg | TypeSymlink | TypeLink | TypeOther.
#[export] Instance TarType_eq_dec : EqDecision TarType.
Proof. solve_decision. Defined.
Record TarEntry : Type := mkEntry {
  te_Name : string;
  te_Mode : Z;
  te_Typeflag : TarType;
  te_Content : bytes;
  te_Err : option error
}.
Class TarLib : Type := {
  tar_read : bytes -> list TarEntry * option error;
  tar_write : list TarEntry -> error + bytes
}.

(** [core.OpenFile] with [O_CREATE|O_WRONLY|O_TRUNC], and [io.Copy] of bytes into
    the file: how many were written, and the error. *)
Class OpenFS (FS : Type) : Type := {
  OpenFile : string -> Z -> FS -> option error * FS;
  CopyTo : string -> bytes -> FS -> (Z * option error) * FS
}.

(** The file system with the paths on which directories and files were created,
    written or deleted. *)
Inductive touch : Type := TouchDir (p : string) | TouchFile (p : string).
Record Disk (FS : Type) : Type := mkDisk { dfs : FS; touched : list touch }.
Arguments mkDisk {_}.
Arguments dfs {_} _.
Arguments touched {_} _.

Section Bundles.
Context `{CorePath} `{CoreText} `{TimLib} `{TarLib} {FS : Type} `{FileSystem FS} `{OpenFS FS}.

Definition isJSON (data : bytes) : Result bool :=
  let data := bytes_of_string (Trim (string_of_bytes data)) in
  if decide (len data = 0) then Ok false
  else
    c ← index data 0;
    Ok (bool_decide (c = 123 \/ c = 91)).

(** ** Creation *)
Definition CreateProfileBundle (profileJSON : bytes) (name password : string) : Result Bundle :=
  match emptyNode with
  | inl err => Fail (E "CreateProfileBundle" "failed to create TIM" (Some err))
  | inr root =>
      match ToSigil profileJSON root password with
      | inl err => Fail (E "CreateProfileBundle" "failed to encrypt bundle" (Some err))
      | inr stimData => Ok (mkBundle BundleProfile name stimData (calculateChecksum stimData))
      end
  end.

Definition CreateProfileBundleUnencrypted (profileJSON : bytes) (name : string) : Result Bundle :=
  Ok (mkBundle BundleProfile name profileJSON (calculateChecksum profileJSON)).

(** [createTarball]: the files in an order of the map; [dirs] are the directories
    that have an entry. *)
Fixpoint tarball_entries (files : list (string * bytes)) (dirs : list string) : Result (list TarEntry) :=
  match files with
  | [] => Ok []
  | (name, content) :: files =>
      let dir := PathParent name in
      let new := bool_decide (dir <> "."%string /\ dir ∉ dirs) in
      json ← isJSON content;
      let mode := if decide (dir = "miners"%string \/ json = false) then 7 * 64 + 5 * 8 + 5 else 6 * 64 + 4 * 8 + 4 in
      rest ← tarball_entries files (if new then dir :: dirs else dirs);
      Ok ((if new then [mkEntry (dir +:+ PathSeparator) (7 * 64 + 5 * 8 + 5) TypeDir [] None] else []) ++
          mkEntry name mode TypeReg content None :: rest)
  end.
Definition createTarball (files : list (string * bytes)) : Result bytes :=
  entries ← tarball_entries files [];
  match tar_write entries with inl err => Fail err | inr data => Ok data end.

(** [profileJSON] may be nil. *)
Definition CreateMinerBundle (minerPath : string) (profileJSON : option bytes) (name password : string) : SR FS Bundle := fun s =>
  match Read minerPath s with
  | (inl err, s) => (Fail (E "CreateMinerBundle" "failed to read miner binary" (Some err)), s)
  | (inr minerContent, s) =>
      (tarData ← map_fail (fun err => E "CreateMinerBundle" "failed to create tarball" (Some err))
                   (createTarball [(PathBase minerPath, bytes_of_string minerContent)]);
       match FromTar tarData with
       | inl err => Fail (E "CreateMinerBundle" "failed to create datanode" (Some err))
       | inr dn =>
           match FromDataNode dn with
           | inl err => Fail (E "CreateMinerBundle" "failed to create TIM" (Some err))
           | inr (config, root) =>
               match ToSigil (default config profileJSON) root password with
               | inl err => Fail (E "CreateMinerBundle" "failed to encrypt bundle" (Some err))
               | inr stimData => Ok (mkBundle BundleMiner name stimData (calculateChecksum stimData))
               end
           end
       end, s)
  end.

(** ** Extraction *)
Definition ExtractProfileBundle (bundle : Bundle) (password : string) : Result bytes :=
  if negb (VerifyBundle bundle) then
    Fail (E "ExtractProfileBundle" "checksum mismatch - bundle may be corrupted" None)
  else
    json ← isJSON (b_Data bundle);
    if (json : bool) then Ok (b_Data bundle)
    else match FromSigil (b_Data bundle) password with
         | inl err => Fail (E "ExtractProfileBundle" "failed to decrypt bundle" (Some err))
         | inr (config, _) => Ok config
         end.

(** Calls on the file system, with their paths noted. *)
Definition on_disk_fs {A} (t : touch) (f : FS -> A * FS) (d : Disk FS) : A * Disk FS :=
  let '(a, s) := f (dfs d) in (a, mkDisk s (touched d ++ [t])).
Definition ensureDir (p : string) : SR (Disk FS) unit := fun d =>
  match on_disk_fs (TouchDir p) (EnsureDir p) d with
  | (Some err, d) => (Fail err, d)
  | (None, d) => (Ok tt, d)
  end.

Definition maxFileSize : Z := 100 * 1024 * 1024.

(** What [io.Copy] reads from the entry through the [LimitReader]. *)
Definition limited (e : TarEntry) : bytes * option error :=
  (take (Z.to_nat (maxFileSize + 1)) (te_Content e),
   if decide (len (te_Content e) < maxFileSize + 1) then te_Err e else None).

(** Opening and filling the file [fullPath] of an entry. *)
Definition write_entry (e : TarEntry) (fullPath : string) : SR (Disk FS) unit := fun d =>
  match on_disk_fs (TouchFile fullPath) (OpenFile fullPath (te_Mode e)) d with
  | (Some err, d) => (Fail (E "extractTarball" ("failed to create file " ++ te_Name e) (Some err)), d)
  | (None, d) =>
      let '(data, rerr) := limited e in
      let '((written, werr), d) := on_disk_fs (TouchFile fullPath) (CopyTo fullPath data) d in
      match (match werr with Some err => Some err | None => rerr end) with
      | Some err => (Fail (E "extractTarball" ("failed to write file " ++ te_Name e) (Some err)), d)
      | None =>
          if decide (written > maxFileSize) then
            let '(_, d) := on_disk_fs (TouchFile fullPath) (Delete fullPath) d in
            (Fail (E "extractTarball" ("file " ++ te_Name e ++ " exceeds maximum size") None), d)
          else (Ok tt, d)
      end
  end.
Definition extract_file (e : TarEntry) (fullPath : string) : SR (Disk FS) unit :=
  _ ← ensureDir (PathParent fullPath);
  write_entry e fullPath.

(** The path of an entry in the directory, if it is admitted. *)
Definition entry_path (absDestDir : string) (e : TarEntry) : Result string :=
  let cleanName := CleanPath (te_Name e) in
  if PathIsAbs cleanName then
    Fail (E "extractTarball" ("invalid tar entry: absolute path not allowed: " ++ te_Name e) None)
  else if HasPrefix cleanName (".." +:+ PathSeparator) || bool_decide (cleanName = ".."%string) then
    Fail (E "extractTarball" ("invalid tar entry: path traversal attempt: " ++ te_Name e) None)
  else
    let fullPath := CleanPath (PathJoin [absDestDir; cleanName]) in
    if negb (HasPrefix fullPath (absDestDir +:+ PathSeparator)) && negb (bool_decide (fullPath = absDestDir)) then
      Fail (E "extractTarball" ("invalid tar entry: path escape attempt: " ++ te_Name e) None)
    else Ok fullPath.

Fixpoint extract_entries (absDestDir : string) (es : list TarEntry) (readErr : option error) (firstExecutable : string)
    : SR (Disk FS) string :=
  match es with
  | [] => match readErr with Some err => fail err | None => mret firstExecutable end
  | e :: es =>
      fullPath ← lift (entry_path absDestDir e);
      match te_Typeflag e with
      | TypeDir =>
          _ ← ensureDir fullPath;
          extract_entries absDestDir es readErr firstExecutable
      | TypeReg =>
          _ ← extract_file e fullPath;
          extract_entries absDestDir es readErr
            (if decide (Z.land (te_Mode e) 73 <> 0 /\ firstExecutable = EmptyString) then fullPath else firstExecutable)
      | _ => extract_entries absDestDir es readErr firstExecutable
      end
  end.

(** [0111] is 73. *)
Definition extractTarball (tarData : bytes) (destDir : string) : SR (Disk FS) string :=
  match PathAbs destDir with
  | inl err => fail (E "extractTarball" "failed to resolve destination directory" (Some err))
  | inr abs =>
      let absDestDir := CleanPath abs in
      _ ← ensureDir absDestDir;
      let '(es, readErr) := tar_read tarData in
      extract_entries absDestDir es readErr EmptyString
  end.

Definition ExtractMinerBundle (bundle : Bundle) (password destDir : string) : SR (Disk FS) extractedMinerBundleResult :=
  if negb (VerifyBundle bundle) then
    fail (E "ExtractMinerBundle" "checksum mismatch - bundle may be corrupted" None)
  else
    match FromSigil (b_Data bundle) password with
    | inl err => fail (E "ExtractMinerBundle" "failed to decrypt bundle" (Some err))
    | inr (config, root) =>
        match ToTar root with
        | inl err => fail (E "ExtractMinerBundle" "failed to convert rootfs to tar" (Some err))
        | inr tarData =>
            on_result (extractTarball tarData destDir)
              (fun minerPath => mret (mkExtracted minerPath config))
              (fun err => fail (E "ExtractMinerBundle" "failed to extract tarball" (Some err)))
        end
    end.
End Bundles.

(** ** Transfer *)

(** [StreamBundle] to a writer and [ReadBundle] from a reader: [write] is what
    each call of [w.Write] returns. *)
Definition StreamBundle {S} (marshal : Bundle -> error + bytes) (write : bytes -> S -> option error * S) (bundle : Bundle) : SR S unit := fun s =>
  match MarshalJSON marshal bundle with
  | Ok data =>
      match write data s with
      | (Some err, s) => (Fail err, s)
      | (None, s) => match write [10] s with
                     | (Some err, s) => (Fail err, s)
                     | (None, s) => (Ok tt, s)
                     end
      end
  | Fail err => (Fail err, s)
  | Panic p => (Panic p, s)
  | OutOfFuel => (OutOfFuel, s)
  end.
Definition ReadBundle (unmarshal : bytes -> error + Bundle) (input : error + bytes) : Result Bundle :=
  match input with
  | inl err => Fail err
  | inr raw => match unmarshal raw with inl err => Fail err | inr b => Ok b end
  end.

(** ** Theorems *)
Section Extraction.
Context `{CL : CorePathLaws} `{CoreText} `{TimLib} `{TarLib} {FS : Type} `{FileSystem FS} `{OpenFS FS}.

Lemma entry_path_inside root e p :
  PathIsAbs root = true -> entry_path root e = Ok p -> inside root p.
Proof.
  intros Hroot. unfold entry_path. destruct (PathIsAbs (CleanPath (te_Name e))); [done|].
  destruct (_ || _); [done|]. set (full := CleanPath (PathJoin _)).
  destruct (HasPrefix full (root +:+ PathSeparator)) eqn:Hp; cbn [negb andb].
  - intros [= <-]. right. apply HasPrefix_app in Hp as [rest Hrest]. rewrite app_assoc_string in Hrest.
    exists rest. split; [done|]. apply clean_absolute. fold full. rewrite Hrest. by apply absolute_app.
  - destruct (decide (full = root)) as [Heq|Hne].
    + rewrite bool_decide_true by done. intros [= <-]. by left.
    + rewrite bool_decide_false by done. done.
Qed.

(** A path that an extraction into [root] may create, write or delete. *)
Definition confined (root : string) (t : touch) : Prop :=
  match t with
  | TouchFile p => inside root p
  | TouchDir p => inside root p \/ exists f, inside root f /\ p = PathParent f
  end.

(** The computation returns, having touched confined paths only. *)
Definition contained {A} (root : string) (m : SR (Disk FS) A) : Prop := forall d,
  match fst (m d) with Ok _ | Fail _ => True | _ => False end /\
  exists new, touched (snd (m d)) = touched d ++ new /\ Forall (confined root) new.

Lemma contained_lift {A} root (r : Result A) :
  match r with Ok _ | Fail _ => True | _ => False end -> contained root (lift r).
Proof. intros Hr d. split; [done|]. exists []. by rewrite app_nil_r. Qed.


Lemma contained_bind {A B} root (m : SR (Disk FS) A) (f : A -> SR (Disk FS) B) :
  contained root m -> (forall a, contained root (f a)) -> contained root (m ≫= f).
Proof.
  intros Hm Hf d. destruct (Hm d) as (Hr & new & Hnew & Hall). cbv [mbind SR_bind].
  destruct (m d) as [[a|e|p|] d1]; cbn [fst snd] in *; try done; [|split; [done|by exists new]].
  destruct (Hf a d1) as (Hr2 & new2 & Hnew2 & Hall2). split; [done|]. exists (new ++ new2).
  rewrite Hnew2, Hnew, app_assoc. split; [done|]. by apply Forall_app.
Qed.

Lemma ensureDir_contained root p : confined root (TouchDir p) -> contained root (ensureDir p).
Proof.
  intros Hp d. unfold ensureDir, on_disk_fs. destruct (EnsureDir p (dfs d)) as [[err|] s]; cbn [fst snd touched];
    (split; [done|]; exists [TouchDir p]; split; [done|by constructor]).
Qed.

Lemma write_entry_contained root e p : inside root p -> contained root (write_entry e p).
Proof.
  intros Hp d. assert (Hf : forall n, Forall (confined root) (replicate n (TouchFile p))) by (intros; by apply Forall_replicate).
  unfold write_entry, on_disk_fs, limited. destruct (OpenFile p (te_Mode e) (dfs d)) as [[err|] s].
  - split; [done|]. exists [TouchFile p]. split; [done|by constructor].
  - cbn [dfs touched]. destruct (CopyTo p _ s) as [[written werr] s1]. destruct (match werr with Some _ => _ | None => _ end).
    + split; [done|]. exists [TouchFile p; TouchFile p]. cbn [snd touched]. rewrite <- app_assoc. split; [done|exact (Hf 2%nat)].
    + case_decide.
      * cbn [dfs touched]. destruct (Delete p s1) as [derr s2]. split; [done|]. exists [TouchFile p; TouchFile p; TouchFile p].
        cbn [snd touched]. rewrite <- !app_assoc. split; [done|exact (Hf 3%nat)].
      * split; [done|]. exists [TouchFile p; TouchFile p]. cbn [snd touched]. rewrite <- app_assoc. split; [done|exact (Hf 2%nat)].
Qed.

Lemma extract_entries_contained root es readErr first :
  PathIsAbs root = true -> contained root (extract_entries root es readErr first).
Proof.
  intros Hroot. revert first. induction es as [|e es IH]; intros first; cbn [extract_entries].
  - destruct readErr; by apply contained_lift.
  - destruct (entry_path root e) as [p|err|pa|] eqn:Hp.
    + pose proof (entry_path_inside root e p Hroot Hp) as Hin.
      intros d. change (lift (Ok p) ≫= ?f) with (f p). revert d. destruct (te_Typeflag e); try apply IH.
      * apply contained_bind; [apply ensureDir_contained; by left|]. intros _. apply IH.
      * apply contained_bind; [|intros _; apply IH]. unfold extract_file. apply contained_bind.
        -- apply ensureDir_contained. right. by exists p.
        -- intros _. by apply write_entry_contained.
    + intros d. split; [done|]. exists []. by rewrite app_nil_r.
    + exfalso. revert Hp. unfold entry_path. by repeat (case_match; try done).
    + exfalso. revert Hp. unfold entry_path. by repeat (case_match; try done).
Qed.

Lemma extractTarball_contained tarData destDir d :
  let '(r, d') := extractTarball tarData destDir d in
  match r with Ok _ | Fail _ => True | _ => False end /\
  exists new, touched d' = touched d ++ new /\
    match PathAbs destDir with
    | inl _ => new = []
    | inr abs => PathIsAbs (CleanPath abs) = true /\ Forall (confined (CleanPath abs)) new
    end.
Proof.
  unfold extractTarball. destruct (PathAbs destDir) as [err|abs] eqn:Ha.
  - split; [done|]. exists []. by rewrite app_nil_r.
  - assert (Hroot : PathIsAbs (CleanPath abs) = true) by (by eapply abs_absolute).
    destruct (tar_read tarData) as [es readErr].
    assert (Hc : contained (CleanPath abs) (_ ← ensureDir (CleanPath abs); extract_entries (CleanPath abs) es readErr "")).
    { apply contained_bind; [apply ensureDir_contained; left; by left|]. intros _. by apply extract_entries_contained. }
    destruct (Hc d) as (Hr & new & Hnew & Hall).
    match type of Hr with match fst ?x with _ => _ end => destruct x as [r d'] end. split; [done|]. by exists new.
Qed.
(** The destination directory is made first. *)
Lemma extractTarball_first tarData destDir abs d :
  PathAbs destDir = inr abs ->
  exists ts, touched (snd (extractTarball tarData destDir d)) = touched d ++ TouchDir (CleanPath abs) :: ts.
Proof.
  intros Ha. unfold extractTarball. rewrite Ha. pose proof (abs_absolute _ _ Ha) as Hroot.
  destruct (tar_read tarData) as [es readErr]. cbv [mbind SR_bind]. unfold ensureDir, on_disk_fs.
  destruct (EnsureDir (CleanPath abs) (dfs d)) as [[err|] s]; [by exists []|].
  destruct (extract_entries_contained (CleanPath abs) es readErr EmptyString Hroot (mkDisk s (touched d ++ [TouchDir (CleanPath abs)])))
    as (_ & new & Hnew & _). exists new. rewrite Hnew. cbn [touched]. by rewrite <- app_assoc.
Qed.

(** Likewise for a bundle. *)
Lemma ExtractMinerBundle_contained bundle password destDir d :
  match fst (ExtractMinerBundle bundle password destDir d) with Ok _ | Fail _ => True | _ => False end /\
  exists new, touched (snd (ExtractMinerBundle bundle password destDir d)) = touched d ++ new /\
    (new = [] \/ exists abs, PathAbs destDir = inr abs /\ Forall (confined (CleanPath abs)) new).
Proof.
  unfold ExtractMinerBundle.
  assert (Hfail : forall e : error, match fst (fail e d : Result extractedMinerBundleResult * Disk FS) with Ok _ | Fail _ => True | _ => False end /\
    exists new, touched d = touched d ++ new /\ (new = [] \/ exists abs, PathAbs destDir = inr abs /\ Forall (confined (CleanPath abs)) new)).
  { intros e. split; [done|]. exists []. rewrite app_nil_r. by split; [|left]. }
  destruct (VerifyBundle _); cbn [negb]; [|apply Hfail]. destruct (FromSigil _ _) as [e|[config root]]; [apply Hfail|].
  destruct (ToTar root) as [e|tarData]; [apply Hfail|]. clear Hfail.
  pose proof (extractTarball_contained tarData destDir d) as Hx. unfold on_result.
  destruct (extractTarball tarData destDir d) as [r d']. destruct Hx as (Hr & new & Hnew & Hall).
  assert (Hnew' : new = [] \/ exists abs, PathAbs destDir = inr abs /\ Forall (confined (CleanPath abs)) new).
  { destruct (PathAbs destDir) as [e|abs]; [by left|]. right. exists abs. split; [done|apply Hall]. }
  destruct r; try done; (split; [done|]; by exists new).
Qed.
End Extraction.

Section Roundtrip.
Context `{CorePath} `{TL : CoreTextLaws} `{TimLib} `{TarLib} {FS : Type} `{FileSystem FS} `{OpenFS FS}.

(** What was sealed with a password is opened with it. *)
Hypothesis sigil_opens : forall config root pw d, ToSigil config root pw = inr d -> FromSigil d pw = inr (config, root).

Lemma hex_digit_inj a b : 0 <= a < 16 -> 0 <= b < 16 -> hex_digit a = hex_digit b -> a = b.
Proof. unfold hex_digit. intros. repeat case_decide; lia. Qed.

Lemma hex_digit_byte a : 0 <= a < 16 -> is_byte (hex_digit a).
Proof. intros Ha. unfold hex_digit, in_u. case_decide; lia. Qed.

Lemma hex_bytes b : all_bytes b -> all_bytes (flat_map (fun x => [hex_digit (x / 16); hex_digit (x mod 16)]) b).
Proof.
  induction 1 as [|x b Hx _ IH]; [constructor|]. cbn [flat_map app]. unfold in_u in Hx.
  constructor; [apply hex_digit_byte; split; [apply Z.div_pos; lia|apply Z.div_lt_upper_bound; lia]|].
  constructor; [apply hex_digit_byte, Z.mod_pos_bound; lia|exact IH].
Qed.

(** Two byte strings with the same hexadecimal text are the same. *)
Lemma EncodeToString_inj a b : all_bytes a -> all_bytes b -> EncodeToString a = EncodeToString b -> a = b.
Proof.
  intros Ha Hb Heq. apply (f_equal bytes_of_string) in Heq. unfold EncodeToString in Heq.
  rewrite !bytes_of_string_of_bytes in Heq by (by apply hex_bytes). clear -Ha Hb Heq. revert b Hb Heq.
  induction Ha as [|x a Hx _ IH]; intros b Hb Heq; destruct Hb as [|y b Hy Hb]; try done.
  cbn [flat_map app] in Heq. injection Heq as Hd Hm Ht. unfold in_u in *. f_equal; [|by apply IH].
  apply hex_digit_inj in Hd; [|split; [apply Z.div_pos; lia|apply Z.div_lt_upper_bound; lia]..].
  apply hex_digit_inj in Hm; [|apply Z.mod_pos_bound; lia..].
  rewrite (Z.div_mod x 16), (Z.div_mod y 16) by lia. by rewrite Hd, Hm.
Qed.

(** A text that starts like a JSON object or array: with a brace (123) or a
    bracket (91), perhaps after white space. *)
Definition starts_json (data : bytes) : Prop :=
  exists pre c rest, string_of_bytes data = pre +:+ String c rest /\ blank pre /\ (c = Ascii.ascii_of_N 123 \/ c = Ascii.ascii_of_N 91).

Lemma isJSON_starts data : exists b, isJSON data = Ok b /\ (b = true <-> starts_json data).
Proof.
  unfold isJSON. destruct (trim_ends (string_of_bytes data)) as (pre & post & Hs & Hpre & _).
  destruct (Trim (string_of_bytes data)) as [|c t] eqn:Ht.
  - exists false. split; [done|]. split; [done|]. intros (pre' & c & rest & Hd & Hb & Hc).
    destruct (trim_starts pre' c rest Hb) as (rest' & Hr); [destruct Hc as [-> | ->]; done|]. congruence.
  - eexists. split; [reflexivity|]. rewrite bool_decide_eq_true. split.
    + intros Hc. exists pre, c, (t +:+ post). split_and!; [done|done|].
      rewrite <- (Ascii.ascii_N_embedding c). destruct Hc as [Hc|Hc].
      * left. by replace (Ascii.N_of_ascii c) with 123%N by lia.
      * right. by replace (Ascii.N_of_ascii c) with 91%N by lia.
    + intros (pre' & c' & rest & Hd & Hb & Hc).
      destruct (trim_starts pre' c' rest Hb) as (rest' & Hr); [destruct Hc as [-> | ->]; done|].
      rewrite <- Hd, Ht in Hr. injection Hr as -> _. by destruct Hc as [-> | ->]; [left|right].
Qed.

Lemma VerifyBundle_own t n d : VerifyBundle (mkBundle t n d (calculateChecksum d)) = true.
Proof. unfold VerifyBundle. cbn [b_Data b_Checksum]. by apply bool_decide_eq_true. Qed.

End Roundtrip.
