(* ===== verification/Payloads.v ===== *)
(** * Payloads of the protocol (src/go/node/message.go)

    The records that requests and replies carry, and the JSON package at these
    types as an interface: what it encodes it decodes again, also when the text
    was written anew on the way. *)

From S2P Require Import Prelude Float64 Bundle Session Transport.

Record PongPayload : Type := mkPong {
  pong_SentAt : Z;
  pong_ReceivedAt : Z
}.
(** [Config] is nil or raw JSON. *)
Record StartMinerPayload : Type := mkStart {
  st_MinerType : string;
  st_ProfileID : string;
  st_Config : option bytes
}.
Record StopMinerPayload : Type := mkStop { sp_MinerName : string }.
Record MinerAckPayload : Type := mkMinerAck {
  ma_Success : bool;
  ma_Name : string;
  ma_MinerName : string;
  ma_Error : string
}.
Record MinerStatsItem : Type := mkItem {
  it_Name : string;
  it_Type : string;
  it_IsRunning : bool;
  it_Hashrate : float64;
  it_SharedCount : Z;
  it_InvalidCount : Z;
  it_Temperature : float64;
  it_Uptime : Z;
  it_Shares : Z;
  it_Rejected : Z;
  it_Pool : string;
  it_Algorithm : string;
  it_CPUThreads : Z
}.
Record StatsPayload : Type := mkStats {
  sta_NodeID : string;
  sta_NodeName : string;
  sta_Miners : list MinerStatsItem;
  sta_Uptime : Z
}.
Record GetLogsPayload : Type := mkGetLogs {
  gl_MinerName : string;
  gl_Lines : Z;
  gl_Since : Z
}.
Record LogsPayload : Type := mkLogs {
  lg_MinerName : string;
  lg_Lines : list string;
  lg_HasMore : bool
}.
Record DeployPayload : Type := mkDeploy {
  dp_Bundle : option Bundle;
  dp_BundleType : string;
  dp_Data : bytes;
  dp_Checksum : string;
  dp_Name : string
}.
Record DeployAckPayload : Type := mkDeployAck {
  da_Success : bool;
  da_Name : string;
  da_Error : string
}.

(** [core.JSONMarshal], [core.JSONUnmarshal] and the zero value at a type. *)
Class Codec (T : Type) : Type := {
  enc : T -> error + bytes;
  dec : bytes -> error + T;
  zero : T
}.

(** Values of strings, integers and booleans are always encoded. *)
Class TotalCodec (T : Type) `{Codec T} : Prop := enc_total x : exists d, enc x = inr d.

(** The values that survive their encoding ([codec_ok]: valid UTF-8, numbers that
    JSON has, no empty slice that [omitempty] drops) are encoded, and decoded from
    any text that stands for the same JSON value as the encoding does. *)
Class CodecLaws (T : Type) `{MsgJSON} `{Codec T} : Type := {
  codec_ok : T -> Prop;
  enc_ok x : codec_ok x -> exists d, enc x = inr d;
  dec_value x d d' a : codec_ok x -> enc x = inr d ->
    unmarshalAny (unescape d) = inr (Some a) -> unmarshalAny d' = inr (Some a) -> dec d' = inr x
}.
