(* ===== verification/Worker.v ===== *)
(** * The worker (src/go/node/worker.go)

    The requests a node serves: the handler of each, the dispatch by type, and
    the reply on the connection the request came in on.  The miner manager and
    the profile manager are interfaces, as in the code. *)

From S2P Require Import Prelude Crypto Float64 PeerName Peer PeerPersist Identity Ueps KeyDeriv.
From S2P Require Import Controller Protocol Session Duration Limits Transport Paths Bundle Payloads.

(** ** Interfaces *)

(** A value of a [map[string]any], by its dynamic type. *)
Inductive StatValue : Type :=
| SInt (z : Z)
| SInt64 (z : Z)
| SFloat (x : float64)
| SString (s : string)
| SBool (b : bool)
| SOther.

(** The configuration of a miner: the raw override or what the profile manager
    has. *)
Inductive MinerConfig (profile : Type) : Type :=
| RawConfig (config : bytes)
| ProfileConfig (p : profile).
Arguments RawConfig {_} _.
Arguments ProfileConfig {_} _.

(** [GetStats] may return a value that is not a [map[string]any]: [None].
    [GetConsoleHistorySince] is there for a [historicalMinerInstance]. *)
Class MinerManager (profile MM : Type) : Type := {
  MinerInstance : Type;
  mm_StartMiner : string -> MinerConfig profile -> MM -> (error + MinerInstance) * MM;
  mm_StopMiner : string -> MM -> option error * MM;
  mm_ListMiners : MM -> list MinerInstance * MM;
  mm_GetMiner : string -> MM -> (error + MinerInstance) * MM;
  GetName : MinerInstance -> string;
  GetType : MinerInstance -> string;
  GetStats : MinerInstance -> MM -> (error + option (gmap string StatValue)) * MM;
  GetConsoleHistory : MinerInstance -> Z -> MM -> list string * MM;
  GetConsoleHistorySince : MinerInstance -> option (Z -> Z -> MM -> list string * MM)
}.
Class ProfileManager (profile json PM : Type) : Type := {
  pm_GetProfile : string -> PM -> (error + profile) * PM;
  pm_SaveProfile : option json -> PM -> option error * PM
}.

(** ** Helpers *)

(** [base64.StdEncoding.EncodeToString]. *)
Definition b64_char (n : Z) : Z :=
  if decide (n < 26) then 65 + n
  else if decide (n < 52) then 71 + n
  else if decide (n < 62) then n - 4
  else if decide (n = 62) then 43 else 47.
Definition b64_digit (v k : Z) : Z := b64_char (Z.land (Z.shiftr v (6 * k)) 63).
Fixpoint b64_encode (b : bytes) : bytes :=
  match b with
  | [] => []
  | [x] => let v := Z.shiftl x 16 in [b64_digit v 3; b64_digit v 2; 61; 61]
  | [x; y] => let v := Z.lor (Z.shiftl x 16) (Z.shiftl y 8) in [b64_digit v 3; b64_digit v 2; b64_digit v 1; 61]
  | x :: y :: z :: rest =>
      let v := Z.lor (Z.lor (Z.shiftl x 16) (Z.shiftl y 8)) z in
      b64_digit v 3 :: b64_digit v 2 :: b64_digit v 1 :: b64_digit v 0 :: b64_encode rest
  end.
Definition base64_EncodeToString (b : bytes) : string := string_of_bytes (b64_encode b).

(** [time.UnixMilli(ms)]. *)
Definition time_UnixMilli (ms : Z) : Z := (ms + 62135596800000) * 1000000.

(** [x, ok := statsMap[key].(T)]: the value if it has the type. *)
Definition as_int (v : option StatValue) : option Z := match v with Some (SInt z) => Some z | _ => None end.
Definition as_int64 (v : option StatValue) : option Z := match v with Some (SInt64 z) => Some z | _ => None end.
Definition as_float (v : option StatValue) : option float64 := match v with Some (SFloat x) => Some x | _ => None end.
Definition as_string (v : option StatValue) : option string := match v with Some (SString s) => Some s | _ => None end.
Definition as_bool (v : option StatValue) : option bool := match v with Some (SBool b) => Some b | _ => None end.

(** The later of two sources of a field, if it is there. *)
Definition or_else {A} (later earlier : option A) : option A := match later with Some a => Some a | None => earlier end.

(** [name] and [type] are [miner.GetName()] and [miner.GetType()]. *)
Definition convertMinerStats (name type : string) (rawStats : option (gmap string StatValue)) : MinerStatsItem :=
  match rawStats with
  | None => mkItem name type true (float_of_int 0) 0 0 (float_of_int 0) 0 0 0 "" "" 0
  | Some m =>
      let hashrate := as_float (m !! "hashrate"%string) in
      let shares := or_else (as_int (m !! "sharedCount"%string)) (as_int (m !! "shares"%string)) in
      let invalid := or_else (as_int (m !! "invalid"%string)) (as_int (m !! "rejected"%string)) in
      let uptime := or_else (as_int64 (m !! "uptime"%string)) (as_int (m !! "uptime"%string)) in
      let temp := or_else (as_float (m !! "temperature"%string)) (as_float (m !! "temp"%string)) in
      mkItem name type (default true (as_bool (m !! "running"%string))) (default (float_of_int 0) hashrate)
        (default 0 shares) (default 0 invalid) (default (float_of_int 0) temp) (default 0 uptime)
        (default 0 shares) (default 0 invalid)
        (default ""%string (as_string (m !! "pool"%string))) (default ""%string (as_string (m !! "algorithm"%string))) 0
  end.

Definition maxLogLines : Z := 10000.

(** ** The worker *)
Section Worker.
Context {W : Type} `{WebSocket W}.
Context `{KDLib} `{JSON} {FS : Type} `{FileSystem FS} `{KeyLib} `{MsgJSON} `{AEADLib} `{HandshakeJSON}.
Context `{CorePath} `{CoreText} `{TimLib} `{TarLib} `{OpenFS FS}.
Context {profile MM PM : Type} `{MinerManager profile MM} `{ProfileManager profile any PM}.
Context `{Codec PingPayload} `{Codec PongPayload} `{Codec StartMinerPayload} `{Codec StopMinerPayload}.
Context `{Codec MinerAckPayload} `{Codec StatsPayload} `{Codec GetLogsPayload} `{Codec LogsPayload}.
Context `{Codec DeployPayload} `{Codec DeployAckPayload} `{Codec ErrorPayload}.

(** [err.Error()]. *)
Context (Error : error -> string).

(** The worker with the transport it points to, whose node is the worker's; the
    deployments are on the same file system. *)
Record Worker : Type := mkWorker {
  transport : Transport (W := W) (FS := FS);
  minerManager : option MM;
  profileManager : option PM;
  startTime : Z;
  DataDir : string;
  deployed : list touch
}.

(** [dataHome] is [xdg.DataHome]. *)
Definition NewWorker (t : Transport) (now : Z) (dataHome : string) : Worker :=
  mkWorker t None None now dataHome [].
Definition set_transport v (w : Worker) : Worker :=
  mkWorker v (minerManager w) (profileManager w) (startTime w) (DataDir w) (deployed w).
Definition set_miners v (w : Worker) : Worker :=
  mkWorker (transport w) v (profileManager w) (startTime w) (DataDir w) (deployed w).
Definition set_profiles v (w : Worker) : Worker :=
  mkWorker (transport w) (minerManager w) v (startTime w) (DataDir w) (deployed w).
Definition SetMinerManager (manager : MM) (w : Worker) : Worker := set_miners (Some manager) w.
Definition SetProfileManager (manager : PM) (w : Worker) : Worker := set_profiles (Some manager) w.

(** A method of the miner manager and of the profile manager: a call on a nil
    interface panics. *)
Definition on_miners {A} (f : MM -> A * MM) : SR Worker A := fun w =>
  match minerManager w with
  | None => (Panic NilDereference, w)
  | Some mm => let '(a, mm) := f mm in (Ok a, set_miners (Some mm) w)
  end.
Definition on_profiles {A} (f : PM -> A * PM) : SR Worker A := fun w =>
  match profileManager w with
  | None => (Panic NilDereference, w)
  | Some pm => let '(a, pm) := f pm in (Ok a, set_profiles (Some pm) w)
  end.

(** A call on the disk. *)
Definition on_disk {A} (m : SR (Disk FS) A) : SR Worker A := fun w =>
  let wd := world (transport w) in
  let '(r, d) := m (mkDisk (fs wd) (deployed w)) in
  (r, mkWorker (set_world (mkWorld (heap wd) (reg wd) (dfs d)) (transport w)) (minerManager w) (profileManager w)
        (startTime w) (DataDir w) (touched d)).

Definition worker_identity (w : Worker) : option NodeIdentity := get_identity (transport w).

(** [if r := msg.ParsePayload(&payload); !r.OK { return core.Fail(...) }]. *)
Definition payload_of (T : Type) `{Codec T} (op what : string) (msg : Message) : Result T :=
  map_fail (fun err => E op what (Some err)) (ParsePayload zero dec msg).

(** [msg.Reply(msgType, payload)]. *)
Definition reply_with {T} `{Codec T} (i : Input) (msg : Message) (msgType : string) (payload : T) : SR Worker Message :=
  lift (Reply (uuid i) (clock i) (payload_json enc) msg msgType (Some payload)).

(** ** The handlers: [now] is the time a handler reads. *)
Definition handlePing (i : Input) (now : Z) (msg : Message) : SR Worker Message :=
  ping ← lift (payload_of PingPayload "Worker.handlePing" "invalid ping payload" msg);
  reply_with i msg MsgPong (mkPong (SentAt ping) (UnixMilli now)).

Fixpoint stats_loop (miners : list MinerInstance) : SR Worker (list MinerStatsItem) :=
  match miners with
  | [] => mret []
  | miner :: miners =>
      r ← on_miners (GetStats miner);
      items ← stats_loop miners;
      match r with
      | inl _ => mret items
      | inr minerStats => mret (convertMinerStats (GetName miner) (GetType miner) minerStats :: items)
      end
  end.
Definition collect_stats : SR Worker (list MinerStatsItem) := fun w =>
  match minerManager w with
  | None => (Ok [], w)
  | Some _ => (miners ← on_miners mm_ListMiners; stats_loop miners) w
  end.
Definition handleGetStats (i : Input) (now : Z) (msg : Message) : SR Worker Message :=
  identity ← gets worker_identity;
  match identity with
  | None => fail ErrIdentityNotInitialized
  | Some identity =>
      started ← gets startTime;
      items ← collect_stats;
      reply_with i msg MsgStats
        (mkStats (ni_ID identity) (ni_Name identity) items (int_of_float (Seconds (Sub now started))))
  end.

(** The configuration to start a miner with. *)
Definition config_for (payload : StartMinerPayload) : SR Worker (MinerConfig profile) := fun w =>
  match st_Config payload, profileManager w with
  | Some config, _ => (Ok (RawConfig config), w)
  | None, Some _ =>
      (r ← on_profiles (pm_GetProfile (st_ProfileID payload));
       match r with
       | inl _ => fail (E "Worker.handleStartMiner" ("profile not found: " ++ st_ProfileID payload) None)
       | inr p => mret (ProfileConfig p)
       end) w
  | None, None => (Fail (E "Worker.handleStartMiner" "no config provided and no profile manager configured" None), w)
  end.
Definition handleStartMiner (i : Input) (msg : Message) : SR Worker Message := fun w =>
  match minerManager w with
  | None => (Fail ErrMinerManagerNotConfigured, w)
  | Some _ =>
      (payload ← lift (payload_of StartMinerPayload "Worker.handleStartMiner" "invalid start miner payload" msg);
       if decide (st_MinerType payload = EmptyString) then
         fail (E "Worker.handleStartMiner" "miner type is required" None)
       else
         config ← config_for payload;
         r ← on_miners (mm_StartMiner (st_MinerType payload) config);
         match r with
         | inl err => reply_with i msg MsgMinerAck (mkMinerAck false "" "" (Error err))
         | inr miner => reply_with i msg MsgMinerAck (mkMinerAck true (GetName miner) (GetName miner) "")
         end) w
  end.

Definition handleStopMiner (i : Input) (msg : Message) : SR Worker Message := fun w =>
  match minerManager w with
  | None => (Fail ErrMinerManagerNotConfigured, w)
  | Some _ =>
      (payload ← lift (payload_of StopMinerPayload "Worker.handleStopMiner" "invalid stop miner payload" msg);
       err ← on_miners (mm_StopMiner (sp_MinerName payload));
       reply_with i msg MsgMinerAck
         (mkMinerAck (bool_decide (err = None)) (sp_MinerName payload) (sp_MinerName payload)
            (match err with Some err => Error err | None => "" end))) w
  end.

(** The zero time is 0. *)
Definition getMinerConsoleHistory (miner : MinerInstance) (lines since : Z) : SR Worker (list string) :=
  if decide (since = 0) then on_miners (GetConsoleHistory miner lines)
  else match GetConsoleHistorySince miner with
       | Some hist => on_miners (hist lines since)
       | None => on_miners (GetConsoleHistory miner lines)
       end.
Definition handleGetLogs (i : Input) (msg : Message) : SR Worker Message := fun w =>
  match minerManager w with
  | None => (Fail ErrMinerManagerNotConfigured, w)
  | Some _ =>
      (payload ← lift (payload_of GetLogsPayload "Worker.handleGetLogs" "invalid get logs payload" msg);
       let lines := if decide (gl_Lines payload <= 0 \/ gl_Lines payload > maxLogLines) then maxLogLines else gl_Lines payload in
       r ← on_miners (mm_GetMiner (gl_MinerName payload));
       match r with
       | inl _ => fail (E "Worker.handleGetLogs" ("miner not found: " ++ gl_MinerName payload) None)
       | inr miner =>
           history ← getMinerConsoleHistory miner lines (if decide (gl_Since payload > 0) then time_UnixMilli (gl_Since payload) else 0);
           reply_with i msg MsgLogs (mkLogs (gl_MinerName payload) history (bool_decide (len history >= lines)))
       end) w
  end.

(** The bundle of a deployment, from the structured field or the older ones. *)
Definition bundle_of (payload : DeployPayload) : Bundle :=
  match dp_Bundle payload with
  | None => mkBundle (dp_BundleType payload) (dp_Name payload) (dp_Data payload) (dp_Checksum payload)
  | Some b =>
      mkBundle (if decide (b_Type b = EmptyString) then dp_BundleType payload else b_Type b)
        (if decide (b_Name b = EmptyString) then dp_Name payload else b_Name b) (b_Data b) (b_Checksum b)
  end.
Definition password_of (conn : option positive) (w : Worker) : string :=
  match conn ≫= fun c => objs (transport w) !! c with
  | Some pc =>
      if decide (len (default [] (SharedSecret pc)) > 0)
      then base64_EncodeToString (default [] (SharedSecret pc)) else EmptyString
  | None => EmptyString
  end.

Definition deploy_profile (i : Input) (msg : Message) (payload : DeployPayload) (password : string) : SR Worker Message := fun w =>
  match profileManager w with
  | None => (Fail (E "Worker.handleDeploy" "profile manager not configured" None), w)
  | Some _ =>
      (profileData ← lift (map_fail (fun err => E "Worker.handleDeploy" "failed to extract profile bundle" (Some err))
                       (ExtractProfileBundle (bundle_of payload) password));
       match unmarshalAny profileData with
       | inl err => fail (E "Worker.handleDeploy" "invalid profile data JSON" (Some err))
       | inr p =>
           err ← on_profiles (pm_SaveProfile p);
           match err with
           | Some err => reply_with i msg MsgDeployAck (mkDeployAck false (dp_Name payload) (Error err))
           | None => reply_with i msg MsgDeployAck (mkDeployAck true (dp_Name payload) "")
           end
       end) w
  end.

(** The profile in a miner bundle, saved as far as it can be. *)
Definition save_bundled (profileData : bytes) : SR Worker unit := fun w =>
  if decide (len profileData > 0 /\ profileManager w <> None) then
    match unmarshalAny profileData with
    | inl _ => (Ok tt, w)
    | inr p => (_ ← on_profiles (pm_SaveProfile p); mret tt) w
    end
  else (Ok tt, w).

Definition minersDir (w : Worker) : string := PathJoin [DataDir w; "lethean-desktop"; "miners"]%string.
Definition deploy_miner (i : Input) (msg : Message) (payload : DeployPayload) (password : string) : SR Worker Message :=
  minersDir ← gets minersDir;
  extracted ← on_result
    (on_disk (ExtractMinerBundle (bundle_of payload) password (PathJoin [minersDir; dp_Name payload])))
    mret (fun err => fail (E "Worker.handleDeploy" "failed to extract miner bundle" (Some err)));
  _ ← save_bundled (ex_Profile extracted);
  reply_with i msg MsgDeployAck (mkDeployAck true (dp_Name payload) "").

Definition handleDeploy (i : Input) (conn : option positive) (msg : Message) : SR Worker Message :=
  payload ← lift (payload_of DeployPayload "Worker.handleDeploy" "invalid deploy payload" msg);
  password ← gets (password_of conn);
  if decide (b_Type (bundle_of payload) = BundleProfile) then deploy_profile i msg payload password
  else if decide (b_Type (bundle_of payload) = BundleMiner \/ b_Type (bundle_of payload) = BundleFull) then
    deploy_miner i msg payload password
  else fail (E "Worker.handleDeploy" ("unknown bundle type: " ++ dp_BundleType payload) None).

(** ** The dispatch *)
Definition handler_of (i : Input) (now : Z) (conn : option positive) (msg : Message) : option (SR Worker Message) :=
  if decide (m_Type msg = MsgPing) then Some (handlePing i now msg)
  else if decide (m_Type msg = MsgGetStats) then Some (handleGetStats i now msg)
  else if decide (m_Type msg = MsgStartMiner) then Some (handleStartMiner i msg)
  else if decide (m_Type msg = MsgStopMiner) then Some (handleStopMiner i msg)
  else if decide (m_Type msg = MsgGetLogs) then Some (handleGetLogs i msg)
  else if decide (m_Type msg = MsgDeploy) then Some (handleDeploy i conn msg)
  else None.

(** [conn.Send(msg)], its result only logged. *)
Definition send_on (i : Input) (conn : option positive) (msg : Message) : SR Worker unit := fun w =>
  match conn with
  | None => (Panic NilDereference, w)
  | Some c =>
      match SendOn i c msg (transport w) with
      | (Ok _, t) | (Fail _, t) => (Ok tt, set_transport t w)
      | (Panic p, t) => (Panic p, set_transport t w)
      | (OutOfFuel, t) => (OutOfFuel, set_transport t w)
      end
  end.

Definition error_reply (i : Input) (conn : option positive) (msg : Message) (err : error) : SR Worker unit :=
  identity ← gets worker_identity;
  match identity with
  | None => mret tt
  | Some identity =>
      match NewErrorMessage (uuid i) (clock i) (payload_json enc) (ni_ID identity) (m_From msg) ErrCodeOperationFailed
              (Error err) (m_ID msg) with
      | Ok errMsg => send_on i conn errMsg
      | Fail _ => mret tt
      | Panic p => lift (Panic p)
      | OutOfFuel => lift OutOfFuel
      end
  end.

Definition HandleMessage (i : Input) (now : Z) (conn : option positive) (msg : Message) : SR Worker unit :=
  match handler_of i now conn msg with
  | None => mret tt
  | Some handle => on_result handle (send_on i conn) (error_reply i conn msg)
  end.

(** The transport calls [HandleMessage] from now on. *)
Definition RegisterWithTransport : SR Worker unit := fun w => (Ok tt, set_transport (snd (OnMessage (transport w))) w).

End Worker.
