(* ===== verification/WorkerProofs.v ===== *)
(** * What the worker does with a request

    Every request gets one reply, addressed to its sender, on the connection it
    came in on; anything else changes nothing.  A deployment stays in its
    directory, which the sender of the deployment chooses. *)

From S2P Require Import Prelude Crypto Float64 PeerName Peer PeerPersist Identity Ueps KeyDeriv.
From S2P Require Import Controller Protocol Session Duration Limits Transport Paths Bundle Payloads Worker.
From S2P Require Import ConnTable.

Section WorkerProofs.
Context {W : Type} `{WebSocket W}.
Context `{KDLib} `{JSON} {FS : Type} `{FileSystem FS} `{KeyLib} `{MsgJSON} `{AL : AEADLaws} `{HandshakeJSON}.
Context `{CL : CorePathLaws} `{CoreText} `{TimLib} `{TarLib} `{OpenFS FS}.
Context {profile MM PM : Type} `{MinerManager profile MM} `{ProfileManager profile any PM}.
Context `{Codec PingPayload} `{Codec PongPayload} `{Codec StartMinerPayload} `{Codec StopMinerPayload}.
Context `{Codec MinerAckPayload} `{Codec StatsPayload} `{Codec GetLogsPayload} `{Codec LogsPayload}.
Context `{Codec DeployPayload} `{Codec DeployAckPayload} `{TotalCodec ErrorPayload}.
Context (Error : error -> string).
Abbreviation Worker := (Worker (W := W) (FS := FS) (MM := MM) (PM := PM)).
Implicit Types (w : Worker) (i : Input) (msg : Message).

(** ** What a handler leaves alone *)

(** Where the bundle of a deployment of [name] is extracted. *)
Definition install_root (DataDir name : string) : error + string :=
  match PathAbs (PathJoin [PathJoin [DataDir; "lethean-desktop"; "miners"]%string; name]) with
  | inl e => inl e
  | inr abs => inr (CleanPath abs)
  end.

(** The paths that a deployment of [name] adds are in its directory. *)
Definition stays (DataDir name : string) (old new : list touch) : Prop :=
  exists ts, new = old ++ ts /\ (ts = [] \/ exists root, install_root DataDir name = inr root /\ Forall (confined root) ts).

(** Connections, registry and identity are as before; a manager that was there is
    still there; files are touched by a deployment only. *)
Definition kept (dep : option string) w w' : Prop :=
  (exists f, transport w' = set_world (mkWorld (heap (world (transport w))) (reg (world (transport w))) f) (transport w)) /\
  (is_Some (minerManager w) <-> is_Some (minerManager w')) /\
  (is_Some (profileManager w) <-> is_Some (profileManager w')) /\
  startTime w' = startTime w /\ DataDir w' = DataDir w /\
  match dep with None => deployed w' = deployed w | Some name => stays (DataDir w) name (deployed w) (deployed w') end.

Lemma stays_refl D n ts : stays D n ts ts.
Proof. exists []. rewrite app_nil_r. by split; [|left]. Qed.
Lemma stays_trans D n a b c : stays D n a b -> stays D n b c -> stays D n a c.
Proof.
  intros (t1 & -> & H1') (t2 & -> & H2'). exists (t1 ++ t2). split; [by rewrite app_assoc|].
  destruct H1' as [->|(r1 & Hr1 & Hall1)]; [done|]. right. exists r1. split; [done|].
  destruct H2' as [->|(r2 & Hr2 & Hall2)]; [by rewrite app_nil_r|]. apply Forall_app. split; [done|]. congruence.
Qed.
Hint Resolve stays_refl : core.

Section Frame.
Context (dep : option string).
Abbreviation kept := (kept dep).

(** The computation returns, with a result in [Q], having left that alone. *)
Definition calm {A} (Q : A -> Prop) (m : SR Worker A) w : Prop :=
  match fst (m w) with Ok a => Q a | Fail _ => True | _ => False end /\ kept w (snd (m w)).

Lemma kept_refl w : kept w w.
Proof.
  unfold WorkerProofs.kept. split_and!; try done; [|by destruct dep].
  exists (fs (world (transport w))). by destruct w as [[? ? ? ? [] ] ].
Qed.
Lemma kept_trans w1 w2 w3 : kept w1 w2 -> kept w2 w3 -> kept w1 w3.
Proof.
  intros ([f1 Ht1] & Hm1 & Hp1 & Hs1 & Hd1 & Hl1) ([f2 Ht2] & Hm2 & Hp2 & Hs2 & Hd2 & Hl2).
  split; [exists f2; rewrite Ht2, Ht1; done|]. split; [tauto|]. split; [tauto|]. split; [congruence|]. split; [congruence|].
  destruct dep; [|congruence]. rewrite Hd1 in Hl2. by eapply stays_trans.
Qed.
Lemma kept_miners w w' : kept w w' -> is_Some (minerManager w) -> is_Some (minerManager w').
Proof. intros (_ & Hm & _). apply Hm. Qed.
Hint Resolve kept_refl kept_miners : core.

Lemma calm_bind {A B} Q Q' (m : SR Worker A) (f : A -> SR Worker B) w :
  calm Q m w -> (forall a w', Q a -> kept w w' -> calm Q' (f a) w') -> calm Q' (m ≫= f) w.
Proof.
  intros [Hr Hk] Hf. unfold calm in *. cbv [mbind SR_bind]. destruct (m w) as [[a|e|p|] w1]; cbn [fst snd] in *; try done.
  destruct (Hf a w1 Hr Hk) as [Hr2 Hk2]. split; [done|by eapply kept_trans].
Qed.
Lemma calm_lift {A} (Q : A -> Prop) (r : Result A) w :
  match r with Ok a => Q a | Fail _ => True | _ => False end -> calm Q (lift r) w.
Proof. by split. Qed.
Lemma calm_gets {A} (f : Worker -> A) w : calm (fun a => a = f w) (gets f) w.
Proof. by split. Qed.
Lemma calm_miners {A} (f : MM -> A * MM) w : is_Some (minerManager w) -> calm (fun _ => True) (on_miners f) w.
Proof.
  intros [mm Hmm]. unfold calm, on_miners. rewrite Hmm. destruct (f mm) as [a mm']. split; [done|].
  split; [|split_and!; try done; solve [intros; by eexists|by destruct dep]]. exists (fs (world (transport w))). by destruct w as [[? ? ? ? [] ] ].
Qed.
Lemma calm_profiles {A} (f : PM -> A * PM) w : is_Some (profileManager w) -> calm (fun _ => True) (on_profiles f) w.
Proof.
  intros [pm Hpm]. unfold calm, on_profiles. rewrite Hpm. destruct (f pm) as [a pm']. split; [done|].
  split; [|split_and!; try done; solve [intros; by eexists|by destruct dep]]. exists (fs (world (transport w))). by destruct w as [[? ? ? ? [] ] ].
Qed.

(** A reply of the type [ty] to [msg]. *)
Definition reply_to msg (ty : string) (r : Message) : Prop :=
  m_ReplyTo r = m_ID msg /\ m_To r = m_From msg /\ m_From r = m_To msg /\ m_Type r = ty.

Lemma calm_reply {T} `{Codec T} i msg ty (p : T) w : calm (reply_to msg ty) (reply_with i msg ty p) w.
Proof. apply calm_lift. unfold Reply, NewMessage. by destruct (payload_json enc p). Qed.
Lemma calm_payload (T : Type) `{Codec T} op what msg w : calm (fun _ => True) (lift (payload_of T op what msg)) w.
Proof. apply calm_lift. unfold payload_of, ParsePayload. destruct (m_Payload msg) as [d|]; [destruct (dec d)|]; done. Qed.
Hint Resolve calm_reply calm_payload calm_gets : core.

Ltac calm_step := eapply calm_bind; [by eauto|intros ? ? ? ?; cbv beta in *].

(** ** The handlers *)
Lemma ping_calm i now msg w : calm (reply_to msg MsgPong) (handlePing i now msg) w.
Proof. unfold handlePing. by calm_step. Qed.

Lemma stats_loop_calm miners w : is_Some (minerManager w) -> calm (fun _ => True) (stats_loop miners) w.
Proof.
  revert w. induction miners as [|miner miners IH]; intros w Hmm; [by apply calm_lift|]. cbn [stats_loop].
  eapply calm_bind; [by apply calm_miners|]. intros r w1 _ Hk1. eapply calm_bind; [apply IH; by apply Hk1|].
  intros items w2 _ _. destruct r; by apply calm_lift.
Qed.
Lemma collect_stats_calm w : calm (fun _ => True) collect_stats w.
Proof.
  unfold calm, collect_stats. destruct (minerManager w) as [mm|] eqn:Hmm; [|by split].
  assert (Hs : is_Some (minerManager w)) by (by rewrite Hmm; eexists).
  change (calm (fun _ => True) (miners ← on_miners mm_ListMiners; stats_loop miners) w).
  eapply calm_bind; [by apply calm_miners|]. intros ms w1 _ Hk. apply stats_loop_calm. by apply Hk.
Qed.
Lemma stats_calm i now msg w : calm (reply_to msg MsgStats) (handleGetStats i now msg) w.
Proof.
  unfold handleGetStats. calm_step. destruct a as [identity|]; [|by apply calm_lift].
  calm_step. eapply calm_bind; [apply collect_stats_calm|]. eauto.
Qed.

Lemma config_calm payload w : calm (fun _ => True) (config_for payload) w.
Proof.
  unfold calm, config_for. destruct (st_Config payload); [by split|].
  destruct (profileManager w) as [pm|] eqn:Hpm; [|by split].
  assert (Hs : is_Some (profileManager w)) by (by rewrite Hpm; eexists).
  match goal with |- match fst (?m w) with _ => _ end /\ _ => change (calm (fun _ => True) m w) end.
  eapply calm_bind; [by apply calm_profiles|]. intros [e|p] w1 _ _; by apply calm_lift.
Qed.

(** The guard on the miner manager. *)
Lemma calm_guard {A} (Q : A -> Prop) e (m : SR Worker A) w :
  (is_Some (minerManager w) -> calm Q m w) ->
  calm Q (fun w => match minerManager w with None => (Fail e, w) | Some _ => m w end) w.
Proof. intros Hm. unfold calm in *. destruct (minerManager w) eqn:Hmm; [|by split]. apply Hm. by eexists. Qed.

Lemma start_calm i msg w : calm (reply_to msg MsgMinerAck) (handleStartMiner Error i msg) w.
Proof.
  apply calm_guard. intros Hmm. calm_step. case_decide; [by apply calm_lift|].
  eapply calm_bind; [apply config_calm|]. intros config w2 _ Hk2.
  eapply calm_bind; [apply calm_miners; eauto|]. intros [err|miner] w3 _ _; eauto.
Qed.
Lemma stop_calm i msg w : calm (reply_to msg MsgMinerAck) (handleStopMiner Error i msg) w.
Proof.
  apply calm_guard. intros Hmm. calm_step. eapply calm_bind; [apply calm_miners; eauto|]. eauto.
Qed.
Lemma history_calm miner lines since w :
  is_Some (minerManager w) -> calm (fun _ => True) (getMinerConsoleHistory miner lines since) w.
Proof.
  intros Hmm. unfold getMinerConsoleHistory. case_decide; [by apply calm_miners|].
  destruct (GetConsoleHistorySince miner); by apply calm_miners.
Qed.
Lemma logs_calm i msg w : calm (reply_to msg MsgLogs) (handleGetLogs i msg) w.
Proof.
  apply calm_guard. intros Hmm. calm_step. eapply calm_bind; [apply calm_miners; eauto|].
  intros [e|miner] w2 _ Hk2; [by apply calm_lift|].
  eapply calm_bind; [apply history_calm; eauto|]. eauto.
Qed.

Lemma isJSON_total data : exists b, isJSON data = Ok b.
Proof.
  unfold isJSON. cbv zeta. set (d := bytes_of_string _). pose proof (len_nonneg d). case_decide; [by eexists|].
  destruct (index_total d 0) as [c ->]; [lia|]. by eexists.
Qed.
Lemma profile_calm i msg payload password w :
  calm (reply_to msg MsgDeployAck) (deploy_profile Error i msg payload password) w.
Proof.
  unfold calm, deploy_profile. destruct (profileManager w) as [pm|] eqn:Hpm; [|by split].
  assert (Hs : is_Some (profileManager w)) by (by rewrite Hpm; eexists).
  match goal with |- match fst (?m w) with _ => _ end /\ _ => change (calm (reply_to msg MsgDeployAck) m w) end.
  eapply (calm_bind (fun _ => True)).
  - apply calm_lift. unfold ExtractProfileBundle. destruct (VerifyBundle _); [cbn [negb]|done].
    destruct (isJSON_total (b_Data (bundle_of payload))) as [[] ->]; [done|]. cbn [mbind Result_bind].
    by destruct (FromSigil _ _) as [|[]].
  - intros data w1 _ Hk. destruct (unmarshalAny data) as [e|p]; [by apply calm_lift|].
    eapply calm_bind; [apply calm_profiles; by apply Hk|]. intros [e|] w2 _ _; eauto.
Qed.
Lemma bundled_calm data w : calm (fun _ => True) (save_bundled data) w.
Proof.
  unfold calm, save_bundled. case_decide as Hc; [|by split]. destruct (unmarshalAny data) as [e|p]; [by split|].
  match goal with |- match fst (?m w) with _ => _ end /\ _ => change (calm (fun _ => True) m w) end.
  eapply calm_bind; [apply calm_profiles|intros; by apply calm_lift].
  destruct (profileManager w); [by eexists|by destruct Hc].
Qed.

End Frame.
Hint Resolve calm_reply calm_payload calm_gets kept_refl kept_miners : core.

(** ** Deployments *)
Lemma extract_calm payload password w :
  calm (Some (dp_Name payload)) (fun _ => True)
    (on_disk (ExtractMinerBundle (bundle_of payload) password (PathJoin [minersDir w; dp_Name payload]))) w.
Proof.
  unfold calm, on_disk. set (d := mkDisk _ _).
  pose proof (ExtractMinerBundle_contained (bundle_of payload) password (PathJoin [minersDir w; dp_Name payload]) d) as Hx.
  destruct (ExtractMinerBundle _ _ _ d) as [r d']. destruct Hx as (Hr & new & Hnew & Hall). cbn [fst snd] in *.
  split; [by destruct r|]. split; [by eexists|]. split_and!; try done. exists new. split; [exact Hnew|].
  destruct Hall as [->|(abs & Habs & Hall)]; [by left|]. right. exists (CleanPath abs). split; [|done].
  unfold install_root, minersDir in *. by rewrite Habs.
Qed.
Lemma miner_calm i msg payload password w :
  calm (Some (dp_Name payload)) (reply_to msg MsgDeployAck) (deploy_miner i msg payload password) w.
Proof.
  unfold deploy_miner. eapply calm_bind; [apply calm_gets|]. intros dir w1 -> Hk.
  eapply (calm_bind _ (fun _ => True)).
  - unfold calm, on_result. destruct Hk as (_ & _ & _ & _ & HD & _).
    unfold minersDir. rewrite <- HD. fold (minersDir w1). pose proof (extract_calm payload password w1) as [Hr He].
    destruct (on_disk _ w1) as [[a|e|p|] w2]; done.
  - intros ex w2 _ _. eapply calm_bind; [apply bundled_calm|]. eauto.
Qed.

(** The name of the deployment that a message asks for. *)
Definition deployment_of msg : option string :=
  if decide (m_Type msg = MsgDeploy) then
    match ParsePayload zero dec msg with Ok p => Some (dp_Name p) | _ => None end
  else None.

(** The reply that a request is due. *)
Definition answers : list (string * string) :=
  [(MsgPing, MsgPong); (MsgGetStats, MsgStats); (MsgStartMiner, MsgMinerAck); (MsgStopMiner, MsgMinerAck);
   (MsgGetLogs, MsgLogs); (MsgDeploy, MsgDeployAck)].

Ltac known_request ty Hty :=
  exists ty; split; [rewrite Hty; apply (bool_decide_unpack _); vm_compute; exact I|].

Lemma handler_calm i now conn msg w :
  match handler_of Error i now conn msg with
  | Some handle => exists ty, (m_Type msg, ty) ∈ answers /\ calm (deployment_of msg) (reply_to msg ty) handle w
  | None => m_Type msg ∉ answers.*1
  end.
Proof.
  unfold handler_of.
  destruct (decide (m_Type msg = MsgPing)) as [Hty|]; [known_request MsgPong Hty; apply ping_calm|].
  destruct (decide (m_Type msg = MsgGetStats)) as [Hty|]; [known_request MsgStats Hty; apply stats_calm|].
  destruct (decide (m_Type msg = MsgStartMiner)) as [Hty|]; [known_request MsgMinerAck Hty; apply start_calm|].
  destruct (decide (m_Type msg = MsgStopMiner)) as [Hty|]; [known_request MsgMinerAck Hty; apply stop_calm|].
  destruct (decide (m_Type msg = MsgGetLogs)) as [Hty|]; [known_request MsgLogs Hty; apply logs_calm|].
  destruct (decide (m_Type msg = MsgDeploy)) as [Hty|].
  - known_request MsgDeployAck Hty. unfold deployment_of. rewrite decide_True by done.
    unfold handleDeploy, payload_of. destruct (ParsePayload zero dec msg) as [p|e|pa|] eqn:Hp.
    + eapply (calm_bind _ (fun q => q = p)); [by apply calm_lift|]. intros q w1 -> _.
      eapply calm_bind; [apply calm_gets|]. intros pw w2 _ _.
      case_decide; [apply profile_calm|]. case_decide; [apply miner_calm|by apply calm_lift].
    + by apply calm_lift.
    + exfalso. revert Hp. unfold ParsePayload. by destruct (m_Payload msg) as [d|]; [destruct (dec d)|].
    + exfalso. revert Hp. unfold ParsePayload. by destruct (m_Payload msg) as [d|]; [destruct (dec d)|].
  - unfold answers. cbn [fmap list_fmap fst]. rewrite !elem_of_cons.
    intros [Hin|[Hin|[Hin|[Hin|[Hin|[Hin|Hin]]]]]]; try congruence. by apply elem_of_nil in Hin.
Qed.

Lemma send_on_ok dep i c r w w1 pc :
  objs (transport w) !! c = Some pc -> kept dep w w1 ->
  send_on i (Some c) r w1 = (Ok tt, set_transport (snd (SendOn i c r (transport w1))) w1).
Proof.
  intros Hc ([f Ht] & _). assert (Hc1 : objs (transport w1) !! c = Some pc) by (by rewrite Ht).
  unfold send_on. pose proof (SendOn_returns i c r (transport w1) pc Hc1) as Hr.
  destruct (SendOn i c r (transport w1)) as [[[]|e|p|] t]; done.
Qed.

Lemma kept_identity dep w w1 : kept dep w w1 -> worker_identity w1 = worker_identity w.
Proof. intros ([f Ht] & _). unfold worker_identity. by rewrite Ht. Qed.

(** A bundle that opens is extracted where its deployment says, first of all. *)
Lemma deploy_miner_touches i msg payload password w config root tarData dir :
  VerifyBundle (bundle_of payload) = true -> FromSigil (b_Data (bundle_of payload)) password = inr (config, root) ->
  ToTar root = inr tarData -> install_root (DataDir w) (dp_Name payload) = inr dir ->
  exists ts, deployed (snd (deploy_miner i msg payload password w)) = deployed w ++ TouchDir dir :: ts.
Proof.
  intros Hv Hs Htar Hdir. unfold deploy_miner. rewrite (SR_bind_Ok _ _ w (minersDir w) w) by done.
  unfold install_root in Hdir. fold (minersDir w) in Hdir.
  destruct (PathAbs (PathJoin [minersDir w; dp_Name payload])) as [e|abs] eqn:Ha; [done|]. injection Hdir as <-.
  set (ex := on_result _ _ _).
  assert (Hex : exists ts, deployed (snd (ex w)) = deployed w ++ TouchDir (CleanPath abs) :: ts).
  { unfold ex, on_result, on_disk, ExtractMinerBundle. rewrite Hv, Hs, Htar. cbn [negb]. unfold on_result.
    destruct (extractTarball_first tarData _ abs (mkDisk (fs (world (transport w))) (deployed w)) Ha) as [ts Hts].
    exists ts. etrans; [|exact Hts]. by destruct (extractTarball _ _ _) as [[]]. }
  destruct Hex as [ts Hts]. exists ts. rewrite <- Hts. cbv [mbind SR_bind].
  destruct (ex w) as [[a|e|p|] w1]; try done. cbn [snd].
  destruct (bundled_calm None (ex_Profile a) w1) as (_ & _ & _ & _ & _ & _ & Hd).
  destruct (save_bundled (ex_Profile a) w1) as [[[]|e|p|] w2]; cbn [snd] in *; try done.
Qed.

Lemma HandleMessage_deployed i now c msg w :
  deployed (snd (HandleMessage Error i now c msg w)) =
  match handler_of Error i now c msg with Some handle => deployed (snd (handle w)) | None => deployed w end.
Proof.
  unfold HandleMessage. destruct (handler_of _ _ _ _ _) as [handle|]; [|done].
  assert (Hsend : forall r w1, deployed (snd (send_on i c r w1)) = deployed w1).
  { intros r w1. unfold send_on. destruct c as [c|]; [|done]. by destruct (SendOn i c r (transport w1)) as [[]]. }
  unfold on_result. destruct (handle w) as [[r|e|p|] w1]; [| |done|done]; cbn [snd]; [by rewrite Hsend|].
  unfold error_reply. rewrite (SR_bind_Ok _ _ w1 (worker_identity w1) w1) by done. destruct (worker_identity w1); [|done].
  destruct (NewErrorMessage _ _ _ _ _ _ _ _) as [r| | |]; [|done..]; by rewrite Hsend.
Qed.

(** C7 (functional): a worker with an identity answers every request it knows,
    whatever the payload, the managers and the archives do: it does not panic, and
    it sends one reply to the sender on the connection of the request, which names
    the request and is of the type the request calls for or an error; a message of
    any other type changes nothing.  Connections, registry and identity are left
    alone, and files are touched in the directory of a deployment only. *)
Theorem worker_answers i now c msg w pc id :
  objs (transport w) !! c = Some pc -> worker_identity w = Some id ->
  exists w', HandleMessage Error i now (Some c) msg w = (Ok tt, w') /\
    if decide (m_Type msg ∈ answers.*1) then
      exists r w1 ty, kept (deployment_of msg) w w1 /\ w' = set_transport (snd (SendOn i c r (transport w1))) w1 /\
        m_ReplyTo r = m_ID msg /\ m_To r = m_From msg /\
        (m_Type msg, ty) ∈ answers /\ (m_Type r = ty \/ m_Type r = MsgError)
    else w' = w.
Proof.
  intros Hc Hid. unfold HandleMessage. pose proof (handler_calm i now (Some c) msg w) as Hh.
  destruct (handler_of _ _ _ _ _) as [handle|]; [|exists w; by rewrite decide_False by done].
  destruct Hh as (ty & Hty & Hr & Hk). assert (Hin : m_Type msg ∈ answers.*1) by (apply list_elem_of_fmap; by exists (m_Type msg, ty)).
  unfold on_result. destruct (handle w) as [[r|e|p|] w1]; cbn [fst snd] in *; try done.
  - rewrite (send_on_ok _ i c r w w1 pc Hc Hk). destruct Hr as (Hr1 & Hr2 & _ & Hr3).
    eexists. split; [reflexivity|]. rewrite decide_True by done. exists r, w1, ty. split_and!; try done. by left.
  - unfold error_reply. rewrite (SR_bind_Ok _ _ w1 (Some id) w1) by (unfold gets; by rewrite (kept_identity _ w w1 Hk), Hid).
    unfold NewErrorMessage, NewMessage, payload_json.
    destruct (enc_total (mkErrorPayload ErrCodeOperationFailed (Error e) "")) as [d ->]. cbn [mbind Result_bind].
    set (r := set_ReplyTo _ _). rewrite (send_on_ok _ i c r w w1 pc Hc Hk).
    eexists. split; [reflexivity|]. rewrite decide_True by done. exists r, w1, ty. split_and!; try done. by right.
Qed.
End WorkerProofs.

(** ** Escape *)
Section Escape.
Context {W : Type} `{WebSocket W}.
Context `{KDLib} `{JSON} {FS : Type} `{FileSystem FS} `{KeyLib} `{MsgJSON} `{AL : AEADLaws} `{HandshakeJSON}.
Context `{CoreText} `{TimLib} `{TarLib} `{OpenFS FS}.
Context {profile MM PM : Type} `{MinerManager profile MM} `{ProfileManager profile any PM}.
Context `{Codec PingPayload} `{Codec PongPayload} `{Codec StartMinerPayload} `{Codec StopMinerPayload}.
Context `{Codec MinerAckPayload} `{Codec StatsPayload} `{Codec GetLogsPayload} `{Codec LogsPayload}.
Context `{Codec DeployPayload} `{Codec DeployAckPayload} `{TotalCodec ErrorPayload}.
Context (Error : error -> string).

(** The name in a deployment is joined to the directory of the miners
    without a check, so that with [..] in it the bundle is extracted outside: on a
    worker with its data in /srv, a bundle that opens and is named
    [../../../etc] is unpacked into /etc. *)
Theorem deploy_name_escapes i now c msg payload config root tarData
    (w : Worker (W := W) (FS := FS) (MM := MM) (PM := PM)) :
  DataDir w = "/srv"%string -> m_Type msg = MsgDeploy -> ParsePayload zero dec msg = Ok payload ->
  dp_Name payload = "../../../etc"%string -> b_Type (bundle_of payload) = BundleMiner ->
  VerifyBundle (bundle_of payload) = true ->
  FromSigil (b_Data (bundle_of payload)) (password_of c w) = inr (config, root) -> ToTar root = inr tarData ->
  ~ inside (minersDir w) "/etc" /\
  exists ts, deployed (snd (HandleMessage Error i now c msg w)) = deployed w ++ TouchDir "/etc" :: ts.
Proof.
  intros HD Hty Hp Hn Hb Hv Hs Htar. split.
  - unfold minersDir. rewrite HD. intros [Hin|(rest & Hin & _)]; discriminate Hin.
  - rewrite HandleMessage_deployed. unfold handler_of. rewrite Hty.
    rewrite !decide_False by discriminate. rewrite decide_True by done. unfold handleDeploy, payload_of. rewrite Hp.
    rewrite (SR_bind_Ok _ _ w payload w) by done. rewrite (SR_bind_Ok _ _ w (password_of c w) w) by done.
    rewrite decide_False by (by rewrite Hb). rewrite decide_True by (by left).
    eapply deploy_miner_touches; [exact Hv|exact Hs|exact Htar|]. rewrite HD, Hn. reflexivity.
Qed.
End Escape.
