(* ===== verification/Remote.v ===== *)
(** * Remote operations (src/go/node/controller.go)

    The operations a controller performs on other nodes, each a request over the
    transport and the reading of its response.  What comes back on the channel of
    a request is an argument ([Controller] says that it is a reply to it); a
    request that is not answered in time gets nothing. *)

From S2P Require Import Prelude Crypto Float64 PeerName Peer PeerPersist Identity Ueps KeyDeriv.
From S2P Require Import Controller Protocol Session Duration Limits Transport Bundle Payloads.

Section Remote.
Context {W : Type} `{WebSocket W}.
Context `{KDLib} `{JSON} {FS : Type} `{FileSystem FS} `{KeyLib} `{MsgJSON} `{AEADLib} `{HandshakeJSON}.
Context `{Codec PingPayload} `{Codec StartMinerPayload} `{Codec StopMinerPayload}.
Context `{Codec MinerAckPayload} `{Codec StatsPayload} `{Codec GetLogsPayload} `{Codec LogsPayload} `{Codec ErrorPayload}.

(** The dialer and the response to a message. *)
Record Network : Type := mkNetwork {
  dialed : error + W;
  response : Message -> option Message
}.

Abbreviation Transport := (Transport (W := W) (FS := FS)).

Definition set_To (to : string) (m : Message) : Message :=
  mkMessage (m_ID m) (m_Type m) (m_From m) to (m_Timestamp m) (m_Payload m) (m_ReplyTo m).

(** The ID to send to: that of the connection, which is made if there is none. *)
Definition connect_for (i : Input) (net : Network) (peerID : string) : SR Transport (option string) := fun t =>
  match GetConnection peerID t with
  | Some _ => (Ok None, t)
  | None =>
      match GetPeer peerID (world t) with
      | None => (Fail (E "Controller.sendRequest" ("peer not found: " ++ peerID) None), t)
      | Some peer =>
          (l ← new_peer peer;
           c ← on_result (Connect i l (dialed net)) mret
                 (fun err => fail (E "Controller.sendRequest" "failed to connect to peer" (Some err)));
           pc ← get_conn c;
           peer ← on_world (deref (Some (pc_Peer pc)));
           mret (Some (ID peer))) t
      end
  end.

Definition sendRequest (i : Input) (net : Network) (peerID : string) (msg : Message) : SR Transport Message :=
  actual ← connect_for i net peerID;
  let actualPeerID := default peerID actual in
  let msg := match actual with Some id => set_To id msg | None => msg end in
  on_result (Send i actualPeerID msg)
    (fun _ => match response net msg with
              | Some resp => mret resp
              | None => fail ErrRequestTimeout
              end)
    (fun err => fail (ErrSend err)).

(** What the operations have in common: the message, the request, the parsing of
    the response. *)
Definition ask_peer {A T} `{Codec A} `{Codec T} (i : Input) (net : Network) (op peerID msgType expected : string)
    (identity : NodeIdentity) (payload : option A) : SR Transport T :=
  msg ← lift (map_fail (fun err => E op "failed to create message" (Some err))
                (NewMessage (uuid i) (clock i) (payload_json enc) msgType (ni_ID identity) peerID payload));
  resp ← sendRequest i net peerID msg;
  lift (ParseResponse dec zero dec (Some resp) expected).

Definition with_identity {A} (f : NodeIdentity -> SR Transport A) : SR Transport A :=
  identity ← gets get_identity;
  match identity with
  | None => fail ErrIdentityNotInitialized
  | Some identity => f identity
  end.

Definition GetRemoteStats (i : Input) (net : Network) (peerID : string) : SR Transport StatsPayload :=
  with_identity (fun identity =>
    ask_peer (A := PingPayload) i net "Controller.GetRemoteStats" peerID MsgGetStats MsgStats identity None).

(** The acknowledgment of a start or a stop. *)
Definition acknowledged (op what : string) (ack : MinerAckPayload) : SR Transport unit :=
  if negb (ma_Success ack) then fail (E op (what ++ ma_Error ack) None) else mret tt.

Definition StartRemoteMiner (i : Input) (net : Network) (peerID minerType profileID : string) (configOverride : option bytes)
    : SR Transport unit :=
  with_identity (fun identity =>
    if decide (minerType = EmptyString) then fail (E "Controller.StartRemoteMiner" "miner type is required" None)
    else
      ack ← ask_peer i net "Controller.StartRemoteMiner" peerID MsgStartMiner MsgMinerAck identity
              (Some (mkStart minerType profileID configOverride));
      acknowledged "Controller.StartRemoteMiner" "miner start failed: " ack).

Definition StopRemoteMiner (i : Input) (net : Network) (peerID minerName : string) : SR Transport unit :=
  with_identity (fun identity =>
    ack ← ask_peer i net "Controller.StopRemoteMiner" peerID MsgStopMiner MsgMinerAck identity (Some (mkStop minerName));
    acknowledged "Controller.StopRemoteMiner" "miner stop failed: " ack).

(** The zero time is 0. *)
Definition GetRemoteLogsSince (i : Input) (net : Network) (peerID minerName : string) (lines since : Z) : SR Transport (list string) :=
  with_identity (fun identity =>
    logs ← ask_peer i net "Controller.GetRemoteLogsSince" peerID MsgGetLogs MsgLogs identity
             (Some (mkGetLogs minerName lines (if decide (since = 0) then 0 else UnixMilli since)));
    mret (lg_Lines logs)).
Definition GetRemoteLogs (i : Input) (net : Network) (peerID minerName : string) (lines : Z) : SR Transport (list string) :=
  GetRemoteLogsSince i net peerID minerName lines 0.

(** [sentAt] and [back] are the times before the request and after the response. *)
Definition PingPeer (i : Input) (net : Network) (sentAt back : Z) (peerID : string) : SR Transport float64 :=
  with_identity (fun identity =>
    msg ← lift (map_fail (fun err => E "Controller.PingPeer" "failed to create message" (Some err))
                  (NewMessage (uuid i) (clock i) (payload_json enc) MsgPing (ni_ID identity) peerID
                     (Some (mkPing (UnixMilli sentAt)))));
    resp ← sendRequest i net peerID msg;
    _ ← lift (ValidateResponse dec (Some resp) MsgPong);
    let rtt := fmul (Seconds (Sub back sentAt)) (float_of_int 1000) in
    peer ← gets (fun t => GetPeer peerID (world t));
    _ ← match peer with
        | Some peer => ignoring (UpdateMetrics (env i) peerID rtt (GeoKM peer) (Hops peer))
        | None => mret tt
        end;
    mret rtt).

Definition ConnectToPeer (i : Input) (net : Network) (peerID : string) : SR Transport positive := fun t =>
  match GetPeer peerID (world t) with
  | None => (Fail (E "Controller.ConnectToPeer" ("peer not found: " ++ peerID) None), t)
  | Some peer => (l ← new_peer peer; Connect i l (dialed net)) t
  end.
Definition DisconnectFromPeer (i : Input) (peerID : string) : SR Transport unit := fun t =>
  match GetConnection peerID t with
  | None => (Fail (E "Controller.DisconnectFromPeer" ("peer not connected: " ++ peerID) None), t)
  | Some c => CloseConn i c t
  end.

End Remote.
