(* ===== verification/RemoteProofs.v ===== *)
(** * Remote operations do what they would do locally

    The operations of a controller and the handlers of a worker, put together
    over the message layer: an operation on a remote node returns what the same
    operation on its managers returns, and has the same effect on them. *)

From S2P Require Import Prelude Crypto Float64 PeerName Peer PeerPersist Identity Ueps KeyDeriv.
From S2P Require Import Controller Protocol Session Duration Limits Transport Paths Bundle Payloads Worker Remote.

Section RemoteProofs.
Context {W : Type} `{WebSocket W}.
Context `{KDLib} `{JSON} {FS : Type} `{FileSystem FS} `{KeyLib} `{JL : MsgJSONLaws} `{AL : AEADLaws} `{HandshakeJSON}.
Context `{CorePath} `{CoreText} `{TimLib} `{TarLib} `{OpenFS FS}.
Context {profile MM PM : Type} `{MinerManager profile MM} `{ProfileManager profile any PM}.
Context `{Codec PingPayload} `{Codec PongPayload} `{Codec StartMinerPayload} `{Codec StopMinerPayload}.
Context `{Codec MinerAckPayload} `{Codec StatsPayload} `{Codec GetLogsPayload} `{Codec LogsPayload}.
Context `{Codec DeployPayload} `{Codec DeployAckPayload} `{Codec ErrorPayload}.
Context `{!CodecLaws StartMinerPayload} `{!CodecLaws StopMinerPayload} `{!CodecLaws MinerAckPayload} `{!CodecLaws StatsPayload}.
Context `{!CodecLaws GetLogsPayload} `{!CodecLaws LogsPayload} `{!CodecLaws ErrorPayload}.
Context (Error : error -> string) (ed25519_verify : bytes -> bytes -> bytes -> bool).
Abbreviation Worker := (Worker (W := W) (FS := FS) (MM := MM) (PM := PM)).
Abbreviation Transport := (Transport (W := W) (FS := FS)).
Implicit Types (w : Worker) (t : Transport) (i : Input) (net : Network (W := W)).

(** ** The operations *)
Inductive remote_op : Type :=
| OStart (minerType profileID : string) (config : option bytes)
| OStop (minerName : string)
| OLogs (minerName : string) (lines since : Z)
| OStats.
Inductive remote_val : Type :=
| VDone
| VLines (lines : list string)
| VStats (stats : StatsPayload).

(** The operation from the controller. *)
Definition remotely i net (peerID : string) (op : remote_op) : SR Transport remote_val :=
  match op with
  | OStart ty pid config => _ ← StartRemoteMiner i net peerID ty pid config; mret VDone
  | OStop name => _ ← StopRemoteMiner i net peerID name; mret VDone
  | OLogs name lines since => ls ← GetRemoteLogsSince i net peerID name lines since; mret (VLines ls)
  | OStats => s ← GetRemoteStats i net peerID; mret (VStats s)
  end.

(** The operation on the managers of the node, without messages: [Ok (inl e)] when
    the manager refuses it, a failure when it does not get that far. *)
Definition needs_miners {A} (m : SR Worker A) : SR Worker A := fun w =>
  match minerManager w with None => (Fail ErrMinerManagerNotConfigured, w) | Some _ => m w end.
Definition log_lines (lines : Z) : Z := if decide (lines <= 0 \/ lines > maxLogLines) then maxLogLines else lines.
Definition log_since (since : Z) : Z :=
  let ms := if decide (since = 0) then 0 else UnixMilli since in
  if decide (ms > 0) then time_UnixMilli ms else 0.

Definition locally (now : Z) (op : remote_op) : SR Worker (error + remote_val) :=
  match op with
  | OStart ty pid config =>
      needs_miners (config ← config_for (mkStart ty pid config);
                    r ← on_miners (mm_StartMiner ty config);
                    mret (match r with inl e => inl e | inr _ => inr VDone end))
  | OStop name =>
      needs_miners (err ← on_miners (mm_StopMiner name);
                    mret (match err with Some e => inl e | None => inr VDone end))
  | OLogs name lines since =>
      needs_miners (r ← on_miners (mm_GetMiner name);
                    match r with
                    | inl _ => fail (E "Worker.handleGetLogs" ("miner not found: " ++ name) None)
                    | inr miner => ls ← getMinerConsoleHistory miner (log_lines lines) (log_since since); mret (inr (VLines ls))
                    end)
  | OStats =>
      identity ← gets worker_identity;
      match identity with
      | None => fail ErrIdentityNotInitialized
      | Some identity =>
          started ← gets startTime;
          items ← collect_stats;
          mret (inr (VStats (mkStats (ni_ID identity) (ni_Name identity) items (int_of_float (Seconds (Sub now started))))))
      end
  end.

(** How the controller reports it. *)
Definition failure_text (op : remote_op) : string * string :=
  match op with
  | OStart _ _ _ => ("Controller.StartRemoteMiner", "miner start failed: ")
  | _ => ("Controller.StopRemoteMiner", "miner stop failed: ")
  end%string.
Definition reported (op : remote_op) (r : Result (error + remote_val)) : Result remote_val :=
  match r with
  | Ok (inr v) => Ok v
  | Ok (inl e) => Fail (E (failure_text op).1 ((failure_text op).2 ++ Error e) None)
  | Fail e => Fail (ProtocolError ErrCodeOperationFailed (Error e))
  | Panic p => Panic p
  | OutOfFuel => OutOfFuel
  end.

(** ** Messages *)

(** The message that carries out a handler's result: the reply or the error. *)
Definition outcome i (now : Z) (conn : option positive) (msg : Message) : SR Worker (option Message) :=
  match handler_of Error i now conn msg with
  | None => mret None
  | Some handle =>
      on_result handle (fun r => mret (Some r))
        (fun err =>
           identity ← gets worker_identity;
           match identity with
           | None => mret None
           | Some identity =>
               match NewErrorMessage (uuid i) (clock i) (payload_json enc) (ni_ID identity) (m_From msg)
                       ErrCodeOperationFailed (Error err) (m_ID msg) with
               | Ok errMsg => mret (Some errMsg)
               | Fail _ => mret None
               | Panic p => lift (Panic p)
               | OutOfFuel => lift OutOfFuel
               end
           end)
  end.

(** [HandleMessage] sends it. *)
Lemma HandleMessage_outcome i now conn msg w :
  HandleMessage Error i now conn msg w =
  (r ← outcome i now conn msg; match r with Some m => send_on i conn m | None => mret tt end) w.
Proof.
  unfold HandleMessage, outcome. destruct (handler_of _ _ _ _ _) as [handle|]; [|done]. cbv [mbind SR_bind]. unfold on_result.
  destruct (handle w) as [[r|e|p|] w1]; [reflexivity| |done|done]. unfold error_reply, gets. cbv [mbind SR_bind].
  destruct (worker_identity w1); [|done]. by destruct (NewErrorMessage _ _ _ _ _ _ _ _).
Qed.

(** The exchange over a session with the secret [s]: [m], sealed, reaches the
    worker on a connection of the session and is handled there; the reply, sealed,
    reaches the controller as [resp]. *)
Definition exchange (s : bytes) i (now : Z) (c : positive) w (m resp : Message) w' : Prop :=
  exists pc d m' r d', objs (transport w) !! c = Some pc /\ SharedSecret pc = Some s /\
    sealed s m d /\ decryptMessage ed25519_verify d s = Ok m' /\
    outcome i now (Some c) m' w = (Ok (Some r), w') /\
    sealed s r d' /\ decryptMessage ed25519_verify d' s = Ok resp.

(** A payload arrives as it was sent. *)
Lemma payload_arrives {T} `{Codec T} `{!CodecLaws T} (x : T) d m m' :
  codec_ok x -> enc x = inr d -> m_Payload m = Some (unescape d) -> same_message m m' -> ParsePayload zero dec m' = Ok x.
Proof.
  intros Hx Hd Hm (_ & _ & _ & _ & _ & _ & Hp). rewrite Hm in Hp. unfold ParsePayload.
  destruct (m_Payload m') as [d'|]; [|done]. destruct Hp as (a & Ha & Ha'). by rewrite (dec_value x d d' a).
Qed.

(** The payload and the type of a request as they arrive. *)
Lemma sent_payload {T} `{Codec T} `{!CodecLaws T} (x : T) u now ty from to m m' :
  codec_ok x -> NewMessage u now (payload_json enc) ty from to (Some x) = Ok m -> same_message m m' ->
  ParsePayload zero dec m' = Ok x /\ m_Type m' = ty.
Proof.
  intros Hx Hm Hsame. unfold NewMessage, payload_json in Hm. destruct (enc_ok x Hx) as [d Hd]. rewrite Hd in Hm.
  injection Hm as <-. split; [refine (payload_arrives x d _ m' Hx Hd _ Hsame); reflexivity|]. by destruct Hsame as (_ & -> & _).
Qed.

(** ** The controller *)

(** There is a connection with the secret [s] on which one can write. *)
Definition ready (s : bytes) i (peerID : string) t : Prop :=
  exists c pc, GetConnection peerID t = Some c /\ objs t !! c = Some pc /\ SharedSecret pc = Some s /\ len s = 32 /\
    (exists b, rand i 12 = inr b) /\
    exists s1, ws_SetWriteDeadline (deadline_in i (10 * second)) (pc_Conn pc) = (None, s1) /\
      forall data, exists s2, ws_WriteMessage BinaryMessage data s1 = (None, s2).

Lemma sendRequest_answered s i net peerID t msg resp :
  ready s i peerID t -> portable msg -> response net msg = Some resp ->
  exists t', sendRequest i net peerID msg t = (Ok resp, t').
Proof.
  intros (c & pc & Hconn & Hc & Hs & Hlen & Hrand & s1 & Hdl & Hwr) Hport Hresp. unfold sendRequest.
  rewrite (SR_bind_Ok _ _ t None t) by (unfold connect_for; by rewrite Hconn). cbn [default].
  unfold on_result, Send. unfold GetConnection in Hconn. rewrite Hconn. unfold SendOn.
  rewrite (SR_bind_Ok _ _ t pc t) by (unfold get_conn; by rewrite Hc). rewrite Hs. change (default [] (Some s)) with s.
  destruct (encryptMessage_ok (rand i) msg s Hport Hlen Hrand) as [d Hd].
  rewrite Hd. erewrite SR_bind_Ok; [|reflexivity]. cbv beta. rewrite Hdl. destruct (Hwr d) as [s2 Hw].
  erewrite SR_bind_Ok; [|reflexivity]. rewrite Hw. erewrite SR_bind_Ok; [|reflexivity].
  cbv beta iota delta [upd_conn modify]. rewrite Hresp. by eexists.
Qed.

(** The request of an operation, and the reply to it. *)
Definition request i (id : NodeIdentity) (peerID : string) (op : remote_op) : Result Message :=
  match op with
  | OStart ty pid config =>
      NewMessage (uuid i) (clock i) (payload_json enc) MsgStartMiner (ni_ID id) peerID (Some (mkStart ty pid config))
  | OStop name => NewMessage (uuid i) (clock i) (payload_json enc) MsgStopMiner (ni_ID id) peerID (Some (mkStop name))
  | OLogs name lines since =>
      NewMessage (uuid i) (clock i) (payload_json enc) MsgGetLogs (ni_ID id) peerID
        (Some (mkGetLogs name lines (if decide (since = 0) then 0 else UnixMilli since)))
  | OStats => NewMessage (uuid i) (clock i) (payload_json (T := PingPayload) enc) MsgGetStats (ni_ID id) peerID None
  end.

Definition reply_type (op : remote_op) : string :=
  match op with OStart _ _ _ | OStop _ => MsgMinerAck | OLogs _ _ _ => MsgLogs | OStats => MsgStats end.
(** The acknowledgment of a start names the miner that was started. *)
Definition answer i (msg : Message) (op : remote_op) (name : string) (r : error + remote_val) : SR Worker Message :=
  match op, r with
  | OStart _ _ _, inl e => reply_with i msg MsgMinerAck (mkMinerAck false "" "" (Error e))
  | OStart _ _ _, inr _ => reply_with i msg MsgMinerAck (mkMinerAck true name name "")
  | OStop n, inl e => reply_with i msg MsgMinerAck (mkMinerAck false n n (Error e))
  | OStop n, inr _ => reply_with i msg MsgMinerAck (mkMinerAck true n n "")
  | OLogs n lines _, inr (VLines ls) => reply_with i msg MsgLogs (mkLogs n ls (bool_decide (len ls >= log_lines lines)))
  | OStats, inr (VStats s) => reply_with i msg MsgStats s
  | _, _ => lift OutOfFuel
  end.

(** The values that the messages of an operation carry can be encoded. *)
Definition request_ok (op : remote_op) : Prop :=
  match op with
  | OStart ty pid config => ty <> EmptyString /\ codec_ok (mkStart ty pid config)
  | OStop name => codec_ok (mkStop name)
  | OLogs name lines since => codec_ok (mkGetLogs name lines (if decide (since = 0) then 0 else UnixMilli since))
  | OStats => True
  end.
Definition answer_ok (op : remote_op) (r : error + remote_val) : Prop :=
  match op, r with
  | OStart _ _ _, inl e => codec_ok (mkMinerAck false "" "" (Error e))
  | OStart _ _ _, inr _ => forall miner, codec_ok (mkMinerAck true (GetName miner) (GetName miner) "")
  | OStop n, inl e => codec_ok (mkMinerAck false n n (Error e))
  | OStop n, inr _ => codec_ok (mkMinerAck true n n "")
  | OLogs n lines _, inr (VLines ls) => codec_ok (mkLogs n ls (bool_decide (len ls >= log_lines lines)))
  | OStats, inr (VStats s) => codec_ok s
  | _, _ => True
  end.

(** The result is one that the operation has. *)
Definition answers_op (op : remote_op) (name : string) (r : error + remote_val) : Prop :=
  match op, r with
  | OStart _ _ _, inr VDone => exists miner, name = GetName miner
  | OStart _ _ _, inl _ | OStop _, inl _ | OStop _, inr VDone | OLogs _ _ _, inr (VLines _) | OStats, inr (VStats _) => True
  | _, _ => False
  end.

(** The handler performs the operation and answers. *)
Lemma handler_performs i i' id peerID op req msg conn now w :
  request_ok op -> request i id peerID op = Ok req -> same_message req msg ->
  exists handle, handler_of Error i' now conn msg = Some handle /\
    match locally now op w with
    | (Ok r, w') => exists name, handle w = answer i' msg op name r w' /\
        answers_op op name r
    | (Fail e, w') => handle w = (Fail e, w')
    | (Panic p, w') => handle w = (Panic p, w')
    | (OutOfFuel, w') => handle w = (OutOfFuel, w')
    end.
Proof.
  intros Hok Hreq Hsame. pose proof Hsame as (_ & Hty & _). unfold handler_of.
  destruct op as [ty pid config|name|name lines since|]; cbn [request] in Hreq.
  - destruct Hok as [Hne Hok]. destruct (sent_payload _ _ _ _ _ _ _ _ Hok Hreq Hsame) as [Hp Ht]. rewrite Ht.
    rewrite !decide_False by discriminate. rewrite decide_True by done. eexists. split; [reflexivity|].
    unfold handleStartMiner, locally, needs_miners, payload_of. rewrite Hp. destruct (minerManager w); [|done].
    cbv [mbind SR_bind lift map_fail]. cbn [st_MinerType]. rewrite decide_False by done.
    destruct (config_for _ w) as [[cfg|e|p|] w1]; try done. destruct (on_miners _ w1) as [[[e|miner]|e|p|] w2]; try done.
    + by exists EmptyString.
    + exists (GetName miner). split; [done|by exists miner].
  - destruct (sent_payload _ _ _ _ _ _ _ _ Hok Hreq Hsame) as [Hp Ht]. rewrite Ht.
    rewrite !decide_False by discriminate. rewrite decide_True by done. eexists. split; [reflexivity|].
    unfold handleStopMiner, locally, needs_miners, payload_of. rewrite Hp. destruct (minerManager w); [|done].
    cbv [mbind SR_bind lift map_fail]. cbn [sp_MinerName]. destruct (on_miners _ w) as [[[e|]|e|p|] w1]; try done; by exists EmptyString.
  - destruct (sent_payload _ _ _ _ _ _ _ _ Hok Hreq Hsame) as [Hp Ht]. rewrite Ht.
    rewrite !decide_False by discriminate. rewrite decide_True by done. eexists. split; [reflexivity|].
    unfold handleGetLogs, locally, needs_miners, payload_of. rewrite Hp. destruct (minerManager w); [|done].
    cbv [mbind SR_bind lift map_fail]. cbn [gl_MinerName gl_Lines gl_Since].
    destruct (on_miners _ w) as [[[e|miner]|e|p|] w1]; try done. fold (log_lines lines). fold (log_since since).
    destruct (getMinerConsoleHistory _ _ _ w1) as [[ls|e|p|] w2]; try done. by exists EmptyString.
  - injection Hreq as <-. cbn [m_Type] in Hty. rewrite Hty.
    rewrite !decide_False by discriminate. rewrite decide_True by done. eexists. split; [reflexivity|].
    unfold handleGetStats, locally, gets. cbv [mbind SR_bind]. destruct (worker_identity w); [|done].
    destruct (collect_stats w) as [[items|e|p|] w1]; try done. by exists EmptyString.
Qed.

(** ** The response *)
Lemma reply_read {T} `{Codec T} `{!CodecLaws T} (y : T) u now msg ty r resp :
  codec_ok y -> ty <> MsgError -> Reply u now (payload_json enc) msg ty (Some y) = Ok r -> same_message r resp ->
  ParseResponse dec zero dec (Some resp) ty = Ok y.
Proof.
  intros Hy Hty Hr Hsame. unfold Reply, NewMessage, payload_json in Hr. destruct (enc_ok y Hy) as [d Hd]. rewrite Hd in Hr.
  injection Hr as <-. assert (Hp : ParsePayload zero dec resp = Ok y) by (refine (payload_arrives y d _ resp Hy Hd _ Hsame); reflexivity).
  destruct Hsame as (_ & Ht & _). cbn [set_ReplyTo m_Type] in Ht. unfold ParseResponse, ValidateResponse. rewrite Ht.
  rewrite decide_False by done. rewrite decide_False by tauto. cbn [mbind Result_bind]. by rewrite Hp.
Qed.

Lemma error_read {T} `{Codec T} u now from to code text id r resp ty :
  codec_ok (mkErrorPayload code text "") ->
  NewErrorMessage u now (payload_json enc) from to code text id = Ok r -> same_message r resp ->
  ParseResponse dec (zero (T := T)) dec (Some resp) ty = Fail (ProtocolError code text).
Proof.
  intros Hy Hr Hsame. unfold NewErrorMessage, NewMessage, payload_json in Hr. destruct (enc_ok _ Hy) as [d Hd]. rewrite Hd in Hr.
  injection Hr as <-. assert (Hp : ParsePayload zero dec resp = Ok (mkErrorPayload code text "")).
  { refine (payload_arrives _ d _ resp Hy Hd _ Hsame). reflexivity. }
  destruct Hsame as (_ & Ht & _ & _ & _ & _ & Hpl). cbn [set_ReplyTo m_Type m_Payload] in Ht, Hpl.
  unfold ParseResponse, ValidateResponse. rewrite Ht. rewrite decide_True by done. unfold ParsePayload in *.
  destruct (m_Payload resp) as [b|]; [|done]. destruct (dec b); [done|]. by injection Hp as ->.
Qed.

(** The reading of a response by the controller. *)
Definition read_response (op : remote_op) (resp : Message) : Result remote_val :=
  match op with
  | OStart _ _ _ | OStop _ =>
      ack ← ParseResponse dec zero dec (Some resp) MsgMinerAck;
      if negb (ma_Success ack) then Fail (E (failure_text op).1 ((failure_text op).2 ++ ma_Error ack) None) else Ok VDone
  | OLogs _ _ _ => logs ← ParseResponse dec zero dec (Some resp) MsgLogs; Ok (VLines (lg_Lines logs))
  | OStats => stats ← ParseResponse dec zero dec (Some resp) MsgStats; Ok (VStats stats)
  end.

Lemma remotely_reads s i net peerID op id t req resp :
  get_identity t = Some id -> ready s i peerID t -> request_ok op -> request i id peerID op = Ok req -> portable req ->
  response net req = Some resp -> exists t', remotely i net peerID op t = (read_response op resp, t').
Proof.
  intros Hid Hready Hok Hreq Hport Hresp. destruct (sendRequest_answered s i net peerID t req resp Hready Hport Hresp) as [t' Ht'].
  exists t'. unfold remotely, StartRemoteMiner, StopRemoteMiner, GetRemoteLogsSince, GetRemoteStats, with_identity, gets, ask_peer.
  destruct op as [ty pid config|name|name lines since|]; cbn [request] in Hreq; cbv [mbind SR_bind]; rewrite Hid.
  1: rewrite decide_False by apply Hok.
  all: rewrite Hreq; cbv [lift map_fail]; rewrite Ht'; unfold read_response, acknowledged.
  all: match goal with |- context [ParseResponse ?a ?b ?c ?d ?e] => destruct (ParseResponse a b c d e) as [y|e'|p|] end; try done.
  all: cbn [mbind Result_bind]; by destruct (ma_Success y).
Qed.

Lemma answer_read i' msg op name r w1 w' m resp :
  answer i' msg op name r w1 = (Ok m, w') -> same_message m resp -> answer_ok op r ->
  answers_op op name r ->
  read_response op resp = reported op (Ok r) /\ w' = w1.
Proof.
  intros Ha Hsame Hok Hname.
  destruct op as [ty pid config|n|n lines since|], r as [e|[|ls|st]]; cbn [answer answer_ok answers_op] in *; try done.
  all: unfold reply_with, lift in Ha; injection Ha as Hr <-; split; [|done]; unfold read_response.
  all: try match type of Hname with ex _ => destruct Hname as [miner ->]; specialize (Hok miner) end.
  all: erewrite reply_read; [|exact Hok|discriminate|exact Hr|exact Hsame]; done.
Qed.

Lemma answer_returns i' msg op name r w1 :
  answer_ok op r -> answers_op op name r ->
  forall e w2, answer i' msg op name r w1 <> (Fail e, w2).
Proof.
  intros Hok Hname e' w2.
  destruct op as [ty pid config|n|n lines since|], r as [e|[|ls|st]]; cbn [answer answer_ok answers_op] in *; try done.
  all: try match type of Hname with ex _ => destruct Hname as [miner ->]; specialize (Hok miner) end.
  all: unfold reply_with, lift, Reply, NewMessage, payload_json; destruct (enc_ok _ Hok) as [d ->]; done.
Qed.

(** The reply names the request it answers, and the controller's goroutines can
    hand it to that request. *)
Lemma answer_names i' msg op name r w1 m w2 : answer i' msg op name r w1 = (Ok m, w2) -> m_ReplyTo m = m_ID msg.
Proof.
  intros Ha. destruct op as [ty pid config|n|n lines since|], r as [e|[|ls|st]]; cbn [answer] in Ha; try done.
  all: unfold reply_with, lift, Reply, NewMessage in Ha; destruct (payload_json enc _); [done|]; by injection Ha as <- <-.
Qed.

Definition delivered (req resp : Message) : Prop :=
  exists s, rtc (cstep [req]) (cinit [req]) s /\ reqs s = [RDone (Ok resp)] /\ pending s = ∅ /\ crashed s = None.

Lemma reply_delivered req msg m resp :
  m_ID req <> EmptyString -> same_message req msg -> m_ReplyTo m = m_ID msg -> same_message m resp -> delivered req resp.
Proof.
  intros Hne (Hid & _) Hre (_ & _ & _ & _ & _ & Hre' & _). apply request_run; [done|]. congruence.
Qed.

(** C5 (refinement): an operation on a remote node (starting and stopping a miner,
    its logs, the statistics), sealed for a session, handled by the worker on a
    connection of the session and answered over it, returns what the operation on
    the worker's managers returns, and has the effect it has on them: a refusal by
    the manager is reported with its text, a request that does not get that far as
    a protocol error with the text of what stopped it.  The reply is one that the
    controller's goroutines hand to the request. *)
Theorem remote_refines_local s i i' now c id t w op peerID net req resp w' :
  get_identity t = Some id -> ready s i peerID t -> request_ok op -> request i id peerID op = Ok req -> m_ID req <> EmptyString ->
  response net req = Some resp -> exchange s i' now c w req resp w' ->
  match fst (locally now op w) with
  | Ok r => answer_ok op r
  | Fail e => codec_ok (mkErrorPayload ErrCodeOperationFailed (Error e) "")
  | _ => True
  end ->
  exists t', remotely i net peerID op t = (reported op (fst (locally now op w)), t') /\ snd (locally now op w) = w' /\ delivered req resp.
Proof.
  intros Hid Hready Hok Hreq Hne Hresp (pc & d & msg & m & d' & _ & _ & Hsealed & Hdec & Hout & Hsealed' & Hdec') Hans.
  pose proof (sealed_opens ed25519_verify s req d msg Hsealed Hdec) as Hsame.
  pose proof (sealed_opens ed25519_verify s m d' resp Hsealed' Hdec') as Hback. destruct Hsealed as [Hport _].
  destruct (remotely_reads s i net peerID op id t req resp Hid Hready Hok Hreq Hport Hresp) as [t' ->]. exists t'.
  destruct (handler_performs i i' id peerID op req msg (Some c) now w Hok Hreq Hsame) as (handle & Hh & Hrun).
  unfold outcome in Hout. rewrite Hh in Hout. unfold on_result in Hout.
  destruct (locally now op w) as [[r|e|p|] w1]; cbn [fst snd] in *; try (by rewrite Hrun in Hout).
  - destruct Hrun as (name & Hrun & Hname). rewrite Hrun in Hout.
    destruct (answer i' msg op name r w1) as [[m'|e|p|] w2] eqn:Ha; try done.
    + injection Hout as <- <-. destruct (answer_read i' msg op name r w1 w2 m' resp Ha Hback Hans Hname) as [-> ->].
      split_and!; [done|done|]. eapply reply_delivered; [done|exact Hsame|by eapply answer_names|exact Hback].
    + by destruct (answer_returns i' msg op name r w1 Hans Hname e w2).
  - rewrite Hrun in Hout. unfold gets in Hout. cbv [mbind SR_bind] in Hout. destruct (worker_identity w1) as [wid|]; [|done].
    destruct (NewErrorMessage _ _ _ _ _ _ _ _) as [m'| | |] eqn:Hm; try done. injection Hout as <- <-. split_and!; [|done|].
    + unfold read_response. destruct op; by rewrite (error_read _ _ _ _ _ _ _ _ _ _ Hans Hm Hback).
    + eapply reply_delivered; [done|exact Hsame| |exact Hback]. unfold NewErrorMessage, NewMessage in Hm.
      destruct (payload_json enc _); [done|]. by injection Hm as <-.
Qed.
End RemoteProofs.
