(* ===== verification/Gather.v ===== *)
(** * Statistics of all peers at once (src/go/node/controller.go: GetAllStats)

    [GetAllStats] starts a goroutine for every connected peer, each of which makes
    a [GetRemoteStats] request and adds the answer to a shared map under a mutex,
    and waits for all of them.  The requests are those of [Controller], with their
    registrations, channels, time-outs and response handlers, and they overlap
    with each other and with whatever other requests the program makes.  The
    theorem says what is in the map when the call returns, that it returns, and
    how the process can die meanwhile. *)

From S2P Require Import Prelude Float64 PeerName Peer PeerProofs Identity KeyDeriv.
From S2P Require Import Controller Protocol Session Transport Payloads.

Section Gather.
Context `{Codec StatsPayload} `{Codec ErrorPayload}.

(** The connected peers in the order in which the loop visits them, the message of
    the request to each, and the messages of the other requests of the program. *)
Context (peers : list Peer) (msgs others : list Message).
Abbreviation calls := (msgs ++ others).

(** What [GetRemoteStats] makes of the result of [sendRequest]. *)
Definition stats_of (r : Result Message) : Result StatsPayload :=
  resp ← r; ParseResponse dec zero dec (Some resp) MsgStats.

(** ** The goroutines *)

(** A goroutine of the group: in its request, with an answer before [mu.Lock],
    holding the lock, inside the assignment to the map, after it, and ended. *)
Inductive gather_pc : Type :=
| GAsk
| GLock (stats : StatsPayload)
| GHold (stats : StatsPayload)
| GWriting (stats : StatsPayload)
| GUnlock
| GDone.

(** The controller with its requests and handlers, the map, the mutex, the
    goroutine that writes the map, the peers the loop has still to visit, the
    goroutines with their peers, whether [GetAllStats] has returned, and whether
    two goroutines were inside an assignment to the map, which ends the process.
    Goroutine [k] makes request [k] of the controller. *)
Record gather : Type := mkGather {
  g_ctl : csys;
  g_results : gmap string StatsPayload;
  g_mu : option nat;
  g_writing : option nat;
  g_todo : list Peer;
  g_routines : list (Peer * gather_pc);
  g_returned : bool;
  g_race : bool
}.

(** The requests of this call. *)
Definition own_reqs (c : csys) : list rpc := take (length msgs) (reqs c).

(** A step of the controller belongs to this call when it moves one of its
    requests; other requests, and the handlers of responses, are its environment. *)
Definition is_own (own : bool) (c c' : csys) : Prop :=
  if own then own_reqs c' <> own_reqs c else own_reqs c' = own_reqs c.

(** One step, of the call ([true]) or of its environment. *)
Inductive gather_step : bool -> gather -> gather -> Prop :=
| gs_go p todo c rs mu wr gs :
    crashed c = None ->
    gather_step true (mkGather c rs mu wr (p :: todo) gs false false)
                     (mkGather c rs mu wr todo (gs ++ [(p, GAsk)]) false false)
(** A request moves only in its goroutine.  One that ends before it is registered
    (no identity, an unknown peer, no connection) is refused by the controller. *)
| gs_ctl own c c' rs mu wr todo gs ret :
    cstep calls c c' -> is_own own c c' -> (forall k, (length gs <= k < length msgs)%nat -> reqs c' !! k = reqs c !! k) ->
    gather_step own (mkGather c rs mu wr todo gs ret false) (mkGather c' rs mu wr todo gs ret false)
| gs_answer k p r st c rs mu wr todo gs :
    crashed c = None -> gs !! k = Some (p, GAsk) -> reqs c !! k = Some (RDone r) -> stats_of r = Ok st ->
    gather_step true (mkGather c rs mu wr todo gs false false)
                     (mkGather c rs mu wr todo (<[k := (p, GLock st)]> gs) false false)
| gs_skip k p r c rs mu wr todo gs :
    crashed c = None -> gs !! k = Some (p, GAsk) -> reqs c !! k = Some (RDone r) -> (forall st, stats_of r <> Ok st) ->
    gather_step true (mkGather c rs mu wr todo gs false false)
                     (mkGather c rs mu wr todo (<[k := (p, GDone)]> gs) false false)
| gs_lock k p st c rs wr todo gs :
    crashed c = None -> gs !! k = Some (p, GLock st) ->
    gather_step true (mkGather c rs None wr todo gs false false)
                     (mkGather c rs (Some k) wr todo (<[k := (p, GHold st)]> gs) false false)
| gs_write k p st c rs mu todo gs :
    crashed c = None -> gs !! k = Some (p, GHold st) ->
    gather_step true (mkGather c rs mu None todo gs false false)
                     (mkGather c rs mu (Some k) todo (<[k := (p, GWriting st)]> gs) false false)
| gs_race k p st c rs mu j todo gs :
    crashed c = None -> gs !! k = Some (p, GHold st) ->
    gather_step true (mkGather c rs mu (Some j) todo gs false false)
                     (mkGather c rs mu (Some j) todo gs false true)
| gs_written k p st c rs mu wr todo gs :
    crashed c = None -> gs !! k = Some (p, GWriting st) ->
    gather_step true (mkGather c rs mu wr todo gs false false)
                     (mkGather c (<[ID p := st]> rs) mu None todo (<[k := (p, GUnlock)]> gs) false false)
| gs_unlock k p c rs mu wr todo gs :
    crashed c = None -> gs !! k = Some (p, GUnlock) ->
    gather_step true (mkGather c rs mu wr todo gs false false)
                     (mkGather c rs None wr todo (<[k := (p, GDone)]> gs) false false)
(** [wg.Wait] returns when every goroutine has ended. *)
| gs_return c rs mu wr gs :
    crashed c = None -> Forall (fun g => g.2 = GDone) gs ->
    gather_step true (mkGather c rs mu wr [] gs false false) (mkGather c rs mu wr [] gs true false).

Definition gather_init : gather := mkGather (cinit calls) ∅ None None peers [] false false.

(** The runs, with the number of their steps that are the call's own. *)
Inductive gather_run : nat -> gather -> Prop :=
| run_start : gather_run 0 gather_init
| run_own n s s' : gather_run n s -> gather_step true s s' -> gather_run (S n) s'
| run_env n s s' : gather_run n s -> gather_step false s s' -> gather_run n s'.

(** ** Steps of the controller *)

(** The steps a request still has to take. *)
Definition req_weight (pc : rpc) : nat :=
  match pc with RStart => 5 | RSend => 4 | RWait => 3 | RCleanup _ => 2 | RClose _ => 1 | RDone _ => 0 end.

Lemma cstep_reqs c c' : cstep calls c c' ->
  reqs c' = reqs c \/
  exists i pc pc', reqs c !! i = Some pc /\ reqs c' = <[i := pc']> (reqs c) /\ (req_weight pc' < req_weight pc)%nat.
Proof. destruct 1; try (by left); right; eexists _, _, _; (split_and!; [eassumption|reflexivity|cbn; lia]). Qed.

(** A request that is done stays done. *)
Lemma cstep_done c c' k r : cstep calls c c' -> reqs c !! k = Some (RDone r) -> reqs c' !! k = Some (RDone r).
Proof.
  intros Hs Hk. destruct (cstep_reqs c c' Hs) as [->|(i & pc & pc' & Hi & -> & Hw)]; [done|].
  rewrite list_lookup_insert_ne; [done|]. intros ->. rewrite Hk in Hi. injection Hi as <-. cbn in Hw. lia.
Qed.

(** The requests of the call lose weight in its own steps, and are not moved by
    the others. *)
Lemma own_weight c c' : cstep calls c c' -> is_own true c c' ->
  (sum_list_with req_weight (own_reqs c') < sum_list_with req_weight (own_reqs c))%nat.
Proof.
  intros Hs Hd. cbn in Hd.
  destruct (cstep_reqs c c' Hs) as [Heq|(i & pc & pc' & Hi & Heq & Hw)]; [by unfold own_reqs in Hd; rewrite Heq in Hd|].
  unfold own_reqs in *. rewrite Heq in *. destruct (decide (i < length msgs)%nat) as [Hlt|Hge].
  - rewrite take_insert_lt by done. pose proof (sum_update req_weight (take (length msgs) (reqs c)) i pc' pc) as Hu.
    rewrite lookup_take_lt in Hu by done. specialize (Hu Hi). lia.
  - destruct Hd. by rewrite take_insert_ge by lia.
Qed.

(** A request that is not done can take a step. *)
Lemma request_moves c k pc :
  cinv calls c -> crashed c = None -> (k < length msgs)%nat -> reqs c !! k = Some pc -> (0 < req_weight pc)%nat ->
  exists c', cstep calls c c' /\ is_own true c c'.
Proof.
  intros Hinv Hcr Hk Hpc Hw. destruct (lookup_lt_is_Some_2 calls k) as [msg Hmsg]; [rewrite length_app; lia|].
  assert (Hgo : forall pc' c', cstep calls c c' -> reqs c' = <[k := pc']> (reqs c) -> pc' <> pc ->
    exists c', cstep calls c c' /\ is_own true c c').
  { intros pc' c' Hs Heq Hne. exists c'. split; [done|].
    cbn. unfold own_reqs. rewrite Heq. intros Hsame. apply (f_equal (fun l => l !! k)) in Hsame.
    rewrite !lookup_take_lt, list_lookup_insert_eq, Hpc in Hsame by (done || by eapply lookup_lt_Some). congruence. }
  destruct pc as [| | |r|r|r]; cbn in Hw.
  - eapply (Hgo RSend); [by eapply r_register|done|done].
  - eapply (Hgo RWait); [by eapply r_sent|done|done].
  - eapply (Hgo (RCleanup (Fail ErrRequestTimeout))); [by eapply r_timeout|done|done].
  - eapply (Hgo (RClose r)); [by eapply r_delete|done|done].
  - destruct (ci_tokens _ _ Hinv k msg _ Hmsg Hpc) as [_ [b Hb]].
    eapply (Hgo (RDone r)); [by eapply r_close|done|done].
  - lia.
Qed.

(** ** The invariant *)

Definition locked (pc : gather_pc) : bool := match pc with GHold _ | GWriting _ | GUnlock => true | _ => false end.
Definition inside (pc : gather_pc) : bool := match pc with GWriting _ => true | _ => false end.

(** The request [k] returned these statistics. *)
Definition gives (c : csys) (k : nat) (st : StatsPayload) : Prop :=
  exists r, reqs c !! k = Some (RDone r) /\ stats_of r = Ok st.
Definition returned (c : csys) (k : nat) : Prop := exists r, reqs c !! k = Some (RDone r).

(** What a goroutine has left to add to the map, which has [o] for its peer. *)
Definition contribution (c : csys) (k : nat) (o : option StatsPayload) (pc : gather_pc) : Prop :=
  match pc with
  | GAsk => o = None
  | GLock st | GHold st | GWriting st => gives c k st /\ o = None
  | GUnlock | GDone => returned c k /\ forall st, o = Some st <-> gives c k st
  end.

Record gather_inv (s : gather) : Prop := mkGatherInv {
  gi_ctl : rtc (cstep calls) (cinit calls) (g_ctl s);
  gi_peers : (g_routines s).*1 ++ g_todo s = peers;
  gi_out : forall id, id ∉ ID <$> (g_routines s).*1 -> g_results s !! id = None;
  gi_in : forall k p pc, g_routines s !! k = Some (p, pc) -> contribution (g_ctl s) k (g_results s !! ID p) pc;
  gi_mu : forall k, g_mu s = Some k <-> exists p pc, g_routines s !! k = Some (p, pc) /\ locked pc = true;
  gi_writing : forall k, g_writing s = Some k <-> exists p pc, g_routines s !! k = Some (p, pc) /\ inside pc = true;
  gi_race : g_race s = false;
  gi_returned : g_returned s = true -> g_todo s = [] /\ Forall (fun g => g.2 = GDone) (g_routines s)
}.

Lemma contribution_ctl c c' k o pc : cstep calls c c' -> contribution c k o pc -> contribution c' k o pc.
Proof.
  intros Hs. assert (Hr : returned c k -> returned c' k) by (intros [r Hk]; exists r; by apply (cstep_done c)).
  assert (Hg : forall st, gives c k st -> gives c' k st) by (intros st (r & Hk & Hst); exists r; split; [by apply (cstep_done c)|done]).
  assert (Hb : returned c k -> forall st, gives c' k st -> gives c k st).
  { intros [r Hk] st (r' & Hk' & Hst). rewrite (cstep_done c c' k r Hs Hk) in Hk'. injection Hk' as <-. by exists r. }
  destruct pc; cbn; [done|intros [? ?]; split; [by apply Hg|done]..| |];
    (intros [Hret Hiff]; split; [by apply Hr|]; intros st; rewrite Hiff; split; [apply Hg|by apply Hb]).
Qed.

Lemma peers_insert (gs : list (Peer * gather_pc)) k p pc pc' : gs !! k = Some (p, pc) -> (<[k := (p, pc')]> gs).*1 = gs.*1.
Proof.
  intros Hk. rewrite list_fmap_insert. cbn [fst]. apply list_insert_id. by rewrite list_lookup_fmap, Hk.
Qed.

(** The holder of a lock, after a step of goroutine [k]. *)
Lemma holder_moves (f : gather_pc -> bool) (h h' : option nat) (gs : list (Peer * gather_pc)) k p pc pc' :
  gs !! k = Some (p, pc) ->
  (forall j, h = Some j <-> exists p pc, gs !! j = Some (p, pc) /\ f pc = true) ->
  (h' = Some k <-> f pc' = true) -> (forall j, j <> k -> h' = Some j <-> h = Some j) ->
  forall j, h' = Some j <-> exists p0 pc0, <[k := (p, pc')]> gs !! j = Some (p0, pc0) /\ f pc0 = true.
Proof.
  intros Hk Hh Hown Hoth j. destruct (decide (j = k)) as [->|Hne].
  - rewrite Hown, list_lookup_insert_eq by (by eapply lookup_lt_Some). split; [by exists p, pc'|]. by intros (? & ? & [= <- <-] & ?).
  - rewrite (Hoth j Hne), Hh, list_lookup_insert_ne by done. done.
Qed.

Lemma holder_own (f : gather_pc -> bool) (h : option nat) (gs : list (Peer * gather_pc)) k p pc :
  (forall j, h = Some j <-> exists p pc, gs !! j = Some (p, pc) /\ f pc = true) ->
  gs !! k = Some (p, pc) -> h = Some k <-> f pc = true.
Proof.
  intros Hh Hk. rewrite Hh. split; [intros (? & ? & Hq & ?); congruence|by exists p, pc].
Qed.

Section Unique.
Hypothesis ids_distinct : NoDup (ID <$> peers).

(** A step of goroutine [k], which is the only one to add to the map for its
    peer. *)
Lemma gather_moves k p pc pc' c rs mu wr todo gs rs' mu' wr' :
  gather_inv (mkGather c rs mu wr todo gs false false) -> gs !! k = Some (p, pc) ->
  (forall id, id <> ID p -> rs' !! id = rs !! id) ->
  (contribution c k (rs !! ID p) pc -> contribution c k (rs' !! ID p) pc') ->
  (mu' = Some k <-> locked pc' = true) -> (forall j, j <> k -> mu' = Some j <-> mu = Some j) ->
  (wr' = Some k <-> inside pc' = true) -> (forall j, j <> k -> wr' = Some j <-> wr = Some j) ->
  gather_inv (mkGather c rs' mu' wr' todo (<[k := (p, pc')]> gs) false false).
Proof.
  intros [Hctl Hp Hout Hin Hm Hw Hrc _] Hk Hrs Hcon Hmu Hmu' Hwr Hwr'. cbn in *.
  pose proof (peers_insert gs k p pc pc' Hk) as Hids.
  split; cbn; [done|by rewrite Hids| | |by eapply holder_moves..|done|done].
  - rewrite Hids. intros id Hid. assert (id <> ID p); [|rewrite Hrs by done; by apply Hout].
    intros ->. apply Hid, list_elem_of_fmap_2, list_elem_of_fmap. exists (p, pc). split; [done|by eapply list_elem_of_lookup_2].
  - intros j q qc Hj. destruct (decide (j = k)) as [->|Hjk].
    + rewrite list_lookup_insert_eq in Hj by (by eapply lookup_lt_Some). injection Hj as <- <-. by apply Hcon, Hin.
    + rewrite list_lookup_insert_ne in Hj by done. assert (ID q <> ID p); [|rewrite Hrs by done; by apply Hin].
      intros Heq. apply Hjk. pose proof ids_distinct as Hnd. rewrite <- Hp, fmap_app in Hnd. apply NoDup_app in Hnd as (Hnd & _ & _).
      eapply (NoDup_lookup _ j k (ID p) Hnd); rewrite !list_lookup_fmap; [by rewrite Hj; cbn; rewrite Heq|by rewrite Hk].
Qed.

(** The loop starts a goroutine. *)
Lemma gather_spawns p c rs mu wr todo gs :
  gather_inv (mkGather c rs mu wr (p :: todo) gs false false) ->
  gather_inv (mkGather c rs mu wr todo (gs ++ [(p, GAsk)]) false false).
Proof.
  intros [Hctl Hp Hout Hin Hm Hw Hrc _]. cbn in *.
  assert (Hadd : forall (f : gather_pc -> bool) h, f GAsk = false ->
    (forall j, h = Some j <-> exists p pc, gs !! j = Some (p, pc) /\ f pc = true) ->
    forall j, h = Some j <-> exists q pc, (gs ++ [(p, GAsk)]) !! j = Some (q, pc) /\ f pc = true).
  { intros f h Hf Hh j. rewrite Hh. split; intros (q & qc & Hq & Ht); exists q, qc; (split; [|done]).
    - by apply lookup_app_l_Some.
    - apply lookup_app_Some in Hq as [Hq|[_ Hq]]; [done|]. apply list_lookup_singleton_Some in Hq as [_ [= <- <-]]. congruence. }
  split; cbn; [done|by rewrite fmap_app, <- app_assoc| | |by apply Hadd..|done|done].
  - intros id Hid. apply Hout. intros Hel. apply Hid. rewrite !fmap_app. by apply elem_of_app; left.
  - intros j q qc Hq. apply lookup_app_Some in Hq as [Hq|[_ Hq]]; [by eapply Hin|].
    apply list_lookup_singleton_Some in Hq as [_ [= <- <-]]. apply Hout. pose proof ids_distinct as Hnd.
    rewrite <- Hp, fmap_app, fmap_cons in Hnd. apply NoDup_app in Hnd as (_ & Hd & _). intros Hel. apply (Hd _ Hel). left.
Qed.

Lemma gather_inv_step b s s' : gather_inv s -> gather_step b s s' -> gather_inv s'.
Proof.
  intros Hinv Hstep. pose proof Hinv as [Hctl Hp Hout Hin Hm Hw Hrc Hret].
  destruct Hstep as [p todo c rs mu wr gs Hcr|own c c' rs mu wr todo gs ret Hs _ _|k p r st c rs mu wr todo gs Hcr Hk Hr Hst
    |k p r c rs mu wr todo gs Hcr Hk Hr Hst|k p st c rs wr todo gs Hcr Hk|k p st c rs mu todo gs Hcr Hk
    |k p st c rs mu j todo gs Hcr Hk|k p st c rs mu wr todo gs Hcr Hk|k p c rs mu wr todo gs Hcr Hk|c rs mu wr gs Hcr Hd]; cbn in *;
    try (pose proof (holder_own _ _ _ _ _ _ Hm Hk) as Hmk; pose proof (holder_own _ _ _ _ _ _ Hw Hk) as Hwk; cbn in Hmk, Hwk).
  - by apply gather_spawns.
  - split; cbn; try done; [by eapply rtc_r|]. intros k p pc Hk. by apply (contribution_ctl c), Hin.
  - eapply gather_moves; [done..| |done|done|done|done]. cbn. intros Ho. split; [by exists r|done].
  - eapply gather_moves; [done..| |done|done|done|done]. cbn. intros ->. split; [by exists r|]. intros st. split; [done|].
    intros (r' & Hr' & Hok). rewrite Hr in Hr'. injection Hr' as <-. by destruct (Hst st).
  - eapply gather_moves; [done..| |done|naive_solver|done|done]. done.
  - eapply gather_moves; [done..| |done|done|done|naive_solver]. done.
  - exfalso. destruct (proj1 (Hw j) eq_refl) as (q & qc & Hj & Hi).
    assert (Hmj : mu = Some j) by (apply Hm; exists q, qc; split; [done|by destruct qc]).
    assert (Hmk' : mu = Some k) by (by apply Hmk). assert (k = j) by congruence. subst. rewrite Hk in Hj. by injection Hj as <- <-.
  - eapply gather_moves; [done..| | |done|done|done|naive_solver].
    + intros id Hid. by rewrite lookup_insert_ne.
    + cbn. intros [(r & Hr & Hst) _]. rewrite lookup_insert_eq. split; [by exists r|]. intros st'. split.
      * intros [= <-]. by exists r.
      * intros (r' & Hr' & Hst'). congruence.
  - eapply gather_moves; [done..| |done|naive_solver|done|done]. done.
  - by split.
Qed.

Lemma gather_inv_init : gather_inv gather_init.
Proof.
  split; cbn; [done|done|done|done| | |done|done]; (intros k; split; [done|]; by intros (? & ? & ? & _)).
Qed.

(** ** Termination *)

Definition pc_weight (g : Peer * gather_pc) : nat :=
  match g.2 with GAsk => 5 | GLock _ => 4 | GHold _ => 3 | GWriting _ => 2 | GUnlock => 1 | GDone => 0 end.
Definition running (s : gather) : bool := negb (g_returned s) && negb (g_race s).
Definition gather_weight (s : gather) : nat :=
  6 * length (g_todo s) + sum_list_with pc_weight (g_routines s) +
  sum_list_with req_weight (own_reqs (g_ctl s)) + (if running s then 1 else 0).

Lemma gather_step_weight b s s' : gather_step b s s' ->
  if b then (gather_weight s' < gather_weight s)%nat else gather_weight s' = gather_weight s.
Proof.
  intros Hs. destruct Hs as [|own c c' rs mu wr todo gs ret Hs Ho _| | | | | | | |];
    [| |unfold gather_weight, running; cbn; try match goal with Hk : _ !! ?k = Some _ |- context [<[?k := ?x]> ?l] =>
      pose proof (sum_update pc_weight l k x _ Hk) as Hu; cbn in Hu end; lia..].
  - unfold gather_weight, running. cbn. rewrite sum_list_with_app. cbn. lia.
  - unfold gather_weight. cbn. destruct own; [|cbn in Ho; by rewrite Ho].
    pose proof (own_weight c c' Hs Ho). unfold running. cbn. lia.
Qed.

Lemma init_weight : length peers = length msgs -> gather_weight gather_init = (11 * length peers + 1)%nat.
Proof.
  intros Hl. unfold gather_weight, own_reqs. cbn. rewrite length_app, replicate_add, take_app_length', sum_replicate by (by rewrite length_replicate).
  cbn. lia.
Qed.

Lemma gather_run_inv n s : length peers = length msgs ->
  gather_run n s -> gather_inv s /\ (n + gather_weight s <= 11 * length peers + 1)%nat.
Proof.
  intros Hl. induction 1 as [|n s s' _ [IH Hw] Hs|n s s' _ [IH Hw] Hs].
  - split; [apply gather_inv_init|]. rewrite init_weight by done. lia.
  - split; [by eapply gather_inv_step|]. pose proof (gather_step_weight _ _ _ Hs). cbn in *. lia.
  - split; [by eapply gather_inv_step|]. pose proof (gather_step_weight _ _ _ Hs). cbn in *. lia.
Qed.

(** Until the call returns it can take a step of its own. *)
Lemma gather_progress s :
  length peers = length msgs -> cinv calls (g_ctl s) ->
  gather_inv s -> g_returned s = false -> crashed (g_ctl s) = None -> exists s', gather_step true s s'.
Proof.
  intros Hl Hc [_ Hp _ _ Hm _ Hrc _] Hr Hcr. destruct s as [c rs mu wr todo gs ret race]. cbn in *. subst ret race.
  destruct todo as [|p todo]; [|eexists; by apply gs_go].
  assert (Hlen : length gs = length msgs) by (rewrite <- Hl, <- Hp, app_nil_r; by rewrite length_fmap).
  assert (Hlocked : forall k p pc, gs !! k = Some (p, pc) -> locked pc = true ->
    exists s', gather_step true (mkGather c rs mu wr [] gs false false) s').
  { intros k p [] Hk Hlk; try done; [destruct wr; eexists; [by eapply gs_race|by eapply gs_write]|eexists; by eapply gs_written|eexists; by eapply gs_unlock]. }
  destruct (decide (Forall (fun g => pc_weight g = 0%nat) gs)) as [Hall|Hnot].
  { eexists. apply gs_return; [done|]. eapply Forall_impl; [exact Hall|]. by intros [p []]. }
  apply not_Forall_Exists in Hnot; [|apply _]. apply Exists_exists in Hnot as ([p pc] & Hin & Hw). apply list_elem_of_lookup in Hin as [k Hk].
  destruct pc as [|st|st|st| |]; [|destruct mu as [j|]|by eapply Hlocked..|by destruct Hw].
  - pose proof (lookup_lt_Some _ _ _ Hk) as Hlt.
    destruct (lookup_lt_is_Some_2 (reqs c) k) as [pc Hpc]; [rewrite (ci_len _ _ Hc), length_app; lia|].
    destruct (decide (req_weight pc = 0%nat)) as [Hz|Hnz].
    + destruct pc as [| | | | |r]; try done. destruct (stats_of r) as [st|e|q|] eqn:Hst; eexists;
        [by eapply gs_answer|eapply gs_skip; [done|done|done|by rewrite Hst]..].
    + destruct (request_moves c k pc Hc Hcr ltac:(lia) Hpc ltac:(lia)) as (c' & Hs & Hown).
      eexists. apply gs_ctl; [done|done|]. intros j Hj. lia.
  - destruct (proj1 (Hm j) eq_refl) as (q & qc & Hq & Hlk). by eapply Hlocked.
  - eexists. by eapply gs_lock.
Qed.

(** What is in the map at the end. *)
Lemma gather_returned s id st :
  gather_inv s -> g_returned s = true ->
  g_results s !! id = Some st <-> exists k p, peers !! k = Some p /\ ID p = id /\ gives (g_ctl s) k st.
Proof.
  intros [_ Hp Hout Hin _ _ _ Hret] Hr. destruct (Hret Hr) as [Ht Hd]. rewrite Ht, app_nil_r in Hp. rewrite Forall_lookup in Hd. split.
  - intros Hst. destruct (decide (id ∈ ID <$> (g_routines s).*1)) as [Hel|Hno]; [|by rewrite (Hout id Hno) in Hst].
    apply list_elem_of_fmap in Hel as (p & -> & Hel). apply list_elem_of_lookup in Hel as [k Hk]. exists k, p. rewrite <- Hp.
    split; [done|]. split; [done|]. rewrite list_lookup_fmap in Hk. apply fmap_Some in Hk as ([q pc] & Hk & ->). cbn in *.
    specialize (Hd k _ Hk). cbn in Hd. subst pc. by apply (Hin k q GDone Hk).
  - intros (k & p & Hk & <- & Hg). rewrite <- Hp, list_lookup_fmap in Hk. apply fmap_Some in Hk as ([q pc] & Hk & ->). cbn in *.
    specialize (Hd k _ Hk). cbn in Hd. subst pc. by apply (Hin k q GDone Hk).
Qed.
End Unique.
End Gather.

(** ** The theorem *)
Section Statistics.
Context `{KDLib} `{JSON} {FS : Type} `{FileSystem FS} `{Codec PingPayload} `{Codec StatsPayload} `{Codec ErrorPayload}.

(** The message of a request for the statistics of [peer]. *)
Definition stats_request (identity : NodeIdentity) (peer : Peer) (msg : Message) : Prop :=
  exists i : Input, NewMessage (A := PingPayload) (uuid i) (clock i) (payload_json enc) MsgGetStats (ni_ID identity) (ID peer) None = Ok msg.

(** C6 (functional): [GetAllStats], with its goroutines and their requests, the other
    requests of the program, the response handlers and the time-outs interleaved in
    any way (message IDs are unique): when it returns, the map holds, under the ID
    of each connected peer whose request was answered by a reply to that request
    that parses as statistics, those statistics, and nothing else; two goroutines
    never write the map at once; it has taken at most eleven steps of its own per
    peer and one more, and can take another until it returns or the process has
    died, which happens only by a send on a closed channel, and only after some
    request returned without a response. *)
Theorem stats_gathered (ch : Choice) (w : World FS) identity msgs others n s :
  keyed w -> let peers := GetConnectedPeers ch w in
  Forall2 (stats_request identity) peers msgs -> NoDup (m_ID <$> msgs ++ others) ->
  gather_run peers msgs others n s ->
  (n <= 11 * length peers + 1)%nat /\
  (g_returned s = false -> crashed (g_ctl s) = None -> exists s', gather_step msgs others true s s') /\
  g_race s = false /\
  (forall q, crashed (g_ctl s) = Some q -> q = SendOnClosedChannel /\
     exists i r, reqs (g_ctl s) !! i = Some (RDone r) /\ forall m, r <> Ok m) /\
  (g_returned s = true -> forall id st, g_results s !! id = Some st <->
     exists k peer msg reply, peers !! k = Some peer /\ ID peer = id /\ msgs !! k = Some msg /\
       reqs (g_ctl s) !! k = Some (RDone (Ok reply)) /\ m_ReplyTo reply = m_ID msg /\
       ParseResponse dec zero dec (Some reply) MsgStats = Ok st).
Proof.
  intros Hk peers Hmsgs Hnd Hrun. pose proof (connected_NoDup ch w Hk) as Hids. fold peers in Hids.
  pose proof (Forall2_length _ _ _ Hmsgs) as Hl.
  destruct (gather_run_inv peers msgs others Hids n s Hl Hrun) as [Hinv Hw].
  pose proof (gi_ctl _ _ _ _ Hinv) as Hctl. pose proof (cinv_reachable _ Hnd _ Hctl) as Hc.
  split_and!; [lia|by eapply gather_progress|exact (gi_race _ _ _ _ Hinv)| |].
  - intros q Hq. apply rtc_inv_r in Hctl as [Heq | (c0 & Hr0 & Hst)]; [by rewrite <- Heq in Hq|].
    exact (crash_step _ _ _ Hst (cinv_reachable _ Hnd _ Hr0) q Hq).
  - intros Hret id st. rewrite (gather_returned _ _ _ s id st Hinv Hret). split.
    + intros (k & p & Hp & Hid & [m| | |] & Hr & Hst); try done.
      destruct (ci_results _ _ Hc k _ m Hr eq_refl) as (msg & Hmsg & Hre).
      rewrite lookup_app_l in Hmsg by (rewrite <- Hl; by eapply lookup_lt_Some). by exists k, p, msg, m.
    + intros (k & p & msg & m & Hp & Hid & _ & Hr & _ & Hst). exists k, p. split_and!; [done|done|by exists (Ok m)].
Qed.
End Statistics.
