(* ===== verification/ContentBus.v ===== *)
(** * The content bus (src/go/pkg/contentbus/controller.go)

    Topics with their subscribers, each a buffered channel; publishing to local
    subscribers and to the connected peers; closing.  The operations are defined
    one by one; their interleavings, with the two locks, are in [BusProofs]. *)

From S2P Require Import Prelude Crypto Float64 PeerName Peer PeerPersist Identity Ueps KeyDeriv.
From S2P Require Import Controller Protocol Session Duration Limits Transport Bundle Payloads.

Definition contentEventMessageType : string := "content_event".

(** ** Data *)

(** A payload may be nil. *)
Record Event : Type := mkEvent {
  ev_Topic : string;
  ev_Payload : option bytes;
  ev_PeerID : string;
  ev_Timestamp : Z
}.
Record wireEvent : Type := mkWireEvent {
  we_Topic : string;
  we_Payload : option bytes
}.

(** A [chan Event]. *)
Record EventChan : Type := mkEventChan {
  ec_buf : list Event;
  ec_cap : Z;
  ec_closed : bool
}.

Definition ErrClosed : error := E "contentbus.Controller" "controller closed" None.
Definition ErrInvalidTopic : error := E "contentbus.Controller" "topic is required" None.

(** [cloneBytes] and [cloneEvent]: the copies are the values. *)
Definition cloneBytes (payload : option bytes) : option bytes :=
  match payload with None => None | Some b => Some ([] ++ b) end.
Definition cloneEvent (event : Event) : Event :=
  mkEvent (ev_Topic event) (cloneBytes (ev_Payload event)) (ev_PeerID event) (ev_Timestamp event).

(** ** Subscriptions: what the locks protect, with the channels *)
Record Topics : Type := mkTopics {
  subscribers : gmap string (gmap Z positive);
  nextSubID : Z;
  bus_closed : bool;
  channels : gmap positive EventChan;
  channelBuffer : Z
}.
Definition set_channels v (b : Topics) : Topics :=
  mkTopics (subscribers b) (nextSubID b) (bus_closed b) v (channelBuffer b).

Definition topic_subs (topic : string) (b : Topics) : gmap Z positive := default ∅ (subscribers b !! topic).

(** The part of [Subscribe] under the locks. *)
Definition register (topic : string) : SR Topics positive := fun b =>
  let ch := fresh (dom (channels b)) in
  let id := nextSubID b in
  (Ok ch, mkTopics (<[topic := <[id := ch]> (topic_subs topic b)]> (subscribers b)) (u64 (id + 1)) (bus_closed b)
            (<[ch := mkEventChan [] (channelBuffer b) false]> (channels b)) (channelBuffer b)).

(** [select { case ch <- event: default: }]: was it accepted?  A nil channel is
    never ready. *)
Definition offer (ch : positive) (event : Event) : SR Topics bool := fun b =>
  match channels b !! ch with
  | None => (Ok false, b)
  | Some c =>
      if ec_closed c then (Panic SendOnClosedChannel, b)
      else if decide (len (ec_buf c) < ec_cap c) then
        (Ok true, set_channels (<[ch := mkEventChan (ec_buf c ++ [event]) (ec_cap c) false]> (channels b)) b)
      else (Ok false, b)
  end.
Fixpoint offer_all (chs : list positive) (event : Event) : SR Topics unit :=
  match chs with
  | [] => mret tt
  | ch :: chs => _ ← offer ch (cloneEvent event); offer_all chs event
  end.

(** [close(ch)]. *)
Definition close_chan (ch : positive) : SR Topics unit := fun b =>
  match channels b !! ch with
  | None => (Panic NilDereference, b)
  | Some c =>
      if ec_closed c then (Panic CloseOfClosedChannel, b)
      else (Ok tt, set_channels (<[ch := mkEventChan (ec_buf c) (ec_cap c) true]> (channels b)) b)
  end.
Fixpoint close_loop (chs : list positive) : SR Topics unit :=
  match chs with
  | [] => mret tt
  | ch :: chs => _ ← close_chan ch; close_loop chs
  end.

(** The channels of all topics. *)
Definition all_channels (b : Topics) : list positive :=
  map_to_list (subscribers b) ≫= fun s => (map_to_list s.2).*2.
(** The part of [Close] under the locks: [chs] are the channels in the order of
    the two loops. *)
Definition close_topics (chs : list positive) : SR Topics unit :=
  _ ← modify (fun b => mkTopics (subscribers b) (nextSubID b) true (channels b) (channelBuffer b));
  _ ← close_loop chs;
  modify (fun b => mkTopics ∅ (nextSubID b) (bus_closed b) (channels b) (channelBuffer b)).

(** What a reader of the channel gets: [None] when it waits, [Some None] when the
    channel is closed and empty. *)
Definition receive_event (ch : positive) (b : Topics) : option (option Event) * Topics :=
  match channels b !! ch with
  | Some c =>
      match ec_buf c with
      | ev :: rest => (Some (Some ev), set_channels (<[ch := mkEventChan rest (ec_cap c) (ec_closed c)]> (channels b)) b)
      | [] => (if ec_closed c then Some None else None, b)
      end
  | None => (None, b)
  end.

(** ** The controller *)
Section Bus.
Context {W : Type} `{WebSocket W}.
Context `{KDLib} `{JSON} {FS : Type} `{FileSystem FS} `{KeyLib} `{MsgJSON} `{AEADLib} `{HandshakeJSON}.
Context `{Codec wireEvent} `{IdentityJSON} `{!ModeFS FS}.
Abbreviation Transport := (Transport (W := W) (FS := FS)).

(** [closeOnce] with the result it left in [closeErr]; [bus_node] is the
    controller's own node manager, which [WithNodeManager] may set. *)
Record BusController : Type := mkBus {
  bus_node : NodeManager;
  bus_transport : Transport;
  topics : Topics;
  ownsRegistry : bool;
  ownsTransport : bool;
  startedTransport : bool;
  closeOnce : bool;
  closeErr : option error
}.
Definition set_topics v (c : BusController) : BusController :=
  mkBus (bus_node c) (bus_transport c) v (ownsRegistry c) (ownsTransport c) (startedTransport c) (closeOnce c) (closeErr c).
Definition set_bus_transport v (c : BusController) : BusController :=
  mkBus (bus_node c) v (topics c) (ownsRegistry c) (ownsTransport c) (startedTransport c) (closeOnce c) (closeErr c).
Definition set_close o e (c : BusController) : BusController :=
  mkBus (bus_node c) (bus_transport c) (topics c) (ownsRegistry c) (ownsTransport c) (startedTransport c) o e.
Definition on_topics {A} (m : SR Topics A) : SR BusController A := fun c =>
  let '(r, b) := m (topics c) in (r, set_topics b c).
Definition on_bus_transport {A} (m : SR Transport A) : SR BusController A := fun c =>
  let '(r, t) := m (bus_transport c) in (r, set_bus_transport t c).

Definition Subscribe (topic : string) : SR BusController positive := fun c =>
  if decide (topic = EmptyString) then (Fail ErrInvalidTopic, c)
  else if bus_closed (topics c) then (Fail ErrClosed, c)
  else on_topics (register topic) c.

(** [range] lists the channels of a topic in the order of the loop. *)
Definition deliver (range : gmap Z positive -> list positive) (event : Event) : SR Topics unit := fun b =>
  offer_all (range (topic_subs (ev_Topic event) b)) event b.

Definition event_message (i : Input) (identity : NodeIdentity) (topic : string) (payload : option bytes) : Result Message :=
  NewMessage (uuid i) (clock i) (payload_json enc) contentEventMessageType (ni_ID identity) "" (Some (mkWireEvent topic payload)).

(** [now] is the time of the event. *)
Definition Publish (i : Input) (now : Z) (range : gmap Z positive -> list positive) (topic : string) (payload : option bytes)
    : SR BusController unit := fun c =>
  if decide (topic = EmptyString) then (Fail ErrInvalidTopic, c)
  else if bus_closed (topics c) then (Fail ErrClosed, c)
  else
    match identity (bus_node c) with
    | None => (Fail ErrIdentityNotInitialized, c)
    | Some id =>
        let event := mkEvent topic (cloneBytes payload) (ni_ID id) now in
        (_ ← on_topics (deliver range event);
         msg ← lift (map_fail (fun err => E "contentbus.Controller.Publish" "create content event message" (Some err))
                 (event_message i id topic (ev_Payload event)));
         on_result (on_bus_transport (Broadcast i msg)) mret
           (fun err => fail (E "contentbus.Controller.Publish" "broadcast content event" (Some err)))) c
    end.

(** The handler of messages; the zero time is 0. *)
Definition bus_handleMessage (now : Z) (range : gmap Z positive -> list positive) (msg : Message) : SR BusController unit := fun c =>
  if decide (m_Type msg <> contentEventMessageType) then (Ok tt, c)
  else
    match ParsePayload zero dec msg with
    | Ok payload =>
        if decide (we_Topic payload = EmptyString) then (Ok tt, c)
        else
          let timestamp := if decide (m_Timestamp msg = 0) then now else m_Timestamp msg in
          if bus_closed (topics c) then (Ok tt, c)
          else on_topics (deliver range (mkEvent (we_Topic payload) (cloneBytes (we_Payload payload)) (m_From msg) timestamp)) c
    | Panic p => (Panic p, c)
    | _ => (Ok tt, c)
    end.

(** The function of [closeOnce], after the locks are released: [shutdown] is that
    of the transport's HTTP server. *)
Definition release (i : Input) (shutdown : option (option error)) : SR BusController unit := fun c =>
  let '(stopped, c) :=
    if ownsTransport c || startedTransport c then on_bus_transport (Stop i shutdown) c else (Ok tt, c) in
  match stopped with
  | Fail err => (Ok tt, set_close true (Some (E "contentbus.Controller.Close" "stop transport" (Some err))) c)
  | Ok _ =>
      if ownsRegistry c then
        match on_bus_transport (on_world (Peer.Close (env i))) c with
        | (Fail err, c) => (Ok tt, set_close true (Some (E "contentbus.Controller.Close" "close peer registry" (Some err))) c)
        | (r, c) => (r, c)
        end
      else (Ok tt, c)
  | Panic p => (Panic p, c)
  | OutOfFuel => (OutOfFuel, c)
  end.
Definition CloseBus (i : Input) (shutdown : option (option error)) (chs : list positive) : SR BusController unit := fun c =>
  let '(r, c) :=
    if closeOnce c then (Ok tt, c)
    else (_ ← modify (set_close true None); _ ← on_topics (close_topics chs); release i shutdown) c in
  match r with
  | Ok _ => (match closeErr c with None => Ok tt | Some err => Fail err end, c)
  | _ => (r, c)
  end.

(** ** Construction *)
Record options : Type := mkOptions {
  o_node : option NodeManager;
  o_registry : option (World FS);
  o_transport : option Transport;
  o_transportConfig : TransportConfig;
  o_channelBuffer : Z;
  o_startTransport : bool
}.
Definition bus_option : Type := options -> Result options.
Definition default_options : options := mkOptions None None None DefaultTransportConfig 16 false.

Definition WithNodeManager (node : option NodeManager) : bus_option := fun o =>
  match node with
  | None => Fail (E "contentbus.WithNodeManager" "node manager is nil" None)
  | Some n => Ok (mkOptions (Some n) (o_registry o) (o_transport o) (o_transportConfig o) (o_channelBuffer o) (o_startTransport o))
  end.
Definition WithPeerRegistry (registry : option (World FS)) : bus_option := fun o =>
  match registry with
  | None => Fail (E "contentbus.WithPeerRegistry" "peer registry is nil" None)
  | Some r => Ok (mkOptions (o_node o) (Some r) (o_transport o) (o_transportConfig o) (o_channelBuffer o) (o_startTransport o))
  end.
Definition WithTransport (t : option Transport) : bus_option := fun o =>
  match t with
  | None => Fail (E "contentbus.WithTransport" "transport is nil" None)
  | Some t => Ok (mkOptions (o_node o) (o_registry o) (Some t) (o_transportConfig o) (o_channelBuffer o) (o_startTransport o))
  end.
Definition WithTransportConfig (config : TransportConfig) : bus_option := fun o =>
  Ok (mkOptions (o_node o) (o_registry o) (o_transport o) config (o_channelBuffer o) (o_startTransport o)).
Definition WithChannelBuffer (size : Z) : bus_option := fun o =>
  if decide (size < 1) then Fail (E "contentbus.WithChannelBuffer" "channel buffer must be at least 1" None)
  else Ok (mkOptions (o_node o) (o_registry o) (o_transport o) (o_transportConfig o) size (o_startTransport o)).
Definition WithStartTransport (start : bool) : bus_option := fun o =>
  Ok (mkOptions (o_node o) (o_registry o) (o_transport o) (o_transportConfig o) (o_channelBuffer o) start).

(** A nil option is skipped. *)
Fixpoint apply_options (opts : list (option bus_option)) (o : options) : Result options :=
  match opts with
  | [] => Ok o
  | None :: opts => apply_options opts o
  | Some opt :: opts =>
      o ← map_fail (fun err => E "contentbus.NewController" "apply option" (Some err)) (opt o);
      apply_options opts o
  end.

Definition loadOrCreateContentIdentity (generated : error + KeyPair) (now : Z) (DataFile ConfigFile : string -> error + string)
    (s : FS) : Result unit * option (Node FS) :=
  match NewNodeManager DataFile ConfigFile s with
  | Ok (Ok _, n) =>
      if HasIdentity n then (Ok tt, Some n)
      else let '(r, n) := GenerateIdentity generated now "contentbus-node" RoleController n in (r, Some n)
  | Ok (r, n) => (r, Some n)
  | Fail err => (Fail err, None)
  | Panic p => (Panic p, None)
  | OutOfFuel => (OutOfFuel, None)
  end.

(** [load] and [newRegistry] are what [loadOrCreateContentIdentity] and
    [NewPeerRegistry] return, [started] what the transport's [Start] does;
    [ErrorJoin] is the core library's. *)
Definition build (load : error + NodeManager) (newRegistry : error + World FS) (o : options) : Result BusController :=
  if decide (o_transport o <> None /\ o_node o = None) then
    Fail (E "contentbus.NewController" "node manager is required when providing a transport" None)
  else
    n ← (match o_node o with
         | Some n => Ok n
         | None => match load with
                   | inl err => Fail (E "contentbus.NewController" "load node identity" (Some err))
                   | inr n => Ok n
                   end
         end : Result NodeManager);
    let c t ownsReg ownsTr :=
      mkBus n (snd (OnMessage t)) (mkTopics ∅ 0 false ∅ (o_channelBuffer o)) ownsReg ownsTr false false None in
    match o_transport o, o_registry o with
    | Some t, _ => Ok (c t false false)
    | None, Some registry => Ok (c (NewTransport n registry) false true)
    | None, None =>
        match newRegistry with
        | inl err => Fail (E "contentbus.NewController" "create peer registry" (Some err))
        | inr registry => Ok (c (NewTransport n registry) true true)
        end
    end.
Definition join_if (ErrorJoin : error -> error -> error) (r : Result unit) (err : error) : error :=
  match r with Fail e => ErrorJoin err e | _ => err end.
Definition NewController (i : Input) (ErrorJoin : error -> error -> error) (load : error + NodeManager)
    (newRegistry : error + World FS) (started : option error) (shutdown : option (option error))
    (opts : list (option bus_option)) : Result BusController :=
  o ← apply_options opts default_options;
  c ← build load newRegistry o;
  if o_startTransport o then
    match started with
    | None => Ok (mkBus (bus_node c) (bus_transport c) (topics c) (ownsRegistry c) (ownsTransport c) true false None)
    | Some startErr =>
        let '(stopR, c) := if ownsTransport c then on_bus_transport (Stop i shutdown) c else (Ok tt, c) in
        let startErr := join_if ErrorJoin stopR startErr in
        let '(closeR, c) := if ownsRegistry c then on_bus_transport (on_world (Peer.Close (env i))) c else (Ok tt, c) in
        Fail (E "contentbus.NewController" "start transport" (Some (join_if ErrorJoin closeR startErr)))
    end
  else Ok c.

End Bus.
