(* ===== verification/BusProofs.v ===== *)
(** * The content bus under concurrency

    Any number of publications (local ones and those that arrive from peers),
    subscriptions, readers and a [Close], interleaved as the two locks of the
    controller allow: a publication sends to one channel after the other, holding
    both locks for reading; a subscription and the closing of the channels are
    critical sections of their own.  No interleaving sends on a closed channel,
    and every subscriber gets the events of its topic in order. *)

From S2P Require Import Prelude Crypto Float64 PeerName Peer PeerPersist Identity Ueps KeyDeriv.
From S2P Require Import Controller Protocol Session Duration Limits Transport Bundle Payloads ContentBus.

(** ** The system *)

(** Where a publication is: before its read locks, sending ([done] has been
    served, [todo] not yet), broadcasting with [mu] held, over. *)
Inductive pub : Type :=
| PStart (ev : Event)
| PDeliver (ev : Event) (done todo : list positive)
| PBroadcast (ev : Event) (chs : list positive)
| PDone (ev : Event) (chs : list positive).

(** The history is kept beside the state: the topic each channel was made for,
    what its reader got, and the sends that were tried, by publication, with
    their outcome. *)
Record bsys : Type := mkSys {
  core : Topics;
  pubs : list pub;
  made_for : gmap positive string;
  got : gmap positive (list Event);
  offers : list (nat * positive * Event * bool);
  bus_crashed : option panic
}.

Definition sending (p : pub) : bool := match p with PDeliver _ _ _ => true | _ => false end.
Definition reading (p : pub) : bool := match p with PDeliver _ _ _ | PBroadcast _ _ => true | _ => false end.

Definition with_pub k p (s : bsys) : bsys :=
  mkSys (core s) (<[k := p]> (pubs s)) (made_for s) (got s) (offers s) (bus_crashed s).

Inductive bstep : bsys -> bsys -> Prop :=
| b_call ev s :
    bus_crashed s = None ->
    bstep s (mkSys (core s) (pubs s ++ [PStart ev]) (made_for s) (got s) (offers s) None)
| b_subscribe topic ch b s :
    bus_crashed s = None -> bus_closed (core s) = false -> Forall (fun p => sending p = false) (pubs s) ->
    register topic (core s) = (Ok ch, b) ->
    bstep s (mkSys b (pubs s) (<[ch := topic]> (made_for s)) (got s) (offers s) None)
| b_refuse k ev s :
    bus_crashed s = None -> pubs s !! k = Some (PStart ev) -> bus_closed (core s) = true ->
    bstep s (with_pub k (PDone ev []) s)
| b_begin k ev chs s :
    bus_crashed s = None -> pubs s !! k = Some (PStart ev) -> bus_closed (core s) = false ->
    chs ≡ₚ (map_to_list (topic_subs (ev_Topic ev) (core s))).*2 ->
    bstep s (with_pub k (PDeliver ev [] chs) s)
| b_offer k ev dn ch todo r b s :
    bus_crashed s = None -> pubs s !! k = Some (PDeliver ev dn (ch :: todo)) ->
    offer ch (cloneEvent ev) (core s) = (Ok r, b) ->
    bstep s (mkSys b (<[k := PDeliver ev (dn ++ [ch]) todo]> (pubs s)) (made_for s) (got s)
               (offers s ++ [(k, ch, ev, r)]) None)
| b_offer_panic k ev dn ch todo p b s :
    bus_crashed s = None -> pubs s !! k = Some (PDeliver ev dn (ch :: todo)) ->
    offer ch (cloneEvent ev) (core s) = (Panic p, b) ->
    bstep s (mkSys b (pubs s) (made_for s) (got s) (offers s) (Some p))
| b_sent k ev dn s :
    bus_crashed s = None -> pubs s !! k = Some (PDeliver ev dn []) -> bstep s (with_pub k (PBroadcast ev dn) s)
| b_over k ev chs s :
    bus_crashed s = None -> pubs s !! k = Some (PBroadcast ev chs) -> bstep s (with_pub k (PDone ev chs) s)
| b_close chs r b s :
    bus_crashed s = None -> bus_closed (core s) = false -> Forall (fun p => reading p = false) (pubs s) ->
    chs ≡ₚ all_channels (core s) -> close_topics chs (core s) = (r, b) ->
    bstep s (mkSys b (pubs s) (made_for s) (got s) (offers s) (match r with Panic p => Some p | _ => None end))
| b_receive ch ev b s :
    bus_crashed s = None -> receive_event ch (core s) = (Some (Some ev), b) ->
    bstep s (mkSys b (pubs s) (made_for s) (<[ch := default [] (got s !! ch) ++ [ev]]> (got s)) (offers s) None).

(** A new controller with buffers of [size]. *)
Definition bus_init (size : Z) : bsys := mkSys (mkTopics ∅ 0 false ∅ size) [] ∅ ∅ [] None.

(** ** The invariant *)

(** The channel has an entry in the table. *)
Definition entry (b : Topics) (topic : string) (id : Z) (ch : positive) : Prop := topic_subs topic b !! id = Some ch.

(** The events a channel accepted, and the channels a publication has tried. *)
Definition accepted (ch : positive) (os : list (nat * positive * Event * bool)) : list Event :=
  omap (fun o => match o with (_, c, ev, r) => if decide (c = ch /\ r = true) then Some (cloneEvent ev) else None end) os.
Definition tried (k : nat) (os : list (nat * positive * Event * bool)) : list positive :=
  omap (fun o => match o with (j, c, _, _) => if decide (j = k) then Some c else None end) os.

Definition served (p : pub) : list positive :=
  match p with PStart _ => [] | PDeliver _ dn _ => dn | PBroadcast _ chs | PDone _ chs => chs end.

Record topics_ok (b : Topics) (made : gmap positive string) : Prop := {
  to_inj t1 i1 t2 i2 ch : entry b t1 i1 ch -> entry b t2 i2 ch -> t1 = t2 /\ i1 = i2;
  to_open t i ch : entry b t i ch -> bus_closed b = false /\ made !! ch = Some t /\
    exists c, channels b !! ch = Some c /\ ec_closed c = false;
  to_dom ch : is_Some (made !! ch) <-> is_Some (channels b !! ch);
  to_caps ch c : channels b !! ch = Some c -> len (ec_buf c) <= ec_cap c /\ ec_cap c = channelBuffer b;
  (** As long as the IDs have not wrapped around. *)
  to_ids : Z.of_nat (size (channels b)) <= 2 ^ 64 ->
    nextSubID b = u64 (Z.of_nat (size (channels b))) /\
    (forall t i ch, entry b t i ch -> 0 <= i < Z.of_nat (size (channels b))) /\
    forall ch c, channels b !! ch = Some c ->
      if bus_closed b then ec_closed c = true else exists t i, entry b t i ch
}.

Record binv (s : bsys) : Prop := {
  bi_crash : bus_crashed s = None;
  bi_topics : topics_ok (core s) (made_for s);
  bi_buffer : 0 <= channelBuffer (core s);
  bi_got ch c : channels (core s) !! ch = Some c -> default [] (got s !! ch) ++ ec_buf c = accepted ch (offers s);
  bi_fresh ch : channels (core s) !! ch = None -> got s !! ch = None;
  bi_reading k p : pubs s !! k = Some p -> reading p = true -> bus_closed (core s) = false;
  bi_sending k ev dn todo : pubs s !! k = Some (PDeliver ev dn todo) ->
    NoDup (dn ++ todo) /\ forall ch, ch ∈ dn ++ todo -> exists i, entry (core s) (ev_Topic ev) i ch;
  bi_tried k : tried k (offers s) = match pubs s !! k with Some p => served p | None => [] end;
  bi_nodup k p : pubs s !! k = Some p -> NoDup (served p);
  bi_topic k ch ev r : (k, ch, ev, r) ∈ offers s -> made_for s !! ch = Some (ev_Topic ev)
}.

(** ** Subscribing *)
Lemma entry_register topic ch b b' t i c :
  register topic b = (Ok ch, b') ->
  entry b' t i c <-> (t = topic /\ i = nextSubID b /\ c = ch) \/ (entry b t i c /\ ~ (t = topic /\ i = nextSubID b)).
Proof.
  unfold register, entry, topic_subs. cbv zeta. intros Hr. set (f := fresh _) in Hr. injection Hr as <- <-. cbn [subscribers]. clearbody f.
  destruct (decide (t = topic)) as [->|Hne].
  - rewrite lookup_insert_eq. change (default ∅ (Some ?m)) with m. rewrite lookup_insert. case_decide as Hi; naive_solver.
  - rewrite lookup_insert_ne by done. naive_solver.
Qed.

Lemma register_ok topic ch b b' made :
  topics_ok b made -> bus_closed b = false -> 0 <= channelBuffer b -> register topic b = (Ok ch, b') ->
  topics_ok b' (<[ch := topic]> made) /\ channels b !! ch = None /\
  channels b' = <[ch := mkEventChan [] (channelBuffer b) false]> (channels b) /\
  bus_closed b' = bus_closed b /\ channelBuffer b' = channelBuffer b.
Proof.
  intros [Hinj Hopen Hdom Hcaps Hids] Hcl Hbuf Hr. pose proof (fun t i c => entry_register topic ch b b' t i c Hr) as He.
  assert (Hfresh : channels b !! ch = None).
  { unfold register in Hr. injection Hr as <- _. apply not_elem_of_dom, is_fresh. }
  assert (Hb' : channels b' = <[ch := mkEventChan [] (channelBuffer b) false]> (channels b) /\
    bus_closed b' = bus_closed b /\ channelBuffer b' = channelBuffer b /\ nextSubID b' = u64 (nextSubID b + 1)).
  { unfold register in Hr. by injection Hr as <- <-. }
  destruct Hb' as (Hch & Hcl' & Hbuf' & Hnext). split_and!; try done.
  assert (Hold : forall t i c, entry b t i c -> c <> ch).
  { intros t i c Hc ->. destruct (Hopen t i ch Hc) as (_ & _ & c' & Hc' & _). congruence. }
  split.
  - intros t1 i1 t2 i2 c. rewrite !He. intros [(-> & -> & ->)|[H1' _]] [(-> & -> & Heq)|[H2' _]]; try done.
    + by destruct (Hold _ _ _ H2').
    + by destruct (Hold _ _ _ H1').
    + by eapply Hinj.
  - intros t i c. rewrite He, Hcl', Hch. intros [(-> & -> & ->)|[Hc _]].
    + rewrite !lookup_insert_eq. split_and!; try done. by eexists.
    + pose proof (Hold _ _ _ Hc). rewrite !lookup_insert_ne by done. by apply (Hopen t i c).
  - intros c. rewrite Hch. destruct (decide (c = ch)) as [->|Hne]; [rewrite !lookup_insert_eq; split; by eexists|].
    rewrite !lookup_insert_ne by done. apply Hdom.
  - intros c ec. rewrite Hch, Hbuf', lookup_insert. case_decide; [|apply Hcaps]. intros [= <-]. by split.
  - rewrite Hch, Hcl', Hcl, Hnext, map_size_insert_None by done. intros Hsz.
    destruct Hids as (Hid & Hlt & Hall); [lia|]. rewrite Hcl in Hall. set (n := Z.of_nat (size (channels b))) in *.
    assert (Hn : nextSubID b = n) by (rewrite Hid; apply uwrap_id; unfold in_u; lia).
    split_and!.
    + rewrite Hn. f_equal. lia.
    + intros t i c. rewrite He. intros [(_ & -> & _)|[Hc _]]; [lia|]. specialize (Hlt t i c Hc). lia.
    + intros c ec. rewrite lookup_insert. case_decide as Hc.
      * intros _. exists topic, (nextSubID b). rewrite He. left. by split_and!.
      * intros Hec. destruct (Hall c ec Hec) as (t & i & Hti). exists t, i. rewrite He. right. split; [done|].
        intros [_ ->]. specialize (Hlt t _ c Hti). lia.
Qed.

(** ** Channels *)

(** A change to the buffer of one channel. *)
Lemma topics_ok_buffer b made ch c buf :
  topics_ok b made -> channels b !! ch = Some c -> len buf <= ec_cap c ->
  topics_ok (set_channels (<[ch := mkEventChan buf (ec_cap c) (ec_closed c)]> (channels b)) b) made.
Proof.
  intros [Hinj Hopen Hdom Hcaps Hids] Hc Hlen. split; cbn [set_channels channels bus_closed nextSubID channelBuffer]; try done.
  - intros t i c' He. destruct (Hopen t i c' He) as (? & ? & x & Hx & Hcl). split_and!; try done.
    rewrite lookup_insert. case_decide as Heq; [|by exists x]. eexists. split; [done|]. cbn. subst. congruence.
  - intros c'. rewrite Hdom, lookup_insert. case_decide as Heq; [|done]. subst. rewrite Hc. split; by eexists.
  - intros c' x. rewrite lookup_insert. case_decide as Heq; [|apply Hcaps]. intros [= <-]. cbn. split; [done|]. by eapply Hcaps.
  - assert (Hsz : size (<[ch := mkEventChan buf (ec_cap c) (ec_closed c)]> (channels b)) = size (channels b)).
    { rewrite map_size_insert_Some; [done|]. by rewrite Hc. }
    rewrite Hsz. intros Hn. destruct (Hids Hn) as (Hid & Hlt & Hall). split_and!; try done.
    intros c' x. rewrite lookup_insert. case_decide as Heq; [|apply Hall]. intros [= <-]. subst. cbn [ec_closed].
    apply (Hall c' c Hc).
Qed.

Lemma close_loop_ok chs b :
  NoDup chs -> (forall ch, ch ∈ chs -> exists c, channels b !! ch = Some c /\ ec_closed c = false) ->
  exists b', close_loop chs b = (Ok tt, b') /\ subscribers b' = subscribers b /\ nextSubID b' = nextSubID b /\
    bus_closed b' = bus_closed b /\ channelBuffer b' = channelBuffer b /\
    forall ch, channels b' !! ch =
      (if decide (ch ∈ chs) then (fun c => mkEventChan (ec_buf c) (ec_cap c) true) <$> channels b !! ch else channels b !! ch).
Proof.
  revert b. induction chs as [|ch chs IH]; intros b Hnd Hopen.
  - exists b. split_and!; try done.
  - apply NoDup_cons in Hnd as [Hnin Hnd]. destruct (Hopen ch) as (c & Hc & Hcl); [by left|].
    cbn [close_loop]. unfold close_chan. cbv [mbind SR_bind]. rewrite Hc, Hcl.
    set (b1 := set_channels _ b). destruct (IH b1 Hnd) as (b' & Hrun & Hs & Hn & Hb & Hf & Hch).
    { intros ch' Hch'. destruct (Hopen ch') as (c' & Hc' & Hcl'); [by right|]. exists c'. split; [|done].
      cbn. rewrite lookup_insert_ne; [done|]. by intros ->. }
    exists b'. split_and!; try done. intros ch'. rewrite Hch. cbn [b1 set_channels channels].
    destruct (decide (ch' = ch)) as [->|Hne].
    + rewrite decide_False by done. rewrite (decide_True (P := ch ∈ ch :: chs)) by (by left). by rewrite lookup_insert_eq, Hc.
    + rewrite lookup_insert_ne by done. destruct (decide (ch' ∈ chs)).
      * rewrite decide_True by (by right). done.
      * rewrite decide_False; [done|]. by rewrite elem_of_cons; intros [|].
Qed.

Lemma all_channels_entry b ch : ch ∈ all_channels b <-> exists t i, entry b t i ch.
Proof.
  unfold all_channels, entry, topic_subs. rewrite list_elem_of_bind. split.
  - intros ((t & m) & Hch & Hm). apply elem_of_map_to_list in Hm. apply list_elem_of_fmap in Hch as ((i & c) & -> & Hi).
    apply elem_of_map_to_list in Hi. exists t, i. by rewrite Hm.
  - intros (t & i & He). destruct (subscribers b !! t) as [m|] eqn:Hm; [|done].
    exists (t, m). split; [|by apply elem_of_map_to_list]. apply list_elem_of_fmap. exists (i, ch). split; [done|].
    by apply elem_of_map_to_list.
Qed.

Lemma all_channels_NoDup b made : topics_ok b made -> NoDup (all_channels b).
Proof.
  intros [Hinj _ _ _ _]. assert (Hm : forall t m i ch, (t, m) ∈ map_to_list (subscribers b) -> m !! i = Some ch -> entry b t i ch).
  { intros t m i ch Htm Hi. apply elem_of_map_to_list in Htm. unfold entry, topic_subs. by rewrite Htm. }
  apply NoDup_bind; [| |apply NoDup_map_to_list].
  - intros [t1 m1] [t2 m2] ch Ht1 Ht2 Hc1 Hc2.
    apply list_elem_of_fmap in Hc1 as ((i1 & c1) & -> & Hi1). apply list_elem_of_fmap in Hc2 as ((i2 & c2) & Heq & Hi2).
    cbn in Heq. subst c2. apply elem_of_map_to_list in Hi1, Hi2. cbn [snd] in *.
    destruct (Hinj t1 i1 t2 i2 c1) as [-> _]; [by eapply Hm|by eapply Hm|].
    apply elem_of_map_to_list in Ht1, Ht2. congruence.
  - intros [t m] Ht. apply NoDup_fmap_2_strong; [|apply NoDup_map_to_list].
    intros [i1 c1] [i2 c2] Hi1 Hi2 Heq. cbn in Heq. subst c2. apply elem_of_map_to_list in Hi1, Hi2. cbn [snd] in *.
    destruct (Hinj t i1 t i2 c1) as [_ ->]; [by eapply Hm|by eapply Hm|done].
Qed.

Lemma close_topics_ok chs b made :
  topics_ok b made -> chs ≡ₚ all_channels b ->
  exists b', close_topics chs b = (Ok tt, b') /\ topics_ok b' made /\ bus_closed b' = true /\ channelBuffer b' = channelBuffer b /\
    forall ch, ec_buf <$> channels b' !! ch = ec_buf <$> channels b !! ch.
Proof.
  intros Hok Hchs. pose proof (all_channels_NoDup b made Hok) as Hnd. destruct Hok as [Hinj Hopen Hdom Hcaps Hids].
  set (b0 := mkTopics (subscribers b) (nextSubID b) true (channels b) (channelBuffer b)).
  destruct (close_loop_ok chs b0) as (b1 & Hrun & Hs & Hn & Hb & Hf & Hch).
  { by rewrite Hchs. }
  { intros ch Hin. rewrite Hchs, all_channels_entry in Hin. destruct Hin as (t & i & He). by apply (Hopen t i ch He). }
  assert (Hin : forall ch, ch ∈ chs <-> exists t i, entry b t i ch) by (intros; by rewrite Hchs, all_channels_entry).
  unfold close_topics. erewrite SR_bind_Ok; [|reflexivity]. fold b0. sr_step Hrun.
  eexists. split; [reflexivity|]. cbn [bus_closed channels channelBuffer]. rewrite Hf. cbn [b0 channels bus_closed channelBuffer nextSubID] in *.
  assert (Hdom1 : dom (channels b1) = dom (channels b)).
  { apply set_eq. intros ch. rewrite !elem_of_dom, Hch. case_decide; [|done]. by rewrite fmap_is_Some. }
  assert (Hsz : size (channels b1) = size (channels b)) by (rewrite <- !size_dom; by rewrite Hdom1).
  split_and!; try done.
  - split; cbn [subscribers channels bus_closed nextSubID channelBuffer]; try done.
    + intros ch. rewrite Hdom, <- !elem_of_dom. by rewrite Hdom1.
    + intros ch c. rewrite Hch. case_decide; [|apply Hcaps]. intros (c0 & Hc0 & ->)%fmap_Some. cbn. by eapply Hcaps.
    + rewrite Hsz, Hn, Hb. intros Hle. destruct (Hids Hle) as (Hid & _ & Hall). split_and!; try done.
      intros ch c. rewrite Hch. case_decide as Hd.
      * intros (c0 & Hc0 & ->)%fmap_Some. done.
      * intros Hc. specialize (Hall ch c Hc). destruct (bus_closed b); [done|]. by apply Hin in Hall.
  - intros ch. rewrite Hch. case_decide; [|done]. by destruct (channels b !! ch).
Qed.

(** ** Preservation *)
Lemma accepted_snoc ch os k c ev r :
  accepted ch (os ++ [(k, c, ev, r)]) = accepted ch os ++ (if decide (c = ch /\ r = true) then [cloneEvent ev] else []).
Proof. unfold accepted. rewrite omap_app. f_equal. cbn. by case_decide. Qed.
Lemma tried_snoc k os j c ev r :
  tried k (os ++ [(j, c, ev, r)]) = tried k os ++ (if decide (j = k) then [c] else []).
Proof. unfold tried. rewrite omap_app. f_equal. cbn. by case_decide. Qed.
Lemma accepted_none ch os : (forall k ev r, (k, ch, ev, r) ∉ os) -> accepted ch os = [].
Proof.
  induction os as [|[[[k c] ev] r] os IH]; intros Hn; [done|]. unfold accepted. cbn [omap list_omap].
  rewrite decide_False; [|intros [-> _]; apply (Hn k ev r); by left]. apply IH. intros k' ev' r' Hin. apply (Hn k' ev' r'). by right.
Qed.

(** A publication moves on. *)
Lemma binv_pub k p p' s :
  pubs s !! k = Some p -> served p' = served p -> (reading p' = true -> bus_closed (core s) = false) ->
  match p' with
  | PDeliver ev dn todo => NoDup (dn ++ todo) /\ forall ch, ch ∈ dn ++ todo -> exists i, entry (core s) (ev_Topic ev) i ch
  | _ => True
  end -> binv s -> binv (with_pub k p' s).
Proof.
  intros Hp Hserved Hread Hdel [Hcr Hto Hbuf Hgot Hfr Hrd Hsd Htr Hnd Htp]. pose proof (lookup_lt_Some _ _ _ Hp) as Hlt.
  split; cbn [with_pub core pubs made_for got offers bus_crashed]; try done.
  - intros j q Hj. destruct (decide (j = k)) as [->|Hne].
    + rewrite list_lookup_insert_eq in Hj by done. by injection Hj as <-.
    + rewrite list_lookup_insert_ne in Hj by done. by apply (Hrd j).
  - intros j ev dn todo Hj. destruct (decide (j = k)) as [->|Hne].
    + rewrite list_lookup_insert_eq in Hj by done. by injection Hj as ->.
    + rewrite list_lookup_insert_ne in Hj by done. by apply (Hsd j).
  - intros j. rewrite Htr. destruct (decide (j = k)) as [->|Hne].
    + by rewrite list_lookup_insert_eq, Hp by done.
    + by rewrite list_lookup_insert_ne by done.
  - intros j q Hj. destruct (decide (j = k)) as [->|Hne].
    + rewrite list_lookup_insert_eq in Hj by done. injection Hj as <-. rewrite Hserved. by eapply Hnd.
    + rewrite list_lookup_insert_ne in Hj by done. by apply (Hnd j).
Qed.

Lemma binv_call ev s :
  binv s -> binv (mkSys (core s) (pubs s ++ [PStart ev]) (made_for s) (got s) (offers s) None).
Proof.
  intros [Hcr Hto Hbuf Hgot Hfr Hrd Hsd Htr Hnd Htp]. split; cbn [core pubs made_for got offers bus_crashed]; try done.
  - intros k p [Hk|[_ Hk]]%lookup_app_Some; [by apply (Hrd k)|]. by apply list_lookup_singleton_Some in Hk as [_ <-].
  - intros k e dn todo [Hk|[_ Hk]]%lookup_app_Some; [by apply (Hsd k)|]. by apply list_lookup_singleton_Some in Hk as [_ ?].
  - intros k. rewrite Htr. destruct (pubs s !! k) as [p|] eqn:Hk; [by rewrite (lookup_app_l_Some _ _ _ _ Hk)|].
    rewrite lookup_app, Hk. by destruct (_ - _)%nat.
  - intros k p [Hk|[_ Hk]]%lookup_app_Some; [by apply (Hnd k)|]. apply list_lookup_singleton_Some in Hk as [_ <-]. constructor.
Qed.

Lemma binv_subscribe topic ch b s :
  bus_closed (core s) = false -> Forall (fun p => sending p = false) (pubs s) -> register topic (core s) = (Ok ch, b) ->
  binv s -> binv (mkSys b (pubs s) (<[ch := topic]> (made_for s)) (got s) (offers s) None).
Proof.
  intros Hcl Hall Hreg [Hcr Hto Hbuf Hgot Hfr Hrd Hsd Htr Hnd Htp].
  destruct (register_ok topic ch (core s) b (made_for s) Hto Hcl Hbuf Hreg) as (Hto' & Hnew & Hchs & Hcl' & Hbuf').
  assert (Hmade : made_for s !! ch = None).
  { apply eq_None_not_Some. intros Hs. apply (to_dom _ _ Hto) in Hs. rewrite Hnew in Hs. by destruct Hs. }
  split; cbn [core pubs made_for got offers bus_crashed]; try done.
  - by rewrite Hbuf'.
  - intros c x. rewrite Hchs, lookup_insert. case_decide as Hc; [|apply Hgot]. subst c. intros [= <-]. cbn [ec_buf].
    rewrite (Hfr ch Hnew). cbn. symmetry. apply accepted_none. intros k ev r Hin. rewrite (Htp k ch ev r Hin) in Hmade. done.
  - intros c. rewrite Hchs, lookup_insert. case_decide; [done|apply Hfr].
  - rewrite Hcl'. apply Hrd.
  - intros k ev dn todo Hk. rewrite Forall_lookup in Hall. by specialize (Hall k _ Hk).
  - intros k c ev r Hin. rewrite lookup_insert_ne; [by eapply Htp|]. intros ->. by rewrite (Htp k c ev r Hin) in Hmade.
Qed.

Lemma binv_offer k ev dn ch todo r b s :
  pubs s !! k = Some (PDeliver ev dn (ch :: todo)) -> offer ch (cloneEvent ev) (core s) = (Ok r, b) ->
  binv s -> binv (mkSys b (<[k := PDeliver ev (dn ++ [ch]) todo]> (pubs s)) (made_for s) (got s) (offers s ++ [(k, ch, ev, r)]) None).
Proof.
  intros Hk Hoff [Hcr Hto Hbuf Hgot Hfr Hrd Hsd Htr Hnd Htp]. pose proof (lookup_lt_Some _ _ _ Hk) as Hlt.
  destruct (Hsd k ev dn (ch :: todo) Hk) as [Hndup Hent].
  assert (Happ : (dn ++ [ch]) ++ todo = dn ++ ch :: todo) by (by rewrite <- app_assoc).
  destruct (Hent ch) as [i Hi]; [apply elem_of_app; right; by left|].
  destruct (to_open _ _ Hto _ _ _ Hi) as (Hcl & Hmade & c & Hc & Hopen).
  assert (Hb : topics_ok b (made_for s) /\ bus_closed b = bus_closed (core s) /\ channelBuffer b = channelBuffer (core s) /\
    subscribers b = subscribers (core s) /\
    (forall c', channels b !! c' = None <-> channels (core s) !! c' = None) /\
    forall c' x, channels b !! c' = Some x -> exists y, channels (core s) !! c' = Some y /\
      ec_buf x = ec_buf y ++ (if decide (ch = c' /\ r = true) then [cloneEvent ev] else [])).
  { unfold offer in Hoff. rewrite Hc, Hopen in Hoff. case_decide as Hcap; injection Hoff as <- <-.
    - split_and!; try done.
      + replace false with (ec_closed c). apply topics_ok_buffer; [done|done|]. rewrite len_app, len_cons, len_nil. lia.
      + intros c'. cbn [set_channels channels]. rewrite lookup_insert. case_decide as Heq; [|done]. subst. by rewrite Hc.
      + intros c' x. cbn [set_channels channels]. rewrite lookup_insert. case_decide as Heq.
        * intros [= <-]. subst. exists c. split; [done|]. by rewrite decide_True.
        * intros Hx. exists x. split; [done|]. rewrite decide_False by tauto. by rewrite app_nil_r.
    - split_and!; try done. intros c' x Hx. exists x. split; [done|]. rewrite decide_False by naive_solver. by rewrite app_nil_r. }
  destruct Hb as (Hto' & Hcl' & Hbuf' & Hsubs & Hdom & Hbufs).
  split; cbn [core pubs made_for got offers bus_crashed]; try done.
  - by rewrite Hbuf'.
  - intros c' x Hx. destruct (Hbufs c' x Hx) as (y & Hy & ->). rewrite accepted_snoc, app_assoc. f_equal. by apply Hgot.
  - intros c' Hx. apply Hfr. by apply Hdom.
  - rewrite Hcl'. intros j p Hj. destruct (decide (j = k)) as [->|Hne]; [done|].
    rewrite list_lookup_insert_ne in Hj by done. by apply (Hrd j).
  - intros j e d td Hj. unfold entry, topic_subs. rewrite Hsubs. destruct (decide (j = k)) as [->|Hne].
    + rewrite list_lookup_insert_eq in Hj by done. injection Hj as <- <- <-. rewrite Happ. done.
    + rewrite list_lookup_insert_ne in Hj by done. by apply (Hsd j).
  - intros j. rewrite tried_snoc, Htr. destruct (decide (k = j)) as [<-|Hne].
    + by rewrite list_lookup_insert_eq, Hk.
    + rewrite list_lookup_insert_ne by done. by rewrite app_nil_r.
  - intros j p Hj. destruct (decide (j = k)) as [->|Hne].
    + rewrite list_lookup_insert_eq in Hj by done. injection Hj as <-. cbn [served].
      rewrite <- Happ in Hndup. by apply NoDup_app in Hndup as [? _].
    + rewrite list_lookup_insert_ne in Hj by done. by apply (Hnd j).
  - intros j c' e r' [Hin|Hin]%elem_of_app; [by eapply Htp|]. apply list_elem_of_singleton in Hin. by injection Hin as -> -> -> ->.
Qed.

Lemma offer_safe k ev dn ch todo p b s :
  pubs s !! k = Some (PDeliver ev dn (ch :: todo)) -> binv s -> offer ch (cloneEvent ev) (core s) <> (Panic p, b).
Proof.
  intros Hk [_ Hto _ _ _ _ Hsd _ _ _] Hoff. destruct (Hsd k ev dn (ch :: todo) Hk) as [_ Hent].
  destruct (Hent ch) as [i Hi]; [apply elem_of_app; right; by left|].
  destruct (to_open _ _ Hto _ _ _ Hi) as (_ & _ & c & Hc & Hopen). unfold offer in Hoff. rewrite Hc, Hopen in Hoff. by case_decide.
Qed.

Lemma binv_close chs r b s :
  Forall (fun p => reading p = false) (pubs s) -> chs ≡ₚ all_channels (core s) ->
  close_topics chs (core s) = (r, b) -> binv s ->
  binv (mkSys b (pubs s) (made_for s) (got s) (offers s) (match r with Panic p => Some p | _ => None end)).
Proof.
  intros Hall Hchs Hrun [Hcr Hto Hbuf Hgot Hfr Hrd Hsd Htr Hnd Htp]. rewrite Forall_lookup in Hall.
  destruct (close_topics_ok chs (core s) (made_for s) Hto Hchs) as (b' & Hrun' & Hto' & Hcl' & Hbuf' & Hbufs).
  rewrite Hrun in Hrun'. injection Hrun' as -> ->.
  split; cbn [core pubs made_for got offers bus_crashed]; try done.
  - by rewrite Hbuf'.
  - intros ch c Hc. specialize (Hbufs ch). rewrite Hc in Hbufs. destruct (channels (core s) !! ch) as [c0|] eqn:Hc0; [|done].
    injection Hbufs as ->. by apply Hgot.
  - intros ch Hc. apply Hfr. specialize (Hbufs ch). rewrite Hc in Hbufs. by destruct (channels (core s) !! ch).
  - intros k p Hk Hread. by rewrite (Hall k p Hk) in Hread.
  - intros k ev dn todo Hk. by specialize (Hall k _ Hk).
Qed.

Lemma binv_receive ch ev b s :
  receive_event ch (core s) = (Some (Some ev), b) -> binv s ->
  binv (mkSys b (pubs s) (made_for s) (<[ch := default [] (got s !! ch) ++ [ev]]> (got s)) (offers s) None).
Proof.
  intros Hrec [Hcr Hto Hbuf Hgot Hfr Hrd Hsd Htr Hnd Htp]. unfold receive_event in Hrec.
  destruct (channels (core s) !! ch) as [c|] eqn:Hc; [|done]. destruct (ec_buf c) as [|e rest] eqn:Hb; [by destruct (ec_closed c)|].
  injection Hrec as -> <-. split; cbn [core pubs made_for got offers bus_crashed set_channels channels channelBuffer bus_closed]; try done.
  - apply topics_ok_buffer; [done|done|]. destruct (to_caps _ _ Hto ch c Hc) as [Hl _]. rewrite Hb, len_cons in Hl. lia.
  - intros ch' x. rewrite !lookup_insert. case_decide as Heq; [|apply Hgot]. intros [= <-]. subst ch'. cbn [ec_buf].
    change (default [] (Some ?l)) with l. rewrite <- (Hgot ch c Hc), Hb. by rewrite <- app_assoc.
  - intros ch'. rewrite !lookup_insert. case_decide; [done|apply Hfr].
Qed.

Lemma binv_step s s' : bstep s s' -> binv s -> binv s'.
Proof.
  destruct 1; intros Hinv.
  - by apply binv_call.
  - by eapply binv_subscribe.
  - apply (binv_pub k (PStart ev)); done.
  - apply (binv_pub k (PStart ev)); [done|done|done| |done]. cbn [app]. destruct Hinv as [_ [Hinj _ _ _ _] _ _ _ _ _ _ _ _].
    assert (Hent : forall ch, ch ∈ chs <-> exists i, entry (core s) (ev_Topic ev) i ch).
    { intros ch. match goal with Hp : chs ≡ₚ _ |- _ => rewrite Hp end. rewrite list_elem_of_fmap. unfold entry. split.
      - intros ([i c] & -> & Hi). apply elem_of_map_to_list in Hi. by exists i.
      - intros [i Hi]. exists (i, ch). split; [done|]. by apply elem_of_map_to_list. }
    split; [|intros ch Hch; by apply Hent]. match goal with Hp : chs ≡ₚ _ |- _ => rewrite Hp end.
    apply NoDup_fmap_2_strong; [|apply NoDup_map_to_list]. intros [i1 c1] [i2 c2] Hi1 Hi2 Heq. cbn in Heq. subst c2.
    apply elem_of_map_to_list in Hi1, Hi2. destruct (Hinj _ _ _ _ _ Hi1 Hi2) as [_ ->]. done.
  - by eapply binv_offer.
  - by edestruct offer_safe.
  - apply (binv_pub k (PDeliver ev dn [])); [done|done| |done|done]. intros _. by eapply (bi_reading s Hinv).
  - apply (binv_pub k (PBroadcast ev chs)); done.
  - by eapply binv_close.
  - by apply binv_receive.
Qed.

Lemma bus_init_inv size : 0 <= size -> binv (bus_init size).
Proof.
  intros Hsz. split; cbn [bus_init core pubs made_for got offers bus_crashed channels channelBuffer]; try done.
  2: { intros k ch ev r Hin. by apply elem_of_nil in Hin. }
  assert (Hno : forall t i ch, ~ entry (mkTopics ∅ 0 false ∅ size) t i ch).
  { intros t i ch. unfold entry, topic_subs. cbn [subscribers]. by rewrite lookup_empty. }
  split; cbn [channels bus_closed nextSubID subscribers].
  - by intros t1 i1 t2 i2 ch He%Hno.
  - by intros t i ch He%Hno.
  - intros ch. by rewrite !lookup_empty.
  - intros ch c. by rewrite lookup_empty.
  - intros _. split_and!; [done|by intros t i ch He%Hno|]. intros ch c. by rewrite lookup_empty.
Qed.

Lemma binv_reachable size s : 0 <= size -> rtc bstep (bus_init size) s -> binv s.
Proof.
  intros Hsz. refine (rtc_ind_r binv (bus_init size) _ _ s); [by apply bus_init_inv|]. intros. by eapply binv_step.
Qed.

(** The size of the buffers does not change. *)
Lemma channelBuffer_const size s : rtc bstep (bus_init size) s -> channelBuffer (core s) = size.
Proof.
  refine (rtc_ind_r (fun s => channelBuffer (core s) = size) (bus_init size) _ _ s); [done|].
  clear s. intros s s' _ Hst IH. rewrite <- IH. clear IH. destruct Hst as [| ? ? ? ? ? ? ? Hr| | | ? ? ? ? ? ? ? ? ? ? Ho| ? ? ? ? ? ? ? ? ? ? Ho| | | chs r b s _ _ _ _ Hc| ? ? ? ? ? Hr]; try done; cbn [core].
  - unfold register in Hr. by injection Hr as _ <-.
  - unfold offer in Ho. by repeat case_match; simplify_eq.
  - unfold offer in Ho. by repeat case_match; simplify_eq.
  - assert (Hl : forall l b, channelBuffer (snd (close_loop l b)) = channelBuffer b).
    { induction l as [|ch l IH]; intros b0; [done|]. cbn [close_loop]. unfold close_chan. cbv [mbind SR_bind].
      destruct (channels b0 !! ch) as [c|]; [|done]. destruct (ec_closed c); [done|]. by rewrite IH. }
    unfold close_topics in Hc. erewrite SR_bind_Ok in Hc; [|reflexivity]. specialize (Hl chs (mkTopics (subscribers (core s)) (nextSubID (core s)) true (channels (core s)) (channelBuffer (core s)))).
    cbv [mbind SR_bind modify] in Hc. destruct (close_loop chs _) as [[]]; by simplify_eq.
  - unfold receive_event in Hr. by repeat case_match; simplify_eq.
Qed.

(** ** Theorems *)

(** C21 (safety): in no interleaving of publications, subscriptions, readers and
    [Close] does the bus send on a closed channel or close a channel twice; a
    publication that holds its lock keeps the bus open; and after [Close] every
    channel that was ever handed out is closed (with fewer than 2^64 of them: the
    IDs are 64 bits wide). *)
Theorem bus_never_panics size s :
  0 <= size -> rtc bstep (bus_init size) s ->
  bus_crashed s = None /\
  (forall k p, pubs s !! k = Some p -> reading p = true -> bus_closed (core s) = false) /\
  (bus_closed (core s) = true -> Z.of_nat (base.size (channels (core s))) <= 2 ^ 64 ->
   forall ch c, channels (core s) !! ch = Some c -> ec_closed c = true).
Proof.
  intros Hsz Hr. destruct (binv_reachable size s Hsz Hr) as [Hcr Hto _ _ _ Hrd _ _ _ _]. split_and!; [done|done|].
  intros Hcl Hle ch c Hc. destruct (to_ids _ _ Hto Hle) as (_ & _ & Hall). specialize (Hall ch c Hc). by rewrite Hcl in Hall.
Qed.

(** C22 (functional): what the reader of a channel has got, followed by what is in
    its buffer, is the sequence of the events that were sent to it and accepted, in
    the order of the sends: none is lost, repeated or reordered once accepted.  All
    of them are of the topic the channel was made for, the buffer holds no more
    than its size, and a publication sends to a channel at most once. *)
Theorem bus_delivers_in_order size s ch c :
  0 <= size -> rtc bstep (bus_init size) s -> channels (core s) !! ch = Some c ->
  default [] (got s !! ch) ++ ec_buf c = accepted ch (offers s) /\
  (exists topic, made_for s !! ch = Some topic /\ Forall (fun ev => ev_Topic ev = topic) (accepted ch (offers s))) /\
  len (ec_buf c) <= size /\ (forall k, NoDup (tried k (offers s))).
Proof.
  intros Hsz Hr Hc. pose proof (channelBuffer_const size s Hr) as Hbuf.
  destruct (binv_reachable size s Hsz Hr) as [_ Hto _ Hgot _ _ _ Htr Hnd Htp]. split_and!.
  - by apply Hgot.
  - destruct (proj2 (to_dom _ _ Hto ch)) as [topic Ht]; [by eexists|]. exists topic. split; [done|].
    apply Forall_forall. intros ev Hev. unfold accepted in Hev. apply list_elem_of_omap in Hev as ([[[k c'] e] r] & Hin & Heq).
    case_decide as Hd; [|done]. injection Heq as <-. destruct Hd as [-> _]. specialize (Htp k ch e r Hin). cbn. congruence.
  - destruct (to_caps _ _ Hto ch c Hc). lia.
  - intros k. rewrite Htr. destruct (pubs s !! k) eqn:Hk; [by eapply Hnd|constructor].
Qed.

(** ** From bus to bus *)

(** A channel after one more event was offered. *)
Definition offered (ev : Event) (c : EventChan) : EventChan :=
  if decide (len (ec_buf c) < ec_cap c) then mkEventChan (ec_buf c ++ [cloneEvent ev]) (ec_cap c) (ec_closed c) else c.

Lemma offer_all_ok chs ev b :
  NoDup chs -> (forall ch, ch ∈ chs -> exists c, channels b !! ch = Some c /\ ec_closed c = false) ->
  exists b', offer_all chs ev b = (Ok tt, b') /\
    forall ch, channels b' !! ch = (if decide (ch ∈ chs) then offered ev <$> channels b !! ch else channels b !! ch).
Proof.
  revert b. induction chs as [|ch chs IH]; intros b Hnd Hopen.
  - exists b. split; [done|]. intros ch. by rewrite decide_False by (by apply not_elem_of_nil).
  - apply NoDup_cons in Hnd as [Hnin Hnd]. destruct (Hopen ch) as (c & Hc & Hcl); [by left|].
    assert (Hoff : exists r b1, offer ch (cloneEvent ev) b = (Ok r, b1) /\ channels b1 = <[ch := offered ev c]> (channels b)).
    { unfold offer, offered. rewrite Hc, Hcl. case_decide; eexists _, _; (split; [reflexivity|]); [done|]. by rewrite insert_id. }
    destruct Hoff as (r & b1 & Hoff & Hb1). cbn [offer_all]. sr_step Hoff.
    destruct (IH b1 Hnd) as (b' & Hrun & Hch).
    { intros ch' Hch'. destruct (Hopen ch') as (c' & Hc' & Hcl'); [by right|]. exists c'. split; [|done].
      rewrite Hb1, lookup_insert_ne; [done|]. by intros ->. }
    exists b'. split; [done|]. intros ch'. rewrite Hch, Hb1. destruct (decide (ch' = ch)) as [->|Hne].
    + rewrite decide_False by done. rewrite (decide_True (P := ch ∈ ch :: chs)) by (by left). by rewrite lookup_insert_eq, Hc.
    + rewrite lookup_insert_ne by done. destruct (decide (ch' ∈ chs)).
      * rewrite decide_True by (by right). done.
      * rewrite decide_False; [done|]. by rewrite elem_of_cons; intros [|].
Qed.

Section Travel.
Context {W : Type} `{WebSocket W}.
Context `{KDLib} `{JSON} {FS : Type} `{FileSystem FS} `{KeyLib} `{JL : MsgJSONLaws} `{AL : AEADLaws} `{HandshakeJSON}.
Context `{Codec wireEvent} `{!CodecLaws wireEvent} `{IdentityJSON} `{!ModeFS FS}.

Lemma cloneBytes_id p : cloneBytes p = p.
Proof. by destruct p. Qed.

(** C23 (functional): the message that publishing an event makes, sealed for a
    session and opened by the node at its other end, puts the same topic and
    payload, with the ID of the publisher, into the buffer of every subscriber of
    the topic there that has room, once; other channels are left alone. *)
Theorem published_event_arrives ed25519_verify s d i id topic payload now range msg msg' made (c : BusController (W := W) (FS := FS)) :
  event_message i id topic (cloneBytes payload) = Ok msg -> topic <> EmptyString -> codec_ok (mkWireEvent topic payload) ->
  sealed s msg d -> decryptMessage ed25519_verify d s = Ok msg' -> clock i <> 0 -> bus_closed (topics c) = false -> topics_ok (topics c) made ->
  (forall m, range m ≡ₚ (map_to_list m).*2) ->
  exists c', bus_handleMessage now range msg' c = (Ok tt, c') /\ bus_transport c' = bus_transport c /\
    forall ch, channels (topics c') !! ch =
      (if decide (ch ∈ range (topic_subs topic (topics c)))
       then offered (mkEvent topic payload (ni_ID id) (clock i)) <$> channels (topics c) !! ch
       else channels (topics c) !! ch).
Proof.
  intros Hmsg Hne Hok Hsealed Hopen Hclk Hcl Hto Hrange. pose proof (sealed_opens ed25519_verify s msg d msg' Hsealed Hopen) as Hsame.
  clear Hsealed Hopen d. rewrite cloneBytes_id in Hmsg. unfold event_message, NewMessage, payload_json in Hmsg.
  destruct (enc_ok _ Hok) as [d Hd]. rewrite Hd in Hmsg. injection Hmsg as <-.
  destruct Hsame as (_ & Hty & Hfrom & _ & Hts & _ & Hpl). cbn [m_Type m_From m_Timestamp m_Payload] in *.
  destruct (m_Payload msg') as [d'|] eqn:Hp'; [|done]. destruct Hpl as (a & Ha & Ha').
  unfold bus_handleMessage, ParsePayload. rewrite Hty, Hp', (dec_value _ d d' a Hok Hd Ha Ha'). rewrite decide_False by tauto.
  cbn [we_Topic we_Payload]. rewrite decide_False by done. rewrite Hcl, Hts, decide_False by done. rewrite cloneBytes_id, Hfrom.
  set (chs := range (topic_subs topic (topics c))). set (ev := mkEvent topic payload (ni_ID id) (clock i)).
  assert (Hent : forall ch, ch ∈ chs -> exists k, entry (topics c) topic k ch).
  { intros ch Hch. unfold chs in Hch. rewrite Hrange, list_elem_of_fmap in Hch. destruct Hch as ([k c'] & -> & Hk).
    apply elem_of_map_to_list in Hk. by exists k. }
  destruct (offer_all_ok chs ev (topics c)) as (b' & Hrun & Hch).
  - unfold chs. rewrite Hrange. apply NoDup_fmap_2_strong; [|apply NoDup_map_to_list].
    intros [i1 c1] [i2 c2] Hi1 Hi2 Heq. cbn in Heq. subst c2. apply elem_of_map_to_list in Hi1, Hi2.
    by destruct (to_inj _ _ Hto _ _ _ _ _ Hi1 Hi2) as [_ ->].
  - intros ch Hin. destruct (Hent ch Hin) as [k Hk]. by apply (to_open _ _ Hto _ _ _ Hk).
  - unfold on_topics, deliver. change (ev_Topic ev) with topic. fold chs. rewrite Hrun. eexists. split; [reflexivity|]. by split.
Qed.
End Travel.
