(* ===== verification/Api.v ===== *)
(** * The HTTP API (src/go/pkg/api/handlers.go, provider.go)

    Each handler as a function from the request (its parameter, and its body as
    the binding decoded it) to the response, on the registry and the transport.
    The routing and the encoding of responses are the web framework's. *)

From S2P Require Import Prelude Float64 PeerName Peer PeerProofs Identity Crypto Ueps KeyDeriv.
From S2P Require Import Controller Protocol Session Duration Limits Transport Bundle.

Definition StatusOK : Z := 200.
Definition StatusBadRequest : Z := 400.
Definition StatusNotImplemented : Z := 501.
Definition StatusServiceUnavailable : Z := 503.

Definition codeInvalidRequest : string := "invalid_request".
Definition codeInvalidTopic : string := "invalid_topic".
Definition codeProviderUnconfigured : string := "provider_unconfigured".
Definition codePeerMismatch : string := "peer_id_mismatch".
Definition codePeerRejected : string := "peer_rejected".
Definition codeNotImplemented : string := "not_implemented".

Record uploadRequest : Type := mkUpload { up_Topic : string; up_EncryptedBlob : string }.
Record healthResponse : Type := mkHealth {
  h_OK : bool;
  h_PeerCount : Z;
  h_ConnectedPeers : Z;
  h_SwarmState : string;
  h_Error : string;
  h_Code : string
}.
Record peersResponse : Type := mkPeersResponse { pr_Count : Z; pr_Peers : list Peer }.
(** [Peer] is the pointer to the announced object. *)
Record announceResponse : Type := mkAnnounce { an_OK : bool; an_Action : string; an_Peer : positive }.

(** [c.JSON(status, ...)]; an object ([gin.H]) is a map. *)
Inductive body : Type :=
| BHealth (r : healthResponse)
| BPeers (r : peersResponse)
| BAnnounce (r : announceResponse)
| BObject (fields : gmap string string).
Record http : Type := mkHttp { status : Z; content : body }.

Definition writeError (st : Z) (code message : string) : http :=
  mkHttp st (BObject {["error" := message; "code" := code]}%string).
(** Later fields replace earlier ones. *)
Definition writeNotImplemented (operation todo : string) (fields : list (gmap string string)) : http :=
  mkHttp StatusNotImplemented
    (BObject (fold_left (fun b f => f ∪ b) fields
       {["error" := "not implemented"; "code" := codeNotImplemented; "operation" := operation; "todo" := todo]}%string)).

Definition swarmState (peerCount connectedPeers : Z) : string :=
  if decide (peerCount = 0) then "empty"
  else if decide (connectedPeers > 0) then "connected"
  else "idle".

Section Api.
Context `{CoreText} `{KDLib} `{JSON} {FS : Type} `{FileSystem FS}.

(** [err.Error()]. *)
Context (Error : error -> string).

Definition uploadEncryptedBlob (req : error + uploadRequest) : http :=
  match req with
  | inl _ => writeError StatusBadRequest codeInvalidRequest "upload request body must be valid JSON"
  | inr req =>
      if decide (Trim (up_EncryptedBlob req) = EmptyString) then
        writeError StatusBadRequest codeInvalidRequest "encryptedBlob is required"
      else writeNotImplemented "upload" "go-p2p library work: encrypted swarm blob upload primitive" []
  end.

Definition syncTopicEvents (topic : string) : http :=
  let topic := Trim topic in
  if decide (topic = EmptyString) then writeError StatusBadRequest codeInvalidTopic "topic is required"
  else writeNotImplemented "sync" "go-p2p library work: topic event sync primitive" [{["topic"%string := topic]}].

(** The announced peer before it is handed to the registry. *)
Definition set_ID id (p : Peer) : Peer :=
  mkPeer id (Name p) (PublicKey p) (Address p) (Role p) (AddedAt p) (LastSeen p) (Latitude p) (Longitude p)
    (PingMS p) (Hops p) (GeoKM p) (Score p) (Connected p).
Definition announced (now : Time) (id : string) (peer : Peer) : Peer :=
  let peer := set_ID id peer in
  if IsZero (LastSeen peer) then set_LastSeen now peer else peer.
Definition updated (existing peer : Peer) : Peer :=
  let peer := if IsZero (AddedAt peer) then set_AddedAt (AddedAt existing) peer else peer in
  if feq (Score peer) (float_of_int 0) then set_Score (Score existing) peer else peer.

(** A new object with the peer. *)
Definition alloc (p : Peer) : SR (World FS) positive := fun w =>
  let l := fresh (dom (heap w)) in (Ok l, on_heap <[l := p]> w).

(** The registry's answer as a response. *)
Definition registered (action : string) (l : positive) (m : SR (World FS) unit) : SR (World FS) http :=
  on_result m (fun _ => mret (mkHttp StatusOK (BAnnounce (mkAnnounce true action l))))
    (fun err => mret (writeError StatusBadRequest codePeerRejected (Error err))).

Definition announcePeer (ch : Choice) (configured : bool) (param : string) (req : error + Peer) : SR (World FS) http := fun w =>
  if negb configured then
    (Ok (writeError StatusServiceUnavailable codeProviderUnconfigured "peer registry is not configured"), w)
  else
    let id := Trim param in
    if decide (id = EmptyString) then (Ok (writeError StatusBadRequest codeInvalidRequest "peer id is required"), w)
    else
      match req with
      | inl _ => (Ok (writeError StatusBadRequest codeInvalidRequest "peer announcement body must be valid JSON"), w)
      | inr peer =>
          if decide (ID peer <> EmptyString /\ ID peer <> id) then
            (Ok (writeError StatusBadRequest codePeerMismatch "peer id in path and body must match"), w)
          else
            let peer := announced (now ch) id peer in
            match GetPeer id w with
            | Some existing => (l ← alloc (updated existing peer); registered "updated" l (UpdatePeer ch (Some l))) w
            | None => (l ← alloc peer; registered "announced" l (AddPeer ch (Some l))) w
            end
      end.

(** The registry, if there is one, and the number of the transport's connections,
    if there is a transport. *)
Definition health (ch : Choice) (registry : option (World FS)) (connections : option Z) : http :=
  match registry with
  | None =>
      mkHttp StatusServiceUnavailable
        (BHealth (mkHealth false 0 0 "unconfigured" "peer registry is not configured" codeProviderUnconfigured))
  | Some w =>
      let peerCount := Count w in
      let connectedPeers := default (len (GetConnectedPeers ch w)) connections in
      mkHttp StatusOK (BHealth (mkHealth true peerCount connectedPeers (swarmState peerCount connectedPeers) "" ""))
  end.

Definition listPeers (ch : Choice) (registry : option (World FS)) : http :=
  match registry with
  | None => writeError StatusServiceUnavailable codeProviderUnconfigured "peer registry is not configured"
  | Some w => mkHttp StatusOK (BPeers (mkPeersResponse (len (ListPeers ch w)) (ListPeers ch w)))
  end.

(** ** Theorems *)
Implicit Types (w : World FS) (ch : Choice).

Lemma alloc_abs p w l w1 : keyed w -> alloc p w = (Ok l, w1) -> keyed w1 /\ abs w1 = abs w /\ heap w1 !! l = Some p.
Proof.
  intros Hk [= <- <-]. assert (Hfr : fresh (dom (heap w)) ∉ dom (heap w)) by apply is_fresh.
  set (l := fresh (dom (heap w))) in *. apply not_elem_of_dom in Hfr.
  assert (Hne : forall id k, peers (reg w) !! id = Some k -> k <> l).
  { intros id k Hid ->. destruct (Hk id l Hid) as (p0 & Hp0 & _). congruence. }
  split_and!.
  - intros id k Hid. cbn [reg on_heap] in Hid. destruct (Hk id k Hid) as (p0 & Hp0 & Hid0). exists p0. split; [|done].
    cbn [heap on_heap]. by rewrite lookup_insert_ne by (by apply not_eq_sym, (Hne id)).
  - unfold abs. f_equal. apply map_eq. intros id. unfold abs_peers. cbn [reg heap on_heap]. rewrite !lookup_omap.
    destruct (peers (reg w) !! id) as [k|] eqn:Hid; [|done]. cbn. apply lookup_insert_ne, not_eq_sym. by apply (Hne id).
  - cbn [heap on_heap]. by rewrite lookup_insert_eq.
Qed.

Lemma announce_spec ch param peer w :
  keyed w -> Trim param <> EmptyString -> (ID peer = EmptyString \/ ID peer = Trim param) ->
  let id := Trim param in
  let p := announced (now ch) id peer in
  exists resp w', announcePeer ch true param (inr peer) w = (Ok resp, w') /\ keyed w' /\
    match GetPeer id w with
    | Some existing =>
        (exists l, resp = mkHttp StatusOK (BAnnounce (mkAnnounce true "updated" l))) /\
        abs w' = with_peers <[id := updated existing p]> (abs w)
    | None =>
        match validatePeerName (Name peer) with
        | Ok _ =>
            (exists l, resp = mkHttp StatusOK (BAnnounce (mkAnnounce true "announced" l))) /\
            abs w' = with_peers <[id := with_defaults (now ch) p]> (abs w)
        | Fail err => resp = writeError StatusBadRequest codePeerRejected (Error err) /\ abs w' = abs w
        | _ => False
        end
    end.
Proof.
  intros Hk Hne Hid id p. unfold announcePeer. cbn [negb]. rewrite decide_False by done. rewrite decide_False by (fold id; tauto).
  fold id. fold p. assert (Hpid : ID p = id) by (unfold p, announced; by case_match).
  assert (Hpname : Name p = Name peer) by (unfold p, announced; by case_match).
  destruct (GetPeer id w) as [existing|] eqn:Hg.
  - assert (Huid : ID (updated existing p) = id) by (unfold updated; repeat case_match; done).
    destruct (alloc (updated existing p) w) as [rl w1] eqn:Ha. pose proof Ha as Ha'. injection Ha' as <- _.
    set (l := fresh (dom (heap w))) in *. destruct (alloc_abs _ w l w1 Hk Ha) as (Hk1 & Habs & Hl). sr_step Ha.
    pose proof (keyed_op (OpUpdate ch l) w1 Hk1) as Hk2. cbn [run_op] in Hk2.
    destruct (refine_update ch l w1 Hk1) as (r & w2 & Hrun & Hspec). unfold registered, on_result. rewrite Hrun in *.
    cbn [spec_op] in Hspec. rewrite Hl, Huid, Habs in Hspec. rewrite decide_True in Hspec by (cbn [abs s_peers]; rewrite abs_lookup; by eexists).
    apply pair_equal_spec in Hspec as [<- Hs]. eexists _, w2. split_and!; [reflexivity|done|by exists l|done].
  - destruct (alloc p w) as [rl w1] eqn:Ha. pose proof Ha as Ha'. injection Ha' as <- _.
    set (l := fresh (dom (heap w))) in *. destruct (alloc_abs _ w l w1 Hk Ha) as (Hk1 & Habs & Hl). sr_step Ha.
    pose proof (keyed_op (OpAdd ch l) w1 Hk1) as Hk2. cbn [run_op] in Hk2.
    destruct (refine_add ch l w1 Hk1) as (r & w2 & Hrun & Hspec). unfold registered, on_result. rewrite Hrun in *.
    cbn [spec_op] in Hspec. rewrite Hl, Hpid, Hpname, Habs in Hspec. rewrite decide_False in Hspec by done.
    destruct (validatePeerName_rule (Name peer)) as [_ Hv].
    destruct (validatePeerName (Name peer)) as [[]|e|q|]; [| |by destruct Hv as [|[? ?]]..].
    + rewrite decide_False in Hspec by (cbn [abs s_peers]; rewrite abs_lookup, Hg; apply is_Some_None).
      apply pair_equal_spec in Hspec as [<- Hs]. eexists _, w2. split_and!; [reflexivity|done|by exists l|done].
    + apply pair_equal_spec in Hspec as [<- Hs]. eexists _, w2. by split_and!.
Qed.

(** The announcement as a record, with the ID, the two times and the score given. *)
Definition record_of (peer : Peer) (id : string) (added seen : Time) (score : float64) : Peer :=
  mkPeer id (Name peer) (PublicKey peer) (Address peer) (Role peer) added seen (Latitude peer) (Longitude peer)
    (PingMS peer) (Hops peer) (GeoKM peer) score (Connected peer).

Lemma record_fields added score t id peer :
  (let p := announced t id peer in
   let p := if IsZero (AddedAt p) then set_AddedAt added p else p in
   if feq (Score p) (float_of_int 0) then set_Score score p else p) =
  record_of peer id (if decide (AddedAt peer = 0) then added else AddedAt peer)
    (if decide (LastSeen peer = 0) then t else LastSeen peer)
    (if feq (Score peer) (float_of_int 0) then score else Score peer).
Proof.
  assert (Hz : forall x : Time, IsZero x = if decide (x = 0) then true else false)
    by (intros x; unfold IsZero; by case_bool_decide; case_decide).
  unfold announced, record_of. cbv zeta. rewrite !Hz. cbn [LastSeen set_ID].
  destruct (decide (LastSeen peer = 0)); cbn [AddedAt set_ID set_LastSeen];
    destruct (decide (AddedAt peer = 0)); cbn [Score set_ID set_LastSeen set_AddedAt];
    by destruct (feq (Score peer) (float_of_int 0)).
Qed.
Lemma updated_record existing t id peer :
  updated existing (announced t id peer) =
  record_of peer id (if decide (AddedAt peer = 0) then AddedAt existing else AddedAt peer)
    (if decide (LastSeen peer = 0) then t else LastSeen peer)
    (if feq (Score peer) (float_of_int 0) then Score existing else Score peer).
Proof. apply record_fields. Qed.
Lemma defaults_record t id peer :
  with_defaults t (announced t id peer) =
  record_of peer id (if decide (AddedAt peer = 0) then t else AddedAt peer)
    (if decide (LastSeen peer = 0) then t else LastSeen peer)
    (if feq (Score peer) (float_of_int 0) then float_of_int 50 else Score peer).
Proof. apply record_fields. Qed.

(** C37 (functional): announcing a peer under an ID that names it is answered with
    200 and stores the announcement under that ID: for a known peer in the place of
    its record, keeping the time it was added and its score when the announcement
    has none; for a new peer whose name is valid with the present time and the score
    50 when it has none; the time it was last seen is the present one when the
    announcement has none.  A new peer whose name is not valid is refused with 400
    and the reason.  The other peers, the allowed keys and the mode of the registry
    are never changed. *)
Theorem announce_registers ch param peer w :
  keyed w -> Trim param <> EmptyString -> (ID peer = EmptyString \/ ID peer = Trim param) ->
  let id := Trim param in
  let seen := if decide (LastSeen peer = 0) then now ch else LastSeen peer in
  let stored added score :=
    record_of peer id (if decide (AddedAt peer = 0) then added else AddedAt peer) seen
      (if feq (Score peer) (float_of_int 0) then score else Score peer) in
  exists resp w', announcePeer ch true param (inr peer) w = (Ok resp, w') /\ keyed w' /\
    match GetPeer id w with
    | Some existing =>
        (exists l, resp = mkHttp StatusOK (BAnnounce (mkAnnounce true "updated" l))) /\
        abs w' = with_peers <[id := stored (AddedAt existing) (Score existing)]> (abs w)
    | None =>
        match validatePeerName (Name peer) with
        | Ok _ =>
            (exists l, resp = mkHttp StatusOK (BAnnounce (mkAnnounce true "announced" l))) /\
            abs w' = with_peers <[id := stored (now ch) (float_of_int 50)]> (abs w)
        | Fail err => resp = writeError StatusBadRequest codePeerRejected (Error err) /\ abs w' = abs w
        | _ => False
        end
    end.
Proof.
  intros Hk Hne Hid id seen stored. destruct (announce_spec ch param peer w Hk Hne Hid) as (resp & w' & Hrun & Hk' & Hres).
  exists resp, w'. split; [done|]. split; [done|]. fold id in Hres. cbv zeta in Hres.
  destruct (GetPeer id w) as [existing|]; [by rewrite updated_record in Hres|].
  destruct (validatePeerName (Name peer)); [|done..]. by rewrite defaults_record in Hres.
Qed.

(** The state of a connection is not part of an announcement, so that
    announcing a peer that is connected makes the registry say it is not, although
    its connection is still in the table; and the name of a known peer is replaced
    without being checked. *)
Theorem announce_hides_connection ch param peer existing w :
  keyed w -> Trim param <> EmptyString -> (ID peer = EmptyString \/ ID peer = Trim param) ->
  GetPeer (Trim param) w = Some existing -> Connected existing = true -> Connected peer = false ->
  exists resp w' p, announcePeer ch true param (inr peer) w = (Ok resp, w') /\ status resp = StatusOK /\
    GetPeer (Trim param) w' = Some p /\ Connected p = false /\ Name p = Name peer /\
    Trim param ∉ (ID <$> GetConnectedPeers ch w').
Proof.
  intros Hk Hne Hid Hg _ Hc. destruct (announce_spec ch param peer w Hk Hne Hid) as (resp & w' & Hrun & Hk' & Hres).
  cbv zeta in Hres. rewrite Hg in Hres. destruct Hres as [[lr ->] Habs]. set (p := updated existing _) in Habs.
  assert (Hp : GetPeer (Trim param) w' = Some p).
  { rewrite <- abs_lookup. apply (f_equal s_peers) in Habs. cbn [abs s_peers with_peers] in Habs. rewrite Habs. by rewrite lookup_insert_eq. }
  assert (Hcp : Connected p = false) by (unfold p, updated, announced; repeat case_match; done).
  eexists _, w', p. split_and!; try done.
  - unfold p, updated, announced. repeat case_match; done.
  - intros Hin. apply list_elem_of_fmap in Hin as (q & Hq & Hin). unfold GetConnectedPeers in Hin.
    apply list_elem_of_filter in Hin as [Hcq Hin]. rewrite (peers_in_order_perm ch w') in Hin.
    apply list_elem_of_fmap in Hin as ([k q'] & -> & Hin). apply elem_of_map_to_list in Hin. rewrite abs_lookup in Hin. cbn [snd] in *.
    assert (Hkq : ID q' = k).
    { unfold GetPeer in Hin. destruct (peers (reg w') !! k) as [l|] eqn:Hl; [|done]. destruct (Hk' k l Hl) as (q0 & Hq0 & Hid0).
      cbn in Hin. congruence. }
    rewrite <- Hkq, <- Hq, Hp in Hin. congruence.
Qed.
End Api.
