(* ===== verification/Provider.v ===== *)
(** * The provider of the HTTP API (src/go/pkg/api/provider.go)

    The routes the provider mounts and the descriptions it gives of them, from
    which the OpenAPI document is made.  The theorem compares the two with each
    other and with what the handlers of [Api] answer. *)

From S2P Require Import Prelude Float64 PeerName Peer PeerProofs Identity Crypto Ueps KeyDeriv.
From S2P Require Import Controller Protocol Session Duration Limits Transport Bundle Api.

(** ** Descriptions *)

(** A [map[string]any] literal: strings, lists of strings and maps. *)
Inductive schema : Type :=
| SText (s : string)
| STexts (l : list string)
| SMap (fields : list (string * schema)).

Record RouteDescription : Type := mkRoute {
  rd_Method : string;
  rd_Path : string;
  rd_Summary : string;
  rd_Description : string;
  rd_Tags : list string;
  rd_RequestBody : option schema;
  rd_Response : schema
}.

Definition typed (t : string) : schema := SMap [("type", SText t)]%string.
Definition object_of (properties : list (string * schema)) : schema :=
  SMap [("type", SText "object"); ("properties", SMap properties)]%string.

Definition notImplementedSchema : schema :=
  object_of [("error", typed "string"); ("code", typed "string"); ("operation", typed "string"); ("todo", typed "string")]%string.

(** The handlers a route can have. *)
Inductive handler_name : Type :=
| HUpload
| HSync
| HAnnounce
| HHealth
| HPeers.

(** [NewProvider]: a provider is the registry and the transport it was given,
    each possibly nil. *)
Record P2PProvider (R T : Type) : Type := NewProvider { p_registry : option R; p_transport : option T }.
Definition provider_Name : string := "p2p".
Definition BasePath : string := "/v1/p2p".
Definition Channels : list string := ["p2p"%string].

(** [RegisterRoutes] on a group that is not nil: method, path and handler. *)
Definition RegisterRoutes : list (string * string * handler_name) :=
  [("POST", "/upload", HUpload);
   ("GET", "/sync/:topic", HSync);
   ("POST", "/peer/:id/announce", HAnnounce);
   ("GET", "/health", HHealth);
   ("GET", "/peers", HPeers)]%string.

Definition Describe : list RouteDescription :=
  [mkRoute "POST" "/upload" "Upload an encrypted blob to the swarm"
     "Accepts an encrypted blob upload request. The route currently returns 501 until the go-p2p encrypted swarm upload primitive lands."
     ["p2p"]
     (Some (SMap [("type", SText "object"); ("required", STexts ["encryptedBlob"]);
                  ("properties", SMap [("topic", typed "string");
                                       ("encryptedBlob", SMap [("type", SText "string");
                                          ("description", SText "Caller-encrypted blob payload.")])])]))
     notImplementedSchema;
   mkRoute "GET" "/sync/:topic" "Sync topic events"
     "Returns 501 until the go-p2p library exposes an HTTP-friendly topic event sync primitive."
     ["p2p"] None notImplementedSchema;
   mkRoute "POST" "/peer/:id/announce" "Announce a peer"
     "Adds or updates a peer in the local peer registry."
     ["p2p"]
     (Some (object_of [("id", typed "string"); ("name", typed "string"); ("publicKey", typed "string");
                       ("address", typed "string"); ("role", typed "string")]))
     (object_of [("ok", typed "boolean"); ("action", typed "string"); ("peer", typed "object")]);
   mkRoute "GET" "/health" "Get P2P health"
     "Reports peer count, connected peer count, and swarm state."
     ["p2p"] None
     (object_of [("ok", typed "boolean"); ("peerCount", typed "integer"); ("connectedPeers", typed "integer");
                 ("swarmState", typed "string"); ("error", typed "string"); ("code", typed "string")]);
   mkRoute "GET" "/peers" "List peers"
     "Returns the local peer roster from the go-p2p peer registry."
     ["p2p"] None
     (object_of [("count", typed "integer"); ("peers", SMap [("type", SText "array"); ("items", typed "object")])])]%string.

(** ** What is described and what is answered *)

(** The names of the properties of an object schema. *)
Fixpoint field (k : string) (l : list (string * schema)) : option schema :=
  match l with
  | [] => None
  | (k', s) :: l => if decide (k' = k) then Some s else field k l
  end.
Definition properties (s : schema) : list string :=
  match s with
  | SMap fs => match field "properties" fs with Some (SMap ps) => fst <$> ps | _ => [] end
  | _ => []
  end.

(** The keys of a response as JSON: the tags of its record, without the empty
    fields that are omitted. *)
Definition body_keys (b : body) : list string :=
  match b with
  | BHealth r =>
      ["ok"; "peerCount"; "connectedPeers"; "swarmState"]%string ++
      (if decide (h_Error r = EmptyString) then [] else ["error"%string]) ++
      (if decide (h_Code r = EmptyString) then [] else ["code"%string])
  | BPeers _ => ["count"; "peers"]%string
  | BAnnounce _ => ["ok"; "action"; "peer"]%string
  | BObject fields => fst <$> map_to_list fields
  end.

Section Described.
Context `{CoreText} `{KDLib} `{JSON} {FS : Type} `{FileSystem FS} (Error : error -> string).

(** The responses of a handler, whatever the request and the state. *)
Inductive answered : handler_name -> http -> Prop :=
| ans_upload req : answered HUpload (uploadEncryptedBlob req)
| ans_sync topic : answered HSync (syncTopicEvents topic)
| ans_announce ch configured param req (w w' : World FS) r :
    announcePeer Error ch configured param req w = (Ok r, w') -> answered HAnnounce r
| ans_health ch (registry : option (World FS)) connections : answered HHealth (health ch registry connections)
| ans_peers ch (registry : option (World FS)) : answered HPeers (listPeers ch registry).

(** An error is an object with a text and a code. *)
Definition is_error (r : http) : Prop :=
  status r ∈ [StatusBadRequest; StatusServiceUnavailable] /\ exists message code, r = writeError (status r) code message.

Lemma error_answer st code message : st ∈ [StatusBadRequest; StatusServiceUnavailable] -> is_error (writeError st code message).
Proof. intros Hst. split; [done|by exists message, code]. Qed.

(** The responses of [announcePeer]. *)
Lemma announce_answers ch configured param req (w w' : World FS) r :
  announcePeer Error ch configured param req w = (Ok r, w') ->
  is_error r \/ exists a, r = mkHttp StatusOK (BAnnounce a).
Proof.
  assert (Hreg : forall action l m w0, registered Error action l m w0 = (Ok r, w') -> is_error r \/ exists a, r = mkHttp StatusOK (BAnnounce a)).
  { intros action l m w0. unfold registered, on_result. destruct (m w0) as [[u|e|p|] w1]; try done; intros [= <- _].
    - right. by eexists.
    - left. apply error_answer. by left. }
  unfold announcePeer. intros Hrun.
  repeat (case_match; try (injection Hrun as <- _; left; apply error_answer; set_solver)).
  all: cbv [mbind SR_bind alloc] in Hrun; by eapply Hreg.
Qed.

Lemma object_keys (m : gmap string string) k : k ∈ body_keys (BObject m) <-> is_Some (m !! k).
Proof.
  cbn [body_keys]. rewrite list_elem_of_fmap. split.
  - intros ([k' v] & -> & Hin). apply elem_of_map_to_list in Hin. by exists v.
  - intros [v Hv]. exists (k, v). split; [done|]. by apply elem_of_map_to_list.
Qed.

(** The keys of a response that says that something is not implemented. *)
Lemma not_implemented_keys operation todo fields k :
  k ∈ body_keys (content (writeNotImplemented operation todo fields)) ->
  k ∈ properties notImplementedSchema \/ exists f, f ∈ fields /\ is_Some (f !! k).
Proof.
  unfold writeNotImplemented. cbn [content]. rewrite object_keys.
  assert (Hfold : forall fs (b : gmap string string), is_Some (fold_left (fun b f => f ∪ b) fs b !! k) ->
    is_Some (b !! k) \/ exists f, f ∈ fs /\ is_Some (f !! k)).
  { induction fs as [|f fs IH]; intros b Hb; [by left|]. cbn [fold_left] in Hb. apply IH in Hb as [Hb|(f' & Hf' & Hb)]; [|right; exists f'; by split; [right|]].
    apply lookup_union_is_Some in Hb as [Hb|Hb]; [right; exists f; by split; [left|]|by left]. }
  intros Hk. apply Hfold in Hk as [Hk|Hk]; [left|by right]. cbn. rewrite !lookup_insert_is_Some' in Hk. destruct Hk as [->|[->|[->|Hk]]]; [set_solver..|].
  destruct Hk as [v Hv]. apply lookup_singleton_Some in Hv as [-> _]. set_solver.
Qed.

(** What the descriptions say of the responses, by handler. *)
Definition described (h : handler_name) : list string :=
  match h with
  | HUpload | HSync => properties notImplementedSchema
  | HAnnounce => ["ok"; "action"; "peer"]
  | HHealth => ["ok"; "peerCount"; "connectedPeers"; "swarmState"; "error"; "code"]
  | HPeers => ["count"; "peers"]
  end%string.
Lemma described_at j m p h d :
  RegisterRoutes !! j = Some (m, p, h) -> Describe !! j = Some d -> properties (rd_Response d) = described h.
Proof. intros Hj Hd. do 5 (destruct j as [|j]; [injection Hj as <- <- <-; by injection Hd as <-|]). done. Qed.

(** The routes that are mounted are those that are described, each once,
    and a response that is not an error has only the properties that the
    description of its route gives it, whatever the request and the state of the
    registry, except for the topic in the response of the synchronisation. *)
Theorem api_described :
  ((fun d => (rd_Method d, rd_Path d)) <$> Describe) = fst <$> RegisterRoutes /\ NoDup (fst <$> RegisterRoutes) /\
  forall j m p h d r, RegisterRoutes !! j = Some (m, p, h) -> Describe !! j = Some d -> answered h r ->
    is_error r \/
    forall k, k ∈ body_keys (content r) -> k ∈ properties (rd_Response d) \/ (h = HSync /\ k = "topic"%string).
Proof.
  split; [done|]. split; [apply (bool_decide_unpack _); vm_compute; exact I|].
  intros j m p h d r Hj Hd Hr. destruct Hr as [req|topic|ch configured param req w w' r Hrun|ch registry connections|ch registry].
  all: rewrite (described_at _ _ _ _ _ Hj Hd); clear Hj Hd.
  - unfold uploadEncryptedBlob. destruct req as [e|req]; [left; apply error_answer; set_solver|].
    case_decide; [left; apply error_answer; set_solver|]. right. intros k Hk.
    apply not_implemented_keys in Hk as [Hk|(f & Hf & _)]; [by left|by apply elem_of_nil in Hf].
  - unfold syncTopicEvents. case_decide; [left; apply error_answer; set_solver|]. right. intros k Hk.
    apply not_implemented_keys in Hk as [Hk|(f & Hf & [v Hv])]; [by left|]. apply list_elem_of_singleton in Hf as ->.
    apply lookup_singleton_Some in Hv as [<- _]. by right.
  - apply announce_answers in Hrun as [Hrun|[a ->]]; [by left|]. right. intros k Hk. left. exact Hk.
  - right. intros k Hk. left. destruct registry as [w|]; [|exact Hk]. cbn in *. set_solver.
  - destruct registry as [w|]; [|left; apply error_answer; set_solver]. right. intros k Hk. left. exact Hk.
Qed.
End Described.
