(* ===== verification/Logger.v ===== *)
(** * The logger (src/go/logging/logger.go)

    Levels, fields, the line a call writes, the loggers derived from another one,
    and the global logger.  A logger is an object that calls share; its writer,
    the formatting of values and of the time, and upper-casing are the
    libraries'. *)

From S2P Require Import Prelude.

(** ** Levels: an [int] *)
Definition LevelDebug : Z := 0.
Definition LevelInfo : Z := 1.
Definition LevelWarn : Z := 2.
Definition LevelError : Z := 3.

Definition Level_String (l : Z) : string :=
  if decide (l = LevelDebug) then "DEBUG"
  else if decide (l = LevelInfo) then "INFO"
  else if decide (l = LevelWarn) then "WARN"
  else if decide (l = LevelError) then "ERROR"
  else "UNKNOWN".

(** [core.Upper], [core.Sprintf], the layout of a time, and [core.WriteString] to
    a writer: whether it succeeded is ignored. *)
Class LogLib (V : Type) : Type := {
  Writer : Type;
  Stderr : Writer;
  Upper : string -> string;
  show : V -> string;
  Sprintf : string -> list V -> string;
  format_time : Z -> string
}.

Section Logger.
Context {V : Type} `{LogLib V}.

Record Logger : Type := mkLogger {
  output : Writer;
  level : Z;
  component : string
}.
Record Config : Type := mkLogConfig {
  cfg_Output : option Writer;
  cfg_Level : Z;
  cfg_Component : string
}.
Definition DefaultConfig : Config := mkLogConfig (Some Stderr) LevelInfo "".

(** The loggers by their address, what was written to each writer, in order, and
    the global logger. *)
Record LogWorld : Type := mkLogWorld {
  loggers : gmap positive Logger;
  written : list (Writer * string);
  globalLogger : positive
}.

(** What a call takes from its surroundings: the time and the order of the fields. *)
Record LogInput : Type := mkLogInput {
  log_now : Z;
  log_order : gmap string V -> list (string * V)
}.

Definition new_logger (l : Logger) : SR LogWorld positive := fun w =>
  let p := fresh (dom (loggers w)) in (Ok p, mkLogWorld (<[p := l]> (loggers w)) (written w) (globalLogger w)).
Definition get_logger (p : positive) : SR LogWorld Logger := fun w =>
  match loggers w !! p with Some l => (Ok l, w) | None => (Panic NilDereference, w) end.

Definition New (cfg : Config) : SR LogWorld positive :=
  new_logger (mkLogger (default Stderr (cfg_Output cfg)) (cfg_Level cfg) (cfg_Component cfg)).
Definition WithComponent (p : positive) (component : string) : SR LogWorld positive :=
  l ← get_logger p;
  new_logger (mkLogger (output l) (level l) component).
Definition SetLevel (p : positive) (lv : Z) : SR LogWorld unit :=
  _ ← get_logger p;
  modify (fun w => mkLogWorld (alter (fun l => mkLogger (output l) lv (component l)) p (loggers w)) (written w) (globalLogger w)).
Definition GetLevel (p : positive) : SR LogWorld Z :=
  l ← get_logger p;
  mret (level l).

(** [mergeFields]: nil without arguments, else a map in which later ones win. *)
Definition mergeFields (fields : list (gmap string V)) : option (gmap string V) :=
  match fields with
  | [] => None
  | _ => Some (fold_left (fun result f => f ∪ result) fields ∅)
  end.

(** The line of a message. *)
Definition log_line (i : LogInput) (component : string) (lv : Z) (msg : string) (fields : option (gmap string V)) : string :=
  format_time (log_now i) +:+ " [" +:+ Level_String lv +:+ "]" +:+
  (if decide (component = EmptyString) then "" else " [" +:+ component +:+ "]") +:+
  " " +:+ msg +:+
  (if decide (default ∅ fields = ∅) then ""
   else " |" +:+ String.concat "" ((fun kv => " " +:+ kv.1 +:+ "=" +:+ show kv.2) <$> log_order i (default ∅ fields))) +:+
  String.String (Ascii.ascii_of_nat 10) "".

Definition log (i : LogInput) (p : positive) (lv : Z) (msg : string) (fields : option (gmap string V)) : SR LogWorld unit :=
  l ← get_logger p;
  if decide (lv < level l) then mret tt
  else modify (fun w => mkLogWorld (loggers w) (written w ++ [(output l, log_line i (component l) lv msg fields)]) (globalLogger w)).

Definition Debug i p msg fields : SR LogWorld unit := log i p LevelDebug msg (mergeFields fields).
Definition Info i p msg fields : SR LogWorld unit := log i p LevelInfo msg (mergeFields fields).
Definition Warn i p msg fields : SR LogWorld unit := log i p LevelWarn msg (mergeFields fields).
Definition Error i p msg fields : SR LogWorld unit := log i p LevelError msg (mergeFields fields).
Definition Debugf i p fmt args : SR LogWorld unit := log i p LevelDebug (Sprintf fmt args) None.
Definition Infof i p fmt args : SR LogWorld unit := log i p LevelInfo (Sprintf fmt args) None.
Definition Warnf i p fmt args : SR LogWorld unit := log i p LevelWarn (Sprintf fmt args) None.
Definition Errorf i p fmt args : SR LogWorld unit := log i p LevelError (Sprintf fmt args) None.

(** ** The global logger *)
Definition SetGlobal (p : positive) : SR LogWorld unit := modify (fun w => mkLogWorld (loggers w) (written w) p).
Definition GetGlobal : SR LogWorld positive := gets globalLogger.
Definition SetGlobalLevel (lv : Z) : SR LogWorld unit := p ← GetGlobal; SetLevel p lv.
Definition with_global (f : positive -> SR LogWorld unit) : SR LogWorld unit := p ← GetGlobal; f p.
Definition global_Debug i msg fields := with_global (fun p => Debug i p msg fields).
Definition global_Info i msg fields := with_global (fun p => Info i p msg fields).
Definition global_Warn i msg fields := with_global (fun p => Warn i p msg fields).
Definition global_Error i msg fields := with_global (fun p => Error i p msg fields).
Definition global_Debugf i fmt args := with_global (fun p => Debugf i p fmt args).
Definition global_Infof i fmt args := with_global (fun p => Infof i p fmt args).
Definition global_Warnf i fmt args := with_global (fun p => Warnf i p fmt args).
Definition global_Errorf i fmt args := with_global (fun p => Errorf i p fmt args).

Definition ParseLevel (s : string) : Result Z :=
  let u := Upper s in
  if decide (u = "DEBUG"%string) then Ok LevelDebug
  else if decide (u = "INFO"%string) then Ok LevelInfo
  else if decide (u = "WARN"%string \/ u = "WARNING"%string) then Ok LevelWarn
  else if decide (u = "ERROR"%string) then Ok LevelError
  else Fail (E "logging.ParseLevel" ("unknown log level: " ++ s) None).

(** ** Theorems *)

(** Upper case stays. *)
Hypothesis Upper_upper : forall l, Upper (Level_String l) = Level_String l.

(** The name of a level is parsed back to it, whatever the case it
    is written in, and what is parsed is one of the four levels, whose name is the
    input in upper case (or "WARNING"). *)
Theorem level_roundtrip l s :
  0 <= l <= 3 -> Upper s = Level_String l ->
  ParseLevel s = Ok l /\ ParseLevel (Level_String l) = Ok l /\
  forall s' l', ParseLevel s' = Ok l' -> 0 <= l' <= 3 /\ (Upper s' = Level_String l' \/ Upper s' = "WARNING"%string).
Proof.
  intros Hl Hs. unfold ParseLevel. rewrite Upper_upper, Hs.
  assert (Hcases : l = 0 \/ l = 1 \/ l = 2 \/ l = 3) by lia. split_and!.
  - by destruct Hcases as [->|[->|[->| ->]]].
  - by destruct Hcases as [->|[->|[->| ->]]].
  - intros s' l'. repeat case_decide; intros [= <-]; unfold LevelDebug, LevelInfo, LevelWarn, LevelError; (split; [lia|]); tauto.
Qed.

(** A call at a level writes one line, to the logger's writer, if the level is at
    least the logger's, and nothing otherwise. *)
Lemma log_filters i p lv msg fields w l :
  loggers w !! p = Some l ->
  exists w', log i p lv msg fields w = (Ok tt, w') /\ loggers w' = loggers w /\
    written w' = written w ++ (if decide (lv < level l) then [] else [(output l, log_line i (component l) lv msg fields)]).
Proof.
  intros Hp. unfold log. rewrite (SR_bind_Ok _ _ w l w) by (unfold get_logger; by rewrite Hp).
  case_decide; eexists; (split; [reflexivity|]); [by rewrite app_nil_r|done].
Qed.

(** After [SetLevel] through one logger, a call through it writes
    exactly when its level is at least the new one; a logger derived with
    [WithComponent] keeps the level it was derived with. *)
Theorem derived_logger_keeps_level i p l lv lv' comp msg fields w :
  loggers w !! p = Some l ->
  exists d w1 w2 w3 w4, WithComponent p comp w = (Ok d, w1) /\ SetLevel p lv w1 = (Ok tt, w2) /\ d <> p /\
    log i p lv' msg fields w2 = (Ok tt, w3) /\ log i d lv' msg fields w3 = (Ok tt, w4) /\
    written w4 = written w ++ (if decide (lv' < lv) then [] else [(output l, log_line i (component l) lv' msg fields)]) ++
                 (if decide (lv' < level l) then [] else [(output l, log_line i comp lv' msg fields)]).
Proof.
  intros Hp. set (d := fresh (dom (loggers w))).
  assert (Hd : loggers w !! d = None) by (apply not_elem_of_dom, is_fresh).
  assert (Hne : d <> p) by congruence.
  set (w1 := mkLogWorld (<[d := mkLogger (output l) (level l) comp]> (loggers w)) (written w) (globalLogger w)).
  assert (Hp1 : loggers w1 !! p = Some l) by (cbn; by rewrite lookup_insert_ne).
  set (w2 := mkLogWorld (alter (fun l => mkLogger (output l) lv (component l)) p (loggers w1)) (written w1) (globalLogger w1)).
  assert (Hp2 : loggers w2 !! p = Some (mkLogger (output l) lv (component l))).
  { cbn [w2 loggers]. rewrite lookup_alter_eq. cbn [w1 loggers]. by rewrite lookup_insert_ne, Hp. }
  assert (Hd2 : loggers w2 !! d = Some (mkLogger (output l) (level l) comp)).
  { cbn [w2 loggers]. rewrite lookup_alter_ne by done. cbn [w1 loggers]. by rewrite lookup_insert_eq. }
  destruct (log_filters i p lv' msg fields w2 _ Hp2) as (w3 & Hlog3 & Hl3 & Hw3). rewrite <- Hl3 in Hd2.
  destruct (log_filters i d lv' msg fields w3 _ Hd2) as (w4 & Hlog4 & _ & Hw4).
  exists d, w1, w2, w3, w4. split_and!; [| |done|done|done|].
  - unfold WithComponent. by rewrite (SR_bind_Ok _ _ w l w) by (unfold get_logger; by rewrite Hp).
  - unfold SetLevel. by rewrite (SR_bind_Ok _ _ w1 l w1) by (unfold get_logger; by rewrite Hp1).
  - rewrite Hw4, Hw3. cbn [output level component]. by rewrite app_assoc.
Qed.
End Logger.
