(* ===== verification/Service.v ===== *)
(** * The node service (src/go/node/service.go, src/go/p2p.go)

    The construction of a node from its options (identity, registry, transport and
    controller), starting and stopping it. *)

From S2P Require Import Prelude Crypto Float64 PeerName Peer PeerProofs PeerPersist Identity Ueps KeyDeriv.
From S2P Require Import Controller Protocol Session Duration Limits Transport TransportProofs ConnTable Lifecycle.

Record ServiceOptions : Type := mkServiceOptions {
  so_KeyPath : string;
  so_ConfigPath : string;
  so_PeersPath : string;
  so_TransportConfig : TransportConfig
}.

(** [xdg.DataFile] and [xdg.ConfigFile]. *)
Record Xdg : Type := mkXdg {
  DataFile : string -> error + string;
  ConfigFile : string -> error + string
}.

Section Service.
Context {W : Type} `{WebSocket W}.
Context `{KL : KDLaws} `{JSON} {FS : Type} `{FileSystem FS} `{KeyLib} `{JL : MsgJSONLaws} `{AL : AEADLaws} `{HandshakeJSON}.
Context `{IdentityJSON} `{!ModeFS FS} (ed25519_verify : bytes -> bytes -> bytes -> bool).

(** The node manager and the registry are those the transport points to; the
    controller has no pending requests. *)
Record Service : Type := mkService {
  svc_options : ServiceOptions;
  svc_config : TransportConfig;
  svc_Transport : Transport (W := W) (FS := FS);
  svc_pending : gmap string positive
}.

Definition nodeManagerForOptions (xdg : Xdg) (opts : ServiceOptions) (s : FS) : Result (Result unit * Node FS) :=
  if decide (so_KeyPath opts = EmptyString /\ so_ConfigPath opts = EmptyString) then
    NewNodeManager (DataFile xdg) (ConfigFile xdg) s
  else Ok (NewNodeManagerWithPaths (so_KeyPath opts) (so_ConfigPath opts) s).

Definition peerRegistryForOptions (ch : Choice) (xdg : Xdg) (opts : ServiceOptions) (s : FS) : Result unit * World FS :=
  if decide (so_PeersPath opts = EmptyString) then NewPeerRegistry ch (ConfigFile xdg) [] ∅ s
  else NewPeerRegistryWithPath ch (so_PeersPath opts) ∅ s.

Definition config_of (opts : ServiceOptions) : TransportConfig :=
  if decide (ListenAddr (so_TransportConfig opts) = EmptyString) then DefaultTransportConfig else so_TransportConfig opts.

Definition NewService (ch : Choice) (xdg : Xdg) (opts : ServiceOptions) (s : FS) : Result Service :=
  n ← map_fail (fun err => E "node.NewService" "node manager construction failed" (Some err))
        (rn ← nodeManagerForOptions xdg opts s; match rn with (r, n) => _ ← r; Ok n end);
  w ← map_fail (fun err => E "node.NewService" "peer registry construction failed" (Some err))
        (match peerRegistryForOptions ch xdg opts (nfs n) with (r, w) => _ ← r; Ok w end);
  Ok (mkService opts (config_of opts) (snd (OnMessage (NewTransport (nm n) w))) ∅).

Definition Register (ch : Choice) (xdg : Xdg) (s : FS) : Result Service :=
  NewService ch xdg (mkServiceOptions "" "" "" (mkConfig "" "" "" "" 0 0 0 0 0)) s.

(** The functions that src/go/p2p.go re-exports. *)
Definition p2p_NewService (ch : Choice) (xdg : Xdg) (opts : ServiceOptions) (s : FS) : Result Service := NewService ch xdg opts s.
Definition p2p_Register (ch : Choice) (xdg : Xdg) (s : FS) : Result Service := Register ch xdg s.

(** The service may be nil. *)
Definition StartService (svc : option Service) : Result (http_Server * listener) :=
  match svc with
  | None => Fail (E "node.Service.Start" "transport not configured" None)
  | Some svc => Start (svc_config svc)
  end.
Definition StopService (i : Input) (shutdown : option (option error)) (svc : option Service) : Result unit * option Service :=
  match svc with
  | None => (Fail (E "node.Service.Stop" "transport not configured" None), None)
  | Some svc =>
      let '(r, t) := Stop i shutdown (svc_Transport svc) in
      (r, Some (mkService (svc_options svc) (svc_config svc) t (svc_pending svc)))
  end.

(** ** Theorems *)
Lemma registry_keyed ch xdg opts s w : peerRegistryForOptions ch xdg opts s = (Ok tt, w) -> keyed w.
Proof.
  unfold peerRegistryForOptions. case_decide; [|intros Hw; by destruct (new_good _ _ _ _ _ Hw)].
  unfold NewPeerRegistry. destruct (ConfigFile xdg _) as [e|p]; [done|]. intros Hw. by destruct (new_good _ _ _ _ _ Hw).
Qed.

(** A service built from any options on any files, once it is
    running, keeps the table of its connections sound through every sequence of
    calls, [Stop] included: a message sent to an ID goes out on an open connection
    whose peer has that ID; and it listens on the address of its configuration,
    the given one, or the default when that has none. *)
Theorem service_table_sound ch xdg opts s svc t :
  NewService ch xdg opts s = Ok svc -> rtc (tstep ed25519_verify (svc_config svc)) (svc_Transport svc) t ->
  (forall id c, GetConnection id t = Some c ->
    exists pc p, objs t !! c = Some pc /\ closed pc = false /\ heap (world t) !! pc_Peer pc = Some p /\ ID p = id) /\
  (exists srv l, StartService (Some svc) = Ok (srv, l) /\ Addr srv = ListenAddr (svc_config svc) /\ Addr srv <> EmptyString) /\
  (ListenAddr (so_TransportConfig opts) <> EmptyString -> svc_config svc = so_TransportConfig opts).
Proof.
  intros Hnew Hrun. unfold NewService in Hnew. apply bind_Ok in Hnew as (n & _ & Hnew). apply bind_Ok in Hnew as (w & Hw & Hsvc).
  injection Hsvc as <-. cbn [svc_Transport svc_config] in *.
  destruct (peerRegistryForOptions ch xdg opts (nfs n)) as [r w0] eqn:Hp. destruct r as [[]|e|p|]; try done. injection Hw as <-.
  pose proof (registry_keyed _ _ _ _ _ Hp) as Hk. split_and!.
  - destruct (table_reachable _ _ (snd (OnMessage (NewTransport (nm n) w0))) t eq_refl eq_refl Hk Hrun) as (_ & _ & Hcs).
    intros id c Hid. destruct (Hcs id c Hid) as (pc & p & Hpc & Hcl & Hpp & Hpid). exists pc, p. split_and!; try done. by apply Hcl.
  - eexists _, _. split; [reflexivity|]. split; [reflexivity|]. cbn [Addr svc_config]. unfold config_of. by case_decide.
  - intros Hne. unfold config_of. by rewrite decide_False.
Qed.
End Service.
