(* ===== verification/AppInstances.v ===== *)
(** * Implementations of the upper interfaces, and their theorems at work

    Encoders of the payloads on the text format of [SessionInstances], containers
    and archives, miner and profile managers in memory; then the theorems of
    [Bundle], [WorkerProofs], [RemoteProofs], [Gather], [BusProofs], [Api], [Logger] and
    [Service] on concrete nodes. *)

From S2P Require Import Prelude Crypto Float64 PeerName Peer PeerProofs PeerPersist PeerInstances Identity.
From S2P Require Import NodeInstances Ueps KeyDeriv Controller Protocol Session SessionInstances.
From S2P Require Import Duration Limits Transport TransportProofs ConnTable ReadLoop TransportInstances Paths Bundle.
From S2P Require Import Payloads Worker WorkerProofs Remote RemoteProofs Gather ContentBus BusProofs Api Logger Service.

(** ** Encoders *)

(** A type is encoded as a tuple of its fields. *)
Definition tuple_codec {T X : Type} `{Countable X} (to : T -> X) (from : X -> T) (z : T) : Codec T := {|
  enc x := inr (digits (encode (to x)));
  dec t := match undigits t ≫= decode (A := X) with Some y => inr (from y) | None => inl syntax_error end;
  zero := z
|}.

Lemma tuple_dec {T X} `{Countable X} (to : T -> X) (from : X -> T) (x : T) d d' a :
  from (to x) = x -> digits (encode (to x)) = d -> unmarshalAny (unescape d) = inr (Some a) -> unmarshalAny d' = inr (Some a) ->
  (match undigits d' ≫= decode (A := X) with Some y => inr (from y) | None => inl syntax_error end : error + T) = inr x.
Proof.
  intros Hx <-. rewrite (undigits_unescape _ _ (undigits_digits _)). cbn [unmarshalAny digits_json]. rewrite undigits_digits.
  intros [= <-]. destruct (undigits d') as [p|]; [|done]. intros [= ->]. cbn [mbind option_bind]. by rewrite decode_encode, Hx.
Qed.

Definition tuple_laws {T X : Type} `{Countable X} (to : T -> X) (from : X -> T) (z : T) (Hx : forall x, from (to x) = x) :
  @CodecLaws T digits_json (tuple_codec to from z).
Proof.
  refine {| codec_ok := fun _ => True |}.
  - intros x _. by eexists.
  - intros x d d' a _ [= Hd] Ha Ha'. exact (tuple_dec to from x d d' a (Hx x) Hd Ha Ha').
Defined.

#[export] Instance ping_codec : Codec PingPayload := tuple_codec SentAt mkPing (mkPing 0).
#[export] Instance pong_codec : Codec PongPayload :=
  tuple_codec (fun p => (pong_SentAt p, pong_ReceivedAt p)) (fun x => mkPong x.1 x.2) (mkPong 0 0).
#[export] Instance start_codec : Codec StartMinerPayload :=
  tuple_codec (fun p => (st_MinerType p, st_ProfileID p, st_Config p)) (fun x => mkStart x.1.1 x.1.2 x.2) (mkStart "" "" None).
#[export] Instance stop_codec : Codec StopMinerPayload := tuple_codec sp_MinerName mkStop (mkStop "").
#[export] Instance miner_ack_codec : Codec MinerAckPayload :=
  tuple_codec (fun p => (ma_Success p, ma_Name p, ma_MinerName p, ma_Error p)) (fun x => mkMinerAck x.1.1.1 x.1.1.2 x.1.2 x.2)
    (mkMinerAck false "" "" "").
#[export] Instance get_logs_codec : Codec GetLogsPayload :=
  tuple_codec (fun p => (gl_MinerName p, gl_Lines p, gl_Since p)) (fun x => mkGetLogs x.1.1 x.1.2 x.2) (mkGetLogs "" 0 0).
#[export] Instance logs_codec : Codec LogsPayload :=
  tuple_codec (fun p => (lg_MinerName p, lg_Lines p, lg_HasMore p)) (fun x => mkLogs x.1.1 x.1.2 x.2) (mkLogs "" [] false).
#[export] Instance error_codec : Codec ErrorPayload :=
  tuple_codec (fun p => (ep_Code p, ep_Message p, ep_Details p)) (fun x => mkErrorPayload x.1.1 x.1.2 x.2) zeroErrorPayload.
#[export] Instance deploy_ack_codec : Codec DeployAckPayload :=
  tuple_codec (fun p => (da_Success p, da_Name p, da_Error p)) (fun x => mkDeployAck x.1.1 x.1.2 x.2) (mkDeployAck false "" "").
#[export] Instance event_codec : Codec wireEvent :=
  tuple_codec (fun p => (we_Topic p, we_Payload p)) (fun x => mkWireEvent x.1 x.2) (mkWireEvent "" None).

Definition item_tuple (p : MinerStatsItem) :=
  (it_Name p, it_Type p, it_IsRunning p, it_Hashrate p, it_SharedCount p, it_InvalidCount p,
   (it_Temperature p, it_Uptime p, it_Shares p, it_Rejected p, it_Pool p, it_Algorithm p, it_CPUThreads p)).
Definition item_of (x : string * string * bool * float64 * Z * Z * (float64 * Z * Z * Z * string * string * Z)) : MinerStatsItem :=
  let '(a, b, c, d, e, f, (g, h, i, j, k, l, m)) := x in mkItem a b c d e f g h i j k l m.
#[export] Instance stats_codec : Codec StatsPayload :=
  tuple_codec (fun p => (sta_NodeID p, sta_NodeName p, item_tuple <$> sta_Miners p, sta_Uptime p))
    (fun x => mkStats x.1.1.1 x.1.1.2 (item_of <$> x.1.2) x.2) (mkStats "" "" [] 0).

Definition bundle_tuple (b : Bundle) := (b_Type b, b_Name b, b_Data b, b_Checksum b).
Definition bundle_from (x : string * string * bytes * string) : Bundle := mkBundle x.1.1.1 x.1.1.2 x.1.2 x.2.
#[export] Instance deploy_codec : Codec DeployPayload :=
  tuple_codec (fun p => (bundle_tuple <$> dp_Bundle p, dp_BundleType p, dp_Data p, dp_Checksum p, dp_Name p))
    (fun x => mkDeploy (bundle_from <$> x.1.1.1.1) x.1.1.1.2 x.1.1.2 x.1.2 x.2) (mkDeploy None "" [] "" "").

#[export] Instance start_laws : CodecLaws StartMinerPayload.
Proof. apply tuple_laws. by intros []. Defined.
#[export] Instance stop_laws : CodecLaws StopMinerPayload.
Proof. apply tuple_laws. by intros []. Defined.
#[export] Instance miner_ack_laws : CodecLaws MinerAckPayload.
Proof. apply tuple_laws. by intros []. Defined.
#[export] Instance get_logs_laws : CodecLaws GetLogsPayload.
Proof. apply tuple_laws. by intros []. Defined.
#[export] Instance logs_laws : CodecLaws LogsPayload.
Proof. apply tuple_laws. by intros []. Defined.
#[export] Instance error_laws : CodecLaws ErrorPayload.
Proof. apply tuple_laws. by intros []. Defined.
#[export] Instance event_laws : CodecLaws wireEvent.
Proof. apply tuple_laws. by intros []. Defined.
#[export] Instance stats_laws : CodecLaws StatsPayload.
Proof.
  apply tuple_laws. intros [a b items u]. cbn [sta_NodeID sta_NodeName sta_Miners sta_Uptime fst snd]. f_equal.
  rewrite <- list_fmap_compose. induction items as [|[] items IH]; [done|]. cbn [fmap list_fmap]. by rewrite IH.
Defined.
#[export] Instance error_total : TotalCodec ErrorPayload.
Proof. intros x. by eexists. Qed.

(** ** Containers, archives, files *)

(** The white space of ASCII taken off both ends. *)
Definition space (a : Ascii.ascii) : bool := let n := Ascii.N_of_ascii a in bool_decide (n = 32 \/ 9 <= n <= 13)%N.
Fixpoint ltrim (s : string) : string :=
  match s with
  | String.EmptyString => s
  | String.String a r => if space a then ltrim r else s
  end.
Fixpoint rtrim (s : string) : string :=
  match s with
  | String.EmptyString => s
  | String.String a r =>
      match rtrim r with
      | String.EmptyString => if space a then String.EmptyString else String.String a String.EmptyString
      | t => String.String a t
      end
  end.
#[export] Instance plain_text : CoreText := { Trim s := rtrim (ltrim s) }.

Fixpoint spaces (s : string) : Prop :=
  match s with String.EmptyString => True | String.String a r => space a = true /\ spaces r end.
Lemma rtrim_starts a r : space a = false -> exists r', rtrim (String.String a r) = String.String a r'.
Proof. intros Ha. cbn [rtrim]. destruct (rtrim r); [rewrite Ha|]; by eexists. Qed.
Lemma blank_spaces s : blank s <-> spaces s.
Proof.
  unfold blank. cbn [Trim plain_text]. induction s as [|a s IH]; [done|]. cbn [ltrim spaces]. destruct (space a) eqn:Ha.
  - rewrite IH. tauto.
  - destruct (rtrim_starts a s Ha) as [r' ->]. split; [done|by intros [? _]].
Qed.
Lemma ltrim_split s : exists pre, s = pre +:+ ltrim s /\ spaces pre.
Proof.
  induction s as [|a s (pre & Hs & Hp)]; [by exists ""%string|]. cbn [ltrim]. destruct (space a) eqn:Ha; [|by exists ""%string].
  exists (String.String a pre). split; [|done]. exact (f_equal (String.String a) Hs).
Qed.
Lemma rtrim_split s : exists post, s = rtrim s +:+ post /\ spaces post.
Proof.
  induction s as [|a s (post & Hs & Hp)]; [by exists ""%string|]. cbn [rtrim]. destruct (rtrim s) as [|b t].
  - change ("" +:+ post) with post in Hs. subst s. by destruct (space a) eqn:Ha; [exists (String.String a post)|exists post].
  - exists post. split; [|done]. exact (f_equal (String.String a) Hs).
Qed.
Lemma ltrim_spaces pre s : spaces pre -> ltrim (pre +:+ s) = ltrim s.
Proof.
  induction pre as [|a pre IH]; [done|]. intros [Ha Hp].
  change (ltrim (String.String a pre +:+ s)) with (if space a then ltrim (pre +:+ s) else String.String a pre +:+ s).
  rewrite Ha. by apply IH.
Qed.
#[export] Instance plain_text_laws : CoreTextLaws.
Proof.
  constructor.
  - intros s. destruct (ltrim_split s) as (pre & Hs & Hp), (rtrim_split (ltrim s)) as (post & Hl & Hq).
    exists pre, post. split_and!; [|by apply blank_spaces..]. cbn [Trim plain_text]. by rewrite <- Hl.
  - intros pre c rest Hb Hc. apply blank_spaces in Hb. cbn [Trim plain_text]. rewrite ltrim_spaces by done. cbn [ltrim].
    assert (Hs : space c = false) by (unfold space, printable in *; apply bool_decide_eq_false; lia).
    rewrite Hs. by apply rtrim_starts.
Qed.

#[export] Instance mem_tim : TimLib := {
  DataNode := bytes;
  emptyNode := inr [];
  ToSigil config root pw := inr (digits (encode (config, root, pw)));
  FromSigil d pw :=
    match undigits d ≫= decode (A := bytes * bytes * string) with
    | Some (config, root, pw') => if decide (pw = pw') then inr (config, root) else inl (NewError "wrong password")
    | None => inl (NewError "invalid container")
    end;
  ToTar root := inr root;
  FromTar d := inr d;
  FromDataNode root := inr ([], root)
}.
Lemma mem_sigil_opens config root pw d : ToSigil config root pw = inr d -> FromSigil d pw = inr (config, root).
Proof.
  intros [= <-]. cbn [FromSigil mem_tim]. rewrite undigits_digits. cbn [mbind option_bind]. rewrite decode_encode.
  by rewrite decide_True.
Qed.

(** Every archive has one executable, written under its name. *)
#[export] Instance mem_tar : TarLib := {
  tar_read d := ([mkEntry "xmrig" 493 TypeReg d None], None);
  tar_write es := inr (concat (te_Content <$> es))
}.
#[export] Instance mem_open : OpenFS memfs := {
  OpenFile p _ s := Write p "" s;
  CopyTo p d s := let '(err, s) := Write p (string_of_bytes d) s in ((len d, err), s)
}.

(** ** Managers *)

(** The miners that run; a type is the name of its miner. *)
#[export] Instance mem_miners : MinerManager string (list string) := {
  MinerInstance := string;
  mm_StartMiner ty _ mm :=
    if decide (ty ∈ mm) then (inl (NewError "already running"), mm) else (inr ty, ty :: mm);
  mm_StopMiner name mm :=
    if decide (name ∈ mm) then (None, filter (fun n => n <> name) mm) else (Some (NewError "not running"), mm);
  mm_ListMiners mm := (mm, mm);
  mm_GetMiner name mm := if decide (name ∈ mm) then (inr name, mm) else (inl (NewError "not running"), mm);
  GetName n := n;
  GetType n := n;
  GetStats _ mm := (inr None, mm);
  GetConsoleHistory n lines mm := (replicate (Z.to_nat (Z.min lines 2)) n, mm);
  GetConsoleHistorySince _ := None
}.
#[export] Instance mem_profiles : ProfileManager string any (list (option any)) := {
  pm_GetProfile id pm := (inr id, pm);
  pm_SaveProfile p pm := (None, p :: pm)
}.
Definition error_text (e : error) : string := match e with NewError s => s | E _ s _ => s | Prelude.Errorf s _ => s | ProtocolError _ s => s end.

(** ** The worker *)
Definition worker0 : Worker (W := mem_ws) (FS := memfs) (MM := list string) (PM := list (option any)) :=
  mkWorker (TransportInstances.reading []) (Some ["xmrig"%string]) None 0 "/srv" [].
Definition ping0 : Message := mkMessage "id-7" MsgPing "ctl" "cli" 5 None "".

Lemma worker_answers_witness :
  exists w' r, HandleMessage error_text (input_at 20) 20 (Some 1%positive) ping0 worker0 = (Ok tt, w') /\
    m_ReplyTo r = "id-7"%string /\ m_To r = "ctl"%string.
Proof.
  destruct (worker_answers error_text (input_at 20) 20 1%positive ping0 worker0 (conn_with [] (Some secret32))
    (id_of kp2 "cli") eq_refl eq_refl) as (w' & Hrun & Hres).
  rewrite decide_True in Hres by (apply (bool_decide_unpack _); vm_compute; exact I).
  destruct Hres as (r & w1 & ty & _ & _ & Hr1 & Hr2 & _). exists w', r. split; [exact Hrun|]. split; [exact Hr1|exact Hr2].
Defined.

(** A bundle under the worker's password, with a name that leads out. *)
Definition bundle_data : bytes := digits (encode (([] : bytes), [1; 2; 3], password_of (Some 1%positive) worker0)).
Definition node0 : DataNode (TimLib := mem_tim) := [1; 2; 3].
Definition bad_deploy : DeployPayload := mkDeploy None BundleMiner bundle_data (calculateChecksum bundle_data) "../../../etc".
Definition deploy_text (p : DeployPayload) : bytes := match enc p with inr d => d | inl _ => [] end.
Definition bad_message : Message := mkMessage "id-8" MsgDeploy "ctl" "cli" 5 (Some (deploy_text bad_deploy)) "".

Lemma deploy_parsed p m : p = mkDeploy None (dp_BundleType p) (dp_Data p) (dp_Checksum p) (dp_Name p) ->
  m_Payload m = Some (deploy_text p) -> ParsePayload zero dec m = Ok p.
Proof.
  intros Hp Hm. unfold ParsePayload. rewrite Hm. unfold deploy_text. cbn [enc dec deploy_codec tuple_codec].
  rewrite undigits_digits. cbn [mbind option_bind]. rewrite decode_encode. rewrite Hp at 2. rewrite Hp. reflexivity.
Qed.

Lemma deploy_name_escapes_witness :
  exists ts, deployed (snd (HandleMessage error_text (input_at 20) 20 (Some 1%positive) bad_message worker0)) = TouchDir "/etc" :: ts.
Proof.
  destruct (deploy_name_escapes error_text (input_at 20) 20 (Some 1%positive) bad_message bad_deploy [] node0 [1; 2; 3] worker0)
    as [_ [ts Hts]].
  - reflexivity.
  - reflexivity.
  - apply deploy_parsed; reflexivity.
  - reflexivity.
  - reflexivity.
  - apply bool_decide_eq_true. reflexivity.
  - apply mem_sigil_opens. reflexivity.
  - reflexivity.
  - exists ts. exact Hts.
Defined.

(** ** Bundles *)
Definition sealed_profile : bytes := digits (encode ([123; 125], ([] : bytes), "pw"%string)).
Lemma digits_start : isJSON sealed_profile = Ok false.
Proof. vm_compute. reflexivity. Qed.


(** ** Remote operations *)
Definition ctl : Transport := TransportInstances.reading [].
Definition stop_request : Message :=
  mkMessage "id-1" MsgStopMiner "cli" "bob" 20 (Some (unescape (digits (encode (A := string) "xmrig"%string)))) "".
Definition stop_run : Result (option Message) * Worker :=
  outcome error_text (input_at 21) 21 (Some 1%positive) stop_request worker0.
Definition stop_reply : Message := match fst stop_run with Ok (Some m) => m | _ => ping0 end.
Definition stop_net : Network := mkNetwork (W := mem_ws) (inl syntax_error) (fun _ => Some stop_reply).

Definition stop_code : positive := encode (true, "xmrig"%string, "xmrig"%string, ""%string).
Lemma stop_answered : fst stop_run = Ok (Some stop_reply).
Proof. vm_compute. reflexivity. Qed.
Lemma stop_reply_text : m_Payload stop_reply = Some (digits stop_code).
Proof. vm_compute. reflexivity. Qed.

(** In this format a message is opened exactly as it was sealed. *)
Lemma digits_opened m a s : m_Payload m = Some (digits a) -> len s = 32 ->
  exists d, sealed s m d /\ decryptMessage no_signatures d s = Ok m.
Proof.
  intros Hp Hs. assert (Hport : portable m) by (apply (digits_portable m a); by rewrite (undigits_unescape _ _ (undigits_digits _))).
  destruct (encryptMessage_ok counter_rand m s Hport Hs counter_rand_12) as [d Hd]. exists d.
  split; [by split; [|exists counter_rand; split; [exact counter_rand_len|]]|].
  unfold encryptMessage, marshalMessageJSON, MarshalJSON in Hd. rewrite Hp in Hd. cbn [unmarshalAny digits_json] in Hd.
  rewrite undigits_digits in Hd. cbn [mbind Result_bind marshalWire digits_json] in Hd.
  rewrite (undigits_unescape _ _ (undigits_digits _)) in Hd. unfold decryptMessage.
  rewrite (decrypt_encrypt no_signatures counter_rand _ s d counter_rand_len Hd). cbn [mbind Result_bind].
  unfold decodeReceivedMessage, unwrapEnvelope, decodeEnvelope, decodeMessageJSON.
  set (w := mkWire _ _ _ _ _ _ _). pose proof (wire_probe w _ (digits_plain _) eq_refl) as Hprobe.
  pose proof (wire_roundtrip w _ I eq_refl) as Hround. cbn [marshalWire digits_json] in Hprobe, Hround.
  rewrite (undigits_unescape _ _ (undigits_digits _)) in Hprobe. rewrite Hprobe, decide_True by done. cbn [mbind Result_bind].
  rewrite Hround. subst w. cbn [w_Payload w_ID w_Type w_From w_To w_Timestamp w_ReplyTo mbind Result_bind MarshalJSON marshalAny digits_json].
  rewrite (undigits_unescape _ _ (undigits_digits _)). rewrite <- Hp. by destruct m.
Qed.

Lemma remote_refines_local_witness :
  exists t', remotely (input_at 20) stop_net "bob" (OStop "xmrig") ctl = (Ok VDone, t') /\
    minerManager (snd stop_run) = Some [].
Proof.
  destruct (remote_refines_local error_text no_signatures secret32 (input_at 20) (input_at 21) 21 1%positive (id_of kp2 "cli") ctl worker0
    (OStop "xmrig") "bob" stop_net stop_request stop_reply (snd stop_run)) as (t' & Hrun & Hw & _).
  - reflexivity.
  - exists 1%positive, (conn_with [] (Some secret32)). split_and!; [reflexivity..|apply counter_rand_12|].
    eexists. split; [reflexivity|]. intros data. eexists. reflexivity.
  - exact I.
  - reflexivity.
  - discriminate.
  - reflexivity.
  - destruct (digits_opened stop_request (encode "xmrig"%string) secret32) as (d & Hd & Ho); [|reflexivity|].
    { unfold stop_request. cbn [m_Payload]. by rewrite (undigits_unescape _ _ (undigits_digits _)). }
    destruct (digits_opened stop_reply stop_code secret32 stop_reply_text eq_refl) as (d' & Hd' & Ho').
    exists (conn_with [] (Some secret32)), d, stop_request, stop_reply, d'. split_and!; [reflexivity|reflexivity|exact Hd|exact Ho| |exact Hd'|exact Ho'].
    exact (pair_of_fst stop_run _ stop_answered).
  - exact I.
  - exists t'. split; [exact Hrun|vm_compute; reflexivity].
Defined.

(** ** The bus *)
Definition news : Event := mkEvent "news" (Some [1]) "cli" 20.
Definition bus_sub : bsys :=
  match register "news" (core (bus_init 1)) with
  | (Ok ch, b) => mkSys b [] {[ ch := "news"%string ]} ∅ [] None
  | _ => bus_init 1
  end.
Definition the_chan : positive := fst (default (1%positive, ""%string) (head (map_to_list (made_for bus_sub)))).
Definition bus_pub : bsys := mkSys (core bus_sub) [PDeliver news [] [the_chan]] (made_for bus_sub) ∅ [] None.
Definition bus_offered : bsys :=
  mkSys (snd (offer the_chan (cloneEvent news) (core bus_sub))) [PDeliver news [the_chan] []] (made_for bus_sub) ∅ [(0%nat, the_chan, news, true)] None.

Lemma bus_run : rtc bstep (bus_init 1) bus_offered.
Proof.
  eapply rtc_l; [eapply (b_subscribe "news"); [reflexivity|reflexivity|constructor|reflexivity]|].
  eapply rtc_l; [eapply (b_call news); reflexivity|].
  eapply rtc_l; [eapply (b_begin 0 news [the_chan]); [reflexivity|reflexivity|reflexivity|vm_compute; reflexivity]|].
  eapply rtc_l; [eapply (b_offer 0 news [] the_chan []); [reflexivity|reflexivity|reflexivity]|].
  reflexivity.
Qed.

Lemma bus_never_panics_witness : bus_crashed bus_offered = None /\ bus_closed (core bus_offered) = false.
Proof.
  destruct (bus_never_panics 1 bus_offered ltac:(done) bus_run) as (Hc & Hr & _).
  split; [exact Hc|]. exact (Hr 0%nat _ eq_refl eq_refl).
Defined.

Lemma bus_delivers_in_order_witness :
  exists c, channels (core bus_offered) !! the_chan = Some c /\
    default [] (got bus_offered !! the_chan) ++ ec_buf c = [news] /\ len (ec_buf c) <= 1.
Proof.
  eexists. split; [vm_compute; reflexivity|].
  destruct (bus_delivers_in_order 1 bus_offered the_chan (mkEventChan [news] 1 false) ltac:(done) bus_run)
    as (Hg & _ & Hl & _); [vm_compute; reflexivity|]. split; [exact Hg|exact Hl].
Defined.

(** A bus with one subscriber of "news". *)
Definition bus0 : BusController (W := mem_ws) (FS := memfs) :=
  mkBus (manager_of kp1 "srv") server (core bus_sub) false false false false None.
Definition by_entries (m : gmap Z positive) : list positive := (map_to_list m).*2.
Definition news_message : Message :=
  mkMessage "id-1" contentEventMessageType "cli" "" 20 (Some (unescape (digits (encode ("news"%string, Some [1]))))) "".

Lemma bus_sub_reached : rtc bstep (bus_init 1) bus_sub.
Proof. eapply rtc_once, (b_subscribe "news"); [reflexivity|reflexivity|constructor|reflexivity]. Qed.
Lemma bus_sub_ok : topics_ok (core bus_sub) (made_for bus_sub).
Proof. exact (bi_topics _ (binv_reachable 1 bus_sub ltac:(done) bus_sub_reached)). Qed.

Lemma published_event_arrives_witness :
  exists c', bus_handleMessage 30 by_entries news_message bus0 = (Ok tt, c') /\
    exists ec, channels (topics c') !! the_chan = Some ec /\ ec_buf ec = [news].
Proof.
  destruct (digits_opened news_message (encode ("news"%string, Some [1])) secret32) as (d & Hd & Ho); [|reflexivity|].
  { unfold news_message. cbn [m_Payload]. rewrite (undigits_unescape _ _ (undigits_digits _)). reflexivity. }
  destruct (published_event_arrives no_signatures secret32 d (input_at 20) (id_of kp2 "cli") "news" (Some [1]) 30 by_entries news_message news_message
    (made_for bus_sub) bus0) as (c' & Hrun & _ & Hch).
  - reflexivity.
  - discriminate.
  - exact I.
  - exact Hd.
  - exact Ho.
  - discriminate.
  - reflexivity.
  - exact bus_sub_ok.
  - intros m. reflexivity.
  - exists c'. split; [exact Hrun|]. specialize (Hch the_chan). rewrite decide_True in Hch by (apply (bool_decide_unpack _); vm_compute; exact I).
    eexists. split; [exact Hch|vm_compute; reflexivity].
Defined.

(** ** The API *)
Definition alice_again : Peer :=
  mkPeer "alice" "!" "" "h:1" "" 0 0 (float_of_int 0) (float_of_int 0) (float_of_int 0) 0 (float_of_int 0) (float_of_int 0) false.

Lemma announce_registers_witness :
  exists resp w', announcePeer error_text (at_time 40) true "alice" (inr alice_again) w_alice = (Ok resp, w') /\
    status resp = StatusOK /\ s_peers (abs w') !! "bob"%string = s_peers (abs w_alice) !! "bob"%string /\
    AddedAt <$> s_peers (abs w') !! "alice"%string = Some (AddedAt alice_peer).
Proof.
  destruct (announce_registers error_text (at_time 40) "alice" alice_again w_alice w_alice_keyed) as (resp & w' & Hrun & _ & Hres);
    [discriminate|right; reflexivity|].
  cbv zeta in Hres. change (Trim "alice") with "alice"%string in Hres. rewrite alice_registered in Hres.
  destruct Hres as [[l Hst] Habs]. exists resp, w'. split_and!; [exact Hrun|rewrite Hst; reflexivity|rewrite Habs; reflexivity|].
  rewrite Habs. cbn [with_peers s_peers]. rewrite lookup_insert_eq. reflexivity.
Defined.

Definition w_connected : World memfs := snd (SetConnected (at_time 30) "alice" true w_alice).
Lemma w_connected_keyed : keyed w_connected.
Proof. exact (keyed_op (OpConnected (at_time 30) "alice" true) w_alice w_alice_keyed). Qed.
Lemma announce_hides_connection_witness :
  exists resp w', announcePeer error_text (at_time 40) true "alice" (inr alice_again) w_connected = (Ok resp, w') /\
    status resp = StatusOK /\ "alice"%string ∉ (ID <$> GetConnectedPeers (at_time 40) w').
Proof.
  destruct (announce_hides_connection error_text (at_time 40) "alice" alice_again (set_LastSeen 30 (set_Connected true alice_peer)) w_connected
    w_connected_keyed) as (resp & w' & p & Hrun & Hst & _ & _ & _ & Hnot);
    [discriminate|right; reflexivity|vm_compute; reflexivity|reflexivity|reflexivity|].
  exists resp, w'. split_and!; [exact Hrun|exact Hst|exact Hnot].
Defined.

(** ** The logger *)
Definition upper_char (a : Ascii.ascii) : Ascii.ascii :=
  let n := Ascii.N_of_ascii a in if decide (97 <= n <= 122)%N then Ascii.ascii_of_N (n - 32) else a.
Fixpoint upper (s : string) : string :=
  match s with String.EmptyString => String.EmptyString | String.String a s => String.String (upper_char a) (upper s) end.
#[export] Instance text_log : LogLib string := {
  Writer := bool;
  Stderr := true;
  Upper := upper;
  show s := s;
  Sprintf fmt args := fmt;
  format_time _ := "now"
}.
Lemma level_upper l : Upper (Level_String l) = Level_String l.
Proof. unfold Level_String. repeat case_decide; reflexivity. Qed.
Lemma level_roundtrip_witness : ParseLevel (V := string) "warn" = Ok LevelWarn /\ ParseLevel (V := string) "WARN" = Ok LevelWarn.
Proof.
  destruct (level_roundtrip (V := string) level_upper 2 "warn" ltac:(lia) eq_refl) as (H1 & H2 & _). split; [exact H1|exact H2].
Defined.

(** ** The service *)
Definition xdg0 : Xdg := mkXdg (fun s => inr s) (fun s => inr s).
Definition no_options : ServiceOptions := mkServiceOptions "" "" "" (mkConfig "" "" "" "" 0 0 0 0 0).
Lemma service_starts : is_Ok (NewService (W := mem_ws) (at_time 1) xdg0 no_options no_files) = true.
Proof. vm_compute. reflexivity. Qed.
Lemma service_built : exists svc, NewService (W := mem_ws) (at_time 1) xdg0 no_options no_files = Ok svc.
Proof. pose proof service_starts as Hs. destruct (NewService _ _ _ _) as [svc| | |]; [by exists svc|done..]. Qed.
Lemma service_table_sound_witness :
  exists svc, NewService (W := mem_ws) (at_time 1) xdg0 no_options no_files = Ok svc /\ ListenAddr (svc_config svc) <> EmptyString.
Proof.
  destruct service_built as [svc Hsvc]. exists svc. split; [exact Hsvc|].
  destruct (service_table_sound no_signatures (at_time 1) xdg0 no_options no_files svc (svc_Transport svc) Hsvc) as (_ & (srv & l & _ & Ha & Hne) & _);
    [apply rtc_refl|by rewrite <- Ha].
Defined.

(** ** Statistics of all peers *)
Definition connected0 : list Peer := GetConnectedPeers (at_time 40) w_connected.
Definition stats_ask : Message := mkMessage "id-1" MsgGetStats "cli" "alice" 20 None "".
Definition stats_answer : Message := mkMessage "id-2" MsgStats "alice" "cli" 21 None "id-1".

Lemma connected_alice : exists p, connected0 = [p] /\ ID p = "alice"%string.
Proof. eexists. split; vm_compute; reflexivity. Qed.

(** A step of the call, and one of its environment. *)
Ltac own_step R tac := eapply run_own in R; [|tac].
Ltac ctl_step tac := apply gs_ctl; [tac|cbn; (discriminate || reflexivity)|cbn; lia].

(** Alice is asked, her answer comes, is received and stored. *)
Lemma gather_runs p : ID p = "alice"%string ->
  exists s, gather_run [p] [stats_ask] [] 12 s /\ g_returned s = true /\ reqs (g_ctl s) = [RDone (Ok stats_answer)].
Proof.
  intros Hp. pose proof (run_start [p] [stats_ask] []) as R.
  own_step R ltac:(by apply gs_go).
  own_step R ltac:(ctl_step ltac:(by eapply (r_register [stats_ask] 0 stats_ask))).
  own_step R ltac:(ctl_step ltac:(by eapply (r_sent _ 0))).
  eapply run_env in R; [|ctl_step ltac:(by eapply (h_arrive _ stats_answer))].
  eapply run_env in R; [|ctl_step ltac:(by eapply (h_take _ 0 stats_answer 0))].
  eapply run_env in R; [|ctl_step ltac:(by eapply (h_send _ 0 0 stats_answer))].
  own_step R ltac:(ctl_step ltac:(by eapply (r_receive _ 0 stats_answer))).
  own_step R ltac:(ctl_step ltac:(by eapply (r_delete [stats_ask] 0 stats_ask))).
  own_step R ltac:(ctl_step ltac:(by eapply (r_close _ 0))).
  own_step R ltac:(by eapply (gs_answer _ _ 0 p (Ok stats_answer) zero)).
  own_step R ltac:(by eapply (gs_lock _ _ 0)).
  own_step R ltac:(by eapply (gs_write _ _ 0)).
  own_step R ltac:(by eapply (gs_written _ _ 0)).
  own_step R ltac:(by eapply (gs_unlock _ _ 0)).
  own_step R ltac:(by apply gs_return; repeat constructor).
  eexists. split; [exact R|]. split; reflexivity.
Qed.

Lemma stats_gathered_witness : exists s, gather_run connected0 [stats_ask] [] 12 s /\ g_returned s = true /\
  g_results s !! "alice"%string = Some zero /\ g_results s !! "bob"%string = None.
Proof.
  destruct connected_alice as (p & Hc & Hp). destruct (gather_runs p Hp) as (s & Hrun & Hret & Hreqs).
  destruct (stats_gathered (at_time 40) w_connected (id_of kp2 "cli") [stats_ask] [] 12 s w_connected_keyed) as (_ & _ & _ & _ & Hres).
  - fold connected0. rewrite Hc. constructor; [|constructor]. exists (input_at 20). rewrite Hp. reflexivity.
  - apply (bool_decide_unpack _). vm_compute. exact I.
  - fold connected0. rewrite Hc. exact Hrun.
  - specialize (Hres Hret). fold connected0 in Hres. rewrite Hc in Hres. exists s. rewrite Hc. split; [exact Hrun|]. split; [exact Hret|]. split.
    + apply Hres. exists 0%nat, p, stats_ask, stats_answer. split_and!; [reflexivity|exact Hp|reflexivity|by rewrite Hreqs|reflexivity|reflexivity].
    + destruct (g_results s !! "bob"%string) as [st|] eqn:Hb; [|reflexivity]. exfalso. apply Hres in Hb as (k & q & msg & m & Hk & Hq & _).
      apply list_lookup_singleton_Some in Hk as [_ Heq]. subst q. rewrite Hp in Hq. discriminate Hq.
Defined.
